(* ===== verification/_CoqProject ===== *)
-Q . S2P
Prelude.v
Str.v
Codec.v
Keys.v
Totp.v
Demo.v
Text.v
Time.v
Http.v
Net.v
Rate.v
Cli.v
Config.v
Urls.v
Db.v
Outbox.v
Auth.v
Credentials.v
Accounts.v
Hosts.v
Projects.v
Jobs.v
Checks.v
Routes.v
Pipeline.v
System.v
Server.v
Samples.v
Web.v
WebSamples.v
Files.v
Migrate.v
Backup.v
Process.v
Messages.v
FileSamples.v
ProcessSamples.v
Maintenance.v
Permits.v
Pool.v
Writer.v
Connections.v
Lifecycle.v
Schema.v
Concurrent.v
Queue.v
Worker.v
Delivery.v
Scheduler.v
Watcher.v
Smtp.v
