(* ===== verification/Prelude.v ===== *)
(** * Kohaku: a verification development

    Kohaku is a self-hosted feedback server written in Rust: one process with an admin area
    on a main host, project sites on hosts of their own, accounts with TOTP, an outbox for
    mail, SQLite for storage, and a command line for backup, restore and account rescue.
    This library translates the program's own logic (under [src/src]) into executable
    definitions and proves what makes it correct.

    ** The parts, and the files that model them

    - Shared ground: [Prelude] (results, sorting, generic lemmas, tactics), [Str] (Rust's
      strings and UTF-8), [Codec] (base32; auth/mod.rs), [Keys] (keys.rs), [Text] (text.rs,
      mail/mod.rs), [Time] (time.rs), [Http] (answers as values).
    - Requests before they reach a handler: [Net] (limits/client_ip.rs, network blocks of
      config.rs), [Rate] (limits/rate.rs, mail_budget.rs, mail_address.rs), [Permits]
      (limits/permits.rs), [Connections] (http/server.rs), [Checks] (http/fetch.rs, headers.rs, body.rs, errors.rs,
      logging.rs, routing/internal.rs), [Routes] (routing/table.rs, assets.rs, dev.rs and
      the router construction of routing/build.rs), [Pipeline] (the layers and the
      dispatcher of routing/build.rs and http/*, auth/session.rs's layers).
    - Data and transactions: [Db] (db/mod.rs over tables as lists of records, audit.rs),
      [Pool] and [Writer] (the readers and the writer of db/mod.rs), [Schema] (the constraints
      and triggers of migrations/*.sql),
      [Outbox] (mail/outbox.rs), [Auth] (auth/session.rs, password.rs, recovery.rs, reset.rs,
      mail.rs), [Totp] (auth/totp.rs, recovery.rs), [Credentials] (auth/credentials.rs),
      [Accounts] (admin/login.rs, account.rs, reset.rs, mod.rs, auth/commands.rs), [Hosts]
      (routing/hosts.rs), [Urls] (routing/urls.rs), [Projects] (projects/*.rs,
      admin/projects.rs), [Jobs] (jobs.rs).
    - The whole server: [System] (every request, command and job over one database),
      [Server] (the handlers behind the pipeline, one HTTP request at a time), [Concurrent] (the
      transactions of [System] interleaved on the shared writer of [Writer]).
    - Background tasks: [Queue] (what every transaction of the server may do to the outbox
      table; an interface of relations that statements on other tables keep), [Worker] and
      [Delivery] (the loop of mail/outbox.rs, beside everything else and left alone),
      [Scheduler] (the loop of jobs.rs), [Watcher] (the watcher of routing/hosts.rs), [Smtp]
      (mail/smtp.rs, mail/mod.rs and the attempt of mail/outbox.rs).
    - Files: [Files] (db/paths.rs, lock.rs, stale files of jobs.rs), [Migrate]
      (db/migrate.rs, current.rs), [Backup] (db/backup.rs), [Maintenance] (a whole retention run of
      jobs.rs on the disk, with its checkpoint).
    - The process: [Cli] (the grammar of cli.rs), [Config] (config.rs), [Process] (execute
      and main of cli.rs, the start of serve.rs, healthcheck.rs), [Lifecycle] (the rest of
      serve.rs: server, tasks, transactions, joins and the instance lock), [Messages] (the
      usage text and the [Display] of every error).
    - Concrete inputs: [Demo], [Web] and [FileSamples] instantiate the third-party classes;
      [Samples], [WebSamples], [FileSamples] and [ProcessSamples] run the program on them.

    ** State and effects

    A function that may fail returns [result]. A database transaction is [Db.Tx]: it threads
    a [World] (the tables, a tape of random octets, which further statements fail, what
    other requests commit in between) and [Db.write] commits it whole or not at all. An
    operation on files is [Files.Io]: it threads a [Disk] (files, directories, the instance
    lock, a tape of faults that can fail every system call and cut every write short). A
    layer or handler is a [Pipeline.Service] on the state of the process. What runs
    concurrently is a machine on interleaved events: a step function ([Permits], [Pool],
    [Writer], [Connections], [Lifecycle], [Scheduler], [Watcher]) or a step relation that admits every transaction of [System]
    ([Worker]). Rust's panics are [None].

    Integers are [Z] with their width written out where it is reached: u16, u32 and u64
    parsing, the 16-bit register of base32, saturating and checked arithmetic of the rate
    limiter and the schedule.

    ** What is not under src/

    Third-party code is a parameter with its documented behaviour as laws: the class
    [Keys.Crates] (hmac, sha2, argon2, base64, lettre's address parser, http's header
    values) with [CrateLaws]; [Pipeline.Axum] (pattern matching, method dispatch, forms,
    paths, body limits) with [AxumLaws]; [Migrate.Sqlite] (an image of a database: loading,
    journaling, vacuuming, user_version, the keycheck row, running a batch) with
    [SqliteLaws]; [Process.Tables] relates such an image to the tables of [Db];
    [Smtp.Lettre] (what lettre accepts); [Messages.Texts] (what std and SQLite's result codes
    print); [Maintenance.Checkpoints] (what a checkpoint does to the main file).
    Each class has a concrete instance, used by the witnesses. What hyper and tokio do appears as events: tokio's semaphores are fair,
    [Notify] keeps one permit, and SQLite's [data_version] counts the commits of other
    connections.

    ** What the theorems show

    - Signing in: [login_needs_every_factor], [login_signs_in], [guess_rate_bound],
      [codes_work_once], [password_change_signs_everyone_out], [reset_link_sets_password],
      [reset_link_works_once]; [accounts_stay_wf] is the invariant of the account tables
      under every request, command and job.
    - The request path: [table_guards_the_admin_area] (the declarations),
      [handlers_run_behind_their_guards] (the layers enforce them), and over the whole
      server [admin_paths_need_a_session], [projects_change_only_by_the_admin],
      [safe_methods_change_nothing], [cross_site_writes_do_nothing],
      [every_response_is_hardened], [http_requests_are_transactions].
    - Limits: [window_rate_bound], [bucket_is_token_bucket] (refinement of the continuous
      token bucket), [resolve_client], [concurrency_is_bounded] and
      [hashing_requests_are_served] (progress of a waiting password check).
    - The database: [writes_are_serial] (the permit, the mutex and the transaction of a write make
      whole transactions one after the other, which is why [Db.write] is one step),
      [every_write_gets_its_turn], [readers_suffice]; [database_stays_sound] (the invariants of
      the tables at every moment of every interleaving); [rows_stay_within_checks] and
      [audit_log_only_grows] (the schema's [CHECK]s and the audit log under every transaction).
    - Stopping: [shutdown_is_graceful], [shutdown_ends], and for the process
      [a_signal_stops_the_process] and [lock_outlives_every_task];
      [a_transaction_may_outlive_the_lock] is what the latter does not cover.
    - Sites: [administration_keeps_sites_apart], [load_routes_exactly],
      [tls_ask_grants_project_domains], [host_map_catches_up].
    - Mail and jobs: [no_lost_wakeup] and [sent_mail_is_not_sent_again] (the worker beside
      every transaction of the server), [queued_mail_is_kept], [queue_is_served],
      [outbox_stays_sound], [attempts_are_bounded], [attempt_sends_the_row],
      [mail_needs_verified_tls], [retention_removes_the_dead], [jobs_run_once_a_period].
    - Files: [startup_migrates_in_whole_steps], [startup_refuses_foreign_databases],
      [upgrades_leave_a_copy], [backup_publishes_the_database],
      [restore_replaces_or_keeps], [retention_on_disk]; [failed_restore_drops_the_journal] is the failure that
      the code's own comment rules out.
    - The process: [every_invocation_ends], [commands_run_their_transaction],
      [server_listens_after_its_checks], [load_reports_every_problem],
      [broken_settings_are_named], [parse_grammar], [usage_lists_the_grammar].
    - Encodings: [base32_is_rfc4648].

    Further theorems of the same kind (settings and URL round trips, recovery codes, device
    cookies, pruning, stale files, listing, streaming backups, the health probe, the counted
    rejections) are stated beside their definitions.

    ** Fuel and bounds

    - [Codec.emit] runs three rounds, as many as a 16-bit register can hold 5-bit groups.
    - [chunks] and [show_digits] have fuel from the length or the size of their input
      ([chunks_fuel], [show_fuel] with [show_fuel_bound]).
    - [Auth.replace_loop] and [Files.create_tmp] draw from the tape in every round, so the
      octets left bound the rounds; [create_tmp_total] shows that the bound never decides.
    - [Jobs.advance_past] counts the periods missed and needs as many rounds.
    - [Delivery.worker_loop] needs one round more than there are rows ([queue_is_served]).

    ** Choices

    A deadline ([TimeoutLayer]) is an input: the work behind it is done, or not done, or the
    deadline does not pass. A commit to the live database writes the WAL; a checkpoint is a
    step of retention only: SQLite's own, between commits, change nothing that is seen. Paths of files are a directory and a
    name. Standard output is a pipe that takes so many bytes. Times are inputs; in
    [Connections] time goes in milliseconds and a timer fires when it is due, in [Worker]
    the clock only moves forward.

    ** Not modelled

    What has no logic of the program's own: HTML templates and the structs that only carry
    their values; the format of log lines and the spans around them (tracing); hyper's reading
    and writing of HTTP; the SMTP dialogue and MIME (lettre), with them the printout of a
    development build, which is lettre's text; the values of the connection PRAGMAs, of which
    only that setting one may fail is seen here, and SQL itself, whose statements are functions
    on tables; the clocks, which are inputs; conversions between error types, which are the
    constructors of the model's; the code that only tests use. *)

From stdpp Require Export base tactics decidable list list_numbers numbers strings gmap sorting.
From Stdlib Require Export ZArith Lia Bool.

#[global] Open Scope Z_scope.
#[global] Set Default Goal Selector "!".

(** ** Results

    Rust's [Result<A, E>] with the error type first, so that [result E] is the
    monad that the code's [?] operator runs in. *)

Inductive result (E A : Type) : Type :=
| Ok (a : A)
| Err (e : E).
Arguments Ok {E A} a.
Arguments Err {E A} e.

Section Result.
Context {E : Type}.

#[global] Instance result_ret : MRet (result E) := fun A a => Ok a.

#[global] Instance result_bind : MBind (result E) := fun A B f r =>
  match r with Ok a => f a | Err e => Err e end.

#[global] Instance result_fmap : FMap (result E) := fun A B f r =>
  match r with Ok a => Ok (f a) | Err e => Err e end.

(** [Option::ok_or]. *)
Definition ok_or {A} (e : E) (o : option A) : result E A :=
  match o with Some a => Ok a | None => Err e end.

(** [Result::map_err]. *)
Definition map_err {F A} (f : E -> F) (r : result E A) : result F A :=
  match r with Ok a => Ok a | Err e => Err (f e) end.

(** [Result::ok]. *)
Definition ok {A} (r : result E A) : option A :=
  match r with Ok a => Some a | Err _ => None end.

Definition is_ok {A} (r : result E A) : bool :=
  match r with Ok _ => true | Err _ => false end.
End Result.

Lemma bind_Ok_inv {E A B} (m : result E A) (f : A -> result E B) b :
  (m ≫= f) = Ok b -> exists a, m = Ok a /\ f a = Ok b.
Proof. destruct m; cbn; [eauto | discriminate]. Qed.

Lemma ok_or_Ok {E A} (e : E) (o : option A) a : ok_or e o = Ok a <-> o = Some a.
Proof. destruct o; cbn; split; congruence. Qed.

(** [Option::filter]. *)
Definition opt_filter {A} (p : A -> bool) (o : option A) : option A :=
  match o with Some a => if p a then Some a else None | None => None end.

Lemma opt_filter_Some {A} (p : A -> bool) o a :
  opt_filter p o = Some a <-> o = Some a /\ p a = true.
Proof.
  destruct o as [b|]; cbn; [destruct (p b) eqn:Hb|]; split; intros; intuition congruence.
Qed.

(** [Option::is_some_and]. *)
Definition is_some_and {A} (p : A -> bool) (o : option A) : bool :=
  match o with Some a => p a | None => false end.

(** [bool::then_some]. *)
Definition then_some {A} (b : bool) (a : A) : option A := if b then Some a else None.

Lemma then_some_Some {A} b (a x : A) : then_some b a = Some x <-> b = true /\ a = x.
Proof. destruct b; cbn; intuition congruence. Qed.

(** ** Automation *)

Create HintDb kohaku.

(** Turns boolean comparisons of hypotheses and goal into propositions. *)
Ltac propify :=
  repeat
    match goal with
    | H : context [_ && _ = true] |- _ => rewrite andb_true_iff in H
    | H : context [_ && _ = false] |- _ => rewrite andb_false_iff in H
    | H : context [_ || _ = true] |- _ => rewrite orb_true_iff in H
    | H : context [_ || _ = false] |- _ => rewrite orb_false_iff in H
    | H : context [negb _ = true] |- _ => rewrite negb_true_iff in H
    | H : context [negb _ = false] |- _ => rewrite negb_false_iff in H
    | H : context [(_ <=? _) = true] |- _ => rewrite Z.leb_le in H
    | H : context [(_ <=? _) = false] |- _ => rewrite Z.leb_gt in H
    | H : context [(_ <? _) = true] |- _ => rewrite Z.ltb_lt in H
    | H : context [(_ <? _) = false] |- _ => rewrite Z.ltb_ge in H
    | H : context [(_ =? _) = true] |- _ => rewrite Z.eqb_eq in H
    | H : context [(_ =? _) = false] |- _ => rewrite Z.eqb_neq in H
    | H : context [(_ <=? _)%nat = true] |- _ => rewrite Nat.leb_le in H
    | H : context [(_ <=? _)%nat = false] |- _ => rewrite Nat.leb_gt in H
    | H : context [(_ <? _)%nat = true] |- _ => rewrite Nat.ltb_lt in H
    | H : context [(_ <? _)%nat = false] |- _ => rewrite Nat.ltb_ge in H
    | H : context [(_ =? _)%nat = true] |- _ => rewrite Nat.eqb_eq in H
    | H : context [(_ =? _)%nat = false] |- _ => rewrite Nat.eqb_neq in H
    | |- context [_ && _ = true] => rewrite andb_true_iff
    | |- context [_ || _ = true] => rewrite orb_true_iff
    | |- context [_ && _ = false] => rewrite andb_false_iff
    | |- context [_ || _ = false] => rewrite orb_false_iff
    | |- context [negb _ = true] => rewrite negb_true_iff
    | |- context [negb _ = false] => rewrite negb_false_iff
    | |- context [(_ <=? _) = true] => rewrite Z.leb_le
    | |- context [(_ <=? _) = false] => rewrite Z.leb_gt
    | |- context [(_ <? _) = true] => rewrite Z.ltb_lt
    | |- context [(_ <? _) = false] => rewrite Z.ltb_ge
    | |- context [(_ =? _) = true] => rewrite Z.eqb_eq
    | |- context [(_ =? _) = false] => rewrite Z.eqb_neq
    | |- context [(_ <=? _)%nat = true] => rewrite Nat.leb_le
    | |- context [(_ <? _)%nat = true] => rewrite Nat.ltb_lt
    | |- context [(_ =? _)%nat = true] => rewrite Nat.eqb_eq
    end.

(** Cases on the boolean or option scrutinised in the goal. *)
Ltac case_if :=
  match goal with
  | |- context [if ?b then _ else _] => destruct b eqn:?
  | H : context [if ?b then _ else _] |- _ => destruct b eqn:?
  end.

(** Splits every boolean conjunction or disjunction and closes what is linear. *)
Ltac bool_lia := propify; intuition lia.

(** ** Lists *)

(** [a == b] on slices. *)
Definition zlist_eqb (a b : list Z) : bool := bool_decide (a = b).

Lemma zlist_eqb_eq a b : zlist_eqb a b = true <-> a = b.
Proof. apply bool_decide_eq_true. Qed.

Lemma zlist_eqb_refl a : zlist_eqb a a = true.
Proof. by apply zlist_eqb_eq. Qed.
#[export] Hint Resolve zlist_eqb_refl : kohaku.

Lemma forallb_Forall {A} (p : A -> bool) l : forallb p l = true <-> Forall (fun x => p x = true) l.
Proof.
  induction l as [|x l IH]; cbn; [done|]. by rewrite andb_true_iff, Forall_cons, IH.
Qed.

Lemma forallb_impl {A} (p q : A -> bool) l :
  (forall x, p x = true -> q x = true) -> forallb p l = true -> forallb q l = true.
Proof. intros Hpq. rewrite !forallb_Forall. intros H. by eapply Forall_impl. Qed.

Lemma forallb_app_iff {A} (p : A -> bool) l k :
  forallb p (l ++ k) = true <-> forallb p l = true /\ forallb p k = true.
Proof. rewrite forallb_app. apply andb_true_iff. Qed.

Lemma existsb_In {A} (p : A -> bool) l : existsb p l = true <-> exists x, x ∈ l /\ p x = true.
Proof.
  rewrite existsb_exists. split; intros (x & Hx & Hp); exists x; split; try done;
    by apply list_elem_of_In.
Qed.

(** The first element satisfying a predicate, [Iterator::find]. *)
Fixpoint find_first {A} (p : A -> bool) (l : list A) : option A :=
  match l with
  | [] => None
  | x :: l => if p x then Some x else find_first p l
  end.

Lemma find_first_Some {A} (p : A -> bool) l x :
  find_first p l = Some x -> x ∈ l /\ p x = true.
Proof.
  induction l as [|y l IH]; cbn; [discriminate|].
  destruct (p y) eqn:Hy; [intros [= ->]; set_solver|]. intros Hf. destruct (IH Hf). set_solver.
Qed.

Lemma find_first_None {A} (p : A -> bool) l :
  find_first p l = None <-> Forall (fun x => p x = false) l.
Proof.
  induction l as [|y l IH]; cbn; [done|]. rewrite Forall_cons.
  destruct (p y); [split; [done|intros [? _]; done]|]. rewrite IH. intuition.
Qed.

Lemma find_first_app {A} (p : A -> bool) l k :
  find_first p (l ++ k) =
  match find_first p l with Some x => Some x | None => find_first p k end.
Proof. induction l as [|y l IH]; cbn; [done|]. by destruct (p y). Qed.

Lemma length_Z_app {A} (l k : list A) :
  Z.of_nat (length (l ++ k)) = Z.of_nat (length l) + Z.of_nat (length k).
Proof. rewrite length_app. lia. Qed.

(** Non-decreasing times, from [t] on. *)
Fixpoint times_from (t : Z) (nows : list Z) : Prop :=
  match nows with
  | [] => True
  | now :: nows => t <= now /\ times_from now nows
  end.

Lemma NoDup_map_inj {A B} (f : A -> B) (l : list A) x y :
  NoDup (map f l) -> x ∈ l -> y ∈ l -> f x = f y -> x = y.
Proof.
  induction l as [|z l IH]; cbn; [set_solver|]. intros Hd Hx Hy He.
  apply NoDup_cons in Hd as [Hz Hd]. rewrite list_elem_of_fmap in Hz.
  apply elem_of_cons in Hx as [->|Hx], Hy as [->|Hy]; try done.
  - destruct Hz. eauto.
  - destruct Hz. eauto.
  - by apply IH.
Qed.

Lemma NoDup_map_filter {A B} (f : A -> B) (p : A -> bool) l :
  NoDup (map f l) -> NoDup (map f (List.filter p l)).
Proof.
  induction l as [|x l IH]; cbn; [done|]. intros [Hx Hd]%NoDup_cons. destruct (p x); [|by apply IH].
  cbn. apply NoDup_cons. split; [|by apply IH]. intros Hin. apply Hx.
  apply list_elem_of_fmap in Hin as (y & -> & Hy). apply list_elem_of_fmap. exists y.
  split; [done|]. rewrite list_elem_of_In, filter_In, <- list_elem_of_In in Hy. apply Hy.
Qed.

(** ** Ordering *)

(** Lexicographic order: of byte strings, and of sort keys. *)
Fixpoint lex_le (a b : list Z) : bool :=
  match a, b with
  | x :: a, y :: b => (x <? y) || ((x =? y) && lex_le a b)
  | [], _ => true
  | _ :: _, [] => false
  end.

Lemma lex_le_refl a : lex_le a a = true.
Proof. induction a as [|x a IH]; [done|]. cbn. by rewrite Z.ltb_irrefl, Z.eqb_refl, IH. Qed.

Lemma lex_le_total a b : lex_le a b = false -> lex_le b a = true.
Proof.
  revert b. induction a as [|x a IH]; intros [|y b]; cbn; try done.
  intros Hf. propify. destruct Hf as [Hlt Hf]. destruct Hf as [Hne|Hle]; [left; lia|].
  destruct (Z.eq_dec x y) as [->|]; [right|left; lia]. split; [lia|]. by apply IH.
Qed.

Lemma lex_le_trans a b c : lex_le a b = true -> lex_le b c = true -> lex_le a c = true.
Proof.
  revert b c. induction a as [|x a IH]; intros [|y b] [|z c]; cbn; try done.
  intros H1 H2. propify. destruct H1 as [H1|[-> H1]], H2 as [H2|[-> H2]]; try (left; lia).
  right. split; [done|]. by eapply IH.
Qed.

(** Insertion sort by a boolean order: what [sort] and [ORDER BY] give. *)
Fixpoint insert_by {A} (le : A -> A -> bool) (x : A) (l : list A) : list A :=
  match l with
  | [] => [x]
  | y :: l' => if le x y then x :: l else y :: insert_by le x l'
  end.

Definition sort_by {A} (le : A -> A -> bool) (l : list A) : list A := fold_right (insert_by le) [] l.

Section Sorting.
Context {A : Type} (le : A -> A -> bool).

Definition sorted : list A -> Prop := StronglySorted (fun a b => le a b = true).

Lemma insert_by_perm x l : insert_by le x l ≡ₚ x :: l.
Proof.
  induction l as [|y l IH]; cbn [insert_by]; [done|]. case_if; [done|]. rewrite IH. constructor.
Qed.

Lemma sort_by_perm l : sort_by le l ≡ₚ l.
Proof.
  induction l as [|x l IH]; [done|]. change (sort_by le (x :: l)) with (insert_by le x (sort_by le l)).
  rewrite insert_by_perm. by constructor.
Qed.

Context (le_total : forall a b, le a b = false -> le b a = true)
  (le_trans : forall a b c, le a b = true -> le b c = true -> le a c = true).

Lemma sort_by_sorted l : sorted (sort_by le l).
Proof.
  induction l as [|x l IH]; [constructor|]. change (sort_by le (x :: l)) with (insert_by le x (sort_by le l)).
  revert IH. generalize (sort_by le l). clear l.
  induction l as [|y l IH]; intros Hs; cbn [insert_by]; [repeat constructor|].
  apply StronglySorted_inv in Hs as [Hs Hy]. destruct (le x y) eqn:E.
  - constructor; [by constructor|]. constructor; [done|]. eapply Forall_impl; [exact Hy|].
    intros z Hz. by eapply le_trans.
  - constructor; [by apply IH|]. rewrite insert_by_perm. constructor; [|done]. by apply le_total.
Qed.
End Sorting.

Lemma sorted_take_drop {A} (le : A -> A -> bool) n l a b :
  sorted le l -> a ∈ firstn n l -> b ∈ skipn n l -> le a b = true.
Proof.
  revert n. induction l as [|x l IH]; intros [|n] Hs Ha Hb; cbn in *; try by set_solver.
  apply StronglySorted_inv in Hs as [Hs Hx]. apply elem_of_cons in Ha as [->|Ha].
  - rewrite Forall_forall in Hx. apply Hx. rewrite <- (take_drop n l). set_solver.
  - by eapply IH.
Qed.
