(* ===== verification/Str.v ===== *)
(** * Rust text

    The part of Rust's standard library on text that the modelled code uses.
    A [char] is a Unicode scalar value, a [str] (or [String]) the list of its
    chars, a byte string the list of its bytes, all as [Z]; [utf8] is the
    encoding that [str::len], [str::bytes] and [str::as_bytes] see, and
    [from_utf8] is [std::str::from_utf8]. *)

From S2P Require Import Prelude.

Abbreviation char := Z (only parsing).
Abbreviation str := (list Z) (only parsing).
Abbreviation bytes := (list Z) (only parsing).

(** ASCII literals of the source. *)
Definition lit (s : string) : str :=
  map (fun a => Z.of_N (Ascii.N_of_ascii a)) (String.list_ascii_of_string s).

(** ** Character classes *)

Definition is_scalar (c : char) : bool :=
  (0 <=? c) && (c <? 0xD800) || (0xE000 <=? c) && (c <=? 0x10FFFF).

Definition is_byte (b : Z) : bool := (0 <=? b) && (b <? 256).

Definition is_ascii_lowercase (c : Z) : bool := (97 <=? c) && (c <=? 122).
Definition is_ascii_uppercase (c : Z) : bool := (65 <=? c) && (c <=? 90).
Definition is_ascii_digit (c : Z) : bool := (48 <=? c) && (c <=? 57).
Definition is_ascii_alphanumeric (c : Z) : bool :=
  is_ascii_lowercase c || is_ascii_uppercase c || is_ascii_digit c.

(** [u8::is_ascii_graphic]: [!] to [~]. *)
Definition is_ascii_graphic (c : Z) : bool := (33 <=? c) && (c <=? 126).

(** [char::is_ascii_whitespace]: tab, line feed, form feed, carriage return, space. *)
Definition is_ascii_whitespace (c : Z) : bool :=
  (c =? 32) || (c =? 9) || (c =? 10) || (c =? 12) || (c =? 13).

(** [char::is_control]: the general category Cc. *)
Definition is_control (c : Z) : bool :=
  (0 <=? c) && (c <=? 0x1F) || (0x7F <=? c) && (c <=? 0x9F).

(** [char::is_whitespace]: the property White_Space. *)
Definition is_whitespace (c : Z) : bool :=
  (9 <=? c) && (c <=? 13) || (c =? 32) || (c =? 0x85) || (c =? 0xA0) || (c =? 0x1680)
  || (0x2000 <=? c) && (c <=? 0x200A) || (c =? 0x2028) || (c =? 0x2029)
  || (c =? 0x202F) || (c =? 0x205F) || (c =? 0x3000).

Definition to_ascii_lowercase_char (c : Z) : Z :=
  if is_ascii_uppercase c then c + 32 else c.
Definition to_ascii_uppercase_char (c : Z) : Z :=
  if is_ascii_lowercase c then c - 32 else c.

Definition to_ascii_lowercase (s : str) : str := map to_ascii_lowercase_char s.

(** ** UTF-8 *)

Definition utf8_char (c : char) : bytes :=
  if c <? 0x80 then [c]
  else if c <? 0x800 then [0xC0 + c / 64; 0x80 + c mod 64]
  else if c <? 0x10000 then [0xE0 + c / 4096; 0x80 + c / 64 mod 64; 0x80 + c mod 64]
  else [0xF0 + c / 262144; 0x80 + c / 4096 mod 64; 0x80 + c / 64 mod 64; 0x80 + c mod 64].

Definition utf8 (s : str) : bytes := concat (map utf8_char s).

(** [str::len]: bytes, not characters. *)
Definition str_len (s : str) : Z := Z.of_nat (length (utf8 s)).

(** [s.chars().count()]. *)
Definition char_count (s : str) : Z := Z.of_nat (length s).

Definition is_cont (b : Z) : bool := (0x80 <=? b) && (b <? 0xC0).

(** [std::str::from_utf8]: shortest forms of scalar values only. *)
Fixpoint from_utf8 (bs : bytes) : option str :=
  match bs with
  | [] => Some []
  | b0 :: t0 =>
      if (0 <=? b0) && (b0 <? 0x80) then s ← from_utf8 t0; Some (b0 :: s)
      else match t0 with
      | [] => None
      | b1 :: t1 =>
          if negb (is_cont b1) then None
          else if (0xC2 <=? b0) && (b0 <? 0xE0) then
            s ← from_utf8 t1; Some ((b0 - 0xC0) * 64 + (b1 - 0x80) :: s)
          else match t1 with
          | [] => None
          | b2 :: t2 =>
              if negb (is_cont b2) then None
              else if (0xE0 <=? b0) && (b0 <? 0xF0) then
                let c := (b0 - 0xE0) * 4096 + (b1 - 0x80) * 64 + (b2 - 0x80) in
                if (0x800 <=? c) && is_scalar c then s ← from_utf8 t2; Some (c :: s) else None
              else match t2 with
              | [] => None
              | b3 :: t3 =>
                  if negb (is_cont b3) then None
                  else if (0xF0 <=? b0) && (b0 <? 0xF5) then
                    let c := (b0 - 0xF0) * 262144 + (b1 - 0x80) * 4096
                             + (b2 - 0x80) * 64 + (b3 - 0x80) in
                    if (0x10000 <=? c) && is_scalar c then s ← from_utf8 t3; Some (c :: s)
                    else None
                  else None
              end
          end
      end
  end.

(** ** Searching and splitting *)

(** [str::split] on one char: the pieces between separators, at least one. *)
Fixpoint split (sep : char) (s : str) : list str :=
  match s with
  | [] => [[]]
  | c :: s =>
      if c =? sep then [] :: split sep s
      else match split sep s with
           | [] => [[c]]
           | p :: ps => (c :: p) :: ps
           end
  end.

(** [str::split_once] on one char: at its first occurrence. *)
Fixpoint split_once (sep : char) (s : str) : option (str * str) :=
  match s with
  | [] => None
  | c :: s =>
      if c =? sep then Some ([], s)
      else '(a, b) ← split_once sep s; Some (c :: a, b)
  end.

(** [str::rsplit_once] on one char: at its last occurrence. *)
Fixpoint rsplit_once (sep : char) (s : str) : option (str * str) :=
  match s with
  | [] => None
  | c :: s =>
      match rsplit_once sep s with
      | Some (a, b) => Some (c :: a, b)
      | None => if c =? sep then Some ([], s) else None
      end
  end.

Fixpoint strip_prefix (p s : str) : option str :=
  match p, s with
  | [], s => Some s
  | a :: p, b :: s => if a =? b then strip_prefix p s else None
  | _ :: _, [] => None
  end.

Definition starts_with (p s : str) : bool := bool_decide (is_Some (strip_prefix p s)).

(** [str::strip_suffix]. *)
Definition strip_suffix (p s : str) : option str :=
  reverse <$> strip_prefix (reverse p) (reverse s).

Definition ends_with_char (c : char) (s : str) : bool :=
  match last s with Some d => d =? c | None => false end.

Definition starts_with_char (c : char) (s : str) : bool :=
  match s with d :: _ => d =? c | [] => false end.

Definition contains_char (c : char) (s : str) : bool := existsb (Z.eqb c) s.

(** [str::trim_start_matches] with a predicate. *)
Fixpoint trim_start_matches (p : char -> bool) (s : str) : str :=
  match s with
  | [] => []
  | c :: t => if p c then trim_start_matches p t else s
  end.

(** [str::trim_matches] with a predicate; [str::trim] with [is_whitespace]. *)
Definition trim_matches (p : char -> bool) (s : str) : str :=
  reverse (trim_start_matches p (reverse (trim_start_matches p s))).

Definition trim : str -> str := trim_matches is_whitespace.

(** ** Numbers as text *)

(** The value of a run of ASCII digits. *)
Definition digits_value (s : str) : Z := fold_left (fun n c => 10 * n + (c - 48)) s 0.

(** [format!("{n}")] for an unsigned number, by fuel. *)
Fixpoint show_digits (fuel : nat) (n : Z) (acc : str) : str :=
  match fuel with
  | O => acc
  | S fuel =>
      let acc := (48 + n mod 10) :: acc in
      if n <? 10 then acc else show_digits fuel (n / 10) acc
  end.

(** Enough fuel: one step per bit. *)
Definition show_fuel (n : Z) : nat := S (Z.to_nat (Z.log2 n)).

Definition show_unsigned (n : Z) : str := show_digits (show_fuel n) n [].

(** [format!("{n}")] for a signed number. *)
Definition show_signed (n : Z) : str :=
  if n <? 0 then lit "-" ++ show_unsigned (- n) else show_unsigned n.

(** [format!("{n:0w$}")]: zero-padded after the sign to width [w]. *)
Definition pad_zero (w : nat) (n : Z) : str :=
  if n <? 0 then
    let d := show_unsigned (- n) in
    lit "-" ++ replicate (w - 1 - length d) 48 ++ d
  else
    let d := show_unsigned n in
    replicate (w - length d) 48 ++ d.

(** ** Lemmas: UTF-8 *)

Ltac z_div :=
  repeat match goal with
  | |- context [?a / ?b] => lazymatch b with Zpos _ =>
      let q := fresh "q" in let r := fresh "r" in
      pose proof (Z.div_mod a b ltac:(lia)); pose proof (Z.mod_pos_bound a b ltac:(lia));
      set (q := a / b) in *; set (r := a mod b) in *; clearbody q r end
  | |- context [?a mod ?b] => lazymatch b with Zpos _ =>
      let q := fresh "q" in let r := fresh "r" in
      pose proof (Z.div_mod a b ltac:(lia)); pose proof (Z.mod_pos_bound a b ltac:(lia));
      set (q := a / b) in *; set (r := a mod b) in *; clearbody q r end
  end.

Lemma is_scalar_spec c :
  is_scalar c = true <-> 0 <= c < 0xD800 \/ 0xE000 <= c <= 0x10FFFF.
Proof. unfold is_scalar. bool_lia. Qed.

(** Decides a boolean test by linear arithmetic. *)
Ltac decide_if :=
  match goal with
  | |- context [if ?b then _ else _] =>
      first [ replace b with true by (symmetry; unfold is_cont, is_scalar; bool_lia)
            | replace b with false by (symmetry; unfold is_cont, is_scalar; bool_lia) ];
      cbn [negb]
  end.

Lemma from_utf8_char c bs :
  is_scalar c = true -> from_utf8 (utf8_char c ++ bs) = (s ← from_utf8 bs; Some (c :: s)).
Proof.
  intros Hc%is_scalar_spec. unfold utf8_char.
  destruct (Z.ltb_spec c 0x80); [|destruct (Z.ltb_spec c 0x800);
    [|destruct (Z.ltb_spec c 0x10000)]]; cbn [app from_utf8].
  - by repeat decide_if.
  - z_div. repeat decide_if. destruct (from_utf8 bs); cbn; [|done]. do 2 f_equal; lia.
  - assert (Hd : c / 4096 = c / 64 / 64) by (rewrite Z.div_div by lia; done).
    rewrite Hd. z_div.
    repeat decide_if.
    destruct (from_utf8 bs); cbn; [|done]. do 2 f_equal; lia.
  - assert (Hd : c / 4096 = c / 64 / 64) by (rewrite Z.div_div by lia; done).
    assert (Hd' : c / 262144 = c / 64 / 64 / 64) by (rewrite !Z.div_div by lia; done).
    rewrite Hd', Hd. z_div. repeat decide_if.
    destruct (from_utf8 bs); cbn; [|done]. do 2 f_equal; lia.
Qed.

Lemma from_utf8_utf8 s :
  forallb is_scalar s = true -> from_utf8 (utf8 s) = Some s.
Proof.
  induction s as [|c s IH]; [done|]. cbn [forallb]. rewrite andb_true_iff. intros [Hc Hs].
  change (utf8 (c :: s)) with (utf8_char c ++ utf8 s).
  rewrite from_utf8_char by done. by rewrite IH.
Qed.

Lemma utf8_cons c s : utf8 (c :: s) = utf8_char c ++ utf8 s.
Proof. done. Qed.

Lemma utf8_app s t : utf8 (s ++ t) = utf8 s ++ utf8 t.
Proof. unfold utf8. by rewrite map_app, concat_app. Qed.

(** Strong induction on the length of a list, for decoders that consume
    several elements at a time. *)
Lemma list_length_ind {A} (P : list A -> Prop) :
  (forall l, (forall k, (length k < length l)%nat -> P k) -> P l) -> forall l, P l.
Proof.
  intros H l. remember (length l) as n eqn:Hn. revert l Hn.
  induction n as [n IH] using lt_wf_ind. intros l ->. apply H. intros k Hk. by eapply IH.
Qed.

Ltac solve_decoded IH :=
  match goal with
  | H : (?o ≫= _) = Some _ |- _ =>
      let E := fresh "E" in
      destruct o eqn:E; [cbn in H; injection H as <-|discriminate H];
      apply IH in E; [|cbn; lia]; destruct E as [<- E]
  end.

Lemma utf8_char_decoded1 c : 0 <= c < 0x80 -> utf8_char c = [c].
Proof. intros. unfold utf8_char. by decide_if. Qed.

Lemma utf8_char_decoded2 a b :
  0xC2 <= a < 0xE0 -> 0x80 <= b < 0xC0 ->
  utf8_char ((a - 0xC0) * 64 + (b - 0x80)) = [a; b].
Proof.
  intros. unfold utf8_char. repeat decide_if. z_div. repeat f_equal; lia.
Qed.

Lemma utf8_char_decoded3 a b d :
  0xE0 <= a < 0xF0 -> 0x80 <= b < 0xC0 -> 0x80 <= d < 0xC0 ->
  let c := (a - 0xE0) * 4096 + (b - 0x80) * 64 + (d - 0x80) in
  0x800 <= c -> utf8_char c = [a; b; d].
Proof.
  intros Ha Hb Hd c Hc. unfold utf8_char. repeat decide_if.
  replace (c / 4096) with (c / 64 / 64) by (rewrite Z.div_div by lia; done).
  subst c. z_div. repeat f_equal; lia.
Qed.

Lemma utf8_char_decoded4 a b d e :
  0xF0 <= a < 0xF5 -> 0x80 <= b < 0xC0 -> 0x80 <= d < 0xC0 -> 0x80 <= e < 0xC0 ->
  let c := (a - 0xF0) * 262144 + (b - 0x80) * 4096 + (d - 0x80) * 64 + (e - 0x80) in
  0x10000 <= c -> utf8_char c = [a; b; d; e].
Proof.
  intros Ha Hb Hd He c Hc. unfold utf8_char. repeat decide_if.
  replace (c / 262144) with (c / 64 / 64 / 64) by (rewrite !Z.div_div by lia; done).
  replace (c / 4096) with (c / 64 / 64) by (rewrite Z.div_div by lia; done).
  subst c. z_div. repeat f_equal; lia.
Qed.

Lemma utf8_from_utf8 bs s :
  from_utf8 bs = Some s -> utf8 s = bs /\ forallb is_scalar s = true.
Proof.
  revert s. induction bs as [bs IH] using list_length_ind. intros s.
  destruct bs as [|b0 t0]; cbn [from_utf8]; [by intros [= <-]|].
  destruct (_ && _) eqn:H0.
  { intros H. solve_decoded IH. propify.
    rewrite utf8_cons, utf8_char_decoded1 by lia. cbn [forallb].
    split; [done|]. rewrite E. unfold is_scalar. bool_lia. }
  destruct t0 as [|b1 t1]; [done|]. destruct (is_cont b1) eqn:H1; [|done]. cbn [negb].
  unfold is_cont in H1.
  destruct (_ && _) eqn:H2 in |- *.
  { intros H. solve_decoded IH. clear H0. propify. rewrite utf8_cons, utf8_char_decoded2 by lia.
    cbn [forallb]. split; [done|]. rewrite E. unfold is_scalar. bool_lia. }
  destruct t1 as [|b2 t2]; [done|]. destruct (is_cont b2) eqn:H3; [|done]. cbn [negb].
  unfold is_cont in H3. clear H2.
  destruct (_ && _) eqn:H2 in |- *.
  { case_if; [|done]. intros H. solve_decoded IH. clear H0. propify.
    rewrite utf8_cons, utf8_char_decoded3 by lia.
    cbn [forallb]. split; [done|]. rewrite E. bool_lia. }
  destruct t2 as [|b3 t3]; [done|]. destruct (is_cont b3) eqn:H4; [|done]. cbn [negb].
  unfold is_cont in H4. clear H2.
  destruct (_ && _) eqn:H2 in |- *; [|done].
  case_if; [|done]. intros H. solve_decoded IH. clear H0. propify.
  rewrite utf8_cons, utf8_char_decoded4 by lia.
  cbn [forallb]. split; [done|]. rewrite E. bool_lia.
Qed.

(** ** Lemmas: splitting *)

(** [\[a, b\].join(sep)]. *)
Fixpoint join (sep : char) (ps : list str) : str :=
  match ps with
  | [] => []
  | [p] => p
  | p :: ps => p ++ sep :: join sep ps
  end.

Lemma split_cons sep c s :
  split sep (c :: s) =
  if c =? sep then [] :: split sep s
  else match split sep s with [] => [[c]] | p :: ps => (c :: p) :: ps end.
Proof. done. Qed.

Lemma split_not_nil sep s : split sep s <> [].
Proof. destruct s; cbn; [done|]. case_if; [done|]. by destruct (split sep s). Qed.

Lemma join_split sep s : join sep (split sep s) = s.
Proof.
  induction s as [|c s IH]; [done|]. rewrite split_cons.
  pose proof (split_not_nil sep s). destruct (split sep s) as [|p ps]; [done|].
  destruct (Z.eqb_spec c sep) as [->|]; [by cbn in *; rewrite IH|].
  destruct ps; cbn in *; by rewrite IH.
Qed.

Lemma split_pieces sep s : Forall (fun p => sep ∉ p) (split sep s).
Proof.
  induction s as [|c s IH]; [repeat constructor; set_solver|]. rewrite split_cons.
  destruct (Z.eqb_spec c sep); [constructor; [set_solver|done]|].
  destruct (split sep s); [repeat constructor; set_solver|].
  inversion IH; subst. constructor; [set_solver|done].
Qed.

Lemma split_none sep s : sep ∉ s -> split sep s = [s].
Proof.
  induction s as [|c s IH]; [done|]. intros H. rewrite split_cons.
  destruct (Z.eqb_spec c sep); [set_solver|]. by rewrite IH by set_solver.
Qed.

Lemma split_app_sep sep a s : sep ∉ a -> split sep (a ++ sep :: s) = a :: split sep s.
Proof.
  induction a as [|c a IH]; intros H; cbn.
  - by rewrite Z.eqb_refl.
  - destruct (Z.eqb_spec c sep); [set_solver|]. by rewrite IH by set_solver.
Qed.

(** The pieces of a list of pieces without the separator. *)
Lemma split_join sep ps :
  ps <> [] -> Forall (fun p => sep ∉ p) ps -> split sep (join sep ps) = ps.
Proof.
  induction ps as [|p ps IH]; [done|]. intros _ H. inversion H; subst.
  destruct ps as [|q ps]; [by apply split_none|].
  change (join sep (p :: q :: ps)) with (p ++ sep :: join sep (q :: ps)).
  by rewrite split_app_sep, IH.
Qed.

Lemma split_once_spec sep s a b :
  split_once sep s = Some (a, b) <-> s = a ++ sep :: b /\ sep ∉ a.
Proof.
  revert a. induction s as [|c s IH]; intros a; cbn.
  - split; [done|]. by intros [Hs _]; destruct a.
  - destruct (Z.eqb_spec c sep) as [->|Hne].
    + split; [intros [= <- <-]; set_solver|]. intros [Hs Ha].
      destruct a as [|d a]; [by injection Hs as ->|]. injection Hs as -> ->. set_solver.
    + destruct (split_once sep s) as [[a' b']|]; cbn; split.
      * intros [= <- <-]. destruct (IH a') as [H _]. destruct H as [-> Ha]; [done|].
        set_solver.
      * intros [Hs Ha]. destruct a as [|d a]; [by injection Hs as ->|].
        injection Hs as -> Hs. destruct (IH a) as [_ H].
        assert (Hr : Some (a', b') = Some (a, b)) by (apply H; set_solver).
        by injection Hr as -> ->.
      * done.
      * intros [Hs Ha]. destruct a as [|d a]; [by injection Hs as ->|].
        injection Hs as -> Hs. destruct (IH a) as [_ H].
        enough (None = Some (a, b)) by done. apply H. set_solver.
Qed.

Lemma split_once_None sep s : split_once sep s = None <-> sep ∉ s.
Proof.
  induction s as [|c s IH]; cbn; [set_solver|].
  destruct (Z.eqb_spec c sep); [set_solver|].
  destruct (split_once sep s) as [[a b]|]; cbn; [split; [done|]|set_solver].
  intros H. destruct IH as [_ IH]. enough (Some (a, b) = None) by done. apply IH. set_solver.
Qed.

Lemma rsplit_once_None sep s : rsplit_once sep s = None <-> sep ∉ s.
Proof.
  induction s as [|c s IH]; cbn; [set_solver|].
  destruct (rsplit_once sep s) as [[a b]|].
  - split; [done|]. intros H. destruct IH as [_ IH].
    enough (Some (a, b) = None) by done. apply IH. set_solver.
  - destruct (Z.eqb_spec c sep); set_solver.
Qed.

Lemma rsplit_once_spec sep s a b :
  rsplit_once sep s = Some (a, b) <-> s = a ++ sep :: b /\ sep ∉ b.
Proof.
  revert a. induction s as [|c s IH]; intros a; cbn.
  - split; [done|]. by intros [Hs _]; destruct a.
  - destruct (rsplit_once sep s) as [[a' b']|] eqn:E.
    + split.
      * intros [= <- <-]. destruct (IH a') as [H _]. destruct H as [-> Hb]; [done|]. done.
      * intros [Hs Hb]. destruct a as [|d a].
        { injection Hs as -> ->. apply rsplit_once_None in Hb. congruence. }
        injection Hs as -> Hs. destruct (IH a) as [_ H].
        assert (Hr : Some (a', b') = Some (a, b)) by (by apply H). by injection Hr as -> ->.
    + apply rsplit_once_None in E. destruct (Z.eqb_spec c sep) as [->|]; split.
      * by intros [= <- <-].
      * intros [Hs Hb]. destruct a as [|d a]; [by injection Hs as ->|].
        injection Hs as -> ->. set_solver.
      * done.
      * intros [Hs Hb]. destruct a as [|d a]; [by injection Hs as ->|].
        injection Hs as -> ->. set_solver.
Qed.

Lemma strip_prefix_spec p s t : strip_prefix p s = Some t <-> s = p ++ t.
Proof.
  revert s. induction p as [|a p IH]; intros s; cbn; [split; congruence|].
  destruct s as [|b s]; [split; congruence|].
  destruct (Z.eqb_spec a b) as [->|]; [rewrite IH|]; split; congruence.
Qed.

Lemma strip_suffix_spec p s t : strip_suffix p s = Some t <-> s = t ++ p.
Proof.
  unfold strip_suffix. rewrite fmap_Some. split.
  - intros (r & Hr%strip_prefix_spec & ->).
    rewrite <- (reverse_involutive s), Hr, reverse_app. by rewrite reverse_involutive.
  - intros ->. exists (reverse t). rewrite strip_prefix_spec, reverse_app, reverse_involutive.
    done.
Qed.

Lemma starts_with_spec p s : starts_with p s = true <-> exists t, s = p ++ t.
Proof.
  unfold starts_with. rewrite bool_decide_eq_true. split.
  - intros [t Ht%strip_prefix_spec]. eauto.
  - intros [t ->]. exists t. by apply strip_prefix_spec.
Qed.

Lemma contains_char_spec c s : contains_char c s = true <-> c ∈ s.
Proof.
  unfold contains_char. rewrite existsb_In. split.
  - intros (x & Hx & E). propify. by subst.
  - intros H. exists c. by rewrite Z.eqb_refl.
Qed.

(** ** Lemmas: trimming *)

Lemma trim_start_suffix p s :
  exists l, s = l ++ trim_start_matches p s /\ forallb p l = true.
Proof.
  induction s as [|c s [l [Hs Hl]]]; cbn; [by exists []|].
  destruct (p c) eqn:Hc.
  - exists (c :: l). cbn. by rewrite Hc, <- Hs.
  - by exists [].
Qed.

Lemma trim_start_head p s :
  match trim_start_matches p s with c :: _ => p c = false | [] => True end.
Proof. induction s as [|c s IH]; cbn; [done|]. by destruct (p c) eqn:?. Qed.

Lemma forallb_reverse {A} (p : A -> bool) l : forallb p (reverse l) = forallb p l.
Proof.
  induction l as [|x l IH]; [done|]. rewrite reverse_cons, forallb_app, IH. cbn.
  by rewrite andb_true_r, andb_comm.
Qed.

(** [trim_matches] removes a prefix and a suffix of matching characters... *)
Lemma trim_matches_split p s :
  exists l r, s = l ++ trim_matches p s ++ r /\ forallb p l = true /\ forallb p r = true.
Proof.
  unfold trim_matches. destruct (trim_start_suffix p s) as (l & Hs & Hl).
  destruct (trim_start_suffix p (reverse (trim_start_matches p s))) as (r & Hr & Hp).
  exists l, (reverse r). rewrite forallb_reverse. split; [|done].
  rewrite <- reverse_app, <- Hr, reverse_involutive. done.
Qed.

Lemma last_reverse {A} (l : list A) : last (reverse l) = head l.
Proof. destruct l; [done|]. by rewrite reverse_cons, last_snoc. Qed.

(** ...and leaves none at the end... *)
Lemma trim_matches_last p s c : last (trim_matches p s) = Some c -> p c = false.
Proof.
  unfold trim_matches. rewrite last_reverse.
  pose proof (trim_start_head p (reverse (trim_start_matches p s))) as H.
  destruct (trim_start_matches p (reverse _)); cbn; [done|]. by intros [= <-].
Qed.

(** ...nor at the start. *)
Lemma trim_matches_head p s c : head (trim_matches p s) = Some c -> p c = false.
Proof.
  destruct (trim_matches_split p s) as (l & r & Hs & Hl & Hr).
  unfold trim_matches in *. set (u := trim_start_matches p s) in *.
  destruct (trim_start_suffix p (reverse u)) as (r' & Hu & Hr').
  pose proof (trim_start_head p s) as H. fold u in H.
  intros Hh. apply (f_equal reverse) in Hu. rewrite reverse_involutive, reverse_app in Hu.
  destruct (reverse (trim_start_matches p (reverse u))) as [|d t]; [done|].
  injection Hh as ->. rewrite Hu in H. by cbn in H.
Qed.

Lemma trim_start_id p s :
  match s with c :: _ => p c = false | [] => True end -> trim_start_matches p s = s.
Proof. destruct s; cbn; [done|]. by intros ->. Qed.

(** Text without matching ends is unchanged, so trimming is idempotent. *)
Lemma trim_matches_id p s :
  (forall c, head s = Some c -> p c = false) -> (forall c, last s = Some c -> p c = false) ->
  trim_matches p s = s.
Proof.
  intros Hh Hl. unfold trim_matches. rewrite (trim_start_id p s).
  - rewrite trim_start_id; [by rewrite reverse_involutive|].
    destruct (reverse s) as [|c t] eqn:E; [done|]. apply Hl.
    rewrite <- (reverse_involutive s), E, last_reverse. done.
  - destruct s; [done|]. by apply Hh.
Qed.

Lemma trim_matches_idem p s : trim_matches p (trim_matches p s) = trim_matches p s.
Proof. apply trim_matches_id; intros c; [apply trim_matches_head|apply trim_matches_last]. Qed.

Lemma trim_matches_Forall p (Q : char -> Prop) s : Forall Q s -> Forall Q (trim_matches p s).
Proof.
  destruct (trim_matches_split p s) as (l & r & Hs & _). rewrite Hs at 1.
  rewrite !Forall_app. tauto.
Qed.

(** ** Lemmas: decimal numbers *)

(** Decimal digits without leading zero. *)
Definition canonical_digits (s : str) : bool :=
  match s with
  | [] => false
  | [c] => is_ascii_digit c
  | c :: _ => negb (c =? 48) && forallb is_ascii_digit s
  end.

Lemma digits_value_snoc s c : digits_value (s ++ [c]) = 10 * digits_value s + (c - 48).
Proof. unfold digits_value. by rewrite fold_left_app. Qed.

Lemma is_ascii_digit_spec c : is_ascii_digit c = true <-> 48 <= c <= 57.
Proof. unfold is_ascii_digit. bool_lia. Qed.

Lemma digits_value_nonneg s : forallb is_ascii_digit s = true -> 0 <= digits_value s.
Proof.
  induction s as [|c s IH] using rev_ind; [done|].
  rewrite forallb_app_iff, digits_value_snoc. intros [Hs Hc]. cbn in Hc.
  rewrite andb_true_r, is_ascii_digit_spec in Hc. specialize (IH Hs). lia.
Qed.

Lemma canonical_digits_all s : canonical_digits s = true -> forallb is_ascii_digit s = true.
Proof. destruct s as [|c [|d s]]; cbn; intros; bool_lia. Qed.

Lemma canonical_digits_snoc s c :
  canonical_digits (s ++ [c]) = true ->
  is_ascii_digit c = true /\ (s = [] \/ canonical_digits s = true /\ 1 <= digits_value s).
Proof.
  intros H. pose proof (canonical_digits_all _ H) as Hd.
  apply forallb_app_iff in Hd as [Hs Hc]. cbn in Hc. rewrite andb_true_r in Hc.
  split; [done|]. destruct s as [|a s]; [by left|right].
  assert (Ha : a <> 48) by (destruct s; cbn in H; propify; lia).
  split; [destruct s; cbn in *; bool_lia|].
  clear H Hc. induction s as [|b s IH] using rev_ind.
  - cbn in *. propify. rewrite is_ascii_digit_spec in Hs. lia.
  - rewrite app_comm_cons, digits_value_snoc. rewrite app_comm_cons, forallb_app_iff in Hs.
    destruct Hs as [Hs Hb]. cbn in Hb. rewrite andb_true_r, is_ascii_digit_spec in Hb.
    specialize (IH Hs). lia.
Qed.

Lemma show_digits_canonical s fuel acc :
  canonical_digits s = true -> digits_value s < 2 ^ Z.of_nat fuel -> (0 < fuel)%nat ->
  show_digits fuel (digits_value s) acc = s ++ acc.
Proof.
  revert s acc. induction fuel as [|fuel IH]; intros s acc Hs Hv Hf; [lia|].
  destruct s as [|c s _] using rev_ind; [done|].
  destruct (canonical_digits_snoc _ _ Hs) as [Hc%is_ascii_digit_spec Hcases].
  rewrite digits_value_snoc in *. cbn [show_digits].
  set (v := digits_value s) in *.
  assert (Hm : (10 * v + (c - 48)) mod 10 = c - 48)
    by (rewrite Z.add_comm, Z.mul_comm, Z.mod_add, Z.mod_small by lia; done).
  assert (Hd : (10 * v + (c - 48)) / 10 = v)
    by (rewrite Z.add_comm, Z.mul_comm, Z.div_add, Z.div_small by lia; done).
  rewrite Hm, Hd. replace (48 + (c - 48)) with c by lia.
  destruct Hcases as [->|[Hcan H1]].
  - subst v. cbn. by rewrite (proj2 (Z.ltb_lt _ _)) by lia.
  - rewrite (proj2 (Z.ltb_ge _ _)) by lia. subst v.
    rewrite Nat2Z.inj_succ, Z.pow_succ_r in Hv by lia.
    assert (0 < fuel)%nat by (destruct fuel; cbn in Hv; lia).
    rewrite IH by (done || lia). by rewrite <- app_assoc.
Qed.

Lemma show_digits_spec fuel n acc :
  0 <= n < 2 ^ Z.of_nat fuel -> (0 < fuel)%nat ->
  exists s, show_digits fuel n acc = s ++ acc /\ canonical_digits s = true /\ digits_value s = n.
Proof.
  revert n acc. induction fuel as [|fuel IH]; intros n acc Hn Hf; [lia|].
  cbn [show_digits]. pose proof (Z.div_mod n 10 ltac:(lia)).
  pose proof (Z.mod_pos_bound n 10 ltac:(lia)).
  destruct (Z.ltb_spec n 10).
  - exists [48 + n mod 10]. cbn. rewrite is_ascii_digit_spec, Z.mod_small by lia.
    repeat split; lia.
  - rewrite Nat2Z.inj_succ, Z.pow_succ_r in Hn by lia.
    assert (0 < fuel)%nat by (destruct fuel; cbn in Hn; lia).
    destruct (IH (n / 10) ((48 + n mod 10) :: acc)) as (s & -> & Hs & Hv); [lia|lia|].
    exists (s ++ [48 + n mod 10]). rewrite <- app_assoc. split; [done|].
    rewrite digits_value_snoc, Hv. split; [|lia].
    pose proof (canonical_digits_all _ Hs) as Ha.
    assert (Hc : is_ascii_digit (48 + n mod 10) = true) by (apply is_ascii_digit_spec; lia).
    destruct s as [|c [|d s]]; cbn in *; [done| |];
      rewrite ?forallb_app; cbn; rewrite ?Hc; propify; intuition (try done).
    lia.
Qed.

Lemma show_fuel_bound n : 0 <= n -> n < 2 ^ Z.of_nat (show_fuel n).
Proof.
  intros. unfold show_fuel. rewrite Nat2Z.inj_succ, Z2Nat.id by apply Z.log2_nonneg.
  destruct (Z.eq_dec n 0) as [->|]; [done|]. by apply Z.log2_spec; lia.
Qed.

Lemma show_unsigned_spec n :
  0 <= n -> canonical_digits (show_unsigned n) = true /\ digits_value (show_unsigned n) = n.
Proof.
  intros Hn. unfold show_unsigned.
  destruct (show_digits_spec (show_fuel n) n []) as (s & -> & Hs & Hv);
    [split; [done|by apply show_fuel_bound]|unfold show_fuel; lia|].
  by rewrite app_nil_r.
Qed.

Lemma show_digits_value s : canonical_digits s = true -> show_unsigned (digits_value s) = s.
Proof.
  intros Hs. unfold show_unsigned.
  rewrite show_digits_canonical; [apply app_nil_r|done| |unfold show_fuel; lia].
  apply show_fuel_bound, digits_value_nonneg. by apply canonical_digits_all.
Qed.

Lemma canonical_digits_length s :
  canonical_digits s = true -> 1 <= digits_value s -> 10 ^ (Z.of_nat (length s) - 1) <= digits_value s.
Proof.
  induction s as [|c s IH] using rev_ind; [done|]. intros Hs Hv.
  destruct (canonical_digits_snoc _ _ Hs) as [Hc%is_ascii_digit_spec [->|[Hcan H1]]].
  - cbn in *. lia.
  - specialize (IH Hcan H1). rewrite digits_value_snoc, length_app, Nat2Z.inj_add. cbn [length].
    assert (0 < length s)%nat by (destruct s; [done|cbn; lia]).
    replace (Z.of_nat (length s) + Z.of_nat 1 - 1) with (Z.succ (Z.of_nat (length s) - 1)) by lia.
    rewrite Z.pow_succ_r by lia. lia.
Qed.

(** Zero padding to a width that holds the number gives exactly that many digits. *)
Lemma pad_zero_digits w n :
  (0 < w)%nat -> 0 <= n < 10 ^ Z.of_nat w ->
  length (pad_zero w n) = w /\ forallb is_ascii_digit (pad_zero w n) = true.
Proof.
  intros Hw Hn. unfold pad_zero. rewrite (proj2 (Z.ltb_ge n 0)) by lia.
  destruct (show_unsigned_spec n) as [Hc Hv]; [lia|].
  assert (Hl : (length (show_unsigned n) <= w)%nat).
  { destruct (Z.eq_dec n 0) as [->|Hn0]; [cbn; lia|].
    pose proof (canonical_digits_length _ Hc ltac:(lia)) as Hle. rewrite Hv in Hle.
    assert (10 ^ (Z.of_nat (length (show_unsigned n)) - 1) < 10 ^ Z.of_nat w) as Hlt by lia.
    apply Z.pow_lt_mono_r_iff in Hlt; lia. }
  rewrite length_app, length_replicate. split; [lia|].
  rewrite forallb_app_iff. split; [|by apply canonical_digits_all].
  apply forallb_Forall, Forall_replicate. done.
Qed.

(** ASCII text is its own encoding. *)
Lemma utf8_ascii_id s : Forall (fun c => 0 <= c < 0x80) s -> utf8 s = s.
Proof.
  induction 1 as [|c s Hc Hs IH]; [done|]. by rewrite utf8_cons, utf8_char_decoded1, IH.
Qed.

Lemma utf8_digits_id s : forallb is_ascii_digit s = true -> utf8 s = s.
Proof.
  rewrite forallb_Forall. intros Hs. apply utf8_ascii_id. eapply Forall_impl; [done|].
  intros c. rewrite is_ascii_digit_spec. lia.
Qed.

Lemma elem_of_join sep ps p c : p ∈ ps -> c ∈ p -> c ∈ join sep ps.
Proof.
  induction ps as [|q [|r ps] IH]; intros Hp Hc; [set_solver|set_solver|].
  change (c ∈ q ++ sep :: join sep (r :: ps)). apply elem_of_cons in Hp as [->|Hp]; set_solver.
Qed.
