(* ===== verification/Codec.v ===== *)
(** * Base32 (src/src/auth/mod.rs) and the RFC 4648 reference

    [rfc4648 k] is the encoding by groups of [k] bits without padding; [base32] is the
    code's shift-register loop, shown equal to it at [k = 5]. *)

From S2P Require Import Prelude Str.

(** ** Bits, most significant first *)

Definition byte_bits (b : Z) : list bool := map (Z.testbit b) [7; 6; 5; 4; 3; 2; 1; 0].

Definition bits_of (bs : bytes) : list bool := concat (map byte_bits bs).

Definition bits_val (l : list bool) : Z := fold_left (fun n b => 2 * n + Z.b2z b) l 0.

(** The low [k] bits of [n]. *)
Fixpoint low_bits (k : nat) (n : Z) : list bool :=
  match k with
  | O => []
  | S k => Z.testbit n (Z.of_nat k) :: low_bits k n
  end.

Lemma bits_val_acc l n : fold_left (fun n b => 2 * n + Z.b2z b) l n =
  n * 2 ^ Z.of_nat (length l) + bits_val l.
Proof.
  unfold bits_val. revert n. induction l as [|b l IH]; intros n; cbn [fold_left length]; [lia|].
  rewrite IH, (IH (2 * 0 + Z.b2z b)), Nat2Z.inj_succ, Z.pow_succ_r by lia. lia.
Qed.

Lemma bits_val_cons b l : bits_val (b :: l) = Z.b2z b * 2 ^ Z.of_nat (length l) + bits_val l.
Proof. unfold bits_val at 1. cbn [fold_left]. rewrite bits_val_acc. lia. Qed.

Lemma bits_val_app l k : bits_val (l ++ k) = bits_val l * 2 ^ Z.of_nat (length k) + bits_val k.
Proof. unfold bits_val at 1. rewrite fold_left_app. apply bits_val_acc. Qed.

Lemma bits_val_bound l : 0 <= bits_val l < 2 ^ Z.of_nat (length l).
Proof.
  induction l as [|b l IH]; [cbn; lia|]. rewrite bits_val_cons. cbn [length].
  rewrite Nat2Z.inj_succ, Z.pow_succ_r by lia. destruct b; cbn; lia.
Qed.

Lemma bits_val_replicate n : bits_val (replicate n false) = 0.
Proof. induction n as [|n IH]; [done|]. cbn [replicate]. by rewrite bits_val_cons, IH. Qed.

Lemma low_bits_length k n : length (low_bits k n) = k.
Proof. induction k; cbn; congruence. Qed.

Lemma low_bits_ext k n m :
  (forall i, 0 <= i < Z.of_nat k -> Z.testbit n i = Z.testbit m i) -> low_bits k n = low_bits k m.
Proof.
  induction k as [|k IH]; intros H; [done|]. cbn. f_equal; [apply H; lia|]. apply IH.
  intros. apply H. lia.
Qed.

Lemma low_bits_mod k n : low_bits k (n mod 2 ^ Z.of_nat k) = low_bits k n.
Proof. apply low_bits_ext. intros i Hi. by rewrite Z.mod_pow2_bits_low by lia. Qed.

Lemma low_bits_val l : low_bits (length l) (bits_val l) = l.
Proof.
  induction l as [|b l IH]; [done|]. cbn [length low_bits]. rewrite bits_val_cons.
  pose proof (bits_val_bound l) as Hb. f_equal.
  - rewrite Z.testbit_odd, Z.shiftr_div_pow2, Z.div_add_l, Z.div_small, Z.add_0_r by lia.
    by destruct b.
  - rewrite <- low_bits_mod, Z.add_comm, Z.mod_add, low_bits_mod by lia. done.
Qed.

Lemma bits_val_low k n : bits_val (low_bits k n) = n mod 2 ^ Z.of_nat k.
Proof.
  induction k as [|k IH]; [cbn; by rewrite Z.mod_1_r|]. cbn [low_bits].
  rewrite bits_val_cons, low_bits_length, IH, Nat2Z.inj_succ, Z.pow_succ_r by lia.
  rewrite Z.testbit_odd, Z.shiftr_div_pow2, (Z.mul_comm 2), Z.rem_mul_r by lia.
  rewrite Zmod_odd. destruct (Z.odd _); cbn; lia.
Qed.

Lemma byte_bits_low b : byte_bits b = low_bits 8 b.
Proof. done. Qed.

Lemma byte_bits_val b : is_byte b = true -> bits_val (byte_bits b) = b.
Proof.
  intros Hb. rewrite byte_bits_low, bits_val_low. unfold is_byte in Hb. propify.
  by rewrite Z.mod_small by (cbn; lia).
Qed.

Lemma bits_of_length bs : length (bits_of bs) = (8 * length bs)%nat.
Proof. induction bs as [|b bs IH]; [done|]. cbn [length]. unfold bits_of in *. cbn. lia. Qed.

(** ** Groups *)

Fixpoint chunks_fuel (fuel k : nat) (l : list bool) : list (list bool) :=
  match fuel, l with
  | S fuel, _ :: _ => take k l :: chunks_fuel fuel k (drop k l)
  | _, _ => []
  end.

(** Groups of [k], the last one possibly shorter. *)
Definition chunks (k : nat) (l : list bool) : list (list bool) := chunks_fuel (length l) k l.

Lemma chunks_fuel_enough k f g l :
  (0 < k)%nat -> (length l <= f)%nat -> (length l <= g)%nat ->
  chunks_fuel f k l = chunks_fuel g k l.
Proof.
  intros Hk. revert g l. induction f as [|f IH]; intros g l Hf Hg.
  - destruct l; [by destruct g|cbn in Hf; lia].
  - destruct l as [|x l]; [by destruct g|]. destruct g as [|g]; [cbn in Hg; lia|].
    cbn [chunks_fuel]. f_equal. apply IH; rewrite length_drop; cbn in *; lia.
Qed.

Lemma chunks_nil k : chunks k [] = [].
Proof. done. Qed.

Lemma chunks_app k a l :
  (0 < k)%nat -> length a = k -> chunks k (a ++ l) = a :: chunks k l.
Proof.
  intros Hk Ha. unfold chunks. destruct (a ++ l) as [|x t] eqn:E.
  - destruct a; cbn in *; [lia|done].
  - rewrite <- E. replace (length (a ++ l)) with (S (pred (length (a ++ l)))).
    2: { rewrite length_app. lia. }
    rewrite E. cbn [chunks_fuel]. rewrite <- E, take_app_length', drop_app_length' by done.
    f_equal. apply chunks_fuel_enough; rewrite ?length_app; lia.
Qed.

Lemma chunks_step k l :
  (0 < k <= length l)%nat -> chunks k l = take k l :: chunks k (drop k l).
Proof.
  intros Hk. rewrite <- chunks_app by (try rewrite length_take; lia). by rewrite take_drop.
Qed.

Lemma chunks_last k l :
  (0 < length l <= k)%nat -> chunks k l = [l].
Proof.
  intros Hl. unfold chunks. destruct l as [|x l]; [cbn in Hl; lia|]. cbn [length chunks_fuel].
  rewrite take_ge, drop_ge by lia. by destruct (length l).
Qed.

Definition pad (k : nat) (l : list bool) : list bool := l ++ replicate (k - length l) false.

(** The RFC 4648 encoding by [k]-bit groups over [alphabet], without padding. *)
Definition rfc4648 (k : nat) (alphabet : str) (bs : bytes) : str :=
  map (fun c => nth (Z.to_nat (bits_val (pad k c))) alphabet 0) (chunks k (bits_of bs)).

(** ** Base32 as the code computes it *)

Definition ALPHABET : str := lit "ABCDEFGHIJKLMNOPQRSTUVWXYZ234567".

Definition alphabet_char (i : Z) : char := nth (Z.to_nat i) ALPHABET 0.

(** The inner [while bits >= 5]; [fuel] bounds its iterations. *)
Fixpoint emit (fuel : nat) (out : str) (buffer bits : Z) : str * Z :=
  match fuel with
  | O => (out, bits)
  | S fuel =>
      if 5 <=? bits then
        let bits := bits - 5 in
        emit fuel (out ++ [alphabet_char (Z.land (Z.shiftr buffer bits) 31)]) buffer bits
      else (out, bits)
  end.

(** One byte through the 16-bit shift register. *)
Definition base32_byte (st : str * Z * Z) (byte : Z) : str * Z * Z :=
  let '(out, buffer, bits) := st in
  let buffer := Z.lor (Z.shiftl buffer 8 mod 2 ^ 16) byte in
  let '(out, bits) := emit 3 out buffer (bits + 8) in
  (out, buffer, bits).

Definition base32 (bs : bytes) : str :=
  let '(out, buffer, bits) := fold_left base32_byte bs ([], 0, 0) in
  if 0 <? bits
  then out ++ [alphabet_char (Z.land (Z.shiftl buffer (5 - bits) mod 2 ^ 16) 31)]
  else out.

(** The register's low bits are the bits not yet written. *)
Definition holds (buffer : Z) (l : list bool) : Prop :=
  0 <= buffer < 2 ^ 16 /\ buffer mod 2 ^ Z.of_nat (length l) = bits_val l.

Lemma land_31 n : Z.land n 31 = n mod 2 ^ 5.
Proof. by rewrite <- Z.land_ones. Qed.

(** The next five bits of the register are the next group. *)
Lemma holds_chunk buffer a l :
  holds buffer (a ++ l) -> length a = 5%nat ->
  Z.land (Z.shiftr buffer (Z.of_nat (length l))) 31 = bits_val a /\ holds buffer l.
Proof.
  intros [Hr Hv] Ha. rewrite length_app, Ha in Hv. rewrite bits_val_app in Hv.
  pose proof (bits_val_bound l) as Hl. pose proof (bits_val_bound a) as Hab. rewrite Ha in Hab.
  set (n := Z.of_nat (length l)) in *.
  replace (Z.of_nat (5 + length l)) with (n + 5) in Hv by lia.
  rewrite Z.pow_add_r, Z.rem_mul_r in Hv by lia.
  assert (0 < 2 ^ n) by lia.
  assert (Hm := Z.mod_pos_bound buffer (2 ^ n) ltac:(lia)).
  assert (Hd := Z.mod_pos_bound (buffer / 2 ^ n) (2 ^ 5) ltac:(lia)).
  destruct (Z.div_mod_unique (2 ^ n) (bits_val a) ((buffer / 2 ^ n) mod 2 ^ 5)
              (bits_val l) (buffer mod 2 ^ n)) as [-> ?]; [lia..|].
  rewrite land_31, Z.shiftr_div_pow2 by lia. split; [done|]. by split.
Qed.

Lemma holds_push buffer l b :
  holds buffer l -> is_byte b = true -> (length l <= 8)%nat ->
  holds (Z.lor (Z.shiftl buffer 8 mod 2 ^ 16) b) (l ++ byte_bits b).
Proof.
  intros [Hr Hv] Hb Hl. apply byte_bits_val in Hb as Hbv. unfold is_byte in Hb. propify.
  rewrite Z.shiftl_mul_pow2 by lia.
  assert (E : Z.lor ((buffer * 2 ^ 8) mod 2 ^ 16) b = (buffer * 2 ^ 8) mod 2 ^ 16 + b).
  { rewrite <- Z.add_lor_land, <- Z.add_0_r at 1. f_equal. symmetry. apply Z.bits_inj'. intros i Hi. rewrite Z.land_spec, Z.bits_0.
    destruct (Z.lt_ge_cases i 8) as [Hi8|Hi8].
    - rewrite Z.mod_pow2_bits_low, Z.mul_pow2_bits_low by lia. done.
    - rewrite <- (Z.mod_small b (2 ^ 8)) by lia. rewrite (Z.mod_pow2_bits_high b 8) by lia.
      apply andb_false_r. }
  rewrite E. unfold holds. rewrite bits_val_app, Hbv, length_app.
  change (length (byte_bits b)) with 8%nat.
  assert (Hm : (buffer * 2 ^ 8) mod 2 ^ 16 = (buffer mod 2 ^ 8) * 2 ^ 8).
  { change (2 ^ 16) with (2 ^ 8 * 2 ^ 8). by rewrite Zmult_mod_distr_r. }
  rewrite Hm. split; [pose proof (Z.mod_pos_bound buffer (2 ^ 8)); lia|].
  rewrite Nat2Z.inj_add, Z.pow_add_r by lia. set (n := Z.of_nat (length l)) in *.
  assert (Hn : (buffer mod 2 ^ 8) mod 2 ^ n = bits_val l).
  { rewrite <- Hv. apply Z.mod_mod_divide.
    exists (2 ^ (8 - n)). rewrite <- Z.pow_add_r by lia. f_equal. lia. }
  change (Z.of_nat 8) with 8. rewrite <- Hn. clear Hn Hm E Hv Hbv.
  rewrite (Z.mul_comm (2 ^ n)), Z.rem_mul_r by lia.
  rewrite (Z.add_comm (_ * 2 ^ 8) b), Z.mod_add, Z.div_add, (Z.mod_small b), (Z.div_small b), Z.add_0_l by lia. lia.
Qed.

Lemma alphabet_chunk c :
  length c = 5%nat -> nth (Z.to_nat (bits_val (pad 5 c))) ALPHABET 0 = alphabet_char (bits_val c).
Proof. intros Hc. unfold pad. by rewrite Hc, app_nil_r. Qed.

(** The inner loop writes the whole groups and keeps the rest. *)
Lemma emit_spec fuel out buffer l :
  holds buffer l -> (length l < 5 * S fuel)%nat ->
  exists gs rest, l = concat gs ++ rest /\ Forall (fun g => length g = 5%nat) gs /\
    (length rest < 5)%nat /\ holds buffer rest /\
    emit fuel out buffer (Z.of_nat (length l)) =
    (out ++ map (fun g => alphabet_char (bits_val g)) gs, Z.of_nat (length rest)).
Proof.
  revert out l. induction fuel as [|fuel IH]; intros out l Hh Hl.
  - exists [], l. cbn. rewrite app_nil_r. split_and!; try done; lia.
  - cbn [emit]. destruct (Z.leb_spec 5 (Z.of_nat (length l))) as [H5|H5].
    + rewrite <- (take_drop 5 l) in Hh. apply holds_chunk in Hh as [Hc Hh];
        [|rewrite length_take; lia].
      destruct (IH (out ++ [alphabet_char (bits_val (take 5 l))]) (drop 5 l) Hh)
        as (gs & rest & Hd & Hg & Hr & Hh' & He); [rewrite length_drop; lia|].
      replace (Z.of_nat (length l) - 5) with (Z.of_nat (length (drop 5 l)))
        by (rewrite length_drop; lia).
      exists (take 5 l :: gs), rest. rewrite Hc, He. cbn.
      rewrite <- !(assoc_L (++)), <- Hd, take_drop. split_and!; try done.
      constructor; [rewrite length_take; lia|done].
    + exists [], l. cbn. rewrite app_nil_r. split_and!; try done; lia.
Qed.

Lemma chunks_concat k gs l :
  (0 < k)%nat -> Forall (fun g => length g = k) gs -> chunks k (concat gs ++ l) = gs ++ chunks k l.
Proof.
  intros Hk. induction 1 as [|g gs Hg Hgs IH]; [done|]. cbn [concat app].
  rewrite <- (assoc_L (++)), chunks_app by done. by rewrite IH.
Qed.

(** After any bytes, the output covers the whole groups and the register the rest. *)
Lemma base32_loop bs out buffer l :
  forallb is_byte bs = true -> holds buffer l -> (length l < 5)%nat ->
  exists gs rest buffer', l ++ bits_of bs = concat gs ++ rest /\
    Forall (fun g => length g = 5%nat) gs /\ (length rest < 5)%nat /\ holds buffer' rest /\
    fold_left base32_byte bs (out, buffer, Z.of_nat (length l)) =
    (out ++ map (fun g => alphabet_char (bits_val g)) gs, buffer', Z.of_nat (length rest)).
Proof.
  revert out buffer l. induction bs as [|b bs IH]; intros out buffer l Hb Hh Hl.
  - exists [], l, buffer. cbn. rewrite !app_nil_r. by split_and!.
  - cbn in Hb. apply andb_true_iff in Hb as [Hb Hbs].
    pose proof (holds_push buffer l b Hh Hb ltac:(lia)) as Hp.
    cbn [fold_left base32_byte].
    set (buf := Z.lor (Z.shiftl buffer 8 mod 2 ^ 16) b) in *.
    replace (Z.of_nat (length l) + 8) with (Z.of_nat (length (l ++ byte_bits b)))
      by (rewrite length_app; cbn; lia).
    destruct (emit_spec 3 out buf (l ++ byte_bits b) Hp)
      as (gs & rest & He & Hg & Hr & Hh' & ->); [rewrite length_app; cbn; lia|].
    destruct (IH (out ++ map (fun g => alphabet_char (bits_val g)) gs) buf rest Hbs Hh' Hr)
      as (gs' & rest' & buf' & He' & Hg' & Hr' & Hh'' & ->).
    exists (gs ++ gs'), rest', buf'. unfold bits_of in *. cbn [map concat].
    rewrite (assoc_L (++)), He, <- (assoc_L (++)), He', concat_app, map_app, !(assoc_L (++)).
    split_and!; try done. by apply Forall_app.
Qed.

Lemma holds_last buffer l :
  holds buffer l -> (0 < length l < 5)%nat ->
  Z.land (Z.shiftl buffer (5 - Z.of_nat (length l)) mod 2 ^ 16) 31 = bits_val (pad 5 l).
Proof.
  intros [Hr Hv] Hl. unfold pad. rewrite bits_val_app, bits_val_replicate, length_replicate.
  set (n := Z.of_nat (length l)) in *. replace (Z.of_nat (5 - length l)) with (5 - n) by lia.
  rewrite land_31, Z.shiftl_mul_pow2 by lia.
  rewrite Z.mod_mod_divide by (by exists (2 ^ 11)).
  rewrite <- Hv. replace (2 ^ 5) with (2 ^ n * 2 ^ (5 - n)).
  - rewrite Zmult_mod_distr_r. lia.
  - rewrite <- Z.pow_add_r by lia. f_equal. lia.
Qed.

Lemma concat_groups_length {A} k (gs : list (list A)) :
  Forall (fun g => length g = k) gs -> length (concat gs) = (length gs * k)%nat.
Proof. induction 1 as [|g gs Hg Hgs IH]; [done|]. cbn. rewrite length_app. lia. Qed.

(** Five bytes are eight characters, all of the alphabet. *)
Lemma base32_whole bs k :
  forallb is_byte bs = true -> length bs = (5 * k)%nat ->
  length (base32 bs) = (8 * k)%nat /\ Forall (fun c => c ∈ ALPHABET) (base32 bs).
Proof.
  intros Hb Hl. unfold base32.
  destruct (base32_loop bs [] 0 [] Hb) as (gs & rest & buf & He & Hg & Hr & Hh & Hf);
    [by split|cbn; lia|]. change (Z.of_nat (length [])) with 0 in Hf. rewrite Hf.
  cbn [app] in *. apply (f_equal length) in He.
  rewrite bits_of_length, length_app, (concat_groups_length 5) in He by done.
  assert (length gs = (8 * k)%nat /\ length rest = 0%nat) as [Hn ->] by lia.
  change (0 <? Z.of_nat 0) with false. cbv iota. rewrite length_map. split; [done|]. apply Forall_map. eapply Forall_impl; [exact Hg|].
  intros g H5. unfold alphabet_char. apply list_elem_of_In, nth_In.
  pose proof (bits_val_bound g) as Hv. rewrite H5 in Hv. cbn. lia.
Qed.

(** ** Theorems *)

(** C40: the shift-register loop is the RFC 4648 base32 encoding without padding, for every
    byte string: the 16-bit register never loses a bit it still needs. *)
Theorem base32_is_rfc4648 (bs : bytes) :
  forallb is_byte bs = true -> base32 bs = rfc4648 5 ALPHABET bs.
Proof.
  intros Hb. unfold base32, rfc4648.
  destruct (base32_loop bs [] 0 [] Hb) as (gs & rest & buf & He & Hg & Hr & Hh & Hf);
    [by split|cbn; lia|]. change (Z.of_nat (length [])) with 0 in Hf. rewrite Hf.
  cbn [app] in He. rewrite He, chunks_concat by (done || lia).
  assert (Hm : map (fun g => alphabet_char (bits_val g)) gs =
               map (fun c => nth (Z.to_nat (bits_val (pad 5 c))) ALPHABET 0) gs).
  { clear -Hg. induction Hg as [|g gs Hg Hgs IH]; [done|]. cbn [map].
    by rewrite alphabet_chunk, IH. }
  cbn [app]. rewrite map_app, Hm. destruct (Z.ltb_spec 0 (Z.of_nat (length rest))).
  - rewrite chunks_last by lia. cbn [map]. by rewrite holds_last by (done || lia).
  - destruct rest; [by rewrite chunks_nil, app_nil_r|cbn in *; lia].
Qed.

Lemma base32_is_rfc4648_witness :
  base32 [102; 111; 111; 98] = rfc4648 5 ALPHABET [102; 111; 111; 98] /\
  base32 [102; 111; 111; 98] = lit "MZXW6YQ".
Proof.
  split; [|reflexivity]. apply (base32_is_rfc4648 [102; 111; 111; 98]). reflexivity.
Defined.
