(* ===== verification/Keys.v ===== *)
(** * Keys, MACs and random tokens (src/src/keys.rs)

    The cryptographic and encoding crates are not part of the repository: they are the
    class [Crates], with their documented behaviour as [CrateLaws]. The system's random
    source is a tape of octets that a read consumes; a tape that runs out is the
    source's failure. *)

From S2P Require Import Prelude Str Codec.

Class Crates := {
  (** [hmac]: key, then message. *)
  hmac_sha256 : bytes -> bytes -> bytes;
  hmac_sha1 : bytes -> bytes -> bytes;
  (** [sha2]. *)
  sha256 : bytes -> bytes;
  (** [argon2]: the PHC string for a salt and a password, and the check against one. *)
  argon2_hash : bytes -> bytes -> str;
  argon2_verify : bytes -> str -> bool;
  (** [base64]: [STANDARD] and [URL_SAFE_NO_PAD]. *)
  base64_decode : str -> option bytes;
  base64url_encode : bytes -> str;
  base64url_decode : str -> option bytes;
  (** Whether [lettre::Address::from_str] accepts the text. *)
  lettre_address : str -> bool;
  (** [http]: [HeaderValue::to_str], and whether [HeaderValue::try_from] accepts the text. *)
  header_to_str : bytes -> option str;
  header_text_ok : str -> bool;
}.

Definition is_base64url_char (c : Z) : bool :=
  is_ascii_alphanumeric c || (c =? 45) || (c =? 95).

(** What the crates document. *)
Class CrateLaws `{Crates} := {
  hmac_sha256_length : forall k m, length (hmac_sha256 k m) = 32%nat;
  hmac_sha1_length : forall k m, length (hmac_sha1 k m) = 20%nat;
  hmac_sha1_bytes : forall k m, forallb is_byte (hmac_sha1 k m) = true;
  sha256_length : forall m, length (sha256 m) = 32%nat;
  argon2_verify_hash : forall salt pw, argon2_verify pw (argon2_hash salt pw) = true;
  base64url_roundtrip : forall bs, forallb is_byte bs = true ->
    base64url_decode (base64url_encode bs) = Some bs;
  base64url_chars : forall bs, forallb is_base64url_char (base64url_encode bs) = true;
  base64url_length : forall bs,
    length (base64url_encode bs) = Z.to_nat ((4 * Z.of_nat (length bs) + 2) / 3);
  header_to_str_visible : forall v, forallb (fun b => (32 <=? b) && (b <=? 126)) v = true ->
    header_to_str v = Some v;
}.

(** ** Machine integers as bytes *)

(** The [n] low bytes of [x], most significant first. *)
Fixpoint be_bytes (n : nat) (x : Z) : bytes :=
  match n with
  | O => []
  | S n => be_bytes n (x / 256) ++ [x mod 256]
  end.

Definition from_be_bytes (bs : bytes) : Z := fold_left (fun n b => 256 * n + b) bs 0.

(** [i64::to_be_bytes]: two's complement. *)
Definition i64_be_bytes (x : Z) : bytes := be_bytes 8 (x mod 2 ^ 64).

Lemma be_bytes_length n x : length (be_bytes n x) = n.
Proof. revert x. induction n as [|n IH]; intros x; [done|]. cbn. rewrite length_app, IH. cbn. lia. Qed.

Lemma from_be_bytes_snoc bs b : from_be_bytes (bs ++ [b]) = 256 * from_be_bytes bs + b.
Proof. unfold from_be_bytes. by rewrite fold_left_app. Qed.

Lemma from_to_be_bytes n x : 0 <= x < 256 ^ Z.of_nat n -> from_be_bytes (be_bytes n x) = x.
Proof.
  revert x. induction n as [|n IH]; intros x Hx; [cbn in *; lia|].
  cbn [be_bytes]. rewrite Nat2Z.inj_succ, Z.pow_succ_r in Hx by lia.
  rewrite from_be_bytes_snoc, IH.
  - pose proof (Z.div_mod x 256). lia.
  - split; [apply Z.div_pos; lia|]. apply Z.div_lt_upper_bound; lia.
Qed.

(** ** Purposes *)

Definition INSTANCE_SECRET_MIN_BYTES : Z := 32.
Definition KEY_BYTES : nat := 32.

Inductive Purpose := Keycheck | TotpSeed | MailAddress.

Definition label (p : Purpose) : str :=
  match p with
  | Keycheck => lit "kohaku/keycheck"
  | TotpSeed => lit "kohaku/totp"
  | MailAddress => lit "kohaku/mail-address"
  end.

(** One part of a MAC input behind its length; [None] is the panic on 4 GiB. *)
Definition mac_part (part : bytes) : option bytes :=
  let len := Z.of_nat (length part) in
  if len <? 2 ^ 32 then Some (be_bytes 4 len ++ part) else None.

Fixpoint mac_parts (parts : list bytes) : option bytes :=
  match parts with
  | [] => Some []
  | p :: ps => a ← mac_part p; b ← mac_parts ps; Some (a ++ b)
  end.

(** The bytes fed to the MAC: the purpose's label, then the fields. *)
Definition mac_input (p : Purpose) (fields : list bytes) : option bytes :=
  mac_parts (utf8 (label p) :: fields).

Section Keys.
Context `{Crates}.

Definition compute (key : bytes) (p : Purpose) (fields : list bytes) : option bytes :=
  hmac_sha256 key <$> mac_input p fields.

(** [verify_slice] compares the whole tag. *)
Definition verify (key : bytes) (p : Purpose) (fields : list bytes) (tag : bytes) : option bool :=
  (fun m => zlist_eqb m tag) <$> compute key p fields.

(** [InstanceSecret::from_base64]. *)
Definition from_base64 (text : str) : result unit bytes :=
  bs ← ok_or tt (base64_decode text);
  if Z.of_nat (length bs) <? INSTANCE_SECRET_MIN_BYTES then Err tt else Ok bs.

Definition keycheck (secret : bytes) : option bytes := compute secret Keycheck [].

Definition matches_keycheck (secret stored : bytes) : option bool :=
  verify secret Keycheck [] stored.

(** [ct_eq]: the differences of all bytes are gathered before the answer. *)
Definition ct_eq (a b : bytes) : bool :=
  if negb (Nat.eqb (length a) (length b)) then false
  else fold_left (fun acc xy => Z.lor acc (Z.lxor xy.1 xy.2)) (zip a b) 0 =? 0.

(** ** Random values *)

Definition Tape := list Z.

(** [random_bytes] of a buffer of [n] bytes. *)
Definition random_bytes (n : nat) (t : Tape) : result unit bytes * Tape :=
  if (length t <? n)%nat then (Err tt, t)
  else (Ok (map (fun x => x mod 256) (take n t)), drop n t).

Definition random_token (t : Tape) : result unit (bytes * str) * Tape :=
  match random_bytes KEY_BYTES t with
  | (Ok bs, t) => (Ok (bs, base64url_encode bs), t)
  | (Err e, t) => (Err e, t)
  end.

Definition TOKEN_TEXT_LEN : Z := 43.

Definition is_token_text (text : str) : bool :=
  (str_len text =? TOKEN_TEXT_LEN)
  && forallb is_base64url_char (utf8 text)
  && is_ok (ok_or tt (base64url_decode text)).
End Keys.

(** ** Lemmas *)

Lemma mac_part_length p a : mac_part p = Some a ->
  a = be_bytes 4 (Z.of_nat (length p)) ++ p /\ Z.of_nat (length p) < 2 ^ 32.
Proof. unfold mac_part. destruct (Z.ltb_spec (Z.of_nat (length p)) (2 ^ 32)); [|done]. by intros [= <-]. Qed.

(** A length-prefixed part is determined by any input that starts with it. *)
Lemma mac_part_prefix p q a b x y :
  mac_part p = Some a -> mac_part q = Some b -> a ++ x = b ++ y -> p = q /\ x = y.
Proof.
  intros Hp Hq. apply mac_part_length in Hp as [-> Hp]. apply mac_part_length in Hq as [-> Hq].
  rewrite <- !(assoc_L (++)). intros He.
  apply app_inj_1 in He as [Hl He]; [|by rewrite !be_bytes_length].
  apply (f_equal from_be_bytes) in Hl. rewrite !from_to_be_bytes in Hl by (cbn; lia).
  apply app_inj_1 in He; [done|lia].
Qed.

Lemma mac_parts_inj ps qs m : mac_parts ps = Some m -> mac_parts qs = Some m -> ps = qs.
Proof.
  revert qs m. induction ps as [|p ps IH]; intros qs m Hp Hq.
  - injection Hp as <-. destruct qs as [|q qs]; [done|]. cbn in Hq.
    destruct (mac_part q) as [b|] eqn:Eq; [|done]. apply mac_part_length in Eq as [-> _].
    cbn in Hq. destruct (mac_parts qs); [|done]. by injection Hq.
  - cbn in Hp. destruct (mac_part p) as [a|] eqn:Ep; [|done]. cbn in Hp.
    destruct (mac_parts ps) as [x|] eqn:Exs; [|done]. injection Hp as <-.
    destruct qs as [|q qs]; cbn in Hq.
    + injection Hq as Hq. apply mac_part_length in Ep as [-> _]. done.
    + destruct (mac_part q) as [b|] eqn:Eq; [|done]. cbn in Hq.
      destruct (mac_parts qs) as [y|] eqn:Eys; [|done]. injection Hq as Hq.
      destruct (mac_part_prefix q p b a y x Eq Ep Hq) as [-> ->]. f_equal. by apply (IH qs x).
Qed.

Lemma label_inj p q : utf8 (label p) = utf8 (label q) -> p = q.
Proof. by destruct p, q. Qed.

Lemma ct_eq_spec a b : ct_eq a b = true <-> a = b.
Proof.
  unfold ct_eq. destruct (Nat.eqb_spec (length a) (length b)) as [Hl|Hl]; cbn.
  2: { split; [done|]. intros ->. done. }
  rewrite Z.eqb_eq. enough (forall acc,
    fold_left (fun acc xy => Z.lor acc (Z.lxor xy.1 xy.2)) (zip a b) acc = 0 <-> acc = 0 /\ a = b)
    as E by (rewrite E; tauto).
  revert b Hl. induction a as [|x a IH]; intros [|y b] Hl acc; try (cbn in Hl; lia); cbn; [tauto|].
  rewrite IH by (cbn in Hl; lia). rewrite Z.lor_eq_0_iff, Z.lxor_eq_0_iff.
  split; [intros ([-> ->] & ->); done|]. intros [-> [= -> ->]]. done.
Qed.

Lemma random_bytes_Ok n t bs t' :
  random_bytes n t = (Ok bs, t') -> length bs = n /\ forallb is_byte bs = true.
Proof.
  unfold random_bytes. destruct (Nat.ltb_spec (length t) n); [done|]. intros [= <- <-].
  rewrite length_map, length_take. split; [lia|]. apply forallb_Forall, Forall_map, Forall_forall.
  intros x _. unfold is_byte. pose proof (Z.mod_pos_bound x 256). bool_lia.
Qed.

Lemma utf8_ascii s : forallb is_base64url_char s = true -> utf8 s = s.
Proof.
  induction s as [|c s IH]; [done|]. cbn [forallb]. rewrite andb_true_iff. intros [Hc Hs].
  rewrite utf8_cons, IH by done. unfold is_base64url_char, is_ascii_alphanumeric, is_ascii_lowercase,
    is_ascii_uppercase, is_ascii_digit in Hc.
  by rewrite utf8_char_decoded1 by bool_lia.
Qed.

(** The text of a 32-byte token has the shape of one. *)
Lemma is_token_encode `{CrateLaws} bs :
  length bs = KEY_BYTES -> forallb is_byte bs = true -> is_token_text (base64url_encode bs) = true.
Proof.
  intros Hl Hb. unfold is_token_text, str_len. rewrite utf8_ascii by apply base64url_chars.
  rewrite base64url_roundtrip, base64url_chars, base64url_length, Hl by done. reflexivity.
Qed.

Lemma random_token_Ok `{Crates} t bs text t' :
  random_token t = (Ok (bs, text), t') ->
  length bs = KEY_BYTES /\ forallb is_byte bs = true /\ text = base64url_encode bs.
Proof.
  unfold random_token. destruct (random_bytes KEY_BYTES t) as [[bs'|] t1] eqn:E; [|done].
  intros [= <- <- <-]. by apply random_bytes_Ok in E as [Hl Hb].
Qed.

(** ** Theorems *)

(** No two MAC inputs share an encoding: the bytes fed to the MAC determine the purpose
    and every field, so a value made for one use never verifies for another unless the
    MAC itself collides. *)
Theorem mac_input_injective (p q : Purpose) (fs gs : list bytes) (m : bytes) :
  mac_input p fs = Some m -> mac_input q gs = Some m -> p = q /\ fs = gs.
Proof.
  intros Hp Hq. pose proof (mac_parts_inj _ _ _ Hp Hq) as [= Hl ->].
  by apply label_inj in Hl as ->.
Qed.

Lemma mac_input_injective_witness :
  mac_input TotpSeed [[1; 2]; [3]] = mac_input TotpSeed [[1; 2]; [3]] /\
  TotpSeed = TotpSeed /\ [[1; 2]; [3]] = [[1; 2]; [3]].
Proof.
  split; [reflexivity|].
  apply (mac_input_injective TotpSeed TotpSeed [[1; 2]; [3]] [[1; 2]; [3]]
           (default [] (mac_input TotpSeed [[1; 2]; [3]]))); reflexivity.
Defined.

(** A new token's text has the shape the token check asks for and decodes to the 32
    random bytes it was made of. *)
Theorem random_token_text `{CrateLaws} (t t' : Tape) (bs : bytes) (text : str) :
  random_token t = (Ok (bs, text), t') ->
  is_token_text text = true /\ base64url_decode text = Some bs /\ length bs = KEY_BYTES.
Proof.
  intros (Hl & Hb & ->)%random_token_Ok. rewrite base64url_roundtrip by done.
  split; [by apply is_token_encode|done].
Qed.
