(* ===== verification/Totp.v ===== *)
(** * Time-based codes and recovery codes as text
    (src/src/auth/totp.rs, src/src/auth/recovery.rs) *)

From S2P Require Import Prelude Str Codec Keys.

Definition STEP_SECONDS : Z := 30.
Definition DIGITS : Z := 6.
Definition SEED_BYTES : nat := 20.
Definition NONCE_BYTES : nat := 16.

(** Uppercase hexadecimal digit, as [{:02X}] writes it. *)
Definition hex_upper (d : Z) : char := if d <? 10 then 48 + d else 55 + d.

Section Totp.
Context `{Crates}.

(** [Seed::derive]; [None] is the panic of the MAC on a nonce of 4 GiB. *)
Definition derive (secret : bytes) (user_id : Z) (nonce : bytes) : option bytes :=
  take SEED_BYTES <$> compute secret TotpSeed [i64_be_bytes user_id; nonce].

Definition seed_base32 (seed : bytes) : str := base32 seed.

(** [now.div_euclid(30)]; the divisor is positive, so this is floor division. *)
Definition step_at (now : Z) : Z := now / STEP_SECONDS.

(** [code]: dynamic truncation of the HMAC, six digits. *)
Definition code (seed : bytes) (step : Z) : str :=
  let digest := hmac_sha1 seed (i64_be_bytes step) in
  let at_ i := nth (Z.to_nat i) digest 0 in
  let offset := Z.land (at_ 19) 0x0f in
  let binary := from_be_bytes
    [Z.land (at_ offset) 0x7f; at_ (offset + 1); at_ (offset + 2); at_ (offset + 3)] in
  pad_zero 6 (binary mod 1000000).

Definition is_code (text : str) : bool :=
  (str_len text =? DIGITS) && forallb is_ascii_digit (utf8 text).

(** The loop keeps the last, hence latest, step whose code matches. *)
Definition matching_step (seed : bytes) (text : str) (now : Z) : option Z :=
  if negb (is_code text) then None
  else
    let current := step_at now in
    fold_left (fun found step => if ct_eq (utf8 (code seed step)) (utf8 text)
                                 then Some step else found)
      [current - 1; current; current + 1] None.

(** [percent_encode]: everything but RFC 3986 unreserved characters. *)
Definition is_unreserved (b : Z) : bool :=
  is_ascii_alphanumeric b || (b =? 45) || (b =? 46) || (b =? 95) || (b =? 126).

Definition percent_encode_byte (b : Z) : str :=
  if is_unreserved b then [b] else [37; hex_upper (b / 16); hex_upper (b mod 16)].

Definition percent_encode (text : str) : str := concat (map percent_encode_byte (utf8 text)).

(** [key_uri]. *)
Definition key_uri (main_host email : str) (seed : bytes) : str :=
  let issuer := percent_encode (lit "Kohaku (" ++ main_host ++ lit ")") in
  lit "otpauth://totp/" ++ issuer ++ lit "%3A" ++ percent_encode email ++
  lit "?secret=" ++ seed_base32 seed ++ lit "&issuer=" ++ issuer ++
  lit "&algorithm=SHA1&digits=6&period=30".
End Totp.

(** ** Recovery codes *)

Definition COUNT : nat := 10.
Definition LENGTH : nat := 16.

(** [display]: the groups of four, joined by hyphens. *)
Definition display (code : str) : str :=
  join 45 (map (fun i => take 4 (drop (i * 4) code)) (seq 0 (LENGTH / 4))).

Definition is_base32_char (c : Z) : bool :=
  is_ascii_uppercase c || ((50 <=? c) && (c <=? 55)).

(** [recovery::normalize]. *)
Definition normalize (input : str) : option str :=
  let code := map to_ascii_uppercase_char
                (filter (fun c => negb (c =? 45) && negb (c =? 32) = true) input) in
  then_some ((char_count code =? Z.of_nat LENGTH) && forallb is_base32_char code) code.

(** ** Lemmas *)

Lemma ascii_utf8 s : forallb is_ascii_digit s = true -> utf8 s = s.
Proof.
  intros Hs. apply utf8_ascii. revert Hs. apply forallb_impl. intros c Hc.
  unfold is_base64url_char, is_ascii_alphanumeric, is_ascii_digit in *. bool_lia.
Qed.

(** Text is ASCII when its UTF-8 is. *)
Lemma utf8_digits_inv s : forallb is_ascii_digit (utf8 s) = true -> utf8 s = s.
Proof.
  induction s as [|c s IH]; [done|]. rewrite utf8_cons, forallb_app_iff. intros [Hc Hs].
  rewrite IH by done. unfold utf8_char in *. repeat case_if; [done| | |]; exfalso; cbn in Hc;
    unfold is_ascii_digit in Hc; propify;
    (destruct (Z.lt_ge_cases c 0); [lia|]);
    try (pose proof (Z.div_pos c 64)); try (pose proof (Z.div_pos c 4096));
    try (pose proof (Z.div_pos c 262144)); lia.
Qed.

Lemma is_code_digits text : is_code text = true -> forallb is_ascii_digit (utf8 text) = true.
Proof. unfold is_code. rewrite andb_true_iff. by intros [_ ?]. Qed.

Lemma land_low n k : 0 <= k -> 0 <= Z.land n (Z.ones k) < 2 ^ k.
Proof. intros Hk. rewrite Z.land_ones by done. apply Z.mod_pos_bound. lia. Qed.

Lemma normalize_spec input code :
  normalize input = Some code <->
  code = map to_ascii_uppercase_char (filter (fun c => negb (c =? 45) && negb (c =? 32) = true) input)
  /\ length code = LENGTH /\ forallb is_base32_char code = true.
Proof.
  unfold normalize. rewrite then_some_Some, andb_true_iff, Z.eqb_eq. unfold char_count.
  split; [intros [[? ?] <-]|intros (-> & ? & ?)]; (split; [|try split]); try split; auto; lia.
Qed.

Lemma base32_char_kept c : is_base32_char c = true ->
  negb (c =? 45) && negb (c =? 32) = true /\ to_ascii_uppercase_char c = c.
Proof.
  unfold is_base32_char, is_ascii_uppercase, to_ascii_uppercase_char, is_ascii_lowercase. intros Hc.
  case_if; bool_lia.
Qed.

Lemma normalize_id code :
  forallb is_base32_char code = true ->
  map to_ascii_uppercase_char (filter (fun c => negb (c =? 45) && negb (c =? 32) = true) code) = code.
Proof.
  induction code as [|c code IH]; [done|]. cbn [forallb]. rewrite andb_true_iff. intros [Hc Hs].
  destruct (base32_char_kept c Hc) as [Hk Hu]. rewrite filter_cons_True by done. cbn.
  by rewrite Hu, IH.
Qed.

(** ** Theorems *)

(** Every code is six ASCII digits whatever the seed and step, and the truncation reads
    four bytes inside the 20-byte digest. *)
Theorem code_six_digits `{CrateLaws} (seed : bytes) (step : Z) :
  is_code (code seed step) = true /\
  0 <= Z.land (nth 19 (hmac_sha1 seed (i64_be_bytes step)) 0) 0x0f
    <= Z.of_nat (length (hmac_sha1 seed (i64_be_bytes step))) - 5.
Proof.
  split.
  - unfold is_code, code. match goal with |- context [pad_zero 6 ?n] => set (v := n) end.
    destruct (pad_zero_digits 6 v) as [Hl Hd]; [lia|apply Z.mod_pos_bound; lia|].
    unfold str_len. rewrite ascii_utf8 by done. by rewrite Hl, Hd.
  - rewrite hmac_sha1_length.
    match goal with |- context [Z.land ?n 15] => pose proof (land_low n 4) as Hb end.
    cbn [Z.ones] in Hb. change (Z.ones 4) with 15 in Hb. lia.
Qed.

(** The step found is the latest of the three around the current one whose code is the
    submitted text; none is found exactly when the text is no code of any of them. *)
Theorem matching_step_latest `{Crates} (seed : bytes) (text : str) (now : Z) :
  match matching_step seed text now with
  | Some s => is_code text = true /\ step_at now - 1 <= s <= step_at now + 1 /\
              code seed s = text /\
              (forall s', s < s' <= step_at now + 1 -> code seed s' <> text)
  | None => is_code text = false \/
            (forall s', step_at now - 1 <= s' <= step_at now + 1 -> code seed s' <> text)
  end.
Proof.
  unfold matching_step. destruct (is_code text) eqn:Hc; cbn; [|by left].
  assert (Htext : utf8 text = text)
    by (by apply utf8_digits_inv, is_code_digits).
  assert (E : forall s, ct_eq (utf8 (code seed s)) (utf8 text) = true <-> code seed s = text).
  { intros s. rewrite ct_eq_spec, Htext. split; [|intros <-; done].
    intros Hu. rewrite <- Hu. symmetry. apply utf8_digits_inv. rewrite Hu, <- Htext. by apply is_code_digits. }
  assert (En : forall s, ct_eq (utf8 (code seed s)) (utf8 text) = false -> code seed s <> text).
  { intros s Hf Heq. apply E in Heq. congruence. }
  set (c := step_at now) in *.
  destruct (ct_eq (utf8 (code seed (c + 1))) (utf8 text)) eqn:E3.
  { split_and!; [done|lia|lia|by apply E|intros; lia]. }
  apply En in E3. destruct (ct_eq (utf8 (code seed c)) (utf8 text)) eqn:E2.
  { split_and!; [done|lia|lia|by apply E|]. intros s' Hs. replace s' with (c + 1) by lia. done. }
  apply En in E2. destruct (ct_eq (utf8 (code seed (c - 1))) (utf8 text)) eqn:E1.
  { split_and!; [done|lia|lia|by apply E|]. intros s' Hs.
    destruct (Z.eq_dec s' c) as [->|]; [done|]. replace s' with (c + 1) by lia. done. }
  apply En in E1. right. intros s' Hs. destruct (Z.eq_dec s' c) as [->|]; [done|].
  destruct (Z.eq_dec s' (c + 1)) as [->|]; [done|]. by replace s' with (c - 1) by lia.
Qed.

(** A recovery code typed back as it was shown is read as itself. *)
Theorem recovery_display_roundtrip (code : str) :
  length code = LENGTH -> forallb is_base32_char code = true ->
  normalize (display code) = Some code.
Proof.
  intros Hl Hc. apply normalize_spec. split; [|done].
  do 16 (destruct code as [|? code]; [discriminate Hl|]). destruct code; [|discriminate Hl].
  cbn [display map seq join LENGTH Nat.div Nat.divmod take drop app] in *.
  rewrite <- (normalize_id _ Hc) at 1. f_equal.
Qed.

Lemma recovery_display_roundtrip_witness :
  let code := lit "ABCDEFGH234567QR" in
  display code = lit "ABCD-EFGH-2345-67QR" /\ normalize (display code) = Some code.
Proof.
  split; [reflexivity|]. apply (recovery_display_roundtrip (lit "ABCDEFGH234567QR")); reflexivity.
Defined.

(** ** The QR code (totp.rs) *)

Definition QUIET_ZONE : Z := 4.

Record QrSquares := { qr_size : Z; qr_dark : list (Z * Z) }.

Definition upto (n : Z) : list Z := map Z.of_nat (seq 0 (Z.to_nat n)).

(** [qr_squares]: row by row; the symbol's size and modules are those of the encoded text. *)
Definition qr_squares (size : Z) (get_module : Z -> Z -> bool) : QrSquares :=
  {| qr_size := size + 2 * QUIET_ZONE;
     qr_dark := flat_map (fun y => flat_map (fun x =>
       if get_module x y then [(x + QUIET_ZONE, y + QUIET_ZONE)] else []) (upto size)) (upto size) |}.

Lemma elem_of_upto n x : In x (upto n) <-> 0 <= x < n.
Proof.
  unfold upto. rewrite in_map_iff. split.
  - intros (k & <- & Hk%in_seq). lia.
  - intros Hx. exists (Z.to_nat x). split; [lia|]. apply in_seq. lia.
Qed.

(** The page draws exactly the dark modules, a quiet zone away from every edge. *)
Lemma qr_squares_spec size get_module a b :
  In (a, b) (qr_dark (qr_squares size get_module)) <->
  get_module (a - QUIET_ZONE) (b - QUIET_ZONE) = true /\
  QUIET_ZONE <= a < qr_size (qr_squares size get_module) - QUIET_ZONE /\
  QUIET_ZONE <= b < qr_size (qr_squares size get_module) - QUIET_ZONE.
Proof.
  unfold qr_squares, QUIET_ZONE. cbn [qr_dark qr_size]. rewrite in_flat_map. split.
  - intros (y & Hy%elem_of_upto & Hx). apply in_flat_map in Hx as (x & Hx%elem_of_upto & Hin).
    destruct (get_module x y) eqn:E; [|done]. destruct Hin as [[= <- <-]|[]].
    replace (x + 4 - 4) with x by lia. replace (y + 4 - 4) with y by lia. split; [done|]. lia.
  - intros (Hm & Ha & Hb). exists (b - 4). split; [apply elem_of_upto; lia|]. apply in_flat_map.
    exists (a - 4). split; [apply elem_of_upto; lia|]. rewrite Hm. left. f_equal; lia.
Qed.
