(* ===== verification/Demo.v ===== *)
(** * A concrete instance of the crates

    Stand-ins that satisfy [CrateLaws], so that theorems over the crates can be run on
    inputs. Base64url is the RFC 4648 encoding itself; the hashes are short readable
    functions with the right output lengths. *)

From S2P Require Import Prelude Str Codec Keys Totp.

Definition URL_ALPHABET : str :=
  lit "ABCDEFGHIJKLMNOPQRSTUVWXYZabcdefghijklmnopqrstuvwxyz0123456789-_".

(** The position of a character. *)
Fixpoint index_of (c : Z) (l : str) : Z :=
  match l with
  | [] => 0
  | x :: l => if x =? c then 0 else 1 + index_of c l
  end.

Definition bytes_of_bits (l : list bool) : bytes :=
  map bits_val (filter (fun c => length c = 8%nat) (chunks 8 l)).

Definition url_encode (bs : bytes) : str := rfc4648 6 URL_ALPHABET bs.

Definition url_raw (s : str) : bytes :=
  bytes_of_bits (concat (map (fun c => low_bits 6 (index_of c URL_ALPHABET)) s)).

Definition url_decode (s : str) : option bytes :=
  if zlist_eqb (url_encode (url_raw s)) s then Some (url_raw s) else None.

(** The first [n] bytes of a value padded with zeros. *)
Definition digest (n : nat) (m : bytes) : bytes :=
  map (fun x => x mod 256) (take n (m ++ replicate n 0)).

#[export] Instance demo : Crates := {|
  hmac_sha256 := fun k m => digest 32 (reverse m ++ k);
  hmac_sha1 := fun k m => digest 20 (reverse m ++ k);
  sha256 := fun m => digest 32 m;
  argon2_hash := fun salt pw => map id pw ++ 36 :: salt;
  argon2_verify := fun pw h => starts_with (pw ++ [36]) h;
  base64_decode := fun s => Some s;
  base64url_encode := url_encode;
  base64url_decode := url_decode;
  lettre_address := fun s => contains_char 64 s;
  header_to_str := fun v => then_some (forallb (fun b => ((32 <=? b) && (b <=? 126)) || (b =? 9)) v) v;
  header_text_ok := fun s => forallb (fun b => ((32 <=? b) && negb (b =? 127)) || (b =? 9)) (utf8 s)
|}.

Lemma digest_length n m : length (digest n m) = n.
Proof. unfold digest. rewrite length_map, length_take, length_app, length_replicate. lia. Qed.

Lemma digest_bytes n m : forallb is_byte (digest n m) = true.
Proof.
  unfold digest. apply forallb_Forall, Forall_map, Forall_forall. intros x _.
  unfold is_byte. pose proof (Z.mod_pos_bound x 256). bool_lia.
Qed.

Lemma index_of_nth i :
  0 <= i < 64 -> index_of (nth (Z.to_nat i) URL_ALPHABET 0) URL_ALPHABET = i.
Proof.
  intros Hi.
  assert (H : forallb (fun n => index_of (nth n URL_ALPHABET 0) URL_ALPHABET =? Z.of_nat n)
                (seq 0 64) = true) by (vm_compute; reflexivity).
  rewrite forallb_forall in H. specialize (H (Z.to_nat i)). rewrite in_seq in H.
  specialize (H ltac:(lia)). propify. lia.
Qed.

Lemma chunks_fuel_length fuel k l :
  (0 < k)%nat -> Forall (fun c => (0 < length c <= k)%nat) (chunks_fuel fuel k l).
Proof.
  intros Hk. revert l. induction fuel as [|fuel IH]; intros [|x l]; cbn [chunks_fuel]; try done.
  constructor; [rewrite length_take; cbn; lia|apply IH].
Qed.

(** Padded to whole groups, the groups are the input followed by fewer than [k] zeros. *)
Lemma concat_pad_chunks k l :
  (0 < k)%nat -> exists n, (n < k)%nat /\ concat (map (pad k) (chunks k l)) = l ++ replicate n false.
Proof.
  intros Hk. induction l as [l IH] using list_length_ind.
  destruct (decide (length l <= k)%nat) as [Hl|Hl].
  - destruct l as [|x l].
    + exists 0%nat. split; [done|]. by rewrite chunks_nil.
    + rewrite chunks_last by (cbn in *; lia). exists (k - length (x :: l))%nat.
      split; [cbn in *; lia|]. cbn [map concat]. unfold pad. by rewrite app_nil_r.
  - rewrite chunks_step by lia.
    destruct (IH (drop k l)) as (n & Hn & He); [rewrite length_drop; lia|].
    exists n. split; [done|]. cbn [map concat]. rewrite He. unfold pad at 1.
    rewrite length_take, Nat.min_l, Nat.sub_diag, app_nil_r, (assoc_L (++)), take_drop by lia.
    done.
Qed.

Lemma bytes_of_bits_of bs n :
  forallb is_byte bs = true -> (n < 8)%nat -> bytes_of_bits (bits_of bs ++ replicate n false) = bs.
Proof.
  intros Hb Hn. unfold bytes_of_bits. induction bs as [|b bs IH].
  - cbn [bits_of map concat app]. destruct n as [|n]; [done|].
    rewrite chunks_last by (rewrite length_replicate; lia).
    rewrite filter_cons_False; [done|]. rewrite length_replicate. lia.
  - cbn in Hb. apply andb_true_iff in Hb as [Hb Hbs].
    change (bits_of (b :: bs)) with (byte_bits b ++ bits_of bs).
    rewrite <- (assoc_L (++)), chunks_app by (done || lia).
    rewrite filter_cons_True by done. cbn [map]. by rewrite byte_bits_val, IH.
Qed.

Lemma url_raw_encode bs : forallb is_byte bs = true -> url_raw (url_encode bs) = bs.
Proof.
  intros Hb. unfold url_raw, url_encode, rfc4648. rewrite map_map.
  assert (E : map (fun c => low_bits 6 (index_of (nth (Z.to_nat (bits_val (pad 6 c))) URL_ALPHABET 0)
                                          URL_ALPHABET)) (chunks 6 (bits_of bs)) =
              map (pad 6) (chunks 6 (bits_of bs))).
  { apply map_ext_Forall. eapply Forall_impl; [apply (chunks_fuel_length _ 6); lia|]. cbn beta; intros c Hc.
    assert (Hp : length (pad 6 c) = 6%nat)
      by (unfold pad; rewrite length_app, length_replicate; lia).
    pose proof (bits_val_bound (pad 6 c)) as Hv. rewrite Hp in Hv. cbn [Z.of_nat] in Hv.
    rewrite index_of_nth by (cbn in Hv; lia). rewrite <- Hp at 1. apply low_bits_val. }
  rewrite E. destruct (concat_pad_chunks 6 (bits_of bs)) as (n & Hn & ->); [lia|].
  apply bytes_of_bits_of; [done|lia].
Qed.

Lemma chunks_count k l :
  (0 < k)%nat -> Z.of_nat (length (chunks k l)) = (Z.of_nat (length l) + Z.of_nat k - 1) / Z.of_nat k.
Proof.
  intros Hk. induction l as [l IH] using list_length_ind.
  destruct (decide (length l <= k)%nat) as [Hl|Hl].
  - destruct l as [|x l]; [rewrite chunks_nil; cbn; symmetry; apply Z.div_small; lia|].
    rewrite chunks_last by (cbn in *; lia). apply Z.div_unique with (Z.of_nat (length l)).
    + cbn in *. lia.
    + cbn [length]. lia.
  - rewrite chunks_step by lia.
    cbn [length]. rewrite Nat2Z.inj_succ, IH, length_drop by (rewrite length_drop; lia).
    replace (Z.of_nat (length l) + Z.of_nat k - 1)
      with ((Z.of_nat (length l - k) + Z.of_nat k - 1) + 1 * Z.of_nat k) by lia.
    rewrite Z.div_add by lia. lia.
Qed.

Lemma url_encode_chars bs : forallb is_base64url_char (url_encode bs) = true.
Proof.
  assert (H : forallb is_base64url_char URL_ALPHABET = true) by (vm_compute; reflexivity).
  apply forallb_Forall, Forall_map. eapply Forall_impl; [apply (chunks_fuel_length _ 6); lia|].
  cbn beta; intros c Hc. rewrite forallb_forall in H. apply H, nth_In.
  assert (Hp : length (pad 6 c) = 6%nat)
    by (unfold pad; rewrite length_app, length_replicate; lia).
  pose proof (bits_val_bound (pad 6 c)) as Hv. rewrite Hp in Hv.
  change (length URL_ALPHABET) with 64%nat. cbn in Hv. lia.
Qed.

#[export] Instance demo_laws : CrateLaws.
Proof.
  split; cbn.
  - intros. apply digest_length.
  - intros. apply digest_length.
  - intros. apply digest_bytes.
  - intros. apply digest_length.
  - intros salt pw. apply starts_with_spec. exists salt. rewrite map_id, <- (assoc_L (++)). done.
  - intros bs Hb. unfold url_decode. rewrite url_raw_encode by done. by rewrite zlist_eqb_refl.
  - apply url_encode_chars.
  - intros bs. unfold url_encode, rfc4648. rewrite length_map.
    apply Nat2Z.inj. rewrite chunks_count, bits_of_length by lia.
    rewrite Z2Nat.id by (apply Z.div_pos; lia).
    replace (Z.of_nat (8 * length bs) + Z.of_nat 6 - 1)
      with (2 * (4 * Z.of_nat (length bs) + 2) + 1) by lia.
    change (Z.of_nat 6) with (2 * 3). rewrite <- Z.div_div by lia. f_equal.
    symmetry; apply Z.div_unique with 1; lia.
  - intros v Hv. apply then_some_Some. split; [|done]. eapply forallb_impl; [|exact Hv].
    intros b ->. done.
Qed.

Lemma random_token_text_witness :
  let r := random_token (seqZ 1 40) in
  exists text, r = (Ok (seqZ 1 32, text), seqZ 33 8) /\
    is_token_text text = true /\ base64url_decode text = Some (seqZ 1 32) /\
    length (seqZ 1 32) = KEY_BYTES.
Proof.
  exists (base64url_encode (seqZ 1 32)). split; [vm_compute; reflexivity|].
  apply (random_token_text (seqZ 1 40) (seqZ 33 8)). vm_compute. reflexivity.
Defined.

Lemma code_six_digits_witness :
  is_code (code (seqZ 0 20) 57) = true /\
  0 <= Z.land (nth 19 (hmac_sha1 (seqZ 0 20) (i64_be_bytes 57)) 0) 0x0f
    <= Z.of_nat (length (hmac_sha1 (seqZ 0 20) (i64_be_bytes 57))) - 5.
Proof. apply (code_six_digits (seqZ 0 20) 57). Defined.
