(* ===== verification/Text.v ===== *)
(** * Text rules of mail and user input (src/src/text.rs, src/src/mail/mod.rs) *)

From S2P Require Import Prelude Str Keys.

Definition between (a b c : Z) : bool := (a <=? c) && (c <=? b).

(** ** User-entered text *)

Definition is_hiding (c : char) : bool :=
  is_control c || (c =? 0x2028) || (c =? 0x2029) || (c =? 0x00AD) || (c =? 0x061C)
  || (c =? 0x180E) || between 0x200B 0x200F c || between 0x202A 0x202E c
  || between 0x2060 0x2064 c || between 0x2066 0x206F c || (c =? 0xFEFF)
  || between 0xFFF9 0xFFFB c || between 0xE0000 0xE007F c.

Definition is_single_line (text : str) : bool := negb (existsb is_hiding text).

Definition is_multi_line (text : str) : bool :=
  negb (existsb (fun c => negb (c =? 10) && is_hiding c) text).

(** [replace("\r\n", "\n")]: matches do not overlap. *)
Fixpoint replace_crlf (s : str) : str :=
  match s with
  | 13 :: 10 :: s => 10 :: replace_crlf s
  | c :: s => c :: replace_crlf s
  | [] => []
  end.

(** [str::replace] of one character by another. *)
Definition replace_char (a b : char) (s : str) : str := map (fun c => if c =? a then b else c) s.

Definition normalize_line_endings (text : str) : str := replace_char 13 10 (replace_crlf text).

(** ** Mail text *)

Definition TEXT_CAP : Z := 200.
Definition ADDRESS_CAP : Z := 254.

(** [cap]: at most 200 characters, the last one an ellipsis when cut. *)
Definition cap (text : str) : str :=
  if char_count text <=? TEXT_CAP then text else take (Z.to_nat (TEXT_CAP - 1)) text ++ [0x2026].

Definition is_line_break_or_control (c : char) : bool :=
  is_control c || (c =? 0x2028) || (c =? 0x2029).

Definition subject (text : str) : str :=
  cap (filter (fun c => is_line_break_or_control c = false) text).

Definition is_bidi (c : char) : bool :=
  (c =? 0x061C) || (c =? 0x200E) || (c =? 0x200F) || between 0x202A 0x202E c
  || between 0x2066 0x2069 c.

(** The loop of [single_line]; [in_break] is whether the last character was a break. *)
Fixpoint single_line_loop (in_break : bool) (s : str) : str :=
  match s with
  | [] => []
  | c :: s =>
      if is_line_break_or_control c
      then (if in_break then [] else [32]) ++ single_line_loop true s
      else (if is_bidi c then [] else [c]) ++ single_line_loop false s
  end.

Definition single_line (text : str) : str := cap (single_line_loop false text).

Definition quote_for_subject (text : str) : str :=
  34 :: replace_char 34 39 (single_line text) ++ [34].

Definition quote_for_body (text : str) : str := lit "> " ++ single_line text.

(** [validate_recipient]. *)
Definition validate_recipient `{Crates} (address : str) : result unit unit :=
  let plain := (char_count address <=? ADDRESS_CAP)
    && Nat.eqb (length (filter (fun c => c = 64) address)) 1
    && negb (existsb (fun c => is_whitespace c || is_control c) address) in
  if plain && lettre_address address then Ok tt else Err tt.

(** ** Lemmas *)

Lemma existsb_false {A} (p : A -> bool) l :
  existsb p l = false <-> Forall (fun x => p x = false) l.
Proof.
  induction l as [|x l IH]; cbn; [done|]. by rewrite orb_false_iff, Forall_cons, IH.
Qed.

Lemma is_single_line_Forall s : is_single_line s = true <-> Forall (fun c => is_hiding c = false) s.
Proof. unfold is_single_line. by rewrite negb_true_iff, existsb_false. Qed.

Lemma is_multi_line_Forall s :
  is_multi_line s = true <-> Forall (fun c => negb (c =? 10) && is_hiding c = false) s.
Proof. unfold is_multi_line. by rewrite negb_true_iff, existsb_false. Qed.

Lemma replace_char_not_in a b s : a <> b -> a ∉ replace_char a b s.
Proof.
  intros Hab H. apply list_elem_of_fmap in H as (c & Hc & _). destruct (Z.eqb_spec c a); congruence.
Qed.

Lemma replace_char_id a b s : a ∉ s -> replace_char a b s = s.
Proof.
  induction s as [|c s IH]; [done|]. intros H. cbn.
  destruct (Z.eqb_spec c a) as [->|]; [set_solver|]. f_equal. apply IH. set_solver.
Qed.

Lemma replace_crlf_id s : 13 ∉ s -> replace_crlf s = s.
Proof.
  induction s as [|c s IH]; [done|]. intros H. cbn.
  assert (Hc : c <> 13) by set_solver. rewrite IH by set_solver.
  destruct c as [|p|]; try done. do 5 (destruct p as [p|p|]; try done).
Qed.

Lemma normalize_line_endings_idem s :
  normalize_line_endings (normalize_line_endings s) = normalize_line_endings s.
Proof.
  assert (H : 13 ∉ normalize_line_endings s) by (by apply replace_char_not_in).
  unfold normalize_line_endings at 1. by rewrite replace_crlf_id, replace_char_id.
Qed.

Lemma normalize_line_endings_no_cr s : 13 ∉ normalize_line_endings s.
Proof. by apply replace_char_not_in. Qed.

Lemma cap_length s : char_count (cap s) <= TEXT_CAP.
Proof.
  unfold cap, char_count, TEXT_CAP. case_if; [by propify|]. propify.
  rewrite length_app, length_take. cbn [length]. lia.
Qed.

Lemma cap_Forall (P : Z -> Prop) s : P 0x2026 -> Forall P s -> Forall P (cap s).
Proof.
  intros He Hs. unfold cap. case_if; [done|]. apply Forall_app. split; [by apply Forall_take|].
  by repeat constructor.
Qed.

Lemma single_line_chars b s :
  Forall (fun c => is_line_break_or_control c = false /\ is_bidi c = false) (single_line_loop b s).
Proof.
  revert b. induction s as [|c s IH]; intros b; cbn; [done|].
  destruct (is_line_break_or_control c) eqn:Hc; apply Forall_app; split; try apply IH.
  - destruct b; repeat constructor.
  - destruct (is_bidi c) eqn:Hb; repeat constructor; done.
Qed.

Lemma single_line_ok s :
  Forall (fun c => is_line_break_or_control c = false /\ is_bidi c = false) (single_line s).
Proof. apply cap_Forall; [done|apply single_line_chars]. Qed.

Lemma subject_clean text : Forall (fun c => is_line_break_or_control c = false) (subject text).
Proof.
  apply cap_Forall; [done|]. apply Forall_forall. intros c Hc. by apply list_elem_of_filter in Hc as [? _].
Qed.

(** ** Theorems *)

(** Whatever text a visitor supplies, what reaches a mail header or a quoted body line
    is one line: no line break, control or bidirectional character, at most 200
    characters of it, and inside a subject's quotes no further quote. *)
Theorem mail_text_is_one_line (text : str) :
  (char_count (subject text) <= TEXT_CAP /\
   Forall (fun c => is_line_break_or_control c = false) (subject text)) /\
  (char_count (quote_for_body text) <= TEXT_CAP + 2 /\
   Forall (fun c => is_line_break_or_control c = false /\ is_bidi c = false)
     (quote_for_body text)) /\
  (exists inner, quote_for_subject text = 34 :: (inner ++ [34]) /\ (34 ∉ inner) /\
     char_count inner <= TEXT_CAP /\
     Forall (fun c => is_line_break_or_control c = false /\ is_bidi c = false) inner).
Proof.
  split_and!.
  - apply cap_length.
  - apply subject_clean.
  - unfold quote_for_body, char_count. rewrite length_app. pose proof (cap_length (single_line_loop false text)) as H.
    unfold char_count in H. unfold single_line. cbn [lit length] in *. vm_compute (length _) at 1. lia.
  - apply Forall_app. split; [repeat constructor|]. apply single_line_ok.
  - eexists. split; [done|]. split; [by apply replace_char_not_in|]. split.
    + unfold char_count, replace_char. rewrite length_map. apply cap_length.
    + apply Forall_map. eapply Forall_impl; [apply single_line_ok|]. intros c Hc. cbn.
      by destruct (c =? 34).
Qed.
