(* ===== verification/Time.v ===== *)
(** * Wall-clock time (src/src/time.rs)

    [format_utc_minute], the time format of mail bodies, over the proleptic
    Gregorian calendar, and the clock that limiters, jobs and expiry checks
    read. Unix times are [Z] seconds, monotonic times [Z] nanoseconds. *)

From S2P Require Import Prelude Str.

(** ** The calendar of [format_utc_minute] *)

Record civil := Civil { year : Z; month : Z; day : Z }.

(** Howard Hinnant's algorithm, from days since the epoch. *)
Definition civil_from_days (days : Z) : civil :=
  let z := days + 719468 in
  let era := z / 146097 in
  let doe := z mod 146097 in
  let yoe := (doe - doe / 1460 + doe / 36524 - doe / 146096) / 365 in
  let doy := doe - (365 * yoe + yoe / 4 - yoe / 100) in
  let mp := (5 * doy + 2) / 153 in
  let day := doy - (153 * mp + 2) / 5 + 1 in
  let month := if mp <? 10 then mp + 3 else mp - 9 in
  let year := yoe + era * 400 + (if month <=? 2 then 1 else 0) in
  Civil year month day.

Definition format_utc_minute (unix : Z) : str :=
  let days := unix / 86400 in
  let seconds := unix mod 86400 in
  let c := civil_from_days days in
  pad_zero 4 (year c) ++ lit "-" ++ pad_zero 2 (month c) ++ lit "-" ++ pad_zero 2 (day c)
  ++ lit " " ++ pad_zero 2 (seconds / 3600) ++ lit ":"
  ++ pad_zero 2 (seconds mod 3600 / 60) ++ lit " UTC".

(** ** The reference calendar *)

Definition is_leap (y : Z) : bool :=
  (y mod 4 =? 0) && negb (y mod 100 =? 0) || (y mod 400 =? 0).

Definition leap_day (y : Z) : Z := if is_leap y then 1 else 0.

Definition days_in_month (y m : Z) : Z :=
  if m =? 2 then 28 + leap_day y
  else if (m =? 4) || (m =? 6) || (m =? 9) || (m =? 11) then 30 else 31.

(** Days from the epoch to 1 January of year [y]. *)
Definition days_before_year (y : Z) : Z :=
  365 * (y - 1970) + ((y - 1) / 4 - (y - 1) / 100 + (y - 1) / 400) - 477.

(** Days of year [y] before month [m], by adding up the months. *)
Fixpoint days_before_month (y : Z) (m : nat) : Z :=
  match m with
  | O => 0
  | S m => days_before_month y m + (if (m =? 0)%nat then 0 else days_in_month y (Z.of_nat m))
  end.

Definition valid_date (c : civil) : Prop :=
  1 <= month c <= 12 /\ 1 <= day c <= days_in_month (year c) (month c).

(** The reference: days since the epoch of a date. *)
Definition day_number (c : civil) : Z :=
  days_before_year (year c) + days_before_month (year c) (Z.to_nat (month c)) + (day c - 1).

Lemma leap_count y :
  y / 4 - y / 100 + y / 400 = (y - 1) / 4 - (y - 1) / 100 + (y - 1) / 400 + leap_day y.
Proof.
  unfold leap_day, is_leap.
  destruct (Z.eqb_spec (y mod 4) 0), (Z.eqb_spec (y mod 100) 0), (Z.eqb_spec (y mod 400) 0);
    cbn; Z.to_euclidean_division_equations; lia.
Qed.

(** The years of the reference follow each other, starting from 1970. *)
Lemma days_before_year_1970 : days_before_year 1970 = 0.
Proof. done. Qed.

Lemma days_before_year_succ y :
  days_before_year (y + 1) = days_before_year y + 365 + leap_day y.
Proof. unfold days_before_year. pose proof (leap_count y). replace (y + 1 - 1) with y by lia. lia. Qed.

Lemma leap_day_bound y : 0 <= leap_day y <= 1.
Proof. unfold leap_day. case_if; lia. Qed.

(** ** The algorithm against the reference *)

(** Day of the era to March-based year and day of that year. *)
Lemma year_of_era doe :
  0 <= doe < 146097 ->
  let yoe := (doe - doe / 1460 + doe / 36524 - doe / 146096) / 365 in
  let doy := doe - (365 * yoe + yoe / 4 - yoe / 100) in
  0 <= yoe <= 399 /\ 0 <= doy <= 364 + leap_day (yoe + 1).
Proof.
  intros H yoe doy. unfold leap_day, is_leap. subst yoe doy.
  repeat match goal with |- context [Z.eqb ?a ?b] => destruct (Z.eqb_spec a b) end;
    cbn; Z.to_euclidean_division_equations; lia.
Qed.

Lemma is_leap_period y k : is_leap (y + k * 400) = is_leap y.
Proof.
  unfold is_leap.
  replace ((y + k * 400) mod 4) with (y mod 4)
    by (replace (y + k * 400) with (y + (k * 100) * 4) by lia; by rewrite Z.mod_add by lia).
  replace ((y + k * 400) mod 100) with (y mod 100)
    by (replace (y + k * 400) with (y + (k * 4) * 100) by lia; by rewrite Z.mod_add by lia).
  by rewrite Z.mod_add by lia.
Qed.

Ltac eval_in t := let v := eval vm_compute in t in change t with v; cbv beta iota.

(** Evaluates the closed arithmetic left by a case on the month. *)
Ltac eval_closed :=
  repeat match goal with
  | |- context [(153 * ?a + 2) / 5] => is_ground a; eval_in ((153 * a + 2) / 5)
  | |- context [?a <? 10] => is_ground a; eval_in (a <? 10)
  | |- context [?a <=? 2] => is_ground a; eval_in (a <=? 2)
  | |- context [Z.to_nat ?a] => is_ground a; eval_in (Z.to_nat a)
  | |- context [Z.of_nat ?a] => is_ground a; eval_in (Z.of_nat a)
  | |- context [(?a =? 0)%nat] => is_ground a; eval_in (a =? 0)%nat
  | |- context [?a =? ?b] => is_ground a; eval_in (a =? b)
  end; cbn [orb].

(** The twelve March-based months, as the code computes them. *)
Lemma month_cases doy y :
  0 <= doy <= 364 + leap_day (y + 1) ->
  let mp := (5 * doy + 2) / 153 in
  let d := doy - (153 * mp + 2) / 5 + 1 in
  let m := if mp <? 10 then mp + 3 else mp - 9 in
  let yy := y + (if m <=? 2 then 1 else 0) in
  valid_date (Civil yy m d) /\
  days_before_year yy + days_before_month yy (Z.to_nat m) + (d - 1) =
  365 * (y - 1970) + (y / 4 - y / 100 + y / 400) - 477 + 59 + doy.
Proof.
  intros Hdoy mp d m yy.
  pose proof (leap_day_bound y). pose proof (leap_day_bound (y + 1)).
  assert (Hmp : 0 <= mp <= 11) by (subst mp; Z.to_euclidean_division_equations; lia).
  pose proof (leap_count y). pose proof (days_before_year_succ y).
  assert (Hb : 0 <= 5 * doy + 2 - 153 * mp < 153)
    by (subst mp; Z.to_euclidean_division_equations; lia).
  clearbody mp.
  assert (mp = 0 \/ mp = 1 \/ mp = 2 \/ mp = 3 \/ mp = 4 \/ mp = 5 \/ mp = 6 \/ mp = 7 \/
          mp = 8 \/ mp = 9 \/ mp = 10 \/ mp = 11) as Hcases by lia.
  repeat (destruct Hcases as [->|Hcases]); [..|subst mp];
    subst d m yy; unfold valid_date; cbn [year month day]; eval_closed;
    cbn [days_before_month]; unfold days_in_month; eval_closed; rewrite ?Z.add_0_r;
    unfold days_before_year in *; lia.
Qed.

Lemma civil_from_days_spec days :
  valid_date (civil_from_days days) /\ day_number (civil_from_days days) = days.
Proof.
  unfold civil_from_days. set (z := days + 719468). set (era := z / 146097).
  set (doe := z mod 146097).
  assert (Hdoe : 0 <= doe < 146097) by (apply Z.mod_pos_bound; lia).
  assert (Hz : z = 146097 * era + doe) by (apply Z.div_mod; lia).
  destruct (year_of_era doe Hdoe) as [Hyoe Hdoy].
  set (yoe := (doe - doe / 1460 + doe / 36524 - doe / 146096) / 365) in *.
  set (doy := doe - (365 * yoe + yoe / 4 - yoe / 100)) in *.
  assert (Hl : leap_day (yoe + era * 400 + 1) = leap_day (yoe + 1)).
  { unfold leap_day. replace (yoe + era * 400 + 1) with (yoe + 1 + era * 400) by lia.
    by rewrite is_leap_period. }
  rewrite <- Hl in Hdoy.
  destruct (month_cases doy (yoe + era * 400) Hdoy) as [Hv Hn].
  split; [exact Hv|]. unfold day_number. cbn [year month day]. rewrite Hn.
  assert (Hq : (yoe + era * 400) / 4 - (yoe + era * 400) / 100 + (yoe + era * 400) / 400
               = 97 * era + yoe / 4 - yoe / 100)
    by (clear -Hyoe; Z.to_euclidean_division_equations; lia).
  rewrite Hq. subst doy z. lia.
Qed.

(** Every date lies in its own year, so the reference is injective. *)
Lemma days_in_month_pos y m : 28 <= days_in_month y m <= 31.
Proof. unfold days_in_month. pose proof (leap_day_bound y). repeat case_if; lia. Qed.

Lemma days_before_month_mono y m n :
  (m <= n)%nat -> days_before_month y m <= days_before_month y n.
Proof.
  induction 1 as [|n _ IH]; [lia|]. cbn [days_before_month].
  pose proof (days_in_month_pos y (Z.of_nat n)). case_if; lia.
Qed.

Lemma days_before_year_mono y y' : y <= y' -> days_before_year y <= days_before_year y'.
Proof.
  intros H. replace y' with (y + Z.of_nat (Z.to_nat (y' - y))) by lia.
  induction (Z.to_nat (y' - y)) as [|n IH]; [by rewrite Z.add_0_r|].
  replace (y + Z.of_nat (S n)) with (y + Z.of_nat n + 1) by lia.
  rewrite days_before_year_succ. pose proof (leap_day_bound (y + Z.of_nat n)). lia.
Qed.

Lemma days_before_month_end y : days_before_month y 13 = 365 + leap_day y.
Proof. cbn [days_before_month]. eval_closed. unfold days_in_month. eval_closed. lia. Qed.

Lemma day_in_month c :
  valid_date c ->
  days_before_month (year c) (Z.to_nat (month c)) + day c
  <= days_before_month (year c) (S (Z.to_nat (month c))).
Proof.
  intros [Hm Hd]. cbn [days_before_month].
  rewrite (proj2 (Nat.eqb_neq _ _)) by lia. rewrite Z2Nat.id by lia. lia.
Qed.

Lemma days_before_month_nonneg y m : 0 <= days_before_month y m.
Proof. apply (days_before_month_mono y 0 m). lia. Qed.

Lemma day_number_year c :
  valid_date c ->
  days_before_year (year c) <= day_number c < days_before_year (year c + 1).
Proof.
  intros Hv. pose proof (day_in_month c Hv) as Hd. destruct Hv as [Hm Hday].
  unfold day_number. rewrite days_before_year_succ.
  pose proof (days_before_month_nonneg (year c) (Z.to_nat (month c))).
  pose proof (days_before_month_mono (year c) (S (Z.to_nat (month c))) 13 ltac:(lia)).
  rewrite days_before_month_end in *. lia.
Qed.

Lemma day_number_inj c1 c2 :
  valid_date c1 -> valid_date c2 -> day_number c1 = day_number c2 -> c1 = c2.
Proof.
  intros H1 H2 Heq.
  pose proof (day_number_year c1 H1) as Y1. pose proof (day_number_year c2 H2) as Y2.
  assert (Hy : year c1 = year c2).
  { destruct (Z.lt_trichotomy (year c1) (year c2)) as [Hlt|[?|Hlt]]; [|done|].
    - pose proof (days_before_year_mono (year c1 + 1) (year c2) ltac:(lia)). lia.
    - pose proof (days_before_year_mono (year c2 + 1) (year c1) ltac:(lia)). lia. }
  pose proof (day_in_month c1 H1) as D1. pose proof (day_in_month c2 H2) as D2.
  unfold day_number in Heq. destruct H1 as [M1 E1], H2 as [M2 E2]. rewrite Hy in *.
  assert (Hm : month c1 = month c2).
  { destruct (Z.lt_trichotomy (month c1) (month c2)) as [Hlt|[?|Hlt]]; [|done|].
    - pose proof (days_before_month_mono (year c2) (S (Z.to_nat (month c1)))
        (Z.to_nat (month c2)) ltac:(lia)). lia.
    - pose proof (days_before_month_mono (year c2) (S (Z.to_nat (month c2)))
        (Z.to_nat (month c1)) ltac:(lia)). lia. }
  destruct c1, c2; cbn in *. subst. f_equal. lia.
Qed.

(** ** The clock *)

Definition I64_MAX : Z := 2 ^ 63 - 1.

(** [now_unix] from the seconds since the epoch, [None] for a clock before 1970. *)
Definition now_unix (since_epoch : option Z) : Z :=
  match since_epoch with Some s => Z.min s I64_MAX | None => 0 end.

(** A manual clock's monotonic time in nanoseconds and wall time in seconds. *)
Record ManualTime := { instant : Z; unix : Z }.

Inductive Clock := System | Manual (t : ManualTime).

(** [Clock::advance] by a duration in nanoseconds. *)
Definition advance (c : Clock) (by_ns : Z) : Clock :=
  match c with
  | System => System
  | Manual t =>
      Manual {| instant := instant t + by_ns;
                unix := unix t + Z.min (by_ns / 10 ^ 9) I64_MAX |}
  end.

(** ** Properties *)

(** What [format_utc_minute] prints for a date, an hour and a minute. *)
Definition utc_minute_text (c : civil) (h mi : Z) : str :=
  pad_zero 4 (year c) ++ lit "-" ++ pad_zero 2 (month c) ++ lit "-" ++ pad_zero 2 (day c)
  ++ lit " " ++ pad_zero 2 h ++ lit ":" ++ pad_zero 2 mi ++ lit " UTC".

(** [format_utc_minute] prints the minute that contains the given time: the
    printed date is a date of the Gregorian calendar, counted from the epoch by the
    reference [day_number], and it is the only date with that number; hour and minute
    are in range; and the instant printed is at most 59 seconds before [unix]. Holds
    for every integer, before 1970 and before year 1 too. *)
Theorem format_utc_minute_correct unix :
  exists c h mi,
    format_utc_minute unix = utc_minute_text c h mi /\
    valid_date c /\ 0 <= h < 24 /\ 0 <= mi < 60 /\
    (let t := 86400 * day_number c + 3600 * h + 60 * mi in t <= unix < t + 60) /\
    (forall c', valid_date c' -> day_number c' = day_number c -> c' = c).
Proof.
  destruct (civil_from_days_spec (unix / 86400)) as [Hv Hn].
  exists (civil_from_days (unix / 86400)), (unix mod 86400 / 3600),
    (unix mod 86400 mod 3600 / 60).
  split; [done|]. split; [done|]. rewrite Hn.
  split; [Z.to_euclidean_division_equations; lia|].
  split; [Z.to_euclidean_division_equations; lia|].
  split; [cbv zeta; Z.to_euclidean_division_equations; lia|].
  intros c' Hc' He. apply day_number_inj; [done..|]. by rewrite Hn.
Qed.

(** The vectors of the unit test [utc_minutes]. *)
Example utc_minutes :
  format_utc_minute 0 = lit "1970-01-01 00:00 UTC" /\
  format_utc_minute 951782400 = lit "2000-02-29 00:00 UTC" /\
  format_utc_minute 1800000000 = lit "2027-01-15 08:00 UTC" /\
  format_utc_minute 4107542399 = lit "2100-02-28 23:59 UTC" /\
  format_utc_minute (-1) = lit "1969-12-31 23:59 UTC".
Proof. vm_compute. repeat split. Qed.
