(* ===== verification/Http.v ===== *)
(** * The HTTP vocabulary shared by the handlers

    Methods as the [http] crate names them, and what a handler answers. A header value is
    its bytes; what the crate makes of them is a field of [Crates]. *)

From S2P Require Import Prelude Str.

Inductive Method := GET | HEAD | POST | OtherMethod (name : str).

#[global] Instance Method_eq_dec : EqDecision Method.
Proof. solve_decision. Defined.

(** ** Answers *)

(** [limits::permits::Bound]: a named concurrency bound. *)
Inductive Bound := PublicWrites | Hashing.

Definition bound_name (b : Bound) : str :=
  match b with PublicWrites => lit "public_writes" | Hashing => lit "hashing" end.

(** A handler's answer over its own pages. *)
Inductive Response (P : Type) :=
| Html (page : P)                                  (** 200 and the page *)
| Refused (page : P)                               (** 422 and the page *)
| SeeOther (location : str) (set_cookies : list str)  (** 303 *)
| PermanentRedirect (location : str)               (** 308 *)
| Status (code : Z)                                (** the error page of [code] *)
| BusyAnswer (bound : Bound).                      (** 503, counted *)
Arguments Html {P} page.
Arguments Refused {P} page.
Arguments SeeOther {P} location set_cookies.
Arguments PermanentRedirect {P} location.
Arguments Status {P} code.
Arguments BusyAnswer {P} bound.
