(* ===== verification/Net.v ===== *)
(** * Addresses, trusted proxies and the client address

    [IpAddr] with the standard library's parser ([core::net]), the
    [KOHAKU_TRUSTED_PROXIES] networks of src/src/config.rs and the client address
    resolution of src/src/limits/client_ip.rs. Addresses are their bits as [Z]. *)

From S2P Require Import Prelude Str.

Inductive IpAddr := V4 (bits : Z) | V6 (bits : Z).

#[global] Instance IpAddr_eq_dec : EqDecision IpAddr.
Proof. solve_decision. Defined.

(** Addresses whose bits fit their width. *)
Definition ip_wf (a : IpAddr) : bool :=
  match a with
  | V4 b => (0 <=? b) && (b <? 2 ^ 32)
  | V6 b => (0 <=? b) && (b <? 2 ^ 128)
  end.

Definition is_ipv4 (a : IpAddr) : bool := match a with V4 _ => true | V6 _ => false end.

(** [Ipv6Addr::to_ipv4_mapped]: [::ffff:a.b.c.d]. *)
Definition to_ipv4_mapped (bits : Z) : option Z :=
  if Z.shiftr bits 32 =? 0xFFFF then Some (Z.land bits (2 ^ 32 - 1)) else None.

(** [IpAddr::to_canonical], the code's [canonical]. *)
Definition canonical (a : IpAddr) : IpAddr :=
  match a with
  | V4 b => V4 b
  | V6 b => match to_ipv4_mapped b with Some v4 => V4 v4 | None => V6 b end
  end.

(** ** The standard library's address parser *)

Module Parser.
(** A parser consumes a prefix of the bytes; [None] leaves the input untouched
    ([read_atomically]). *)
Definition t (A : Type) := bytes -> option (A * bytes).

Definition to_digit (radix : Z) (c : Z) : option Z :=
  let d := if is_ascii_digit c then Some (c - 48)
           else if (97 <=? c) && (c <=? 102) then Some (c - 87)
           else if (65 <=? c) && (c <=? 70) then Some (c - 55)
           else None in
  opt_filter (fun d => d <? radix) d.

Definition read_given_char (c : Z) : t unit := fun p =>
  match p with d :: p => if d =? c then Some (tt, p) else None | [] => None end.

(** The digit loop of [read_number]: value, digit count and rest, [None] once more
    than [max_digits] digits were read. *)
Fixpoint read_digits (radix : Z) (max_digits : nat) (p : bytes) (acc : Z) (count : nat)
  : option (Z * nat * bytes) :=
  match p with
  | [] => Some (acc, count, [])
  | c :: p' =>
      match to_digit radix c with
      | None => Some (acc, count, p)
      | Some d =>
          if (max_digits <? S count)%nat then None
          else read_digits radix max_digits p' (acc * radix + d) (S count)
      end
  end.

(** [read_number] into an unsigned type of maximum [top]. *)
Definition read_number (radix : Z) (max_digits : nat) (allow_zero_prefix : bool) (top : Z)
  : t Z := fun p =>
  let has_leading_zero := match p with c :: _ => c =? 48 | [] => false end in
  '(n, count, rest) ← read_digits radix max_digits p 0 0%nat;
  if (count =? 0)%nat then None
  else if negb allow_zero_prefix && has_leading_zero && (1 <? count)%nat then None
  else if n <=? top then Some (n, rest) else None.

Definition read_separator {A} (sep : Z) (index : nat) (inner : t A) : t A := fun p =>
  if (index =? 0)%nat then inner p
  else '(_, p) ← read_given_char sep p; inner p.

Definition read_octet (index : nat) : t Z :=
  read_separator 46 index (read_number 10 3 false 255).

Definition read_ipv4_addr : t Z := fun p =>
  '(a, p) ← read_octet 0 p;
  '(b, p) ← read_octet 1 p;
  '(c, p) ← read_octet 2 p;
  '(d, p) ← read_octet 3 p;
  Some (((a * 256 + b) * 256 + c) * 256 + d, p).

(** [read_groups] into [remaining] more 16-bit groups, the [i]-th next: the groups
    read, whether they end in an embedded IPv4 address, and the rest. *)
Fixpoint read_groups (remaining i : nat) (p : bytes) : list Z * bool * bytes :=
  match remaining with
  | O => ([], false, p)
  | S r =>
      let ipv4 := if (1 <=? r)%nat then read_separator 58 i read_ipv4_addr p else None in
      match ipv4 with
      | Some (v4, p) => ([Z.shiftr v4 16; Z.land v4 0xFFFF], true, p)
      | None =>
          match read_separator 58 i (read_number 16 4 true 0xFFFF) p with
          | Some (g, p) =>
              let '(gs, v4, p) := read_groups r (S i) p in (g :: gs, v4, p)
          | None => ([], false, p)
          end
      end
  end.

Definition of_groups (gs : list Z) : Z := fold_left (fun n g => n * 65536 + g) gs 0.

Definition read_ipv6_addr : t Z := fun p =>
  let '(head, head_ipv4, p) := read_groups 8 0 p in
  let head_size := length head in
  if (head_size =? 8)%nat then Some (of_groups head, p)
  else if head_ipv4 then None
  else
    '(_, p) ← read_given_char 58 p;
    '(_, p) ← read_given_char 58 p;
    let limit := (8 - (head_size + 1))%nat in
    let '(tail, _, p) := read_groups limit 0 p in
    Some (of_groups (head ++ replicate (8 - head_size - length tail) 0 ++ tail), p).

Definition read_ip_addr : t IpAddr := fun p =>
  match read_ipv4_addr p with
  | Some (v4, p) => Some (V4 v4, p)
  | None => '(v6, p) ← read_ipv6_addr p; Some (V6 v6, p)
  end.
End Parser.

(** [str::parse::<IpAddr>]: the whole text is one address. *)
Definition parse_ip (text : str) : option IpAddr :=
  match Parser.read_ip_addr (utf8 text) with
  | Some (a, []) => Some a
  | _ => None
  end.

Example parse_ip_vectors :
  map parse_ip
    [lit "198.51.100.7"; lit "198.51.100.007"; lit "198.51.100.7:4711"; lit "[2001:db8::1]";
     lit "fe80::1%eth0"; lit "example.org"; lit ""; lit "::"; lit "::ffff:1.2.3.4";
     lit "1:2:3:4:5:6:7:8"; lit "1:2:3:4:5:6:7::"; lit "1::2::3"; lit "256.1.1.1"; lit "::1.2.3"]
  = [Some (V4 0xC6336407); None; None; None; None; None; None; Some (V6 0);
     Some (V6 0xFFFF01020304); Some (V6 0x00010002000300040005000600070008);
     Some (V6 0x00010002000300040005000600070000); None; None; None].
Proof. vm_compute. reflexivity. Qed.

(** ** Trusted proxies (config.rs) *)

(** An exact address (full-length prefix) or a CIDR block. *)
Record IpNet := { address : IpAddr; prefix : Z }.

Inductive TrustedProxies := TrustNone | TrustList (nets : list IpNet).

(** [T::MAX.checked_shl(w - prefix).unwrap_or(0)] for a [w]-bit [T]. *)
Definition net_mask (w prefix : Z) : Z :=
  let n := w - prefix in
  if n <? w then Z.land (Z.shiftl (2 ^ w - 1) n) (2 ^ w - 1) else 0.

Definition net_contains (net : IpNet) (a : IpAddr) : bool :=
  match address net, a with
  | V4 n, V4 a =>
      let mask := net_mask 32 (prefix net) in Z.land n mask =? Z.land a mask
  | V6 n, V6 a =>
      let mask := net_mask 128 (prefix net) in Z.land n mask =? Z.land a mask
  | _, _ => false
  end.

(** [TrustedProxies::contains] of a canonical peer. *)
Definition trusts (t : TrustedProxies) (peer : IpAddr) : bool :=
  match t with
  | TrustNone => false
  | TrustList nets => existsb (fun net => net_contains net peer) nets
  end.

(** ** The client address (limits/client_ip.rs) *)

Inductive Warning := XffFromUntrustedPeer | TrustedPeerSentNoXff | PrivateClient.

#[global] Instance Warning_eq_dec : EqDecision Warning.
Proof. solve_decision. Defined.

Record Resolution := { client : IpAddr; warnings : list Warning }.

(** Loopback, RFC 1918, ULA or link-local. *)
Definition is_private (a : IpAddr) : bool :=
  match a with
  | V4 b =>
      (Z.shiftr b 24 =? 127)
      || ((Z.shiftr b 24 =? 10) || (Z.shiftr b 20 =? 0xAC1) || (Z.shiftr b 16 =? 0xC0A8))
      || (Z.shiftr b 16 =? 0xA9FE)
  | V6 b =>
      let first := Z.shiftr b 112 in
      (b =? 1) || (Z.land first 0xFE00 =? 0xFC00) || (Z.land first 0xFFC0 =? 0xFE80)
  end.

(** One entry, trimmed of spaces and tabs. *)
Definition parse_entry (entry : str) : option IpAddr :=
  let entry := trim_matches (fun c => (c =? 32) || (c =? 9)) entry in
  if bool_decide (entry = []) || negb (forallb is_ascii_graphic (utf8 entry)) then None
  else canonical <$> parse_ip entry.

(** Every entry of one header line. *)
Definition parse_line (line : bytes) : option (list IpAddr) :=
  text ← from_utf8 line;
  mapM parse_entry (split 44 text).

(** Every entry of every line, in received order; [None] when any is malformed. *)
Fixpoint parse_entries (lines : list bytes) : option (list IpAddr) :=
  match lines with
  | [] => Some []
  | line :: lines =>
      es ← parse_line line; rest ← parse_entries lines; Some (es ++ rest)
  end.

(** [entries.iter().rev().find(untrusted).unwrap_or(entries\[0\])]; an empty list of
    entries indexes out of range, which [Option::unwrap_or] evaluates eagerly. *)
Definition rightmost_untrusted (t : TrustedProxies) (entries : list IpAddr)
  : option IpAddr :=
  match entries with
  | [] => None
  | first :: _ =>
      match find_first (fun e => negb (trusts t e)) (reverse entries) with
      | Some e => Some e
      | None => Some first
      end
  end.

(** [resolve]; [None] is a panic. *)
Definition resolve (peer : IpAddr) (lines : list bytes) (t : TrustedProxies)
  : option Resolution :=
  let peer := canonical peer in
  '(client, warnings) ←
    (if negb (trusts t peer) then
       Some (peer, if bool_decide (lines = []) then [] else [XffFromUntrustedPeer])
     else if bool_decide (lines = []) then Some (peer, [TrustedPeerSentNoXff])
     else match parse_entries lines with
          | Some entries => e ← rightmost_untrusted t entries; Some (e, [])
          | None => Some (peer, [])
          end);
  Some {| client := client;
          warnings := warnings ++ (if is_private client then [PrivateClient] else []) |}.

(** ** One warning per start *)

(** [ClientWarnings]: one flag per warning; the log lines written so far. *)
Definition warning_index (w : Warning) : nat :=
  match w with XffFromUntrustedPeer => 0 | TrustedPeerSentNoXff => 1 | PrivateClient => 2 end.

Record ClientWarnings := { logged : list bool; log : list Warning }.

Definition warnings_default : ClientWarnings := {| logged := [false; false; false]; log := [] |}.

Definition note (s : ClientWarnings) (w : Warning) : ClientWarnings :=
  let i := warning_index w in
  match logged s !! i with
  | Some false => {| logged := <[i := true]> (logged s); log := log s ++ [w] |}
  | _ => {| logged := <[i := true]> (logged s); log := log s |}
  end.

(** ** Lemmas: networks *)

Lemma testbit_above w x i : 0 <= x < 2 ^ w -> 0 <= w <= i -> Z.testbit x i = false.
Proof.
  intros Hx Hi. destruct (Z.eq_dec x 0) as [->|]; [apply Z.bits_0|].
  apply Z.bits_above_log2; [lia|]. apply Z.lt_le_trans with w; [|lia]. apply Z.log2_lt_pow2; lia.
Qed.

Lemma land_mask w p x :
  0 < w -> 0 <= p <= w -> 0 <= x < 2 ^ w ->
  Z.land x (net_mask w p) = Z.shiftl (Z.shiftr x (w - p)) (w - p).
Proof.
  intros Hw Hp Hx. unfold net_mask. destruct (Z.ltb_spec (w - p) w).
  - apply Z.bits_inj'. intros i Hi.
    rewrite !Z.land_spec, !Z.shiftl_spec by lia.
    replace (2 ^ w - 1) with (Z.ones w) by (rewrite Z.ones_equiv; lia).
    rewrite !Z.testbit_ones by lia.
    destruct (Z.le_gt_cases (w - p) i).
    + rewrite Z.shiftr_spec by lia. replace (i - (w - p) + (w - p)) with i by lia.
      destruct (Z.lt_ge_cases i w) as [Hiw|Hiw].
      * by rewrite !(proj2 (Z.ltb_lt _ _)), !(proj2 (Z.leb_le _ _)), !andb_true_r by lia.
      * rewrite (testbit_above w x i) by lia. done.
    + rewrite (Z.testbit_neg_r _ (i - (w - p))) by lia.
      rewrite (proj2 (Z.leb_gt 0 (i - (w - p)))) by lia. by rewrite andb_false_r.
  - replace p with 0 by lia. rewrite Z.sub_0_r, Z.land_0_r.
    rewrite Z.shiftr_div_pow2, Z.div_small by lia. by rewrite Z.shiftl_0_l.
Qed.

Lemma same_masked w p x y :
  0 < w -> 0 <= p <= w -> 0 <= x < 2 ^ w -> 0 <= y < 2 ^ w ->
  Z.land x (net_mask w p) = Z.land y (net_mask w p) <->
  Z.shiftr x (w - p) = Z.shiftr y (w - p).
Proof.
  intros. rewrite !land_mask by done. split; [|congruence].
  rewrite !Z.shiftl_mul_pow2 by lia. intros H'. apply Z.mul_reg_r in H'; [done|].
  pose proof (Z.pow_pos_nonneg 2 (w - p)). lia.
Qed.

(** Networks as [parse_ip_net] builds them. *)
Definition net_wf (net : IpNet) : bool :=
  ip_wf (address net) && (0 <=? prefix net)
  && (prefix net <=? (if is_ipv4 (address net) then 32 else 128)).

(** ** Lemmas: the parser *)

Lemma to_digit_range radix c d : Parser.to_digit radix c = Some d -> 0 <= d < radix.
Proof.
  unfold Parser.to_digit. rewrite opt_filter_Some. unfold is_ascii_digit.
  intros [Hd Hr]. repeat case_if; try discriminate; injection Hd as <-; propify; lia.
Qed.

Lemma read_digits_spec radix m p acc n v k rest :
  0 < radix -> 0 <= acc -> Parser.read_digits radix m p acc n = Some (v, k, rest) ->
  0 <= v /\ exists ds, p = ds ++ rest /\ Forall (fun c => is_Some (Parser.to_digit radix c)) ds.
Proof.
  intros Hr. revert acc n. induction p as [|c p IH]; intros acc n Ha; cbn.
  - intros [= <- <- <-]. split; [done|]. by exists [].
  - destruct (Parser.to_digit radix c) as [d|] eqn:Hd.
    + case_if; [done|]. intros H. apply to_digit_range in Hd as Hb.
      destruct (IH (acc * radix + d) _ ltac:(nia) H) as (Hv & ds & -> & Hds). split; [done|].
      exists (c :: ds). split; [done|]. constructor; [by eexists|done].
    + intros [= <- <- <-]. split; [done|]. by exists [].
Qed.

Lemma read_number_spec radix m z top p v rest :
  0 < radix -> Parser.read_number radix m z top p = Some (v, rest) ->
  0 <= v <= top /\ exists ds, p = ds ++ rest /\ Forall (fun c => is_Some (Parser.to_digit radix c)) ds.
Proof.
  intros Hr. unfold Parser.read_number.
  destruct (Parser.read_digits radix m p 0 0) as [[[n k] r]|] eqn:E; [|done]. cbn.
  repeat (case_if; [done|]). case_if; [|done]. intros [= <- <-].
  destruct (read_digits_spec _ _ _ 0 _ _ _ _ Hr ltac:(lia) E) as (Hv & Hds). propify.
  split; [lia|done].
Qed.

(** Dotted quads: digits and dots only, a 32-bit value. *)
Lemma read_octet_spec i p v rest :
  Parser.read_octet i p = Some (v, rest) ->
  0 <= v <= 255 /\ exists ds, p = ds ++ rest /\ Forall (fun c => is_ascii_digit c = true \/ c = 46) ds.
Proof.
  assert (Hd : forall p v rest, Parser.read_number 10 3 false 255 p = Some (v, rest) ->
    0 <= v <= 255 /\ exists ds, p = ds ++ rest /\ Forall (fun c => is_ascii_digit c = true \/ c = 46) ds).
  { intros q u r H. destruct (read_number_spec 10 _ _ _ _ _ _ ltac:(lia) H) as (Hv & ds & -> & Hds).
    split; [done|]. exists ds. split; [done|]. eapply Forall_impl; [done|]. intros c [d Hc]. left.
    unfold Parser.to_digit in Hc. rewrite opt_filter_Some in Hc. destruct Hc as [Hc Hr].
    destruct (is_ascii_digit c); [done|]. repeat case_if; try discriminate Hc.
    - injection Hc as <-. propify. lia.
    - injection Hc as <-. propify. lia. }
  unfold Parser.read_octet, Parser.read_separator. case_if; [apply Hd|].
  destruct p as [|c p]; [done|]. cbn. destruct (Z.eqb_spec c 46) as [->|]; [|done]. cbn.
  intros H. destruct (Hd _ _ _ H) as (Hv & ds & -> & Hds). split; [done|].
  exists (46 :: ds). split; [done|]. constructor; [by right|done].
Qed.

Lemma read_ipv4_spec p v rest :
  Parser.read_ipv4_addr p = Some (v, rest) ->
  0 <= v < 2 ^ 32 /\ exists ds, p = ds ++ rest /\ Forall (fun c => is_ascii_digit c = true \/ c = 46) ds.
Proof.
  unfold Parser.read_ipv4_addr.
  destruct (Parser.read_octet 0 p) as [[a p1]|] eqn:Ea; [|done]; cbn [mbind option_bind].
  destruct (Parser.read_octet 1 p1) as [[b p2]|] eqn:Eb; [|done]; cbn [mbind option_bind].
  destruct (Parser.read_octet 2 p2) as [[c p3]|] eqn:Ec; [|done]; cbn [mbind option_bind].
  destruct (Parser.read_octet 3 p3) as [[d p4]|] eqn:Ed; [|done]; cbn [mbind option_bind]; intros [= <- <-].
  apply read_octet_spec in Ea as (Ha & da & -> & Fa), Eb as (Hb & db & -> & Fb),
    Ec as (Hc & dc & -> & Fc), Ed as (Hd & dd & -> & Fd).
  split; [lia|]. exists (da ++ db ++ dc ++ dd). rewrite <- !(assoc_L (++)). split; [done|].
  by rewrite !Forall_app.
Qed.

Lemma read_groups_spec r i p gs v4 rest :
  Parser.read_groups r i p = (gs, v4, rest) ->
  (length gs <= r)%nat /\ Forall (fun g => 0 <= g < 2 ^ 16) gs /\
  ((0 < i)%nat -> (0 < length gs)%nat -> 58 ∈ p) /\ ((2 < length gs)%nat -> 58 ∈ p) /\
  (exists pre, p = pre ++ rest).
Proof.
  revert i p gs v4 rest. induction r as [|r IH]; intros i p gs v4 rest; cbn [Parser.read_groups].
  { intros [= <- <- <-]. cbn. split_and!; [lia|done|lia|lia|by exists []]. }
  assert (Hsep : forall {A} (inner : Parser.t A) x q, (0 < i)%nat ->
    Parser.read_separator 58 i inner p = Some (x, q) -> 58 ∈ p).
  { intros A inner x q Hi H. unfold Parser.read_separator in H.
    destruct (Nat.eqb_spec i 0); [lia|]. destruct p as [|c p']; [done|]. cbn in H.
    destruct (Z.eqb_spec c 58) as [->|]; [|done]. set_solver. }
  assert (Hin : forall {A} (inner : Parser.t A) x q,
    Parser.read_separator 58 i inner p = Some (x, q) ->
    exists p', inner p' = Some (x, q) /\ exists pre, p = pre ++ p').
  { intros A inner x q H. unfold Parser.read_separator in H.
    destruct (Nat.eqb_spec i 0); [exists p; split; [done|by exists []]|].
    destruct p as [|c p']; [done|]. cbn in H. destruct (c =? 58); [|done].
    exists p'. split; [done|]. by exists [c]. }
  destruct (if (1 <=? r)%nat then _ else None) as [[v p1]|] eqn:E4.
  - intros [= <- <- <-]. destruct (Nat.leb_spec 1 r); [|done].
    destruct (Hin _ _ _ _ E4) as (p' & H4 & pre & Hpre).
    apply read_ipv4_spec in H4 as (Hv & ds & -> & _).
    cbn [length]. split_and!; [lia| | |lia|exists (pre ++ ds); by rewrite <- (assoc_L (++))].
    + rewrite Z.shiftr_div_pow2 by lia. change 65535 with (Z.ones 16). rewrite Z.land_ones by lia.
      repeat constructor; try (apply Z.mod_pos_bound; lia); try (apply Z.div_pos; lia).
      apply Z.div_lt_upper_bound; lia.
    + intros Hi _. by eapply Hsep.
  - destruct (Parser.read_separator 58 i (Parser.read_number 16 4 true 65535) p) as [[g p1]|] eqn:Eg.
    2: { intros [= <- <- <-]. cbn. split_and!; [lia|done|lia|lia|by exists []]. }
    destruct (Parser.read_groups r (S i) p1) as [[gs' v4'] p2] eqn:Er. intros [= <- <- <-].
    destruct (IH _ _ _ _ _ Er) as (Hl & Hf & H1 & _ & pre' & Hp1).
    destruct (Hin _ _ _ _ Eg) as (p' & Hg & pre & Hpre).
    destruct (read_number_spec 16 _ _ _ _ _ _ ltac:(lia) Hg) as (Hv & ds & -> & _).
    cbn [length]. split_and!; [lia|constructor; [lia|done]| | |].
    + intros Hi _. by eapply Hsep.
    + intros H2. rewrite Hpre, !elem_of_app. right. right. apply H1; lia.
    + exists (pre ++ ds ++ pre'). by rewrite Hpre, Hp1, <- !(assoc_L (++)).
Qed.

Lemma of_groups_range gs acc :
  Forall (fun g => 0 <= g < 2 ^ 16) gs -> 0 <= acc ->
  0 <= fold_left (fun n g => n * 65536 + g) gs acc < (acc + 1) * 65536 ^ Z.of_nat (length gs).
Proof.
  intros H. revert acc. induction H as [|g gs Hg Hgs IH]; intros acc Ha; [cbn; lia|].
  cbn [fold_left length]. specialize (IH (acc * 65536 + g) ltac:(lia)).
  rewrite Nat2Z.inj_succ, Z.pow_succ_r by lia.
  assert (0 < 65536 ^ Z.of_nat (length gs)) by (apply Z.pow_pos_nonneg; lia). nia.
Qed.

Lemma read_ipv6_spec p v rest :
  Parser.read_ipv6_addr p = Some (v, rest) -> 0 <= v < 2 ^ 128 /\ 58 ∈ p.
Proof.
  unfold Parser.read_ipv6_addr.
  destruct (Parser.read_groups 8 0 p) as [[head h4] p1] eqn:Eh.
  destruct (read_groups_spec _ _ _ _ _ _ Eh) as (Hl & Hf & _ & Hc & pre & ->).
  destruct (Nat.eqb_spec (length head) 8) as [H8|H8].
  { intros [= <- <-]. split; [|apply Hc; lia].
    pose proof (of_groups_range head 0 Hf ltac:(lia)) as Hr. rewrite H8 in Hr. exact Hr. }
  destruct h4; [done|]. destruct p1 as [|c1 p1]; [done|]. cbn [Parser.read_given_char].
  destruct (Z.eqb_spec c1 58) as [->|]; [|done]. cbn.
  destruct p1 as [|c2 p1]; [done|]. cbn. destruct (Z.eqb_spec c2 58) as [->|]; [|done]. cbn.
  destruct (Parser.read_groups (8 - (length head + 1)) 0 p1) as [[tail t4] p2] eqn:Et.
  destruct (read_groups_spec _ _ _ _ _ _ Et) as (Hl' & Hf' & _).
  intros [= <- <-]. split; [|set_solver].
  set (gs := head ++ replicate (8 - length head - length tail) 0 ++ tail).
  assert (Hgs : length gs = 8%nat) by (subst gs; rewrite !length_app, length_replicate; lia).
  pose proof (of_groups_range gs 0) as Hr. rewrite Hgs in Hr. apply Hr; [|lia].
  subst gs. rewrite !Forall_app. split_and!; try done. by apply Forall_replicate.
Qed.

(** Parsed addresses fit their width. *)
Lemma parse_ip_wf text a : parse_ip text = Some a -> ip_wf a = true.
Proof.
  unfold parse_ip, Parser.read_ip_addr.
  destruct (Parser.read_ipv4_addr (utf8 text)) as [[v r]|] eqn:E4.
  - destruct r; [|done]. intros [= <-]. apply read_ipv4_spec in E4 as [Hv _]. cbn. bool_lia.
  - destruct (Parser.read_ipv6_addr (utf8 text)) as [[v r]|] eqn:E6; [|done]. cbn.
    destruct r; [|done]. intros [= <-]. apply read_ipv6_spec in E6 as [Hv _]. cbn. bool_lia.
Qed.

(** Text that parses as an address is digits and dots or contains a colon. *)
Lemma parse_ip_shape text a :
  parse_ip text = Some a ->
  Forall (fun c => is_ascii_digit c = true \/ c = 46) (utf8 text) \/ 58 ∈ utf8 text.
Proof.
  unfold parse_ip, Parser.read_ip_addr.
  destruct (Parser.read_ipv4_addr (utf8 text)) as [[v r]|] eqn:E4.
  - destruct r; [|done]. intros _. left. apply read_ipv4_spec in E4 as (_ & ds & -> & Hd).
    by rewrite app_nil_r.
  - destruct (Parser.read_ipv6_addr (utf8 text)) as [[v r]|] eqn:E6; [|done]. intros _. right.
    by apply read_ipv6_spec in E6 as [_ ?].
Qed.

(** ** Lemmas: resolution *)

Lemma mapM_length {A B} (f : A -> option B) l k : mapM f l = Some k -> length k = length l.
Proof. intros H%mapM_Some. symmetry. by eapply Forall2_length. Qed.

Lemma parse_line_not_nil line es : parse_line line = Some es -> es <> [].
Proof.
  unfold parse_line. destruct (from_utf8 line) as [text|]; cbn; [|done].
  intros H%mapM_length. intros ->. pose proof (split_not_nil 44 text).
  by destruct (split 44 text).
Qed.

Lemma parse_entries_not_nil lines es :
  lines <> [] -> parse_entries lines = Some es -> es <> [].
Proof.
  destruct lines as [|l lines]; [done|]. intros _. cbn.
  destruct (parse_line l) as [a|] eqn:Hl; cbn; [|done].
  destruct (parse_entries lines); cbn; [|done]. intros [= <-].
  apply parse_line_not_nil in Hl. by destruct a.
Qed.

Lemma parse_entries_app ls ks :
  parse_entries (ls ++ ks) =
  (es ← parse_entries ls; fs ← parse_entries ks; Some (es ++ fs)).
Proof.
  induction ls as [|l ls IH]; cbn; [by destruct (parse_entries ks)|].
  destruct (parse_line l) as [a|]; cbn; [|done]. rewrite IH.
  destruct (parse_entries ls); cbn; [|done].
  destruct (parse_entries ks); cbn; [|done]. by rewrite app_assoc.
Qed.

Lemma split_snoc_piece sep a b :
  sep ∉ b -> exists ps, split sep (a ++ sep :: b) = ps ++ [b].
Proof.
  intros Hb. induction a as [|c a [ps IH]]; cbn.
  - rewrite Z.eqb_refl, split_none by done. by exists [[]].
  - destruct (c =? sep); [exists ([] :: ps); by rewrite IH|]. rewrite IH.
    destruct ps as [|p ps]; cbn; [|by exists ((c :: p) :: ps)].
    exfalso. pose proof (split_app_sep sep [] b ltac:(set_solver)).
    assert (H2 : length (split sep (a ++ sep :: b)) = 1%nat) by (by rewrite IH).
    clear -H2. revert H2. induction a as [|d a IHa]; cbn.
    + rewrite Z.eqb_refl. cbn. pose proof (split_not_nil sep b).
      by destruct (split sep b).
    + destruct (d =? sep); cbn.
      * pose proof (split_not_nil sep (a ++ sep :: b)). by destruct (split sep _).
      * pose proof (split_not_nil sep (a ++ sep :: b)). by destruct (split sep _).
Qed.

Lemma mapM_snoc {A B} (f : A -> option B) l x :
  mapM f (l ++ [x]) = (ys ← mapM f l; y ← f x; Some (ys ++ [y])).
Proof.
  induction l as [|a l IH]; cbn; [by destruct (f x)|].
  destruct (f a); cbn; [|done]. rewrite IH.
  destruct (mapM f l); cbn; [|done]. by destruct (f x).
Qed.

(** The last entry of a line is the text after its last comma. *)
Lemma parse_line_last a b e :
  forallb is_scalar (a ++ 44 :: b) = true -> 44 ∉ b -> parse_entry b = Some e ->
  parse_line (utf8 (a ++ 44 :: b)) = None \/
  exists es, parse_line (utf8 (a ++ 44 :: b)) = Some (es ++ [e]).
Proof.
  intros Hs Hb He. unfold parse_line. rewrite from_utf8_utf8 by done. cbn.
  destruct (split_snoc_piece 44 a b Hb) as [ps ->]. rewrite mapM_snoc, He.
  destruct (mapM parse_entry ps); cbn; [right|left]; eauto.
Qed.

Lemma rightmost_snoc t es e :
  trusts t e = false -> rightmost_untrusted t (es ++ [e]) = Some e.
Proof.
  intros He. unfold rightmost_untrusted. rewrite reverse_snoc. cbn. rewrite He. cbn.
  by destruct es.
Qed.

Lemma rightmost_total t es : es <> [] -> exists e, rightmost_untrusted t es = Some e.
Proof.
  destruct es as [|e es]; [done|]. intros _. cbn. destruct (find_first _ _); eauto.
Qed.

(** What the walk from the right finds. *)
Lemma rightmost_spec t es e :
  rightmost_untrusted t es = Some e ->
  (exists l r, es = l ++ e :: r /\ trusts t e = false /\ Forall (fun x => trusts t x = true) r)
  \/ head es = Some e /\ Forall (fun x => trusts t x = true) es.
Proof.
  destruct es as [|f es]; [done|]. unfold rightmost_untrusted.
  destruct (find_first _ _) as [x|] eqn:E.
  - intros [= <-]. left. revert E. generalize (f :: es). clear. intros l.
    induction l as [|y l IH] using rev_ind; [done|]. rewrite reverse_snoc. cbn.
    destruct (trusts t y) eqn:Hy; cbn.
    + intros (a & b & -> & Hx & Hb)%IH. exists a, (b ++ [y]).
      rewrite <- app_assoc. split; [done|]. split; [done|]. by apply Forall_app_2; [|constructor].
    + intros [= <-]. exists l, []. done.
  - intros [= <-]. right. split; [done|]. apply find_first_None in E.
    apply Forall_reverse in E. rewrite reverse_involutive in E. eapply Forall_impl; [exact E|]. cbn. intros y Hy.
    by apply negb_false_iff.
Qed.

(** ** Properties *)

(** A trusted network contains exactly the addresses of its family that agree
    with it on the first [prefix] bits: the mask built with [checked_shl] is right
    for every prefix length, 0 and the full width included. *)
Theorem net_contains_correct net a :
  net_wf net = true -> ip_wf a = true ->
  net_contains net a = true <->
  match address net, a with
  | V4 n, V4 x => Z.shiftr n (32 - prefix net) = Z.shiftr x (32 - prefix net)
  | V6 n, V6 x => Z.shiftr n (128 - prefix net) = Z.shiftr x (128 - prefix net)
  | _, _ => False
  end.
Proof.
  destruct net as [[n|n] p], a as [x|x]; unfold net_wf, net_contains; cbn -[Z.pow];
    intros; propify; try (split; done); apply same_masked; lia.
Qed.

(** The networks of the documentation's example and their edges. *)
Lemma net_contains_correct_witness :
  net_contains {| address := V4 0x0AE70700; prefix := 29 |} (V4 0x0AE70702) = true <->
  Z.shiftr 0x0AE70700 (32 - 29) = Z.shiftr 0x0AE70702 (32 - 29).
Proof.
  apply (net_contains_correct {| address := V4 0x0AE70700; prefix := 29 |} (V4 0x0AE70702));
    reflexivity.
Defined.

(** [resolve] never panics, and its client is the canonical peer unless the peer
    is trusted and every forwarded entry is well-formed; then it is the rightmost
    untrusted entry (everything to its right is trusted), or the leftmost entry when
    all are trusted. In particular an untrusted peer's header changes nothing. *)
Theorem resolve_client peer lines t :
  exists r, resolve peer lines t = Some r /\
  (client r = canonical peer \/
   trusts t (canonical peer) = true /\
   exists es, parse_entries lines = Some es /\
     ((exists l rest, es = l ++ client r :: rest /\ trusts t (client r) = false /\
        Forall (fun x => trusts t x = true) rest) \/
      head es = Some (client r) /\ Forall (fun x => trusts t x = true) es)) /\
  (trusts t (canonical peer) = false -> client r = canonical peer).
Proof.
  unfold resolve. destruct (trusts t (canonical peer)) eqn:Ht; cbn; [|eexists; eauto].
  case_bool_decide as Hl; cbn; [eexists; eauto|].
  destruct (parse_entries lines) as [es|] eqn:He; cbn; [|eexists; eauto].
  destruct (rightmost_total t es) as [e Hr]; [by eapply parse_entries_not_nil|].
  rewrite Hr. cbn. eexists. split; [done|]. split; [|done]. right. split; [done|].
  exists es. split; [done|]. cbn. by apply rightmost_spec.
Qed.

(** Forged entries in front of the trusted proxy's own are powerless: when the
    trusted peer's last line ends in an untrusted entry [e], whatever lines and
    entries precede it, the client is [e] or, if something before it is malformed,
    the peer itself; never an address of the forger's choice. *)
Theorem resolve_ignores_forged_prefix peer lines a b e t :
  trusts t (canonical peer) = true ->
  forallb is_scalar (a ++ 44 :: b) = true -> 44 ∉ b ->
  parse_entry b = Some e -> trusts t e = false ->
  exists r, resolve peer (lines ++ [utf8 (a ++ 44 :: b)]) t = Some r /\
            (client r = e \/ client r = canonical peer).
Proof.
  intros Ht Hs Hb He Hu. unfold resolve. rewrite Ht. cbn.
  rewrite bool_decide_eq_false_2 by (by destruct lines).
  rewrite parse_entries_app. cbn.
  destruct (parse_entries lines) as [es|]; cbn; [|eexists; eauto].
  destruct (parse_line_last a b e Hs Hb He) as [->|[fs ->]]; cbn; [eexists; eauto|].
  rewrite app_nil_r, app_assoc, rightmost_snoc by done. cbn. eexists; eauto.
Qed.

(** The peer 10.231.7.2 forwards a forged 192.0.2.1 before the real client. *)
Lemma resolve_ignores_forged_prefix_witness :
  let t := TrustList [{| address := V4 0x0AE70702; prefix := 32 |}] in
  exists r, resolve (V4 0x0AE70702) ([] ++ [utf8 (lit "192.0.2.1" ++ 44 :: lit " 198.51.100.7")]) t
            = Some r /\ (client r = V4 0xC6336407 \/ client r = canonical (V4 0x0AE70702)).
Proof.
  apply (resolve_ignores_forged_prefix (V4 0x0AE70702) [] (lit "192.0.2.1")
           (lit " 198.51.100.7") (V4 0xC6336407)
           (TrustList [{| address := V4 0x0AE70702; prefix := 32 |}]));
    [reflexivity|reflexivity| |vm_compute; reflexivity|reflexivity].
  vm_compute. intros H. repeat (apply elem_of_cons in H as [H|H]; [discriminate H|]).
  by apply elem_of_nil in H.
Defined.

(** Each warning is logged at most once, and exactly when it first occurs. *)
Definition warnings_inv (s : ClientWarnings) : Prop :=
  NoDup (log s) /\ length (logged s) = 3%nat /\
  forall w, logged s !! warning_index w = Some true <-> w ∈ log s.

Lemma warning_index_inj w v : warning_index w = warning_index v -> w = v.
Proof. by destruct w, v. Qed.

Lemma note_inv s w : warnings_inv s -> warnings_inv (note s w) /\ w ∈ log (note s w).
Proof.
  intros (Hn & Hl & Hi). unfold note.
  assert (Hw : (warning_index w < length (logged s))%nat) by (rewrite Hl; destruct w; cbn; lia).
  destruct (logged s !! warning_index w) as [[]|] eqn:E.
  - apply Hi in E as Hin. cbn. split; [|done]. repeat split; cbn; try done.
    + by rewrite length_insert.
    + intros Hv. apply Hi. destruct (decide (w = w0)) as [->|Hne]; [done|].
      rewrite list_lookup_insert_ne in Hv; [done|]. intros ?%warning_index_inj. done.
    + intros Hv%Hi. destruct (decide (w = w0)) as [->|Hne];
        [by apply list_lookup_insert_eq|].
      rewrite list_lookup_insert_ne; [done|]. intros ?%warning_index_inj. done.
  - cbn. split; [|set_solver]. split; [|split]; cbn.
    + apply NoDup_app. split; [done|]. split; [|apply NoDup_singleton].
      intros x Hx%Hi Hxw. apply list_elem_of_singleton in Hxw as ->. congruence.
    + by rewrite length_insert.
    + intros v. rewrite elem_of_app, list_elem_of_singleton.
      destruct (decide (w = v)) as [->|Hne].
      * rewrite list_lookup_insert_eq by done. tauto.
      * rewrite list_lookup_insert_ne by (intros ?%warning_index_inj; done).
        rewrite Hi. intuition congruence.
  - apply lookup_ge_None in E. lia.
Qed.

(** Over any sequence of noted warnings, each kind that occurred is logged
    exactly once (at most once per server start, without repetition). *)
Theorem warnings_logged_once ws :
  let s := fold_left note ws warnings_default in
  NoDup (log s) /\ forall w, w ∈ log s <-> w ∈ ws.
Proof.
  assert (H : forall s, warnings_inv s -> warnings_inv (fold_left note ws s) /\
            forall w, w ∈ log (fold_left note ws s) <-> w ∈ log s \/ w ∈ ws).
  { induction ws as [|v ws IH]; intros s Hs; cbn; [set_solver|].
    destruct (note_inv s v Hs) as [Hs' Hin]. destruct (IH _ Hs') as [HI HE].
    split; [done|]. intros w. rewrite HE, elem_of_cons.
    assert (Hw : w ∈ log (note s v) <-> w ∈ log s \/ w = v).
    { unfold note in *. destruct (logged s !! warning_index v) as [[]|]; cbn in *; set_solver. }
    rewrite Hw. tauto. }
  cbn. destruct (H warnings_default) as [(Hn & _ & _) He].
  - split; [constructor|]. split; [done|]. intros []; cbn; split; try done; set_solver.
  - split; [done|]. intros w. rewrite He. cbn. set_solver.
Qed.
