(* ===== verification/Rate.v ===== *)
(** * The rate limiter (src/src/limits/rate.rs, mail_budget.rs, mail_address.rs)

    Per-network token buckets kept as theoretical arrival times (GCRA). Durations
    are [Z] nanoseconds; [Duration / u32] is the floor division of the total. The
    limiter's mutex makes each operation atomic, so its history is a sequence of
    [admit_with] and [sweep] calls. *)

From S2P Require Import Prelude Str Http Net.

Inductive RateClass := Read | Login | Reset.

#[global] Instance RateClass_eq_dec : EqDecision RateClass.
Proof. solve_decision. Defined.
#[global] Instance RateClass_countable : Countable RateClass.
Proof.
  refine (inj_countable' (fun c => match c with Read => 0 | Login => 1 | Reset => 2 end)
    (fun n => if n =? 0 then Read else if n =? 1 then Login else Reset) _).
  by intros [].
Defined.

Definition seconds (n : Z) : Z := n * 10 ^ 9.

(** [capacity] tokens, one regained every [interval]. *)
Record Budget := { capacity : Z; interval : Z }.

#[global] Instance Budget_eq_dec : EqDecision Budget.
Proof. solve_decision. Defined.

(** [Budget::per]; a capacity of 0 divides by zero in the code and is never asked for. *)
Definition per (capacity window : Z) : Budget :=
  {| capacity := capacity; interval := window / capacity |}.

Definition times (b : Budget) (factor : Z) : Budget :=
  {| capacity := capacity b * factor; interval := interval b / factor |}.

(** [RateClass::budget]. *)
Definition class_budget (c : RateClass) : Budget :=
  match c with
  | Read => per 300 (seconds 60)
  | Login => per 10 (seconds (15 * 60))
  | Reset => per 5 (seconds (60 * 60))
  end.

Definition applies_to (c : RateClass) (m : Method) : bool :=
  match c with
  | Read => bool_decide (m = GET) || bool_decide (m = HEAD)
  | Login | Reset => bool_decide (m = POST)
  end.

Definition MAX_BUCKETS : Z := 100000.
Definition AGGREGATE_FACTOR : Z := 8.

Inductive Prefix := PrefixV4 (bits : Z) | V6Slash64 (bits : Z) | V6Slash48 (bits : Z).

#[global] Instance Prefix_eq_dec : EqDecision Prefix.
Proof. solve_decision. Defined.
#[global] Instance Prefix_countable : Countable Prefix.
Proof.
  refine (inj_countable'
    (fun p => match p with
              | PrefixV4 b => inl b | V6Slash64 b => inr (inl b) | V6Slash48 b => inr (inr b)
              end)
    (fun s => match s with
              | inl b => PrefixV4 b | inr (inl b) => V6Slash64 b | inr (inr b) => V6Slash48 b
              end) _).
  by intros [].
Defined.

(** The /32 or /64 of a canonical client address, plus its /48 for IPv6. *)
Definition prefixes (a : IpAddr) : Prefix * option Prefix :=
  match a with
  | V4 v4 => (PrefixV4 v4, None)
  | V6 bits =>
      let top := Z.shiftr bits 64 in
      (V6Slash64 top, Some (V6Slash48 (Z.shiftr top 16)))
  end.

(** The source of a mail bucket: IPv4 /32 or IPv6 /48. *)
Definition mail_source (a : IpAddr) : Prefix :=
  match prefixes a with
  | (v4, None) => v4
  | (_, Some slash48) => slash48
  end.

Inductive Key :=
| KeyClass (c : RateClass) (p : Prefix)
| KeyMailSource (p : Prefix)
| KeyMailAddress (mac : bytes).

#[global] Instance Key_eq_dec : EqDecision Key.
Proof. solve_decision. Defined.
#[global] Instance Key_countable : Countable Key.
Proof.
  refine (inj_countable'
    (fun k => match k with
              | KeyClass c p => inl (c, p) | KeyMailSource p => inr (inl p)
              | KeyMailAddress m => inr (inr m)
              end)
    (fun s => match s with
              | inl (c, p) => KeyClass c p | inr (inl p) => KeyMailSource p
              | inr (inr m) => KeyMailAddress m
              end) _).
  by intros [].
Defined.

Inductive Overflow := OverflowClass (c : RateClass) | OverflowMailSource | OverflowMailAddress.

#[global] Instance Overflow_eq_dec : EqDecision Overflow.
Proof. solve_decision. Defined.
#[global] Instance Overflow_countable : Countable Overflow.
Proof.
  refine (inj_countable'
    (fun o => match o with
              | OverflowClass c => inl c | OverflowMailSource => inr true
              | OverflowMailAddress => inr false
              end)
    (fun s => match s with
              | inl c => OverflowClass c | inr true => OverflowMailSource
              | inr false => OverflowMailAddress
              end) _).
  by intros [].
Defined.

(** ** Buckets *)

Record Bucket := { budget : Budget; tat : Z }.

Definition full (b : Budget) (now : Z) : Bucket := {| budget := b; tat := now |}.

Definition admits (b : Bucket) (now : Z) : bool :=
  let tolerance := interval (budget b) * (capacity (budget b) - 1) in
  tat b <=? now + tolerance.

Definition take (b : Bucket) (now : Z) : Bucket :=
  {| budget := budget b; tat := Z.max (tat b) now + interval (budget b) |}.

Definition is_full (b : Bucket) (now : Z) : bool := tat b <=? now.

(** ** Demands *)

Record Demand := { keys : list (Key * Budget); overflow_of : Overflow * Budget }.

Definition demand_class (c : RateClass) (a : IpAddr) : Demand :=
  let b := class_budget c in
  let '(own, aggregate) := prefixes a in
  {| keys := (KeyClass c own, b) ::
             match aggregate with
             | Some slash48 => [(KeyClass c slash48, times b AGGREGATE_FACTOR)]
             | None => []
             end;
     overflow_of := (OverflowClass c, b) |}.

Definition demand_mail_address (mac : bytes) (b : Budget) : Demand :=
  {| keys := [(KeyMailAddress mac, b)]; overflow_of := (OverflowMailAddress, b) |}.

Definition demand_mail_source (a : IpAddr) (b : Budget) : Demand :=
  {| keys := [(KeyMailSource (mail_source a), b)]; overflow_of := (OverflowMailSource, b) |}.

(** ** The limiter *)

Record Inner := { buckets : gmap Key Bucket; overflow : gmap Overflow Bucket }.

Record Limiter := { start : Z; inner : Inner }.

Definition limiter_new (start : Z) : Limiter :=
  {| start := start; inner := {| buckets := ∅; overflow := ∅ |} |}.

(** [saturating_duration_since]. *)
Definition elapsed (l : Limiter) (now : Z) : Z := Z.max 0 (now - start l).

Definition missing (i : Inner) (d : Demand) : Z :=
  Z.of_nat (length (filter (fun kb => buckets i !! kb.1 = None) (keys d))).

Definition use_overflow (i : Inner) (d : Demand) : bool :=
  (0 <? missing i d) && (MAX_BUCKETS <? Z.of_nat (size (buckets i)) + missing i d).

(** Whether every bucket the demand is charged to admits it. *)
Definition admitted (i : Inner) (d : Demand) (now : Z) : bool :=
  forallb (fun kb => match buckets i !! kb.1 with
                     | Some b => admits b now
                     | None => if use_overflow i d then true else admits (full kb.2 now) now
                     end) (keys d)
  && (negb (use_overflow i d)
      || match overflow i !! (overflow_of d).1 with
         | Some b => admits b now
         | None => true
         end).

(** One iteration of the taking loop. *)
Definition take_key (ov : bool) (now : Z) (m : gmap Key Bucket) (kb : Key * Budget)
  : gmap Key Bucket :=
  match m !! kb.1 with
  | Some b => <[kb.1 := take b now]> m
  | None => if ov then m else <[kb.1 := take (full kb.2 now) now]> m
  end.

Definition take_all (i : Inner) (d : Demand) (now : Z) : Inner :=
  let ov := use_overflow i d in
  {| buckets := fold_left (take_key ov now) (keys d) (buckets i);
     overflow :=
       if ov then
         let b := default (full (overflow_of d).2 now) (overflow i !! (overflow_of d).1) in
         <[(overflow_of d).1 := take b now]> (overflow i)
       else overflow i |}.

(** The critical section of [admit_with], on the time since the limiter's start. *)
Definition admit_inner {X} (extra_admits : X -> Z -> bool) (extra_take : X -> Z -> X)
  (i : Inner) (x : X) (d : Demand) (now : Z) : bool * Inner * X :=
  if admitted i d now && extra_admits x now
  then (true, take_all i d now, extra_take x now)
  else (false, i, x).

(** [Limiter::admit_with]: one more bucket [x] checked and taken with the others. *)
Definition admit_with {X} (extra_admits : X -> Z -> bool) (extra_take : X -> Z -> X)
  (l : Limiter) (x : X) (d : Demand) (now : Z) : bool * Limiter * X :=
  let '(ok, i, x) := admit_inner extra_admits extra_take (inner l) x d (elapsed l now) in
  (ok, {| start := start l; inner := i |}, x).

(** [Limiter::admit]. *)
Definition limiter_admit (l : Limiter) (d : Demand) (now : Z) : bool * Limiter :=
  let '(ok, l, _) := admit_with (fun _ _ => true) (fun x _ => x) l tt d now in (ok, l).

Definition sweep_inner (i : Inner) (now : Z) : Inner :=
  {| buckets := filter (fun kb => is_full kb.2 now = false) (buckets i);
     overflow := filter (fun kb => is_full kb.2 now = false) (overflow i) |}.

Definition sweep (l : Limiter) (now : Z) : Limiter :=
  {| start := start l; inner := sweep_inner (inner l) (elapsed l now) |}.

Definition limiter_len (l : Limiter) : Z := Z.of_nat (size (buckets (inner l))).

(** ** The mail limits *)

(** [MailBudget]: the instance-wide bucket, per-source buckets in the limiter. *)
Definition PER_SOURCE_PER_HOUR : Z := 10.
Definition HOUR : Z := seconds 3600.

Definition mail_budget_new (per_hour : Z) : Bucket := full (per per_hour HOUR) 0.

Definition mail_budget_take (l : Limiter) (instance : Bucket) (a : IpAddr) (now : Z)
  : bool * Limiter * Bucket :=
  admit_with admits take l instance (demand_mail_source a (per PER_SOURCE_PER_HOUR HOUR)) now.

(** Surrounding ASCII whitespace removed, ASCII-lowercased, any [+tag] removed. *)
Definition normalize_mail_address (address : str) : str :=
  let lower := to_ascii_lowercase (trim_matches is_ascii_whitespace address) in
  match rsplit_once 64 lower with
  | Some (local, domain) =>
      let local := match split_once 43 local with Some (base, _) => base | None => local end in
      local ++ 64 :: domain
  | None => lower
  end.

Definition PER_ADDRESS_PER_HOUR : Z := 3.

(** [MailAddressLimit::take], under the per-boot MAC [mac] of the normalized address. *)
Definition mail_address_take (mac : bytes -> bytes) (l : Limiter) (address : str) (now : Z)
  : bool * Limiter :=
  let key := mac (utf8 (normalize_mail_address address)) in
  limiter_admit l (demand_mail_address key (per PER_ADDRESS_PER_HOUR (seconds (60 * 60)))) now.

(** ** The reference token bucket

    A bucket holds [level] units of time, [interval] units per token, at most
    [capacity] tokens' worth, and refills continuously. *)

Module TokenBucket.
Record t := { level : Z; last : Z }.

Definition refill (b : Budget) (s : t) (now : Z) : t :=
  {| level := Z.min (capacity b * interval b) (level s + (now - last s)); last := now |}.

Definition request (b : Budget) (s : t) (now : Z) : bool * t :=
  let s := refill b s now in
  if interval b <=? level s
  then (true, {| level := level s - interval b; last := now |})
  else (false, s).
End TokenBucket.

(** The code's bucket as one request sees it. *)
Definition bucket_request (b : Bucket) (now : Z) : bool * Bucket :=
  if admits b now then (true, take b now) else (false, b).

Section Decisions.
Context {S : Type} (request : S -> Z -> bool * S).

(** The decisions on a sequence of requests. *)
Fixpoint decisions (s : S) (nows : list Z) : list bool :=
  match nows with
  | [] => []
  | now :: nows => let '(ok, s) := request s now in ok :: decisions s nows
  end.
End Decisions.

Definition budget_ok (b : Budget) : Prop := 1 <= capacity b /\ 1 <= interval b.

(** Tokens' worth of time left in the code's bucket. *)
Definition bucket_level (b : Bucket) (now : Z) : Z :=
  capacity (budget b) * interval (budget b) - Z.max 0 (tat b - now).

Lemma admits_level b now :
  budget_ok (budget b) -> admits b now = true <-> interval (budget b) <= bucket_level b now.
Proof.
  intros [Hc Hi]. unfold admits, bucket_level. rewrite Z.leb_le.
  assert (interval (budget b) <= capacity (budget b) * interval (budget b)) by nia. nia.
Qed.

Lemma decisions_refine b s t nows :
  budget_ok (budget b) -> times_from t nows ->
  TokenBucket.last s = t -> TokenBucket.level s = bucket_level b t ->
  decisions (TokenBucket.request (budget b)) s nows = decisions bucket_request b nows.
Proof.
  revert b s t. induction nows as [|now nows IH]; intros b s t Hb Ht Hl Hs; [done|].
  destruct Ht as [Htn Ht]. cbn. unfold TokenBucket.request, bucket_request, TokenBucket.refill.
  cbn. rewrite Hl, Hs.
  assert (Hlev : Z.min (capacity (budget b) * interval (budget b)) (bucket_level b t + (now - t))
                 = bucket_level b now) by (unfold bucket_level; lia).
  rewrite Hlev. pose proof (admits_level b now Hb) as Ha.
  destruct (admits b now), (Z.leb_spec (interval (budget b)) (bucket_level b now));
    try (exfalso; intuition (congruence || lia)); cbn; f_equal.
  - apply (IH (take b now) _ now Hb Ht); [done|]. cbn. unfold bucket_level, take. cbn.
    destruct Hb. lia.
  - by apply (IH b _ now Hb Ht).
Qed.

(** ** Slots: the buckets a request can be charged to *)

Inductive Slot := Own (k : Key) | Shared (o : Overflow).

#[global] Instance Slot_eq_dec : EqDecision Slot.
Proof. solve_decision. Defined.

Definition slot_bucket (i : Inner) (s : Slot) : option Bucket :=
  match s with Own k => buckets i !! k | Shared o => overflow i !! o end.

(** The theoretical arrival time of a slot; a missing bucket is a full one. *)
Definition slot_tat (i : Inner) (s : Slot) (now : Z) : Z :=
  match slot_bucket i s with Some b => Z.max (tat b) now | None => now end.

(** Whether a slot holds a token under budget [b]. *)
Definition slot_admits (b : Budget) (i : Inner) (s : Slot) (now : Z) : bool :=
  slot_tat i s now <=? now + interval b * (capacity b - 1).

(** The slots and budgets a demand is charged to in a state. *)
Definition charges (i : Inner) (d : Demand) : list (Slot * Budget) :=
  (if use_overflow i d
   then omap (fun kb => match buckets i !! kb.1 with
                        | Some _ => Some (Own kb.1, kb.2) | None => None end) (keys d)
        ++ [(Shared (overflow_of d).1, (overflow_of d).2)]
   else map (fun kb => (Own kb.1, kb.2)) (keys d)).

(** The budget every bucket of a key or overflow has. *)
Definition key_budget (k : Key) : Budget :=
  match k with
  | KeyClass c (V6Slash48 _) => times (class_budget c) AGGREGATE_FACTOR
  | KeyClass c _ => class_budget c
  | KeyMailSource _ => per PER_SOURCE_PER_HOUR HOUR
  | KeyMailAddress _ => per PER_ADDRESS_PER_HOUR (seconds (60 * 60))
  end.

Definition overflow_budget (o : Overflow) : Budget :=
  match o with
  | OverflowClass c => class_budget c
  | OverflowMailSource => per PER_SOURCE_PER_HOUR HOUR
  | OverflowMailAddress => per PER_ADDRESS_PER_HOUR (seconds (60 * 60))
  end.

Definition slot_budget (s : Slot) : Budget :=
  match s with Own k => key_budget k | Shared o => overflow_budget o end.

(** Demands as the code builds them: distinct keys, each with its key's budget. *)
Definition demand_wf (d : Demand) : Prop :=
  NoDup (map fst (keys d)) /\ Forall (fun kb => kb.2 = key_budget kb.1) (keys d) /\
  (overflow_of d).2 = overflow_budget (overflow_of d).1.

Lemma demand_class_wf c a : demand_wf (demand_class c a).
Proof.
  unfold demand_wf, demand_class. destruct a as [b|b]; cbn.
  - split; [apply NoDup_singleton|]. by split; [repeat constructor|].
  - split; [|by split; [repeat constructor|]].
    apply NoDup_cons. split; [|apply NoDup_singleton]. by rewrite list_elem_of_singleton.
Qed.

Lemma demand_mail_source_wf a : demand_wf (demand_mail_source a (per PER_SOURCE_PER_HOUR HOUR)).
Proof. split; [apply NoDup_singleton|]. by split; [repeat constructor|]. Qed.

Lemma demand_mail_address_wf m :
  demand_wf (demand_mail_address m (per PER_ADDRESS_PER_HOUR (seconds (60 * 60)))).
Proof. split; [apply NoDup_singleton|]. by split; [repeat constructor|]. Qed.

#[export] Hint Resolve demand_class_wf demand_mail_source_wf demand_mail_address_wf : kohaku.

Lemma slot_budget_ok s : budget_ok (slot_budget s).
Proof.
  destruct s as [[c []| |]|[]]; cbn; try destruct c; vm_compute; split; discriminate.
Qed.

(** Every bucket held has its slot's budget and lies at most its capacity ahead. *)
Definition inner_inv (i : Inner) (now : Z) : Prop :=
  forall s b, slot_bucket i s = Some b ->
    budget b = slot_budget s /\
    tat b <= now + capacity (slot_budget s) * interval (slot_budget s).

Lemma inner_inv_empty now : inner_inv {| buckets := ∅; overflow := ∅ |} now.
Proof. intros [] b; cbn; by rewrite lookup_empty. Qed.

Lemma inner_inv_mono i now now' : now <= now' -> inner_inv i now -> inner_inv i now'.
Proof. intros Hle H s b Hb. destruct (H s b Hb). split; [done|lia]. Qed.

(** ** What one request changes *)

Lemma take_key_other ov now m kb k :
  k <> kb.1 -> take_key ov now m kb !! k = m !! k.
Proof.
  intros Hk. unfold take_key. destruct (m !! kb.1); [by rewrite lookup_insert_ne|].
  destruct ov; [done|]. by rewrite lookup_insert_ne.
Qed.

Lemma take_loop_other ov now kbs m k :
  k ∉ map fst kbs -> fold_left (take_key ov now) kbs m !! k = m !! k.
Proof.
  revert m. induction kbs as [|kb kbs IH]; intros m Hk; [done|]. cbn in *.
  rewrite IH by set_solver. apply take_key_other. set_solver.
Qed.

(** The loop over distinct keys takes one token from each bucket. *)
Lemma take_loop_key ov now kbs m k b :
  NoDup (map fst kbs) -> (k, b) ∈ kbs ->
  fold_left (take_key ov now) kbs m !! k =
  match m !! k with
  | Some old => Some (take old now)
  | None => if ov then None else Some (take (full b now) now)
  end.
Proof.
  revert m. induction kbs as [|kb kbs IH]; intros m Hn Hin; [set_solver|]. cbn in *.
  apply NoDup_cons in Hn as [Hkb Hn]. apply elem_of_cons in Hin as [<-|Hin].
  - rewrite take_loop_other by done. unfold take_key. cbn.
    destruct (m !! k) eqn:E; [by rewrite lookup_insert_eq|].
    destruct ov; [done|by rewrite lookup_insert_eq].
  - rewrite IH by done. rewrite take_key_other; [done|].
    intros ->. apply Hkb. apply list_elem_of_fmap. by exists (kb.1, b).
Qed.

Lemma elem_of_map_fst {A B} (k : A) (l : list (A * B)) :
  k ∈ map fst l <-> exists b, (k, b) ∈ l.
Proof.
  rewrite list_elem_of_fmap. split.
  - intros ([k' b] & -> & H). by exists b.
  - intros [b H]. by exists (k, b).
Qed.

Lemma charges_own i d k b :
  (Own k, b) ∈ charges i d <->
  (k, b) ∈ keys d /\ (use_overflow i d = false \/ is_Some (buckets i !! k)).
Proof.
  unfold charges. destruct (use_overflow i d).
  - rewrite elem_of_app, list_elem_of_omap, list_elem_of_singleton. split.
    + intros [([k' b'] & Hin & Hk)|[=]]. cbn in Hk.
      destruct (buckets i !! k') eqn:E; [|done]. injection Hk as -> ->. split; [done|].
      right. by eexists.
    + intros [Hin [?|[x Hx]]]; [done|]. left. exists (k, b). cbn. by rewrite Hx.
  - rewrite list_elem_of_fmap. split.
    + intros ([k' b'] & [= -> ->] & Hin). auto.
    + intros [Hin _]. by exists (k, b).
Qed.

Lemma charges_shared i d o b :
  (Shared o, b) ∈ charges i d <->
  use_overflow i d = true /\ overflow_of d = (o, b).
Proof.
  unfold charges. destruct (use_overflow i d).
  - rewrite elem_of_app, list_elem_of_omap, list_elem_of_singleton. split.
    + intros [([k' b'] & Hin & Hk)|[= -> ->]].
      * cbn in Hk. by destruct (buckets i !! k').
      * by destruct (overflow_of d).
    + intros [_ Ho]. right. by rewrite Ho.
  - rewrite list_elem_of_fmap. split; [by intros ([? ?] & ? & ?)|]. by intros [? _].
Qed.

Lemma charges_budget i d s b : demand_wf d -> (s, b) ∈ charges i d -> b = slot_budget s.
Proof.
  intros (Hn & Hb & Ho) H. destruct s as [k|o].
  - apply charges_own in H as [Hin _]. rewrite Forall_forall in Hb. by apply (Hb (k, b)).
  - apply charges_shared in H as [_ H]. by rewrite H in Ho.
Qed.

(** A charged slot advances by one interval... *)
Lemma take_all_charged i d now s b :
  demand_wf d -> inner_inv i now -> (s, b) ∈ charges i d ->
  slot_tat (take_all i d now) s now = slot_tat i s now + interval (slot_budget s) /\
  exists nb, slot_bucket (take_all i d now) s = Some nb /\ budget nb = slot_budget s /\
             tat nb = slot_tat i s now + interval (slot_budget s).
Proof.
  intros Hd Hinv Hc. pose proof (charges_budget _ _ _ _ Hd Hc) as ->.
  pose proof (slot_budget_ok s) as [_ Hi].
  enough (exists nb, slot_bucket (take_all i d now) s = Some nb /\ budget nb = slot_budget s /\
             tat nb = slot_tat i s now + interval (slot_budget s)) as (nb & Hs & Hb & Ht).
  { split; [|by exists nb]. unfold slot_tat at 1. rewrite Hs, Ht.
    assert (now <= slot_tat i s now) by (unfold slot_tat; destruct (slot_bucket i s); lia). lia. }
  destruct Hd as (Hn & _). specialize (Hinv s). unfold slot_tat. destruct s as [k|o]; cbn in *.
  - apply charges_own in Hc as [Hin Hov].
    rewrite (take_loop_key _ _ _ _ _ _ Hn Hin). destruct (buckets i !! k) as [old|].
    + destruct (Hinv old eq_refl) as [Hb _]. eexists. split; [done|]. cbn. by rewrite Hb.
    + destruct Hov as [->|[? ?]]; [|done]. eexists. split; [done|]. cbn. by rewrite Z.max_id.
  - apply charges_shared in Hc as [-> Hov]. rewrite Hov. cbn. rewrite lookup_insert_eq.
    eexists. split; [done|]. destruct (overflow i !! o) as [old|]; cbn.
    + destruct (Hinv old eq_refl) as [Hb _]. by rewrite Hb.
    + by rewrite Z.max_id.
Qed.

(** ...and every other slot keeps its bucket. *)
Lemma take_all_other i d now s :
  demand_wf d -> (forall b, (s, b) ∉ charges i d) ->
  slot_bucket (take_all i d now) s = slot_bucket i s.
Proof.
  intros (Hn & _) Hc. destruct s as [k|o]; cbn.
  - destruct (decide (k ∈ map fst (keys d))) as [Hk|Hk]; [|by apply take_loop_other].
    apply elem_of_map_fst in Hk as [b Hin].
    rewrite (take_loop_key _ _ _ _ _ _ Hn Hin). specialize (Hc b).
    rewrite charges_own in Hc.
    destruct (buckets i !! k) eqn:E; [exfalso; apply Hc; split; [done|right; by eexists]|].
    destruct (use_overflow i d); [done|]. exfalso. apply Hc. auto.
  - destruct (use_overflow i d) eqn:E; [|done]. rewrite lookup_insert_ne; [done|].
    intros Ho. apply (Hc (overflow_of d).2), charges_shared. split; [done|].
    destruct (overflow_of d); cbn in *. by subst.
Qed.

Lemma admits_slot i s b now :
  inner_inv i now -> slot_bucket i s = Some b ->
  admits b now = slot_admits (slot_budget s) i s now.
Proof.
  intros Hinv Hs. destruct (Hinv s b Hs) as [Hb _]. pose proof (slot_budget_ok s) as [Hc Hi].
  unfold admits, slot_admits, slot_tat. rewrite Hs, Hb.
  apply Z.leb_le in Hc as Hc'. apply Bool.eq_true_iff_eq. rewrite !Z.leb_le. nia.
Qed.

Lemma full_slot_admits i s now :
  slot_bucket i s = None -> slot_admits (slot_budget s) i s now = true.
Proof.
  intros Hs. pose proof (slot_budget_ok s) as [Hc Hi].
  unfold slot_admits, slot_tat. rewrite Hs, Z.leb_le. nia.
Qed.

Lemma full_admits s now : admits (full (slot_budget s) now) now = true.
Proof.
  pose proof (slot_budget_ok s) as [Hc Hi]. unfold admits. cbn. rewrite Z.leb_le. nia.
Qed.

(** The decision is that every charged slot holds a token. *)
Lemma admitted_spec i d now :
  demand_wf d -> inner_inv i now ->
  admitted i d now = true <->
  Forall (fun sb => slot_admits sb.2 i sb.1 now = true) (charges i d).
Proof.
  intros Hd Hinv. unfold admitted. rewrite andb_true_iff, forallb_Forall, !Forall_forall.
  split.
  - intros [Hk Ho] [s b] Hc. pose proof (charges_budget _ _ _ _ Hd Hc) as ->. cbn.
    destruct (slot_bucket i s) as [x|] eqn:Hs; [|by apply full_slot_admits].
    rewrite <- (admits_slot i s x now Hinv Hs). destruct s as [k|o]; cbn in Hs.
    + apply charges_own in Hc as [Hin _]. specialize (Hk _ Hin). cbn in Hk. by rewrite Hs in Hk.
    + apply charges_shared in Hc as [Hu Hov]. rewrite Hu, Hov in Ho. cbn in Ho.
      by rewrite Hs in Ho.
  - intros H. split.
    + intros [k b] Hin. cbn. destruct (buckets i !! k) as [x|] eqn:E.
      * assert (Hc : (Own k, b) ∈ charges i d) by (apply charges_own; split; [done|right; by eexists]).
        rewrite (admits_slot i (Own k) x now Hinv E).
        pose proof (charges_budget _ _ _ _ Hd Hc) as Hb. rewrite <- Hb. apply (H _ Hc).
      * destruct (use_overflow i d); [done|]. destruct Hd as (_ & Hb & _).
        rewrite Forall_forall in Hb. specialize (Hb _ Hin). cbn in Hb. rewrite Hb.
        apply (full_admits (Own k)).
    + destruct (use_overflow i d) eqn:Hu; [|done]. cbn.
      destruct (overflow i !! (overflow_of d).1) as [x|] eqn:E; [|done].
      destruct (overflow_of d) as [o b] eqn:Ho. cbn in E.
      assert (Hc : (Shared o, b) ∈ charges i d) by (by apply charges_shared).
      rewrite (admits_slot i (Shared o) x now Hinv E).
      pose proof (charges_budget _ _ _ _ Hd Hc) as Hb. rewrite <- Hb. apply (H _ Hc).
Qed.

(** The invariant survives an admitted request and the sweep. *)
Lemma take_all_inv i d now :
  demand_wf d -> inner_inv i now -> admitted i d now = true -> inner_inv (take_all i d now) now.
Proof.
  intros Hd Hinv Hadm s b Hs. apply (admitted_spec i d now Hd Hinv) in Hadm.
  destruct (decide (s ∈ map fst (charges i d))) as [Hc|Hc].
  - apply elem_of_map_fst in Hc as [c Hc]. pose proof (charges_budget _ _ _ _ Hd Hc) as ->.
    destruct (take_all_charged i d now s _ Hd Hinv Hc) as (_ & nb & Hs' & Hb & Ht).
    rewrite Hs in Hs'. injection Hs' as <-. split; [done|]. rewrite Ht.
    rewrite Forall_forall in Hadm. specialize (Hadm _ Hc). cbn in Hadm.
    unfold slot_admits in Hadm. rewrite Z.leb_le in Hadm. lia.
  - rewrite take_all_other in Hs; [by apply Hinv|done|]. intros c Hin. apply Hc.
    apply elem_of_map_fst. by exists c.
Qed.

Lemma sweep_bucket i s now :
  slot_bucket (sweep_inner i now) s =
  match slot_bucket i s with
  | Some b => if is_full b now then None else Some b
  | None => None
  end.
Proof.
  destruct s as [k|o]; cbn; rewrite map_lookup_filter.
  - destruct (buckets i !! k) as [b|]; cbn; [|done].
    destruct (is_full b now) eqn:E; [by rewrite option_guard_False|by rewrite option_guard_True].
  - destruct (overflow i !! o) as [b|]; cbn; [|done].
    destruct (is_full b now) eqn:E; [by rewrite option_guard_False|by rewrite option_guard_True].
Qed.

Lemma sweep_inv i now : inner_inv i now -> inner_inv (sweep_inner i now) now.
Proof.
  intros H s b. rewrite sweep_bucket. destruct (slot_bucket i s) eqn:E; [|done].
  case_if; [done|]. intros [= <-]. by apply H.
Qed.

Lemma sweep_slot_tat i s now t : now <= t -> slot_tat (sweep_inner i now) s t = slot_tat i s t.
Proof.
  intros Ht. unfold slot_tat. rewrite sweep_bucket. destruct (slot_bucket i s) as [b|]; [|done].
  destruct (is_full b now) eqn:E; [|done]. unfold is_full in E. propify. lia.
Qed.

(** ** Histories *)

Inductive Event := EAdmit (d : Demand) (extra : bool) | ESweep.

(** One call under the lock; [extra] is the answer of the extra bucket. *)
Definition limiter_step (l : Limiter) (ev : Z * Event) : bool * Limiter :=
  match ev with
  | (now, EAdmit d extra) =>
      let '(ok, l, _) := admit_with (fun x _ => x) (fun x _ => x) l extra d now in (ok, l)
  | (now, ESweep) => (false, sweep l now)
  end.

Definition run (l : Limiter) (evs : list (Z * Event)) : Limiter :=
  fold_left (fun l ev => (limiter_step l ev).2) evs l.

(** Whether an event takes a token from slot [s]. *)
Definition draws_now (s : Slot) (l : Limiter) (ev : Z * Event) : bool :=
  match ev.2 with
  | EAdmit d _ => (limiter_step l ev).1 && bool_decide (s ∈ map fst (charges (inner l) d))
  | ESweep => false
  end.

(** Tokens taken from slot [s] along a history. *)
Fixpoint draws (s : Slot) (l : Limiter) (evs : list (Z * Event)) : Z :=
  match evs with
  | [] => 0
  | ev :: evs => (if draws_now s l ev then 1 else 0) + draws s (limiter_step l ev).2 evs
  end.

Definition event_wf (ev : Z * Event) : Prop :=
  match ev.2 with EAdmit d _ => demand_wf d | ESweep => True end.

(** A history within [t0, t1]: times do not decrease, demands are the code's. *)
Fixpoint history (t0 t1 : Z) (evs : list (Z * Event)) : Prop :=
  match evs with
  | [] => t0 <= t1
  | ev :: evs => t0 <= ev.1 <= t1 /\ event_wf ev /\ history ev.1 t1 evs
  end.

Lemma step_start l ev : start (limiter_step l ev).2 = start l.
Proof.
  destruct ev as [now [d x|]]; cbn; [|done]. unfold admit_with, admit_inner.
  by destruct (admitted _ _ _ && _).
Qed.

(** One step: the slot's arrival time advances by an interval exactly when a token is
    taken, and the invariant holds at the new time. *)
Lemma step_slot l ev s :
  event_wf ev -> start l <= ev.1 -> inner_inv (inner l) (ev.1 - start l) ->
  let l' := (limiter_step l ev).2 in let now := ev.1 - start l in
  inner_inv (inner l') now /\
  slot_tat (inner l') s now =
  slot_tat (inner l) s now + (if draws_now s l ev then interval (slot_budget s) else 0).
Proof.
  destruct ev as [t [d x|]]; cbn [fst snd]; intros Hw Hs Hinv.
  - unfold draws_now, limiter_step, admit_with, admit_inner, elapsed. cbn [fst snd event_wf] in *.
    rewrite Z.max_r by lia. unfold event_wf in Hw. cbn in Hw.
    destruct (admitted (inner l) d (t - start l)) eqn:Ha; cbn; [|split; [done|lia]].
    destruct x; cbn; [|split; [done|lia]].
    split; [by apply take_all_inv|]. case_bool_decide as Hc.
    + apply elem_of_map_fst in Hc as [b Hc].
      by apply (take_all_charged (inner l) d (t - start l) s b).
    + unfold slot_tat. rewrite take_all_other; [lia|done|]. intros b Hb. apply Hc.
      apply elem_of_map_fst. by exists b.
  - unfold draws_now. cbn [limiter_step sweep snd inner].
    replace (elapsed l t) with (t - start l) by (unfold elapsed; lia).
    split; [by apply sweep_inv|]. rewrite sweep_slot_tat by lia. lia.
Qed.

Lemma history_inv l t0 t1 evs :
  start l <= t0 -> history t0 t1 evs -> inner_inv (inner l) (t0 - start l) ->
  inner_inv (inner (run l evs)) (t1 - start l) /\ start (run l evs) = start l.
Proof.
  revert l t0. induction evs as [|ev evs IH]; intros l t0 Hs Hh Hinv; cbn in *.
  - split; [|done]. eapply inner_inv_mono; [|done]. lia.
  - destruct Hh as ([Ht0 Ht1] & Hw & Hh).
    destruct (step_slot l ev (Own (KeyMailAddress [])) Hw) as [Hi _]; [lia| |].
    + eapply inner_inv_mono; [|done]. lia.
    + rewrite <- (step_start l ev) in *. apply (IH _ ev.1); [lia|done|done].
Qed.

(** Tokens taken are paid for by the advance of the arrival time. *)
Lemma draws_paid l t0 t1 evs s :
  start l <= t0 -> history t0 t1 evs -> inner_inv (inner l) (t0 - start l) ->
  slot_tat (inner l) s (t0 - start l) + draws s l evs * interval (slot_budget s)
  <= t1 - start l + capacity (slot_budget s) * interval (slot_budget s).
Proof.
  pose proof (slot_budget_ok s) as [Hc Hi].
  revert l t0. induction evs as [|ev evs IH]; intros l t0 Hs Hh Hinv; cbn [draws history] in *.
  - unfold slot_tat. destruct (slot_bucket (inner l) s) as [b|] eqn:E; [|nia].
    destruct (Hinv s b E). nia.
  - destruct Hh as ([Ht0 Ht1] & Hw & Hh).
    assert (Hinv' : inner_inv (inner l) (ev.1 - start l)) by (eapply inner_inv_mono; [|done]; lia).
    destruct (step_slot l ev s Hw ltac:(lia) Hinv') as [Hi' Ht].
    specialize (IH (limiter_step l ev).2 ev.1).
    rewrite (step_start l ev) in IH. specialize (IH ltac:(lia) Hh Hi').
    rewrite Ht in IH.
    assert (slot_tat (inner l) s (t0 - start l) <= slot_tat (inner l) s (ev.1 - start l))
      by (unfold slot_tat; destruct (slot_bucket (inner l) s); lia).
    destruct (draws_now s l ev); nia.
Qed.

Lemma history_le t0 t1 evs : history t0 t1 evs -> t0 <= t1.
Proof. destruct evs; cbn; [done|]. intros [? _]. lia. Qed.

Lemma slot_tat_ge i s t : t <= slot_tat i s t.
Proof. unfold slot_tat. destruct (slot_bucket i s); lia. Qed.

(** ** The memory bound *)

Lemma take_loop_size ov now kbs m :
  Z.of_nat (size (fold_left (take_key ov now) kbs m)) <=
  Z.of_nat (size m) +
  if ov then 0 else Z.of_nat (length (filter (fun kb => m !! kb.1 = None) kbs)).
Proof.
  revert m. induction kbs as [|kb kbs IH]; intros m; [cbn; destruct ov; lia|].
  cbn [fold_left]. etrans; [apply IH|]. unfold take_key.
  destruct (m !! kb.1) as [b|] eqn:E.
  - rewrite map_size_insert_Some by done. rewrite filter_cons_False by (by rewrite E).
    destruct ov; [lia|]. apply Z.add_le_mono_l, inj_le.
    assert (Hf : forall x : Key * Budget, <[kb.1:=take b now]> m !! x.1 = None <-> m !! x.1 = None).
    { intros x. rewrite lookup_insert_None. split; [by intros [? _]|]. intros Hx.
      split; [done|congruence]. }
    rewrite (list_filter_iff _ (fun kb0 => m !! kb0.1 = None)); [lia|done].
  - destruct ov; [lia|]. rewrite map_size_insert_None by done.
    rewrite filter_cons_True by done. cbn [length].
    enough (length (filter (fun kb0 => <[kb.1:=take (full kb.2 now) now]> m !! kb0.1 = None) kbs)
            <= length (filter (fun kb0 => m !! kb0.1 = None) kbs))%nat by lia.
    clear IH. induction kbs as [|x kbs IHk]; [cbn; lia|].
    rewrite !filter_cons. destruct (decide (<[_:=_]> m !! x.1 = None)) as [Hx|_];
      [apply lookup_insert_None in Hx as [Hx _]; rewrite decide_True by done; cbn; lia|].
    case_decide; cbn; lia.
Qed.

Lemma step_size l ev :
  limiter_len l <= MAX_BUCKETS -> limiter_len (limiter_step l ev).2 <= MAX_BUCKETS.
Proof.
  unfold limiter_len. destruct ev as [t [d x|]]; cbn.
  - unfold admit_with, admit_inner. destruct (admitted _ _ _ && _); cbn; [|done].
    intros Hl. etrans; [apply take_loop_size|].
    change (Z.of_nat (length (filter (fun kb => buckets (inner l) !! kb.1 = None) (keys d))))
      with (missing (inner l) d).
    destruct (use_overflow (inner l) d) eqn:Hu; [lia|]. unfold use_overflow in Hu. propify. lia.
  - intros Hl. etrans; [|done]. apply inj_le. apply map_size_filter.
Qed.

Lemma run_size l evs : limiter_len l <= MAX_BUCKETS -> limiter_len (run l evs) <= MAX_BUCKETS.
Proof.
  revert l. induction evs as [|ev evs IH]; intros l Hl; [done|]. cbn. by apply IH, step_size.
Qed.

Lemma full_level b now : TokenBucket.level {| TokenBucket.level := capacity b * interval b;
  TokenBucket.last := now |} = bucket_level (full b now) now.
Proof. unfold bucket_level. cbn. lia. Qed.

(** ** Theorems *)

(** C37: a bucket kept as one arrival time decides every sequence of requests at
    non-decreasing times as the continuously refilled token bucket of the same budget
    does, both starting full. *)
Theorem bucket_is_token_bucket (b : Budget) (t : Z) (nows : list Z) :
  1 <= capacity b -> 1 <= interval b -> times_from t nows ->
  decisions bucket_request (full b t) nows =
  decisions (TokenBucket.request b)
    {| TokenBucket.level := capacity b * interval b; TokenBucket.last := t |} nows.
Proof.
  intros Hc Hi Ht. symmetry.
  by apply (decisions_refine (full b t) _ t nows (conj Hc Hi) Ht); [|apply full_level].
Qed.

Lemma bucket_is_token_bucket_witness :
  decisions bucket_request (full (class_budget Reset) 0) [0; 1; 2; 3; 4; 5; seconds 720] =
  decisions (TokenBucket.request (class_budget Reset))
    {| TokenBucket.level := seconds 3600; TokenBucket.last := 0 |}
    [0; 1; 2; 3; 4; 5; seconds 720] /\
  decisions bucket_request (full (class_budget Reset) 0) [0; 1; 2; 3; 4; 5; seconds 720] =
  [true; true; true; true; true; false; true].
Proof.
  split; [|reflexivity].
  apply (bucket_is_token_bucket (class_budget Reset) 0 [0; 1; 2; 3; 4; 5; seconds 720]);
    vm_compute; intuition discriminate.
Defined.

(** An admission is all or nothing. The request passes exactly when every bucket it is
    charged to and the caller's extra bucket hold a token; then each charged bucket
    loses one token and no other bucket changes. A refused request changes nothing. *)
Theorem admit_with_all_or_nothing {X} (ea : X -> Z -> bool) (et : X -> Z -> X)
    (l : Limiter) (x : X) (d : Demand) (now : Z) :
  demand_wf d -> inner_inv (inner l) (elapsed l now) ->
  let e := elapsed l now in
  let '(ok, l', x') := admit_with ea et l x d now in
  (ok = true <-> Forall (fun sb => slot_admits sb.2 (inner l) sb.1 e = true) (charges (inner l) d)
                 /\ ea x e = true) /\
  (ok = true ->
     x' = et x e /\
     (forall s, s ∈ map fst (charges (inner l) d) ->
        slot_tat (inner l') s e = slot_tat (inner l) s e + interval (slot_budget s)) /\
     (forall s, s ∉ map fst (charges (inner l) d) ->
        slot_bucket (inner l') s = slot_bucket (inner l) s)) /\
  (ok = false -> l' = l /\ x' = x).
Proof.
  intros Hd Hinv. unfold admit_with, admit_inner. cbn zeta.
  destruct (admitted (inner l) d (elapsed l now) && ea x (elapsed l now)) eqn:Ha;
    rewrite <- (admitted_spec _ _ _ Hd Hinv), <- andb_true_iff, Ha.
  - split; [done|]. split; [|done]. intros _. split; [done|]. split.
    + intros s Hs. apply elem_of_map_fst in Hs as [b Hs].
      by apply (take_all_charged (inner l) d (elapsed l now) s b).
    + intros s Hs. apply take_all_other; [done|]. intros b Hb. apply Hs.
      apply elem_of_map_fst. by exists b.
  - split; [done|]. split; [done|]. intros _. by destruct l.
Qed.

Lemma admit_with_all_or_nothing_witness :
  let l := limiter_new 0 in
  let d := demand_class Login (V6 1) in
  slot_tat (inner (admit_with (fun x _ => x) (fun x _ => x) l true d 5).1.2)
    (Own (KeyClass Login (V6Slash64 0))) 5 = 5 + seconds 90.
Proof.
  destruct (admit_with_all_or_nothing (fun x _ => x) (fun x _ => x) (limiter_new 0) true
              (demand_class Login (V6 1)) 5
              (demand_class_wf _ _) (inner_inv_empty _)) as (_ & H & _).
  apply (proj1 (proj2 (H eq_refl))). vm_compute. constructor.
Defined.

(** C36: the rate is bounded in every window. Over any stretch [win] of any history, from
    [t0] to [t1], the tokens taken from one bucket cost at most the window's length plus
    one full bucket; sweeping idle buckets and restarting them full gives no more. *)
Theorem window_rate_bound (start t0 t1 : Z) (pre win : list (Z * Event)) (s : Slot) :
  history start t0 pre -> history t0 t1 win ->
  draws s (run (limiter_new start) pre) win * interval (slot_budget s)
  <= (t1 - t0) + capacity (slot_budget s) * interval (slot_budget s).
Proof.
  intros Hp Hw.
  destruct (history_inv (limiter_new start) start t0 pre) as [Hi Hs];
    [cbn; lia|done|apply inner_inv_empty|]. cbn [Rate.start limiter_new] in Hs, Hi.
  rewrite <- Hs in Hi at 2.
  pose proof (history_le _ _ _ Hp) as Hle.
  pose proof (draws_paid _ t0 t1 win s ltac:(by rewrite Hs) Hw Hi) as Hd.
  pose proof (slot_tat_ge (inner (run (limiter_new start) pre)) s
    (t0 - Rate.start (run (limiter_new start) pre))). lia.
Qed.

Lemma window_rate_bound_witness :
  let d := demand_class Reset (V4 1) in
  let s := Own (KeyClass Reset (PrefixV4 1)) in
  let win := [(0, EAdmit d true); (1, EAdmit d true); (2, ESweep); (3, EAdmit d true);
              (4, EAdmit d true); (5, EAdmit d true); (6, EAdmit d true)] in
  draws s (run (limiter_new 0) []) win = 5 /\
  draws s (run (limiter_new 0) []) win * interval (slot_budget s)
  <= (6 - 0) + capacity (slot_budget s) * interval (slot_budget s).
Proof.
  split; [reflexivity|]. apply window_rate_bound; [cbn; lia|].
  unfold history. cbn [fst snd event_wf].
  repeat match goal with |- _ /\ _ => split end; try exact I; try lia; apply demand_class_wf.
Defined.

(** Whatever is asked of the limiter, in any order and at any times, it never tracks
    more than [MAX_BUCKETS] buckets. *)
Theorem limiter_memory_bound (start : Z) (evs : list (Z * Event)) :
  limiter_len (run (limiter_new start) evs) <= MAX_BUCKETS.
Proof. apply run_size. vm_compute. discriminate. Qed.
