(* ===== verification/Cli.v ===== *)
(** * The command line (src/src/cli.rs)

    An [OsString] argument is its bytes. *)

From S2P Require Import Prelude Str.

Inductive BackupTarget := BackupFile (path : bytes) | BackupStdout.
Inductive RestoreSource := RestoreFile (path : bytes) | RestoreStdin.

Record CreateArgs := { arg_slug : bytes; arg_name : bytes; arg_host : option bytes }.

Inductive Command :=
| Serve
| Healthcheck
| Backup (target : BackupTarget)
| Restore (source : RestoreSource)
| RestoreList
| AdminUnlock (email : str)
| AdminResetPassword (email : str)
| ProjectCreate (args : CreateArgs).

Inductive Invocation := Version | Help | Run (c : Command).

#[global] Instance Invocation_eq_dec : EqDecision Invocation.
Proof.
  assert (EqDecision CreateArgs) by solve_decision.
  assert (EqDecision BackupTarget) by solve_decision.
  assert (EqDecision RestoreSource) by solve_decision.
  assert (EqDecision Command) by solve_decision. solve_decision.
Defined.

(** [*arg == "text"]. *)
Definition arg_is (arg : bytes) (text : string) : bool := zlist_eqb arg (lit text).

Definition starts_with_dash (arg : bytes) : bool := starts_with_char 45 arg.

Definition is_path (arg : bytes) : bool :=
  negb (zlist_eqb arg []) && negb (starts_with_dash arg).

Definition command_help (rest : list bytes) : bool := bool_decide (rest = [lit "--help"]).

Definition no_arguments (c : Command) (rest : list bytes) : result unit Invocation :=
  match rest with
  | [] => Ok (Run c)
  | _ => if command_help rest then Ok Help else Err tt
  end.

Definition parse_backup (rest : list bytes) : result unit Invocation :=
  if command_help rest then Ok Help
  else match rest with
       | [arg] => if arg_is arg "-" then Ok (Run (Backup BackupStdout))
                  else if is_path arg then Ok (Run (Backup (BackupFile arg)))
                  else Err tt
       | _ => Err tt
       end.

Definition parse_restore (rest : list bytes) : result unit Invocation :=
  if command_help rest then Ok Help
  else match rest with
       | [arg] => if arg_is arg "--list" then Ok (Run RestoreList)
                  else if arg_is arg "-" then Ok (Run (Restore RestoreStdin))
                  else if is_path arg then Ok (Run (Restore (RestoreFile arg)))
                  else Err tt
       | _ => Err tt
       end.

Definition parse_project_create (rest : list bytes) : result unit Invocation :=
  let value arg := negb (starts_with_dash arg) in
  let args slug name host :=
    Run (ProjectCreate {| arg_slug := slug; arg_name := name; arg_host := host |}) in
  if command_help rest then Ok Help
  else match rest with
       | [slug; flag; name] =>
           if arg_is flag "--name" && value slug && value name
           then Ok (args slug name None) else Err tt
       | [slug; flag; name; host_flag; host] =>
           if arg_is flag "--name" && arg_is host_flag "--host"
              && value slug && value name && value host
           then Ok (args slug name (Some host)) else Err tt
       | _ => Err tt
       end.

Definition parse_admin (subcommand : bytes) (rest : list bytes) : result unit Invocation :=
  command ← (if arg_is subcommand "unlock" then Ok AdminUnlock
             else if arg_is subcommand "reset-password" then Ok AdminResetPassword
             else Err tt);
  if command_help rest then Ok Help
  else match rest with
       | [flag; address] =>
           if arg_is flag "--email" then
             match from_utf8 address with
             | Some address =>
                 if negb (zlist_eqb address []) && negb (starts_with_char 45 address)
                 then Ok (Run (command address)) else Err tt
             | None => Err tt
             end
           else Err tt
       | _ => Err tt
       end.

(** [cli::parse]: the first matching arm of the grammar. *)
Definition parse (args : list bytes) : result unit Invocation :=
  match args with
  | [] => Err tt
  | name :: rest =>
      if bool_decide (rest = []) && arg_is name "--version" then Ok Version
      else if bool_decide (rest = []) && arg_is name "--help" then Ok Help
      else if arg_is name "serve" then no_arguments Serve rest
      else if arg_is name "healthcheck" then no_arguments Healthcheck rest
      else if arg_is name "backup" then parse_backup rest
      else if arg_is name "restore" then parse_restore rest
      else
        match rest with
        | [] => Err tt
        | subcommand :: rest =>
            if arg_is name "project" && arg_is subcommand "create" then parse_project_create rest
            else if arg_is name "admin" then parse_admin subcommand rest
            else Err tt
        end
  end.

(** ** The arguments of a command *)

Definition args_of (c : Command) : list bytes :=
  match c with
  | Serve => [lit "serve"]
  | Healthcheck => [lit "healthcheck"]
  | Backup (BackupFile p) => [lit "backup"; p]
  | Backup BackupStdout => [lit "backup"; lit "-"]
  | Restore (RestoreFile p) => [lit "restore"; p]
  | Restore RestoreStdin => [lit "restore"; lit "-"]
  | RestoreList => [lit "restore"; lit "--list"]
  | AdminUnlock email => [lit "admin"; lit "unlock"; lit "--email"; utf8 email]
  | AdminResetPassword email => [lit "admin"; lit "reset-password"; lit "--email"; utf8 email]
  | ProjectCreate a =>
      [lit "project"; lit "create"; arg_slug a; lit "--name"; arg_name a]
      ++ match arg_host a with Some h => [lit "--host"; h] | None => [] end
  end.

(** Values the grammar can carry: paths are not empty and nothing reads as a flag. *)
Definition command_wf (c : Command) : bool :=
  match c with
  | Backup (BackupFile p) => is_path p
  | Restore (RestoreFile p) => is_path p
  | AdminUnlock e | AdminResetPassword e =>
      forallb is_scalar e && negb (zlist_eqb e []) && negb (starts_with_char 45 e)
  | ProjectCreate a =>
      negb (starts_with_dash (arg_slug a)) && negb (starts_with_dash (arg_name a))
      && match arg_host a with Some h => negb (starts_with_dash h) | None => true end
  | _ => true
  end.

Lemma arg_is_eq arg t : arg_is arg t = true <-> arg = lit t.
Proof. apply zlist_eqb_eq. Qed.

Lemma is_path_not_dash p t : is_path p = true -> starts_with_char 45 (lit t) = true -> arg_is p t = false.
Proof.
  intros Hp Ht. destruct (arg_is p t) eqn:E; [|done]. apply arg_is_eq in E as ->.
  unfold is_path, starts_with_dash in Hp. rewrite Ht in Hp. by rewrite andb_false_r in Hp.
Qed.

Lemma not_help rest : rest <> [lit "--help"] -> command_help rest = false.
Proof. intros. by apply bool_decide_eq_false. Qed.

(** Each accepted argument list is the argument list of what it means. *)
Lemma parse_args args c : parse args = Ok (Run c) -> args = args_of c /\ command_wf c = true.
Proof.
  unfold parse. destruct args as [|name rest]; [done|].
  destruct (bool_decide (rest = []) && arg_is name "--version"); [done|].
  destruct (bool_decide (rest = []) && arg_is name "--help"); [done|].
  destruct (arg_is name "serve") eqn:E1; [apply arg_is_eq in E1 as ->|].
  { unfold no_arguments. destruct rest; [|by case_if]. by intros [= <-]. }
  destruct (arg_is name "healthcheck") eqn:E2; [apply arg_is_eq in E2 as ->|].
  { unfold no_arguments. destruct rest; [|by case_if]. by intros [= <-]. }
  destruct (arg_is name "backup") eqn:E3; [apply arg_is_eq in E3 as ->|].
  { unfold parse_backup. case_if; [done|]. destruct rest as [|arg [|]]; try done.
    destruct (arg_is arg "-") eqn:E; [apply arg_is_eq in E as ->; by intros [= <-]|].
    destruct (is_path arg) eqn:Ep; [|done]. by intros [= <-]. }
  destruct (arg_is name "restore") eqn:E4; [apply arg_is_eq in E4 as ->|].
  { unfold parse_restore. case_if; [done|]. destruct rest as [|arg [|]]; try done.
    destruct (arg_is arg "--list") eqn:E; [apply arg_is_eq in E as ->; by intros [= <-]|].
    destruct (arg_is arg "-") eqn:E'; [apply arg_is_eq in E' as ->; by intros [= <-]|].
    destruct (is_path arg) eqn:Ep; [|done]. by intros [= <-]. }
  destruct rest as [|sub rest]; [done|].
  destruct (arg_is name "project" && arg_is sub "create") eqn:E5.
  { apply andb_true_iff in E5 as [->%arg_is_eq ->%arg_is_eq]. unfold parse_project_create.
    case_if; [done|]. destruct rest as [|slug [|flag [|nm [|hf [|h [|]]]]]]; try done.
    - destruct (_ && _) eqn:Ha; [|done]. intros [= <-].
      rewrite !andb_true_iff, arg_is_eq in Ha. destruct Ha as ((-> & Hs) & Hn).
      cbn [command_wf arg_slug arg_name arg_host]. by rewrite Hs, Hn.
    - destruct (_ && _) eqn:Ha; [|done]. intros [= <-].
      rewrite !andb_true_iff, !arg_is_eq in Ha. destruct Ha as ((((-> & ->) & Hs) & Hn) & Hh).
      cbn [command_wf arg_slug arg_name arg_host]. by rewrite Hs, Hn, Hh. }
  destruct (arg_is name "admin") eqn:E6; [apply arg_is_eq in E6 as ->|done].
  unfold parse_admin. intros Hp. apply bind_Ok_inv in Hp as (cmd & Hc & Hp).
  assert (Hsub : forall e, args_of (cmd e) = [lit "admin"; sub; lit "--email"; utf8 e] /\
                 command_wf (cmd e) =
                 forallb is_scalar e && negb (zlist_eqb e []) && negb (starts_with_char 45 e)).
  { intros e. destruct (arg_is sub "unlock") eqn:Es; [apply arg_is_eq in Es as ->; by injection Hc as <-|].
    destruct (arg_is sub "reset-password") eqn:Es'; [|done].
    apply arg_is_eq in Es' as ->. by injection Hc as <-. }
  revert Hp. case_if; [done|]. destruct rest as [|flag [|addr [|]]]; try done.
  destruct (arg_is flag "--email") eqn:Ef; [apply arg_is_eq in Ef as ->|done].
  destruct (from_utf8 addr) as [e|] eqn:Eu; [|done]. case_if; [|done]. intros [= <-].
  destruct (Hsub e) as [-> ->]. destruct (utf8_from_utf8 _ _ Eu) as [-> ->]. done.
Qed.

Lemma parse_args_of c : command_wf c = true -> parse (args_of c) = Ok (Run c).
Proof.
  destruct c as [| |[p|]|[p|]| |e|e|a]; cbn [command_wf args_of]; intros Hw.
  - vm_compute; reflexivity.
  - vm_compute; reflexivity.
  - change (parse_backup [p] = Ok (Run (Backup (BackupFile p)))). unfold parse_backup.
    rewrite not_help by (intros [= ->]; discriminate Hw).
    by rewrite is_path_not_dash, Hw.
  - vm_compute; reflexivity.
  - change (parse_restore [p] = Ok (Run (Restore (RestoreFile p)))). unfold parse_restore.
    rewrite not_help by (intros [= ->]; discriminate Hw).
    by rewrite !is_path_not_dash, Hw.
  - vm_compute; reflexivity.
  - vm_compute; reflexivity.
  - rewrite !andb_true_iff in Hw. destruct Hw as [[Hs He] Hd].
    change (parse_admin (lit "unlock") [lit "--email"; utf8 e] = Ok (Run (AdminUnlock e))).
    unfold parse_admin. cbn [mbind result_bind]. rewrite not_help by discriminate.
    change (arg_is (lit "unlock") "unlock") with true.
    change (arg_is (lit "--email") "--email") with true. cbn [mbind result_bind].
    by rewrite from_utf8_utf8, He, Hd.
  - rewrite !andb_true_iff in Hw. destruct Hw as [[Hs He] Hd].
    change (parse_admin (lit "reset-password") [lit "--email"; utf8 e]
            = Ok (Run (AdminResetPassword e))).
    unfold parse_admin. rewrite not_help by discriminate.
    change (arg_is (lit "reset-password") "unlock") with false.
    change (arg_is (lit "reset-password") "reset-password") with true.
    change (arg_is (lit "--email") "--email") with true. cbn [mbind result_bind].
    by rewrite from_utf8_utf8, He, Hd.
  - rewrite !andb_true_iff in Hw. destruct Hw as [[Hs Hn] Hh]. destruct a as [slug name [host|]];
      cbn [arg_slug arg_name arg_host app] in *.
    + change (parse_project_create [slug; lit "--name"; name; lit "--host"; host] =
        Ok (Run (ProjectCreate {| arg_slug := slug; arg_name := name; arg_host := Some host |}))).
      unfold parse_project_create. rewrite not_help by discriminate. by rewrite Hs, Hn, Hh.
    + change (parse_project_create [slug; lit "--name"; name] =
        Ok (Run (ProjectCreate {| arg_slug := slug; arg_name := name; arg_host := None |}))).
      unfold parse_project_create. rewrite not_help by discriminate. by rewrite Hs, Hn.
Qed.

(** ** Theorems *)

(** The grammar and its meaning are inverse to each other: an invocation is read as
    command [c] exactly when its arguments are [c]'s and [c] carries only values the
    grammar allows. *)
Theorem parse_grammar (args : list bytes) (c : Command) :
  parse args = Ok (Run c) <-> args = args_of c /\ command_wf c = true.
Proof.
  split; [apply parse_args|]. intros [-> Hw]. by apply parse_args_of.
Qed.
