(* ===== verification/Config.v ===== *)
(** * Configuration (src/src/config.rs)

    The environment is a lookup function from names to bytes; the [Reader] collects
    problems as it reads. Each static message is a constructor of [Rule]; the [dev]
    feature flag is a parameter. *)

From S2P Require Import Prelude Str Net Keys Cli.

Inductive Rule :=
| MISSING | NOT_UTF8 | UNCHANGED_EXAMPLE | DEV_BUILD_SENDS_NO_MAIL
| DNS_RULE | BASE_URL_FORM | BASE_URL_SCHEME | BASE_URL_PORT | BASE_URL_HTTP_HOST
| TRUSTED_PROXIES_RULE | SECRET_RULE | SMTP_PORT_RULE | SMTP_TLS_RULE
| NO_CONTROL_CHARACTERS | SENDER_RULE | MAIL_PER_HOUR_RULE.

#[global] Instance Rule_eq_dec : EqDecision Rule.
Proof. solve_decision. Defined.

(** ** Values *)

(** One label of a DNS name. *)
Definition label_ok (label : str) : bool :=
  negb (zlist_eqb label []) && (str_len label <=? 63)
  && forallb (fun b => is_ascii_lowercase b || is_ascii_digit b || (b =? 45)) (utf8 label)
  && negb (starts_with_char 45 label) && negb (ends_with_char 45 label).

(** [DnsName::parse]; the name itself on success. *)
Definition dns_name (text : str) : result Rule str :=
  if zlist_eqb text [] || (253 <? str_len text) then Err DNS_RULE
  else if negb (forallb label_ok (split 46 text)) then Err DNS_RULE
  else if forallb is_ascii_digit (utf8 (default [] (last (split 46 text)))) then Err DNS_RULE
  else Ok text.

(** A decimal below [2^32] without sign, spaces or leading zeros. *)
Definition parse_decimal (text : str) : option Z :=
  let canonical := negb (zlist_eqb text []) && forallb is_ascii_digit (utf8 text)
                   && ((str_len text =? 1) || negb (starts_with_char 48 text)) in
  if canonical then
    let n := digits_value text in if n <? 2 ^ 32 then Some n else None
  else None.

Definition parse_port (text : str) : option Z :=
  n ← parse_decimal text;
  opt_filter (fun n => negb (n =? 0)) (if n <? 2 ^ 16 then Some n else None).

Record BaseUrl := { https : bool; host : str; port : option Z }.

#[global] Instance BaseUrl_eq_dec : EqDecision BaseUrl.
Proof. solve_decision. Defined.

(** [BaseUrl::origin]. *)
Definition origin (u : BaseUrl) : str :=
  (if https u then lit "https" else lit "http") ++ lit "://" ++ host u ++
  match port u with Some p => lit ":" ++ show_unsigned p | None => [] end.

Definition url_scheme (dev : bool) (text : str) : result Rule (bool * str) :=
  match strip_prefix (lit "https://") text with
  | Some rest => Ok (true, rest)
  | None =>
      match strip_prefix (lit "http://") text with
      | Some rest => if dev then Ok (false, rest) else Err BASE_URL_SCHEME
      | None => Err BASE_URL_SCHEME
      end
  end.

(** [parse_base_url]. *)
Definition parse_base_url (dev : bool) (text : str) : result Rule BaseUrl :=
  '(https, rest) ← url_scheme dev text;
  if existsb (fun c => (c =? 47) || (c =? 63) || (c =? 35) || (c =? 64)) rest
  then Err BASE_URL_FORM
  else
    '(host, port) ← match split_once 58 rest with
                    | Some (host, port) =>
                        p ← ok_or BASE_URL_PORT (parse_port port); Ok (host, Some p)
                    | None => Ok (rest, None)
                    end;
    if bool_decide (port = Some (if https : bool then 443 else 80)) then Err BASE_URL_PORT
    else
      host ← dns_name host;
      if negb https && negb (zlist_eqb host (lit "localhost")) then Err BASE_URL_HTTP_HOST
      else Ok {| https := https; host := host; port := port |}.

(** The bits of an address past the prefix. *)
Definition host_bits (address : IpAddr) (prefix : Z) : Z :=
  match address with
  | V4 v4 => Z.land v4 (Z.lxor (2 ^ 32 - 1) (net_mask 32 prefix))
  | V6 v6 => Z.land v6 (Z.lxor (2 ^ 128 - 1) (net_mask 128 prefix))
  end.

Definition parse_ip_net (entry : str) : option IpNet :=
  let '(address, prefix) := match split_once 47 entry with
                            | Some (address, prefix) => (address, Some prefix)
                            | None => (entry, None)
                            end in
  address ← parse_ip address;
  let max := if is_ipv4 address then 32 else 128 in
  prefix ← match prefix with
           | Some text =>
               n ← parse_decimal text;
               if n <? 2 ^ 8 then opt_filter (fun p => (1 <=? p) && (p <=? max)) (Some n) else None
           | None => Some max
           end;
  let mapped := match address with
                | V6 v6 => match to_ipv4_mapped v6 with Some _ => 96 <=? prefix | None => false end
                | V4 _ => false
                end in
  then_some ((host_bits address prefix =? 0) && negb mapped)
    {| Net.address := address; Net.prefix := prefix |}.

Definition parse_trusted_proxies (text : str) : result Rule TrustedProxies :=
  if zlist_eqb text (lit "none") then Ok TrustNone
  else ok_or TRUSTED_PROXIES_RULE (TrustList <$> mapM parse_ip_net (split 44 text)).

Definition parse_instance_secret `{Crates} (text : str) : result Rule bytes :=
  map_err (fun _ => SECRET_RULE) (from_base64 text).

Definition parse_smtp_port (text : str) : result Rule Z := ok_or SMTP_PORT_RULE (parse_port text).

Inductive SmtpTls := Implicit | Starttls.

Definition parse_smtp_tls (text : str) : result Rule SmtpTls :=
  if zlist_eqb text (lit "implicit") then Ok Implicit
  else if zlist_eqb text (lit "starttls") then Ok Starttls
  else Err SMTP_TLS_RULE.

Definition parse_smtp_username (text : str) : result Rule str :=
  if existsb is_control text then Err NO_CONTROL_CHARACTERS else Ok text.

Definition is_atext (c : char) : bool :=
  is_ascii_alphanumeric c || contains_char c (lit "!#$%&'*+/=?^_`{|}~-").

Definition parse_sender (text : str) : result Rule str :=
  if 254 <? str_len text then Err SENDER_RULE
  else
    '(local, domain) ← ok_or SENDER_RULE (split_once 64 text);
    let dot_atom := negb (zlist_eqb local [])
      && forallb (fun atom => negb (zlist_eqb atom []) && forallb is_atext atom) (split 46 local) in
    if negb dot_atom || negb (is_ok (dns_name domain)) then Err SENDER_RULE else Ok text.

Definition parse_public_mail_per_hour (text : str) : result Rule Z :=
  ok_or MAIL_PER_HOUR_RULE (opt_filter (fun n => 1 <=? n) (parse_decimal text)).

(** ** The reader

    Reading a setting returns a value if it is usable and appends what is wrong. *)

Record Problem := { variable : str; rule : Rule }.

#[global] Instance Problem_eq_dec : EqDecision Problem.
Proof. solve_decision. Defined.

Definition BASE_URL : str := lit "KOHAKU_BASE_URL".
Definition TRUSTED_PROXIES : str := lit "KOHAKU_TRUSTED_PROXIES".
Definition SECRET : str := lit "KOHAKU_SECRET".
Definition SMTP_HOST : str := lit "KOHAKU_SMTP_HOST".
Definition SMTP_PORT : str := lit "KOHAKU_SMTP_PORT".
Definition SMTP_TLS : str := lit "KOHAKU_SMTP_TLS".
Definition SMTP_USERNAME : str := lit "KOHAKU_SMTP_USERNAME".
Definition SMTP_PASSWORD : str := lit "KOHAKU_SMTP_PASSWORD".
Definition SMTP_FROM : str := lit "KOHAKU_SMTP_FROM".
Definition PUBLIC_MAIL_PER_HOUR : str := lit "KOHAKU_PUBLIC_MAIL_PER_HOUR".

Definition SMTP_CONNECTION_SETTINGS : list str :=
  [SMTP_HOST; SMTP_PORT; SMTP_TLS; SMTP_USERNAME; SMTP_PASSWORD].

Definition DEFAULT_PUBLIC_MAIL_PER_HOUR : Z := 60.

Module Placeholders.
Definition BASE_URL : str := lit "https://bugs.example.com".
Definition SMTP_HOST : str := lit "smtp.example.com".
Definition SMTP_USERNAME : str := lit "your-smtp-username".
Definition SMTP_FROM : str := lit "bugs@example.com".
End Placeholders.

Record SmtpConfig := {
  smtp_host : str; smtp_port : Z; smtp_tls : SmtpTls; smtp_username : str; smtp_password : str }.

Inductive MailTransport := Smtp (c : SmtpConfig) | PrintMail.

Record ServeConfig := {
  serve_base_url : BaseUrl; serve_trusted_proxies : TrustedProxies; serve_secret : bytes;
  serve_sender : str; serve_transport : MailTransport; serve_public_mail_per_hour : Z }.

Inductive Config :=
| ServeConf (c : ServeConfig)
| SecretConf (secret : bytes)
| LinksConf (secret : bytes) (base_url : BaseUrl)
| NoConf.

(** A reader step: the problems so far in, an optional value and the problems out. *)
Definition Reader (A : Type) : Type := list Problem -> option A * list Problem.

Definition report {A} (name : str) (r : Rule) : Reader A :=
  fun ps => (None, ps ++ [{| variable := name; rule := r |}]).

Section Reader.
Context `{Crates} (dev : bool) (lookup : str -> option bytes).

Definition raw (name : str) : Reader str := fun ps =>
  match lookup name with
  | None => (None, ps)
  | Some value =>
      match from_utf8 value with
      | Some text => (Some text, ps)
      | None => report name NOT_UTF8 ps
      end
  end.

Definition parsed {A} (name value : str) (parse : str -> result Rule A) : Reader A := fun ps =>
  match parse value with
  | Ok a => (Some a, ps)
  | Err r => report name r ps
  end.

Definition required {A} (name : str) (parse : str -> result Rule A) : Reader A := fun ps =>
  let is_set := match lookup name with Some _ => true | None => false end in
  match raw name ps with
  | (Some value, ps) =>
      if negb (zlist_eqb value []) then parsed name value parse ps else report name MISSING ps
  | (None, ps) => if negb is_set then report name MISSING ps else (None, ps)
  end.

(** The comparison is of the raw bytes. *)
Definition refuse_placeholder (name placeholder : str) (ps : list Problem)
  : bool * list Problem :=
  let unchanged := bool_decide (lookup name = Some (utf8 placeholder)) in
  (unchanged,
   if unchanged then ps ++ [{| variable := name; rule := UNCHANGED_EXAMPLE |}] else ps).

Definition required_not_placeholder {A} (name placeholder : str)
  (parse : str -> result Rule A) : Reader A := fun ps =>
  match refuse_placeholder name placeholder ps with
  | (true, ps) => (None, ps)
  | (false, ps) => required name parse ps
  end.

Definition problems_for (name : str) (ps : list Problem) : bool :=
  existsb (fun p => zlist_eqb (variable p) name) ps.

Definition read_secret : Reader bytes := required SECRET parse_instance_secret.

Definition links : Reader Config := fun ps =>
  let '(secret, ps) := read_secret ps in
  let '(base_url, ps) :=
    required_not_placeholder BASE_URL Placeholders.BASE_URL (parse_base_url dev) ps in
  (s ← secret; u ← base_url; Some (LinksConf s u), ps).

Definition smtp : Reader SmtpConfig := fun ps =>
  let '(host, ps) := required_not_placeholder SMTP_HOST Placeholders.SMTP_HOST dns_name ps in
  let '(port, ps) := required SMTP_PORT parse_smtp_port ps in
  let '(tls, ps) := required SMTP_TLS parse_smtp_tls ps in
  let '(username, ps) :=
    required_not_placeholder SMTP_USERNAME Placeholders.SMTP_USERNAME parse_smtp_username ps in
  let '(password, ps) := required SMTP_PASSWORD parse_smtp_username ps in
  (h ← host; p ← port; t ← tls; u ← username; w ← password;
   Some {| smtp_host := h; smtp_port := p; smtp_tls := t; smtp_username := u;
           smtp_password := w |}, ps).

(** A [dev] build refuses each connection setting that is set. *)
Definition refuse_settings (ps : list Problem) : list Problem :=
  fold_left (fun ps name =>
               match lookup name with
               | Some _ => ps ++ [{| variable := name; rule := DEV_BUILD_SENDS_NO_MAIL |}]
               | None => ps
               end) SMTP_CONNECTION_SETTINGS ps.

Definition transport : Reader MailTransport := fun ps =>
  if dev then
    let refused := existsb (fun name => bool_decide (is_Some (lookup name)))
                     SMTP_CONNECTION_SETTINGS in
    (then_some (negb refused) PrintMail, refuse_settings ps)
  else
    let '(c, ps) := smtp ps in (Smtp <$> c, ps).

Definition read_public_mail_per_hour : Reader Z := fun ps =>
  match raw PUBLIC_MAIL_PER_HOUR ps with
  | (None, ps) =>
      if problems_for PUBLIC_MAIL_PER_HOUR ps then (None, ps)
      else (Some DEFAULT_PUBLIC_MAIL_PER_HOUR, ps)
  | (Some value, ps) => parsed PUBLIC_MAIL_PER_HOUR value parse_public_mail_per_hour ps
  end.

Definition serve : Reader Config := fun ps =>
  let '(base_url, ps) :=
    required_not_placeholder BASE_URL Placeholders.BASE_URL (parse_base_url dev) ps in
  let '(trusted_proxies, ps) := required TRUSTED_PROXIES parse_trusted_proxies ps in
  let '(secret, ps) := read_secret ps in
  let '(sender, ps) :=
    required_not_placeholder SMTP_FROM Placeholders.SMTP_FROM parse_sender ps in
  let '(transport, ps) := transport ps in
  let '(public_mail_per_hour, ps) := read_public_mail_per_hour ps in
  (u ← base_url; t ← trusted_proxies; s ← secret; f ← sender; m ← transport;
   n ← public_mail_per_hour;
   Some (ServeConf {| serve_base_url := u; serve_trusted_proxies := t; serve_secret := s;
                      serve_sender := f; serve_transport := m;
                      serve_public_mail_per_hour := n |}), ps).

(** [Config::load]. *)
Definition read_config (c : Command) : Reader Config := fun ps =>
  match c with
  | Serve => serve ps
  | Backup _ | AdminUnlock _ => let '(s, ps) := read_secret ps in (SecretConf <$> s, ps)
  | AdminResetPassword _ | ProjectCreate _ => links ps
  | Restore _ | RestoreList | Healthcheck => (Some NoConf, ps)
  end.

Definition load (c : Command) : result (list Problem) Config :=
  match read_config c [] with
  | (Some config, []) => Ok config
  | (_, ps) => Err ps
  end.
End Reader.

(** ** What each setting must satisfy, on its own *)

Section Checks.
Context `{Crates} (dev : bool) (lookup : str -> option bytes).

(** The rule a required setting breaks, if any; a placeholder is refused first. *)
Definition check {A} (name : str) (placeholder : option str) (parse : str -> result Rule A)
  : option Rule :=
  match lookup name with
  | None => Some MISSING
  | Some value =>
      if bool_decide (Some value = utf8 <$> placeholder) then Some UNCHANGED_EXAMPLE
      else match from_utf8 value with
           | None => Some NOT_UTF8
           | Some [] => Some MISSING
           | Some text => match parse text with Ok _ => None | Err r => Some r end
           end
  end.

Definition check_optional {A} (name : str) (parse : str -> result Rule A) : option Rule :=
  match lookup name with
  | None => None
  | Some value =>
      match from_utf8 value with
      | None => Some NOT_UTF8
      | Some text => match parse text with Ok _ => None | Err r => Some r end
      end
  end.

Definition check_unset (name : str) : option Rule :=
  match lookup name with None => None | Some _ => Some DEV_BUILD_SENDS_NO_MAIL end.

Definition smtp_checks : list (str * option Rule) :=
  [(SMTP_HOST, check SMTP_HOST (Some Placeholders.SMTP_HOST) dns_name);
   (SMTP_PORT, check SMTP_PORT None parse_smtp_port);
   (SMTP_TLS, check SMTP_TLS None parse_smtp_tls);
   (SMTP_USERNAME, check SMTP_USERNAME (Some Placeholders.SMTP_USERNAME) parse_smtp_username);
   (SMTP_PASSWORD, check SMTP_PASSWORD None parse_smtp_username)].

Definition transport_checks : list (str * option Rule) :=
  if dev then map (fun n => (n, check_unset n)) SMTP_CONNECTION_SETTINGS else smtp_checks.

Definition base_url_check : str * option Rule :=
  (BASE_URL, check BASE_URL (Some Placeholders.BASE_URL) (parse_base_url dev)).

Definition secret_check : str * option Rule :=
  (SECRET, check SECRET None parse_instance_secret).

(** The settings a command needs, in reading order, each with the rule it breaks. *)
Definition checks (c : Command) : list (str * option Rule) :=
  match c with
  | Serve =>
      [base_url_check; (TRUSTED_PROXIES, check TRUSTED_PROXIES None parse_trusted_proxies);
       secret_check; (SMTP_FROM, check SMTP_FROM (Some Placeholders.SMTP_FROM) parse_sender)]
      ++ transport_checks
      ++ [(PUBLIC_MAIL_PER_HOUR,
           check_optional PUBLIC_MAIL_PER_HOUR parse_public_mail_per_hour)]
  | Backup _ | AdminUnlock _ => [secret_check]
  | AdminResetPassword _ | ProjectCreate _ => [secret_check; base_url_check]
  | Restore _ | RestoreList | Healthcheck => []
  end.
End Checks.

Definition broken (cs : list (str * option Rule)) : list Problem :=
  omap (fun nr => (fun r => {| variable := nr.1; rule := r |}) <$> nr.2) cs.

(** The configuration a command's handler takes. *)
Definition config_fits (c : Command) (conf : Config) : bool :=
  match c, conf with
  | Serve, ServeConf _ => true
  | (Backup _ | AdminUnlock _), SecretConf _ => true
  | (AdminResetPassword _ | ProjectCreate _), LinksConf _ _ => true
  | (Restore _ | RestoreList | Healthcheck), _ => true
  | _, _ => false
  end.

(** A reader that appends the broken rules of [cs] and has a value exactly when none is. *)
Definition reads {A} (r : Reader A) (cs : list (str * option Rule)) : Prop :=
  forall ps, exists v, r ps = (v, ps ++ broken cs) /\ (is_Some v <-> broken cs = []).

Lemma broken_app cs ds : broken (cs ++ ds) = broken cs ++ broken ds.
Proof. apply omap_app. Qed.

Section ReaderLemmas.
Context `{Crates} (dev : bool) (lookup : str -> option bytes).

Lemma required_reads {A} name (parse : str -> result Rule A) :
  reads (required lookup name parse) [(name, check lookup name None parse)].
Proof.
  intros ps. unfold required, raw, check, parsed, broken, report. cbn.
  destruct (lookup name) as [value|]; [|eexists; split; [done|]; split; [by intros []|done]].
  destruct (from_utf8 value) as [[|c text]|]; cbn;
    try (eexists; split; [done|]; split; [by intros []|done]).
  destruct (parse (c :: text)); cbn.
  - rewrite app_nil_r. eexists. split; [done|]. split; [done|eauto].
  - eexists; split; [done|]; split; [by intros []|done].
Qed.

Lemma required_not_placeholder_reads {A} name placeholder (parse : str -> result Rule A) :
  reads (required_not_placeholder lookup name placeholder parse)
    [(name, check lookup name (Some placeholder) parse)].
Proof.
  intros ps. destruct (required_reads name parse ps) as (v & Hv & Hs).
  unfold required_not_placeholder, refuse_placeholder.
  case_bool_decide as Hp; cbn.
  - unfold check, broken. cbn. rewrite Hp. cbn. rewrite bool_decide_eq_true_2 by done. cbn.
    eexists. split; [done|]. split; [by intros []|done].
  - exists v. rewrite Hv. unfold broken, check in *. cbn in *.
    destruct (lookup name) as [value|]; [|done].
    rewrite (bool_decide_eq_false_2 (Some value = Some (utf8 placeholder))) by done.
    by rewrite (bool_decide_eq_false_2 (Some value = None)) in * by done.
Qed.

Lemma broken_nil cs ds : broken (cs ++ ds) = [] <-> broken cs = [] /\ broken ds = [].
Proof. rewrite broken_app. apply app_nil. Qed.

Lemma broken_cons2 c d cs :
  broken (c :: d :: cs) = [] <-> broken [c] = [] /\ broken (d :: cs) = [].
Proof. apply (broken_nil [c] (d :: cs)). Qed.

Lemma smtp_reads : reads (smtp lookup) (smtp_checks lookup).
Proof.
  intros ps. unfold smtp.
  destruct (required_not_placeholder_reads SMTP_HOST Placeholders.SMTP_HOST dns_name ps)
    as (h & -> & Hh).
  edestruct (required_reads SMTP_PORT parse_smtp_port) as (p & -> & Hp).
  edestruct (required_reads SMTP_TLS parse_smtp_tls) as (t & -> & Ht).
  edestruct (required_not_placeholder_reads SMTP_USERNAME Placeholders.SMTP_USERNAME
               parse_smtp_username) as (u & -> & Hu).
  edestruct (required_reads SMTP_PASSWORD parse_smtp_username) as (w & -> & Hw).
  eexists. split; [f_equal; rewrite <- !(assoc_L (++)), <- !broken_app; done|].
  unfold smtp_checks.
  rewrite !broken_cons2, <- Hh, <- Hp, <- Ht, <- Hu, <- Hw.
  split.
  - destruct h, p, t, u, w; cbn; intros [? [=]]; eauto 10.
  - intros ([? ->] & [? ->] & [? ->] & [? ->] & [? ->]). cbn. eauto.
Qed.

Lemma refuse_settings_loop names ps :
  fold_left (fun ps name =>
               match lookup name with
               | Some _ => ps ++ [{| variable := name; rule := DEV_BUILD_SENDS_NO_MAIL |}]
               | None => ps
               end) names ps = ps ++ broken (map (fun n => (n, check_unset lookup n)) names).
Proof.
  revert ps. induction names as [|n names IH]; intros ps; cbn; [by rewrite app_nil_r|].
  rewrite IH. unfold check_unset at 2. destruct (lookup n); cbn; [|done].
  by rewrite <- (assoc_L (++)).
Qed.

Lemma transport_reads : reads (transport dev lookup) (transport_checks dev lookup).
Proof.
  unfold transport, transport_checks. destruct dev.
  - intros ps. unfold refuse_settings. rewrite refuse_settings_loop. eexists. split; [done|].
    generalize SMTP_CONNECTION_SETTINGS as names. intros names.
    induction names as [|n names IH]; cbn; [split; eauto|].
    unfold check_unset at 1. destruct (lookup n) as [v|]; cbn.
    + split; [by intros []|done].
    + apply IH.
  - intros ps. destruct (smtp_reads ps) as (c & -> & Hc). eexists. split; [done|].
    rewrite <- Hc. split; [intros [? ?]; destruct c; eauto; done|intros [? ->]; cbn; eauto].
Qed.

(** No earlier setting is the optional one, so its own problem alone decides. *)
Lemma public_mail_reads ps :
  Forall (fun p => variable p <> PUBLIC_MAIL_PER_HOUR) ps ->
  let cs := [(PUBLIC_MAIL_PER_HOUR,
              check_optional lookup PUBLIC_MAIL_PER_HOUR parse_public_mail_per_hour)] in
  exists v, read_public_mail_per_hour lookup ps = (v, ps ++ broken cs) /\
            (is_Some v <-> broken cs = []).
Proof.
  intros Hps.
  assert (Hf : problems_for PUBLIC_MAIL_PER_HOUR ps = false).
  { unfold problems_for. induction Hps as [|p ps Hp Hps IH]; [done|]. cbn [existsb]. rewrite IH.
    rewrite orb_false_r. by apply bool_decide_eq_false. }
  unfold read_public_mail_per_hour, raw, check_optional, parsed, broken, report.
  destruct (lookup PUBLIC_MAIL_PER_HOUR) as [value|].
  2: { rewrite Hf, app_nil_r. eexists. split; [done|]. split; eauto. }
  destruct (from_utf8 value) as [text|].
  - destruct (parse_public_mail_per_hour text); cbn; rewrite ?app_nil_r; eexists;
      (split; [done|]); split; done || by intros [].
  - assert (Ht : problems_for PUBLIC_MAIL_PER_HOUR
      (ps ++ [{| variable := PUBLIC_MAIL_PER_HOUR; rule := NOT_UTF8 |}]) = true).
    { unfold problems_for. rewrite existsb_app. cbn [existsb variable].
      by rewrite zlist_eqb_refl, orb_true_r. }
    rewrite Ht. eexists. split; [done|]. split; [by intros []|done].
Qed.

Lemma broken_names cs (P : str -> Prop) :
  Forall (fun c => P c.1) cs -> Forall (fun p => P (variable p)) (broken cs).
Proof.
  induction 1 as [|[n r] cs Hn Hcs IH]; [done|]. unfold broken. cbn. destruct r; cbn; [|done].
  by constructor.
Qed.

Lemma serve_reads ps :
  ps = [] -> exists v, serve dev lookup ps = (v, ps ++ broken (checks dev lookup Serve)) /\
    (is_Some v <-> broken (checks dev lookup Serve) = []) /\
    (forall c, v = Some c -> config_fits Serve c = true).
Proof.
  intros Hps. unfold serve, read_secret.
  edestruct (required_not_placeholder_reads BASE_URL Placeholders.BASE_URL (parse_base_url dev))
    as (u & -> & Hu).
  edestruct (required_reads TRUSTED_PROXIES parse_trusted_proxies) as (t & -> & Ht).
  edestruct (required_reads SECRET parse_instance_secret) as (s & -> & Hs).
  edestruct (required_not_placeholder_reads SMTP_FROM Placeholders.SMTP_FROM parse_sender)
    as (f & -> & Hf).
  edestruct transport_reads as (m & -> & Hm).
  edestruct public_mail_reads as (n & -> & Hn).
  { rewrite Hps. cbn [app]. rewrite <- !broken_app. apply (broken_names _ (fun n => n <> PUBLIC_MAIL_PER_HOUR)).
    unfold transport_checks. by destruct dev; repeat constructor. }
  eexists. split; [f_equal; rewrite <- !(assoc_L (++)), <- !broken_app; done|].
  cbn [checks]. unfold base_url_check, secret_check. rewrite !broken_nil.
  rewrite !broken_cons2, <- Hu, <- Ht, <- Hs, <- Hf, <- Hm, <- Hn. split.
  - split.
    + destruct u, t, s, f, m, n; cbn; intros [? [=]]; eauto 10.
    + intros (([? ->] & [? ->] & [? ->] & [? ->]) & [? ->] & [? ->]). cbn. eauto.
  - destruct u, t, s, f, m, n; cbn; intros c [= <-]. done.
Qed.

Lemma secret_reads : reads (read_secret lookup) [secret_check lookup].
Proof. apply required_reads. Qed.

(** Commands that need only the secret. *)
Lemma secret_only_reads :
  exists v, (let '(s, ps) := read_secret lookup [] in (SecretConf <$> s, ps))
    = (v, broken [secret_check lookup]) /\ (is_Some v <-> broken [secret_check lookup] = []) /\
    (forall conf, v = Some conf -> exists s, conf = SecretConf s).
Proof.
  destruct (secret_reads []) as (s & -> & Hs). eexists. split; [done|]. rewrite <- Hs.
  split; [split; [intros [? ?]; destruct s; eauto; done|intros [? ->]; cbn; eauto]|].
  destruct s; cbn; intros conf [= <-]. eauto.
Qed.

Lemma links_reads :
  let cs := [secret_check lookup; base_url_check dev lookup] in
  exists v, links dev lookup [] = (v, broken cs) /\ (is_Some v <-> broken cs = []) /\
    (forall conf, v = Some conf -> exists s u, conf = LinksConf s u).
Proof.
  unfold links. edestruct secret_reads as (s & -> & Hs).
  edestruct (required_not_placeholder_reads BASE_URL Placeholders.BASE_URL (parse_base_url dev))
    as (u & -> & Hu). cbn [app].
  eexists. split; [f_equal; rewrite <- !broken_app; done|].
  rewrite broken_cons2. unfold base_url_check. rewrite <- Hs, <- Hu. split.
  - split; [destruct s, u; cbn; intros [? [=]]; eauto|].
    intros [[? ->] [? ->]]. cbn. eauto.
  - destruct s, u; cbn; intros conf [= <-]. eauto.
Qed.

Lemma read_config_reads c :
  exists v, read_config dev lookup c [] = (v, broken (checks dev lookup c)) /\
    (is_Some v <-> broken (checks dev lookup c) = []) /\
    (forall conf, v = Some conf -> config_fits c conf = true).
Proof.
  destruct c as [| |t|s| |e|e|a]; cbn [read_config checks].
  2, 4, 5: eexists; split; [done|]; split; [split; eauto|by intros conf [= <-]].
  - by apply (serve_reads []).
  - destruct secret_only_reads as (v & Hv & Hs & Hc). exists v. split_and!; try done; try apply Hs.
    by intros conf [s ->]%Hc.
  - destruct secret_only_reads as (v & Hv & Hs & Hc). exists v. split_and!; try done; try apply Hs.
    by intros conf [s ->]%Hc.
  - destruct links_reads as (v & Hv & Hs & Hc). exists v. split_and!; try done; try apply Hs.
    by intros conf (s & u & ->)%Hc.
  - destruct links_reads as (v & Hv & Hs & Hc). exists v. split_and!; try done; try apply Hs.
    by intros conf (s & u & ->)%Hc.
Qed.
End ReaderLemmas.

(** ** Lemmas: names and numbers *)

Definition is_dns_char (c : Z) : bool :=
  is_ascii_lowercase c || is_ascii_digit c || (c =? 45) || (c =? 46).

(** Text whose bytes are all ASCII is those bytes. *)
Lemma utf8_ascii_inv (p : Z -> bool) s :
  (forall b, p b = true -> 0 <= b < 0x80) -> forallb p (utf8 s) = true -> utf8 s = s.
Proof.
  intros Hp. induction s as [|c s IH]; [done|]. rewrite utf8_cons, forallb_app_iff. intros [Hc Hs].
  rewrite IH by done. f_equal. unfold utf8_char in *.
  repeat case_if; [done| | |]; exfalso; cbn in Hc; propify; destruct Hc as [Hc _];
    apply Hp in Hc; pose proof (Z.div_pos c 64); pose proof (Z.div_pos c 4096);
    pose proof (Z.div_pos c 262144); lia.
Qed.

Lemma label_ok_chars l : label_ok l = true ->
  l <> [] /\ utf8 l = l /\
  forallb (fun b => is_ascii_lowercase b || is_ascii_digit b || (b =? 45)) l = true.
Proof.
  unfold label_ok. rewrite !andb_true_iff. intros ((((He & _) & Hc) & _) & _).
  assert (Hu : utf8 l = l).
  { eapply utf8_ascii_inv; [|exact Hc]. intros b Hb.
    unfold is_ascii_lowercase, is_ascii_digit in Hb. bool_lia. }
  rewrite Hu in Hc. split_and!; try done. intros ->. done.
Qed.

Lemma Forall_split (P : Z -> Prop) sep s :
  P sep -> Forall (fun l => Forall P l) (split sep s) -> Forall P s.
Proof.
  intros Hs. induction s as [|c s IH]; [done|]. rewrite split_cons. destruct (Z.eqb_spec c sep) as [->|].
  - rewrite Forall_cons. intros [_ H]. constructor; [done|by apply IH].
  - destruct (split sep s) as [|p ps] eqn:E; [by apply split_not_nil in E|].
    rewrite Forall_cons, Forall_cons. intros [[Hc Hp] Hps]. constructor; [done|]. apply IH.
    by constructor.
Qed.

Lemma dns_name_chars t n : dns_name t = Ok n -> n = t /\ forallb is_dns_char t = true.
Proof.
  unfold dns_name. case_if; [done|]. case_if; [done|]. case_if; [done|]. intros [= <-].
  split; [done|]. rewrite negb_false_iff, forallb_Forall in Heqb0.
  apply forallb_Forall. apply (Forall_split _ 46); [done|].
  eapply Forall_impl; [exact Heqb0|]. intros l Hl. apply label_ok_chars in Hl as (_ & _ & Hl).
  apply forallb_Forall. revert Hl. apply forallb_impl. intros c Hc. unfold is_dns_char.
  by rewrite Hc.
Qed.

Lemma dns_char_spec c : is_dns_char c = true -> 97 <= c <= 122 \/ 48 <= c <= 57 \/ c = 45 \/ c = 46.
Proof. unfold is_dns_char, is_ascii_lowercase, is_ascii_digit. bool_lia. Qed.

Lemma dns_name_not_in t n c :
  dns_name t = Ok n -> is_dns_char c = false -> c ∉ t.
Proof.
  intros Hd Hc Hin. apply dns_name_chars in Hd as [_ Hd].
  rewrite forallb_Forall, Forall_forall in Hd. specialize (Hd c Hin). congruence.
Qed.

Lemma parse_decimal_spec t n :
  parse_decimal t = Some n <-> t = show_unsigned n /\ 0 <= n < 2 ^ 32.
Proof.
  unfold parse_decimal. split.
  - destruct (_ && _) eqn:E; [|done]. rewrite !andb_true_iff in E. destruct E as ((He & Hd) & Hz).
    assert (Hu : utf8 t = t).
    { eapply utf8_ascii_inv; [|exact Hd]. intros b. rewrite is_ascii_digit_spec. lia. }
    rewrite Hu in Hd. unfold str_len in Hz. rewrite Hu in Hz.
    assert (Hcan : canonical_digits t = true).
    { destruct t as [|a [|b t]]; [done|cbn in Hd; by rewrite andb_true_r in Hd|].
      change (canonical_digits (a :: b :: t))
        with (negb (a =? 48) && forallb is_ascii_digit (a :: b :: t)).
      rewrite Hd, andb_true_r. cbn in Hz. propify. destruct Hz as [Hz|Hz]; [lia|].
      unfold starts_with_char in Hz. cbn in Hz. lia. }
    case_if; [|done]. intros [= <-]. rewrite show_digits_value by done. split; [done|].
    pose proof (digits_value_nonneg _ Hd). by propify.
  - intros [-> Hn]. destruct (show_unsigned_spec n) as [Hc Hv]; [lia|].
    pose proof (canonical_digits_all _ Hc) as Hd.
    assert (Hu : utf8 (show_unsigned n) = show_unsigned n) by (by apply utf8_digits_id).
    unfold str_len. rewrite Hu, Hd, Hv.
    destruct (show_unsigned n) as [|a [|b s]] eqn:E; [done| |].
    + cbn. by rewrite (proj2 (Z.ltb_lt _ _)) by lia.
    + cbn [length]. cbn in Hc. propify. destruct Hc as [Ha _].
      unfold starts_with_char. cbn. rewrite (proj2 (Z.eqb_neq a 48)) by lia.
      rewrite orb_true_r. cbn. by rewrite (proj2 (Z.ltb_lt _ _)) by lia.
Qed.

Lemma parse_port_spec t n : parse_port t = Some n <-> t = show_unsigned n /\ 1 <= n < 2 ^ 16.
Proof.
  unfold parse_port. split.
  - destruct (parse_decimal t) as [m|] eqn:E; [|done]. cbn [mbind option_bind]. apply parse_decimal_spec in E as [-> Hm].
    destruct (Z.ltb_spec m (2 ^ 16)); [|done]. cbn [opt_filter]. destruct (Z.eqb_spec m 0); [done|].
    intros [= <-]. split; [done|lia].
  - intros [-> Hn]. rewrite (proj2 (parse_decimal_spec _ n)) by (split; [done|lia]).
    cbn [mbind option_bind]. rewrite (proj2 (Z.ltb_lt _ _)) by lia. cbn [opt_filter].
    by rewrite (proj2 (Z.eqb_neq _ _)) by lia.
Qed.

(** Base URLs as the program accepts them. *)
Definition url_wf (dev : bool) (u : BaseUrl) : Prop :=
  dns_name (host u) = Ok (host u) /\
  match port u with
  | Some p => 1 <= p < 2 ^ 16 /\ p <> (if https u then 443 else 80)
  | None => True
  end /\
  (https u = false -> dev = true /\ host u = lit "localhost").

Definition url_rest (u : BaseUrl) : str :=
  host u ++ match port u with Some p => lit ":" ++ show_unsigned p | None => [] end.

Lemma url_scheme_spec dev t b rest :
  url_scheme dev t = Ok (b, rest) <->
  t = (if b then lit "https" else lit "http") ++ lit "://" ++ rest /\ (b = false -> dev = true).
Proof.
  unfold url_scheme. split.
  - destruct (strip_prefix (lit "https://") t) as [r|] eqn:E1.
    { intros [= <- <-]. apply strip_prefix_spec in E1 as ->. by split. }
    destruct (strip_prefix (lit "http://") t) as [r|] eqn:E2; [|done].
    destruct dev; [|done]. intros [= <- <-]. apply strip_prefix_spec in E2 as ->. by split.
  - intros [-> Hd]. destruct b; [done|]. by rewrite Hd.
Qed.

Lemma show_unsigned_digit n c : 0 <= n -> c ∈ show_unsigned n -> is_ascii_digit c = true.
Proof.
  intros Hn Hc. destruct (show_unsigned_spec n Hn) as [Hs _]. apply canonical_digits_all in Hs.
  rewrite forallb_Forall, Forall_forall in Hs. by apply Hs.
Qed.

Lemma url_rest_plain dev u :
  url_wf dev u ->
  existsb (fun c => (c =? 47) || (c =? 63) || (c =? 35) || (c =? 64)) (url_rest u) = false.
Proof.
  intros (Hd & Hp & _). apply not_true_iff_false. rewrite existsb_In. intros (c & Hc & Hb).
  assert (Hcs : is_dns_char c = true \/ c = 58).
  { unfold url_rest in Hc. apply elem_of_app in Hc as [Hc|Hc].
    - left. apply dns_name_chars in Hd as [_ Hd]. rewrite forallb_Forall, Forall_forall in Hd.
      by apply Hd.
    - destruct (port u) as [p|]; [|set_solver]. apply elem_of_app in Hc as [Hc|Hc].
      + right. by apply list_elem_of_singleton in Hc.
      + left. apply show_unsigned_digit in Hc; [|lia]. unfold is_dns_char. rewrite Hc.
        by rewrite orb_true_r. }
  destruct Hcs as [Hcs%dns_char_spec| ->]; [|done]. propify. lia.
Qed.

Lemma url_rest_split dev u :
  url_wf dev u ->
  match split_once 58 (url_rest u) with
  | Some (h, p) => p' ← ok_or BASE_URL_PORT (parse_port p); Ok (h, Some p')
  | None => Ok (url_rest u, None)
  end = Ok (host u, port u).
Proof.
  intros (Hd & Hp & _). assert (Hc : 58 ∉ host u) by (by eapply dns_name_not_in).
  unfold url_rest. destruct (port u) as [p|].
  - rewrite (proj2 (split_once_spec 58 _ (host u) (show_unsigned p))) by (by split).
    by rewrite (proj2 (parse_port_spec _ p)) by (split; [done|lia]).
  - rewrite app_nil_r, (proj2 (split_once_None 58 _)) by done. done.
Qed.

(** ** Theorems *)

(** Loading reports every broken setting of the command and no other, each once and
    in reading order, whatever the other settings hold; it succeeds exactly when none
    is broken, and then with the configuration the command's handler takes, so the
    dispatch never meets a configuration of another command. *)
Theorem load_reports_every_problem `{Crates} (dev : bool) (lookup : str -> option bytes)
    (c : Command) :
  match load dev lookup c with
  | Ok conf => broken (checks dev lookup c) = [] /\ config_fits c conf = true
  | Err ps => ps = broken (checks dev lookup c) /\ ps <> []
  end.
Proof.
  unfold load. destruct (read_config_reads dev lookup c) as (v & -> & Hs & Hf).
  destruct v as [conf|].
  - rewrite (proj1 Hs) by eauto. split; [done|by apply Hf].
  - destruct (broken (checks dev lookup c)); [|done]. by destruct (proj2 Hs eq_refl).
Qed.

(** The accepted base URLs are exactly the origins: parsing a text gives [u] exactly
    when the text is [u]'s origin and [u] is well formed, so what is stored prints back
    as the text that was configured. *)
Theorem base_url_is_its_origin (dev : bool) (text : str) (u : BaseUrl) :
  parse_base_url dev text = Ok u <-> text = origin u /\ url_wf dev u.
Proof.
  unfold parse_base_url. split.
  - intros H. apply bind_Ok_inv in H as ([b rest] & Hs & H). cbn in H.
    apply url_scheme_spec in Hs as [-> Hdev].
    destruct (existsb _ rest) eqn:Hplain; [done|].
    apply bind_Ok_inv in H as ([h p] & Hp & H). cbn in H. case_bool_decide as Hdef; [done|].
    apply bind_Ok_inv in H as (n & Hn & H).
    destruct (negb b && _) eqn:Hloc; [done|]. injection H as <-.
    destruct (dns_name_chars _ _ Hn) as [-> _].
    assert (Hrest : rest = url_rest {| https := b; host := h; port := p |} /\
                    match p with Some p => 1 <= p < 2 ^ 16 | None => True end).
    { destruct (split_once 58 rest) as [[h' p']|] eqn:Es.
      - apply split_once_spec in Es as [-> _]. apply bind_Ok_inv in Hp as (q & Hq & [= -> <-]).
        apply ok_or_Ok, parse_port_spec in Hq as [-> Hq]. by split.
      - injection Hp as -> <-. unfold url_rest. cbn. by rewrite app_nil_r. }
    destruct Hrest as [-> Hport]. split; [done|]. unfold url_wf. cbn. split_and!; [done| |].
    + destruct p; [|done]. split; [done|]. intros ->. done.
    + intros ->. cbn in Hloc. rewrite negb_false_iff, zlist_eqb_eq in Hloc. auto.
  - intros [-> Hw]. rewrite (proj2 (url_scheme_spec dev _ (https u) (url_rest u))).
    2: { split; [done|]. intros Hf. by apply (proj2 (proj2 Hw)). }
    cbn [mbind result_bind]. rewrite (url_rest_plain dev), (url_rest_split dev) by done.
    cbn [mbind result_bind]. destruct Hw as (Hd & Hp & Hl).
    rewrite bool_decide_eq_false_2. 2: { destruct (port u); [|done]. intros [= ->]. by destruct Hp. }
    rewrite Hd. cbn [mbind result_bind]. destruct u as [[] h p]; cbn in *; [done|].
    destruct (Hl eq_refl) as [_ ->]. done.
Qed.

(** A configured host name is never an IP address literal. *)
Theorem dns_name_is_no_address (t n : str) : dns_name t = Ok n -> parse_ip t = None.
Proof.
  intros Hd. destruct (parse_ip t) as [a|] eqn:Ep; [|done]. exfalso.
  destruct (dns_name_chars _ _ Hd) as [_ Hc].
  assert (Hu : utf8 t = t).
  { apply utf8_ascii_id. rewrite forallb_Forall in Hc. eapply Forall_impl; [done|].
    intros c Hx%dns_char_spec. lia. }
  apply parse_ip_shape in Ep. rewrite Hu in Ep. destruct Ep as [Hdig|Hcol].
  - unfold dns_name in Hd. do 2 (case_if; [done|]). case_if; [done|]. apply not_true_iff_false in Heqb1.
    apply Heqb1. clear Hd Heqb Heqb0 Heqb1.
    pose proof (split_pieces 46 t) as Hps.
    assert (Hall : Forall (Forall (fun c => is_ascii_digit c = true \/ c = 46)) (split 46 t)).
    { apply Forall_forall. intros p Hp. apply Forall_forall. intros c Hcp.
      rewrite Forall_forall in Hdig. apply Hdig. rewrite <- (join_split 46 t).
      by eapply elem_of_join. }
    destruct (last (split 46 t)) as [l|] eqn:El; [|done].
    change (forallb is_ascii_digit (utf8 l) = true).
    apply last_Some_elem_of in El. rewrite Forall_forall in Hps, Hall.
    specialize (Hps _ El). specialize (Hall _ El). rewrite Forall_forall in Hall.
    assert (Hl : forallb is_ascii_digit l = true).
    { apply forallb_Forall, Forall_forall. intros c Hcl. destruct (Hall c Hcl) as [?| ->]; done. }
    by rewrite utf8_digits_id.
  - by apply (dns_name_not_in _ _ 58 Hd) in Hcol.
Qed.

Lemma dns_name_is_no_address_witness :
  dns_name (lit "bugs.example.net") = Ok (lit "bugs.example.net") /\
  parse_ip (lit "bugs.example.net") = None.
Proof.
  split; [vm_compute; reflexivity|].
  apply (dns_name_is_no_address (lit "bugs.example.net") (lit "bugs.example.net")).
  vm_compute. reflexivity.
Defined.

Lemma net_bits_block w p n a :
  0 < w -> 0 <= p <= w -> 0 <= n < 2 ^ w -> 0 <= a < 2 ^ w ->
  Z.land n (Z.lxor (2 ^ w - 1) (net_mask w p)) = 0 ->
  Z.land n (net_mask w p) = Z.land a (net_mask w p) <-> n <= a < n + 2 ^ (w - p).
Proof.
  intros Hw Hp Hn Ha Hh. rewrite same_masked by done.
  assert (Hb : n = Z.shiftl (Z.shiftr n (w - p)) (w - p)).
  { rewrite <- land_mask by done. apply Z.bits_inj'. intros i Hi.
    apply (f_equal (fun x => Z.testbit x i)) in Hh.
    rewrite Z.land_spec, Z.lxor_spec, Z.bits_0 in Hh. rewrite Z.land_spec.
    replace (2 ^ w - 1) with (Z.ones w) in Hh by (rewrite Z.ones_equiv; lia).
    rewrite Z.testbit_ones in Hh by lia. destruct (Z.lt_ge_cases i w).
    - rewrite (proj2 (Z.ltb_lt i w)), (proj2 (Z.leb_le 0 i)) in Hh by lia.
      destruct (Z.testbit n i), (Z.testbit (net_mask w p) i); done.
    - by rewrite (testbit_above w n i) by lia. }
  rewrite Z.shiftl_mul_pow2, !Z.shiftr_div_pow2 in * by lia.
  set (k := 2 ^ (w - p)) in *. assert (0 < k) by (apply Z.pow_pos_nonneg; lia).
  pose proof (Z.div_mod a k ltac:(lia)). pose proof (Z.mod_pos_bound a k ltac:(lia)).
  split; [intros He; nia|]. intros Hr. apply (Z.div_unique a k (n / k) (a - n)); [lia|nia].
Qed.

(** A mapped address has bit 32 set, which a prefix below 96 does not cover. *)
Lemma mapped_host_bits b p v :
  to_ipv4_mapped b = Some v -> 1 <= p < 96 ->
  Z.land b (Z.lxor (2 ^ 128 - 1) (net_mask 128 p)) <> 0.
Proof.
  unfold to_ipv4_mapped. destruct (Z.eqb_spec (Z.shiftr b 32) 0xFFFF) as [Hb|]; [|done].
  intros _ Hp Hh. apply (f_equal (fun x => Z.testbit x 32)) in Hh.
  assert (Hb32 : Z.testbit b 32 = true).
  { change (Z.testbit b (0 + 32) = true). rewrite <- Z.shiftr_spec by lia. by rewrite Hb. }
  assert (Hm : Z.testbit (net_mask 128 p) 32 = false).
  { unfold net_mask. rewrite (proj2 (Z.ltb_lt _ _)) by lia.
    rewrite Z.land_spec, Z.shiftl_spec, Z.testbit_neg_r by lia. done. }
  by rewrite Z.land_spec, Z.lxor_spec, Hb32, Hm in Hh.
Qed.

(** The numeric value of an address. *)
Definition ip_bits (a : IpAddr) : Z := match a with V4 b => b | V6 b => b end.

(** An accepted proxy entry names a block that is exactly the addresses of its family
    from the written one up to the block's size: a prefix of 1 to 32 or 128, no bit set
    past it, never the whole address space and never an IPv4-mapped address. *)
Theorem parse_ip_net_block (entry : str) (net : IpNet) (a : IpAddr) :
  parse_ip_net entry = Some net -> ip_wf a = true ->
  let w := if is_ipv4 (address net) then 32 else 128 in
  1 <= prefix net <= w /\ ip_wf (address net) = true /\
  canonical (address net) = address net /\
  (net_contains net a = true <->
   is_ipv4 a = is_ipv4 (address net) /\
   ip_bits (address net) <= ip_bits a < ip_bits (address net) + 2 ^ (w - prefix net)).
Proof.
  unfold parse_ip_net.
  destruct (match split_once 47 entry with
            | Some (address, prefix) => (address, Some prefix) | None => (entry, None)
            end) as [ad pf].
  destruct (parse_ip ad) as [n|] eqn:Ea; [|done]. cbn [mbind option_bind].
  apply parse_ip_wf in Ea as Hn.
  match goal with |- ?o ≫= _ = _ -> _ => destruct o as [p|] eqn:Ep end; [|done].
  cbn [mbind option_bind].
  rewrite then_some_Some, andb_true_iff, Z.eqb_eq. intros [[Hh Hm] <-] Ha. cbn.
  assert (Hp : 1 <= p <= if is_ipv4 n then 32 else 128).
  { destruct pf as [t|]; [|injection Ep as <-; destruct (is_ipv4 n); lia].
    destruct (parse_decimal t) as [q|]; [|done].
    cbn [mbind option_bind] in Ep. destruct (q <? 2 ^ 8); [|done].
    apply opt_filter_Some in Ep as [[= ->] Hq]. by propify. }
  split; [done|]. split; [done|]. split.
  - destruct n as [b|b]; [done|]. cbn [canonical is_ipv4 host_bits] in *.
    destruct (to_ipv4_mapped b) eqn:Em; [|done]. exfalso.
    rewrite negb_true_iff, Z.leb_gt in Hm. by eapply (mapped_host_bits b p); [done|lia|].
  - unfold host_bits in Hh. unfold net_contains. cbn.
    destruct n as [n|n], a as [a|a]; cbn in *; rewrite ?andb_true_iff, ?Z.leb_le, ?Z.ltb_lt in *.
    + rewrite Z.eqb_eq, net_bits_block by lia. intuition lia.
    + split; [done|]. by intros [? _].
    + split; [done|]. by intros [? _].
    + rewrite Z.eqb_eq, net_bits_block by lia. intuition lia.
Qed.

Lemma parse_ip_net_block_witness :
  exists net, parse_ip_net (lit "10.231.7.0/29") = Some net /\
    (net_contains net (V4 0x0AE70703) = true <->
     is_ipv4 (V4 0x0AE70703) = is_ipv4 (address net) /\
     ip_bits (address net) <= 0x0AE70703 < ip_bits (address net) + 2 ^ (32 - prefix net)).
Proof.
  exists {| address := V4 0x0AE70700; prefix := 29 |}. split; [vm_compute; reflexivity|].
  apply (parse_ip_net_block (lit "10.231.7.0/29") {| address := V4 0x0AE70700; prefix := 29 |}
           (V4 0x0AE70703)); vm_compute; reflexivity.
Defined.
