(* ===== verification/Urls.v ===== *)
(** * Absolute URLs (src/src/routing/urls.rs)

    Built from the configuration only: no function here takes a request. *)

From S2P Require Import Prelude Str Config.

Record Urls := { main_origin : str }.

(** [Urls::new]. *)
Definition urls_new (base_url : BaseUrl) : Urls := {| main_origin := origin base_url |}.

(** [Urls::main]. *)
Definition url_main (u : Urls) (path : str) : str := main_origin u ++ path.

Definition token_link (u : Urls) (path : str) : str := url_main u path.

Definition project_origin (host : str) : str := lit "https://" ++ host.
