(* ===== verification/Db.v ===== *)
(** * The database (src/src/db/mod.rs, src/src/audit.rs, migrations/)

    Tables are lists of rows in rowid order of insertion. A transaction body is a
    function on a [World]: the database, the random source's tape, a tape of statement
    failures, what other requests do between this request's transactions, and the
    process state the handlers touch. [write] rolls the database back on an error. *)

From S2P Require Import Prelude Str Keys.

(** ** Rows *)

Inductive Role := Admin | Maintainer.

#[global] Instance Role_eq_dec : EqDecision Role.
Proof. solve_decision. Defined.

Definition role_as_str (r : Role) : str :=
  match r with Admin => lit "admin" | Maintainer => lit "maintainer" end.

Definition role_parse (text : str) : option Role :=
  if zlist_eqb text (lit "admin") then Some Admin
  else if zlist_eqb text (lit "maintainer") then Some Maintainer else None.

Definition requires_two_factor (r : Role) : bool :=
  match r with Admin => true | Maintainer => false end.

Record User := {
  u_id : Z; u_email : str; u_password_hash : option str; u_role : Role; u_disabled : bool;
  u_totp_nonce : option bytes; u_totp_last_step : option Z; u_failed_logins : Z;
  u_locked_until : option Z; u_device_failures : Z; u_device_window_start : option Z;
  u_lockout_mailed_at : option Z; u_created_at : Z }.

Record Session := {
  s_id : Z; s_token_hash : bytes; s_user_id : Z; s_csrf_token : bytes; s_created_at : Z;
  s_last_seen : Z; s_pending_totp_nonce : option bytes }.

Record Device := { d_id : Z; d_user_id : Z; d_token_hash : bytes; d_created_at : Z }.

#[global] Instance Device_eq_dec : EqDecision Device.
Proof. solve_decision. Defined.

Record RecoveryCode := { r_user_id : Z; r_code_hash : bytes }.

Inductive TokenPurpose := ResetToken | SetupToken | InviteToken.

#[global] Instance TokenPurpose_eq_dec : EqDecision TokenPurpose.
Proof. solve_decision. Defined.

Record Token := {
  t_id : Z; t_purpose : TokenPurpose; t_token_hash : bytes; t_user_id : option Z;
  t_email : option str; t_totp_nonce : option bytes; t_expires_at : Z; t_used_at : option Z }.

Inductive Priority := Security | Normal.

#[global] Instance Priority_eq_dec : EqDecision Priority.
Proof. solve_decision. Defined.

Inductive MailOutcome := MailSent | MailGivenUp.

#[global] Instance MailOutcome_eq_dec : EqDecision MailOutcome.
Proof. solve_decision. Defined.

(** The recipient columns hold exactly one of account and address (a [CHECK]). *)
Inductive Recipient := ToAddress (a : str) | ToUser (id : Z).

#[global] Instance Recipient_eq_dec : EqDecision Recipient.
Proof. solve_decision. Defined.

Record Mail := {
  m_id : Z; m_kind : str; m_recipient : Recipient; m_subject : str; m_body : str;
  m_priority : Priority; m_token : bool; m_placeholder : bool; m_attempts : Z;
  m_next_attempt_at : Z; m_queued_at : Z; m_expires_at : Z; m_outcome : option MailOutcome }.

Record Settings := {
  name : str; public_host : option str; screenshots_enabled : bool; features_enabled : bool;
  require_email : bool; plus_one_enabled : bool; privacy_notice : option str;
  security_contact : option str }.

#[global] Instance Settings_eq_dec : EqDecision Settings.
Proof. solve_decision. Defined.

Record Project := { p_id : Z; p_slug : str; p_settings : Settings; p_created_at : Z }.

(** ** The audit log's vocabulary *)

Inductive Actor := CliActor | UserActor (id : Z) (role : Role).

Inductive Action :=
| InstanceRestore | UserUnlock | UserResetLink | UserPasswordChange | UserPasswordReset
| UserTotpEnable | UserTotpDisable | UserRecoveryCodes | UserSessionsEnd
| ProjectCreate | ProjectUpdate | ProjectDelete.

#[global] Instance Action_eq_dec : EqDecision Action.
Proof. solve_decision. Defined.

Definition ALL_ACTIONS : list Action :=
  [InstanceRestore; UserUnlock; UserResetLink; UserPasswordChange; UserPasswordReset;
   UserTotpEnable; UserTotpDisable; UserRecoveryCodes; UserSessionsEnd; ProjectCreate;
   ProjectUpdate; ProjectDelete].

Definition identifier (a : Action) : str :=
  match a with
  | InstanceRestore => lit "instance.restore"
  | UserUnlock => lit "user.unlock"
  | UserResetLink => lit "user.reset_link"
  | UserPasswordChange => lit "user.password_change"
  | UserPasswordReset => lit "user.password_reset"
  | UserTotpEnable => lit "user.totp_enable"
  | UserTotpDisable => lit "user.totp_disable"
  | UserRecoveryCodes => lit "user.recovery_codes"
  | UserSessionsEnd => lit "user.sessions_end"
  | ProjectCreate => lit "project.create"
  | ProjectUpdate => lit "project.update"
  | ProjectDelete => lit "project.delete"
  end.

Inductive Target := TInstance | TUser (id : Z) | TProject (id : Z).

Definition actor_columns (a : Actor) : str * option Z :=
  match a with
  | CliActor => (lit "cli", None)
  | UserActor id role => (role_as_str role, Some id)
  end.

Definition target_columns (t : Target) : str * option Z :=
  match t with
  | TInstance => (lit "instance", None)
  | TUser id => (lit "user", Some id)
  | TProject id => (lit "project", Some id)
  end.

Record AuditEntry := {
  a_id : Z; a_actor : str * option Z; a_action : str; a_target : str * option Z; a_time : Z }.

(** ** The database and its sequences *)

Record Db := {
  users : list User; sessions : list Session; known_devices : list Device;
  recovery_codes : list RecoveryCode; tokens : list Token; outbox : list Mail;
  projects : list Project; audit_log : list AuditEntry;
  tokens_seq : Z; outbox_seq : Z; projects_seq : Z; audit_seq : Z }.

Definition set_users (f : list User -> list User) (d : Db) : Db :=
  {| users := f (users d); sessions := sessions d; known_devices := known_devices d;
     recovery_codes := recovery_codes d; tokens := tokens d; outbox := outbox d;
     projects := projects d; audit_log := audit_log d; tokens_seq := tokens_seq d;
     outbox_seq := outbox_seq d; projects_seq := projects_seq d; audit_seq := audit_seq d |}.

Definition set_sessions (f : list Session -> list Session) (d : Db) : Db :=
  {| users := users d; sessions := f (sessions d); known_devices := known_devices d;
     recovery_codes := recovery_codes d; tokens := tokens d; outbox := outbox d;
     projects := projects d; audit_log := audit_log d; tokens_seq := tokens_seq d;
     outbox_seq := outbox_seq d; projects_seq := projects_seq d; audit_seq := audit_seq d |}.

Definition set_known_devices (f : list Device -> list Device) (d : Db) : Db :=
  {| users := users d; sessions := sessions d; known_devices := f (known_devices d);
     recovery_codes := recovery_codes d; tokens := tokens d; outbox := outbox d;
     projects := projects d; audit_log := audit_log d; tokens_seq := tokens_seq d;
     outbox_seq := outbox_seq d; projects_seq := projects_seq d; audit_seq := audit_seq d |}.

Definition set_recovery_codes (f : list RecoveryCode -> list RecoveryCode) (d : Db) : Db :=
  {| users := users d; sessions := sessions d; known_devices := known_devices d;
     recovery_codes := f (recovery_codes d); tokens := tokens d; outbox := outbox d;
     projects := projects d; audit_log := audit_log d; tokens_seq := tokens_seq d;
     outbox_seq := outbox_seq d; projects_seq := projects_seq d; audit_seq := audit_seq d |}.

Definition set_tokens (f : list Token -> list Token) (s : Z) (d : Db) : Db :=
  {| users := users d; sessions := sessions d; known_devices := known_devices d;
     recovery_codes := recovery_codes d; tokens := f (tokens d); outbox := outbox d;
     projects := projects d; audit_log := audit_log d; tokens_seq := s;
     outbox_seq := outbox_seq d; projects_seq := projects_seq d; audit_seq := audit_seq d |}.

Definition set_outbox (f : list Mail -> list Mail) (s : Z) (d : Db) : Db :=
  {| users := users d; sessions := sessions d; known_devices := known_devices d;
     recovery_codes := recovery_codes d; tokens := tokens d; outbox := f (outbox d);
     projects := projects d; audit_log := audit_log d; tokens_seq := tokens_seq d;
     outbox_seq := s; projects_seq := projects_seq d; audit_seq := audit_seq d |}.

Definition set_projects (f : list Project -> list Project) (s : Z) (d : Db) : Db :=
  {| users := users d; sessions := sessions d; known_devices := known_devices d;
     recovery_codes := recovery_codes d; tokens := tokens d; outbox := outbox d;
     projects := f (projects d); audit_log := audit_log d; tokens_seq := tokens_seq d;
     outbox_seq := outbox_seq d; projects_seq := s; audit_seq := audit_seq d |}.

Definition set_audit_log (f : list AuditEntry -> list AuditEntry) (s : Z) (d : Db) : Db :=
  {| users := users d; sessions := sessions d; known_devices := known_devices d;
     recovery_codes := recovery_codes d; tokens := tokens d; outbox := outbox d;
     projects := projects d; audit_log := f (audit_log d); tokens_seq := tokens_seq d;
     outbox_seq := outbox_seq d; projects_seq := projects_seq d; audit_seq := s |}.

Definition empty_db : Db :=
  {| users := []; sessions := []; known_devices := []; recovery_codes := []; tokens := [];
     outbox := []; projects := []; audit_log := []; tokens_seq := 0; outbox_seq := 0;
     projects_seq := 0; audit_seq := 0 |}.

(** ** Statements *)

(** [UPDATE t SET f WHERE p]. *)
Definition update_where {A} (p : A -> bool) (f : A -> A) (l : list A) : list A :=
  map (fun x => if p x then f x else x) l.

(** [DELETE FROM t WHERE p]. *)
Definition delete_where {A} (p : A -> bool) (l : list A) : list A :=
  List.filter (fun x => negb (p x)) l.

Definition count_where {A} (p : A -> bool) (l : list A) : Z :=
  Z.of_nat (length (List.filter p l)).

(** A rowid without [AUTOINCREMENT]: one past the largest in use. *)
Definition next_rowid {A} (id : A -> Z) (l : list A) : Z :=
  1 + fold_right Z.max 0 (map id l).

(** ** The world of a request *)

Record World := {
  db : Db;
  tape : Tape;
  (** Whether each further statement fails; past the end none does. *)
  faults : list bool;
  (** What other requests do to the database before this one's next transaction. *)
  others : list (Db -> Db);
  (** Statements run so far, wake-ups of the outbox worker, password checks begun. *)
  statements : Z;
  wakes : Z;
  password_checks : Z;
  (** The process's dummy hash, once made. *)
  dummy : option str }.

Definition with_db (d : Db) (w : World) : World :=
  {| db := d; tape := tape w; faults := faults w; others := others w;
     statements := statements w; wakes := wakes w; password_checks := password_checks w;
     dummy := dummy w |}.

Definition with_tape (t : Tape) (w : World) : World :=
  {| db := db w; tape := t; faults := faults w; others := others w;
     statements := statements w; wakes := wakes w; password_checks := password_checks w;
     dummy := dummy w |}.

(** One more statement was sent; its fault is consumed. *)
Definition tick (w : World) : World :=
  {| db := db w; tape := tape w; faults := tail (faults w); others := others w;
     statements := statements w + 1; wakes := wakes w; password_checks := password_checks w;
     dummy := dummy w |}.

Definition woken (w : World) : World :=
  {| db := db w; tape := tape w; faults := faults w; others := others w;
     statements := statements w; wakes := wakes w + 1; password_checks := password_checks w;
     dummy := dummy w |}.

Definition password_checked (w : World) : World :=
  {| db := db w; tape := tape w; faults := faults w; others := others w;
     statements := statements w; wakes := wakes w; password_checks := password_checks w + 1;
     dummy := dummy w |}.

Definition with_dummy (h : str) (w : World) : World :=
  {| db := db w; tape := tape w; faults := faults w; others := others w;
     statements := statements w; wakes := wakes w; password_checks := password_checks w;
     dummy := Some h |}.

(** A world without failures or other requests, with random octets [t]. *)
Definition quiet (d : Db) (t : Tape) : World :=
  {| db := d; tape := t; faults := []; others := []; statements := 0; wakes := 0;
     password_checks := 0; dummy := None |}.

(** Other requests' transactions run while this one waits. *)
Definition interfere (w : World) : World :=
  match others w with
  | [] => w
  | f :: rest =>
      {| db := f (db w); tape := tape w; faults := faults w; others := rest;
         statements := statements w; wakes := wakes w; password_checks := password_checks w;
         dummy := dummy w |}
  end.

Definition faulty (w : World) : bool := match faults w with true :: _ => true | _ => false end.

(** ** Fallible state *)

Definition Tx (E A : Type) : Type := World -> result E A * World.

#[global] Instance Tx_ret {E} : MRet (Tx E) := fun A a w => (Ok a, w).

#[global] Instance Tx_bind {E} : MBind (Tx E) := fun A B f m w =>
  match m w with
  | (Ok a, w) => f a w
  | (Err e, w) => (Err e, w)
  end.

Definition fail {E A} (e : E) : Tx E A := fun w => (Err e, w).

(** The conversions the [?] operator inserts. *)
Class FromSql (E : Type) := from_sql : E.
Class FromRandom (E : Type) := from_random : E.

(** One statement: it fails whole, or changes the database as [f] says. *)
Definition stmt {E A} `{FromSql E} (f : Db -> result unit (A * Db)) : Tx E A := fun w =>
  let w' := tick w in
  if faulty w then (Err from_sql, w')
  else match f (db w) with
       | Ok (a, d) => (Ok a, with_db d w')
       | Err _ => (Err from_sql, w')
       end.

(** A query reads. *)
Definition query {E A} `{FromSql E} (f : Db -> A) : Tx E A := stmt (fun d => Ok (f d, d)).

(** A statement that no constraint can refuse. *)
Definition execute {E} `{FromSql E} (f : Db -> Db) : Tx E unit := stmt (fun d => Ok (tt, f d)).

(** [consume_one]: a conditional statement with its count of changed rows. *)
Definition consume_one {E} `{FromSql E} (count : Db -> Z) (f : Db -> Db) : Tx E bool :=
  n ← stmt (fun d => Ok (count d, f d));
  if n =? 0 then mret false else if n =? 1 then mret true else fail from_sql.

(** [consume_returning]: a conditional statement with the rows it returns. *)
Definition consume_returning {E A} `{FromSql E} (rows : Db -> list A) (f : Db -> Db)
  : Tx E (option A) :=
  l ← stmt (fun d => Ok (rows d, f d));
  match l with
  | [] => mret None
  | [a] => mret (Some a)
  | _ => fail from_sql
  end.

(** [Db::write]: [BEGIN IMMEDIATE] once the writer is free, then the work, then [COMMIT];
    an error of any of them leaves the database as it was. *)
Definition write {E A} `{FromSql E} (work : Tx E A) : Tx E A := fun w =>
  let w := interfere w in
  let d := db w in
  match stmt (fun d => Ok (tt, d)) w with
  | (Err e, w) => (Err e, w)
  | (Ok _, w) =>
      match work w with
      | (Err e, w) => (Err e, with_db d w)
      | (Ok a, w) =>
          match stmt (fun d => Ok (tt, d)) w with
          | (Ok _, w) => (Ok a, w)
          | (Err e, w) => (Err e, with_db d w)
          end
      end
  end.

(** [Db::read]. *)
Definition read {E A} (work : Tx E A) : Tx E A := fun w => work (interfere w).

Definition draw {E A} `{FromRandom E} (f : Tape -> result unit A * Tape) : Tx E A := fun w =>
  match f (tape w) with
  | (Ok a, t) => (Ok a, with_tape t w)
  | (Err _, t) => (Err from_random, with_tape t w)
  end.

(** Process state that no rollback undoes. *)
Definition get_dummy {E} : Tx E (option str) := fun w => (Ok (dummy w), w).
Definition set_dummy {E} (h : str) : Tx E unit := fun w => (Ok tt, with_dummy h w).
Definition count_password_check {E} : Tx E unit := fun w => (Ok tt, password_checked w).

(** Octets the random source still gives: a bound for loops that draw. *)
Definition tape_left {E} : Tx E nat := fun w => (Ok (length (tape w)), w).

(** [Wakeup::wake]: not undone by a rollback. *)
Definition wake {E} : Tx E unit := fun w => (Ok tt, woken w).

(** ** The audit log *)

(** [audit]: appended in the caller's transaction. *)
Definition audit {E} `{FromSql E} (actor : Actor) (action : Action) (target : Target) (now : Z)
  : Tx E unit :=
  stmt (fun d =>
    let id := audit_seq d + 1 in
    Ok (tt, set_audit_log (fun l => l ++ [{| a_id := id; a_actor := actor_columns actor;
                                             a_action := identifier action;
                                             a_target := target_columns target;
                                             a_time := now |}]) id d)).

(** ** Inverting transactions *)

Lemma Tx_bind_Ok {E A B} (f : A -> Tx E B) (m : Tx E A) w b w' :
  (m ≫= f) w = (Ok b, w') -> exists a w1, m w = (Ok a, w1) /\ f a w1 = (Ok b, w').
Proof. unfold mbind, Tx_bind. destruct (m w) as [[a|e] w1]; [eauto|done]. Qed.

Lemma Tx_bind_run {E A B} (f : A -> Tx E B) (m : Tx E A) w a w1 :
  m w = (Ok a, w1) -> (m ≫= f) w = f a w1.
Proof. unfold mbind, Tx_bind. by intros ->. Qed.

Lemma stmt_Ok {E A} `{FromSql E} (f : Db -> result unit (A * Db)) w a w' :
  stmt f w = (Ok a, w') -> exists d, f (db w) = Ok (a, d) /\ w' = with_db d (tick w).
Proof.
  unfold stmt. destruct (faulty w); [done|]. destruct (f (db w)) as [[a' d]|]; [|done].
  intros [= <- <-]. eauto.
Qed.

(** A failed statement changes no table. *)
Lemma stmt_Err {E A} `{FromSql E} (f : Db -> result unit (A * Db)) w e w' :
  stmt f w = (Err e, w') -> db w' = db w.
Proof.
  unfold stmt. destruct (faulty w); [by intros [= _ <-]|].
  destruct (f (db w)) as [[a' d]|]; by intros [= _ <-].
Qed.

Lemma query_Ok {E A} `{FromSql E} (f : Db -> A) w a w' :
  query f w = (Ok a, w') -> a = f (db w) /\ w' = with_db (db w) (tick w).
Proof. intros Hq. apply stmt_Ok in Hq as (d & [= -> <-] & ->). done. Qed.

Lemma execute_Ok {E} `{FromSql E} (f : Db -> Db) w a w' :
  execute f w = (Ok a, w') -> w' = with_db (f (db w)) (tick w).
Proof. intros Hq. apply stmt_Ok in Hq as (d & [= <- <-] & ->). done. Qed.

Lemma draw_Ok {E A} `{FromRandom E} (f : Tape -> result unit A * Tape) w a w' :
  draw f w = (Ok a, w') -> exists t, f (tape w) = (Ok a, t) /\ w' = with_tape t w.
Proof. unfold draw. destruct (f (tape w)) as [[x|] t]; [|done]. intros [= <- <-]. eauto. Qed.

Lemma consume_one_Ok {E} `{FromSql E} count (f : Db -> Db) w b w' :
  consume_one count f w = (Ok b, w') ->
  w' = with_db (f (db w)) (tick w) /\
  ((b = false /\ count (db w) = 0) \/ (b = true /\ count (db w) = 1)).
Proof.
  unfold consume_one. intros Hc. apply Tx_bind_Ok in Hc as (n & w1 & Hn & Hc).
  apply stmt_Ok in Hn as (d & [= <- <-] & ->). revert Hc.
  destruct (Z.eqb_spec (count (db w)) 0) as [H0|H0].
  { intros [= <- <-]. auto. }
  destruct (Z.eqb_spec (count (db w)) 1) as [H1|H1]; [|done]. intros [= <- <-]. auto.
Qed.

Lemma consume_returning_Ok {E A} `{FromSql E} (rows : Db -> list A) (f : Db -> Db) w o w' :
  consume_returning rows f w = (Ok o, w') ->
  w' = with_db (f (db w)) (tick w) /\ rows (db w) = match o with Some a => [a] | None => [] end.
Proof.
  unfold consume_returning. intros Hc. apply Tx_bind_Ok in Hc as (l & w1 & Hn & Hc).
  apply stmt_Ok in Hn as (d & [= <- <-] & ->). revert Hc.
  destruct (rows (db w)) as [|a [|b l]]; [| |done]; by intros [= <- <-].
Qed.

(** A committed [write] ran its work once, on the database found when the writer was
    free; otherwise the database is what the others made it. *)
Lemma write_Ok {E A} `{FromSql E} (work : Tx E A) w a w' :
  write work w = (Ok a, w') ->
  exists w1 w2, db w1 = db (interfere w) /\ tape w1 = tape w /\ work w1 = (Ok a, w2) /\
    db w' = db w2 /\ tape w' = tape w2 /\ others w' = others w2 /\ others w1 = others (interfere w).
Proof.
  assert (Hti : tape (interfere w) = tape w)
    by (unfold interfere; by destruct (others w)).
  unfold write. cbv zeta. destruct (stmt _ (interfere w)) as [[u|] w1] eqn:E1; [|done].
  apply stmt_Ok in E1 as (d & [= <- <-] & ->).
  destruct (work _) as [[x|] w2] eqn:E2; [|done].
  destruct (stmt _ w2) as [[v|] w3] eqn:E3; [|done].
  apply stmt_Ok in E3 as (d' & [= <- <-] & ->). intros [= <- <-].
  eexists _, _. split_and!; try exact E2; done.
Qed.

Lemma write_Err {E A} `{FromSql E} (work : Tx E A) w e w' :
  write work w = (Err e, w') -> db w' = db (interfere w).
Proof.
  unfold write. cbv zeta. destruct (stmt _ (interfere w)) as [[u|] w1] eqn:E1.
  - destruct (work w1) as [[x|] w2] eqn:E2; [|by intros [= _ <-]].
    destruct (stmt _ w2) as [[v|] w3] eqn:E3; by intros [= _ <-].
  - intros [= _ <-]. by eapply stmt_Err.
Qed.

(** Takes successful transactions apart, statement by statement. *)
Ltac tx_inv :=
  repeat match goal with
  | H : (_ ≫= _) _ = (Ok _, _) |- _ =>
      let a := fresh "x" in let w := fresh "w" in let H1 := fresh "Hx" in
      apply Tx_bind_Ok in H as (a & w & H1 & H)
  | H : query _ _ = (Ok _, _) |- _ => apply query_Ok in H as [? ->]
  | H : execute _ _ = (Ok _, _) |- _ => apply execute_Ok in H as ->
  | H : mret _ _ = (Ok _, _) |- _ => unfold mret, Tx_ret in H; injection H; clear H; intros
  | H : fail _ _ = (Ok _, _) |- _ => discriminate H
  end.

(** ** Invariants *)

(** Every successful run of [t] keeps [P]; a failed one is rolled back. *)
Definition preserves (P : Db -> Prop) {E A} (t : Tx E A) : Prop :=
  forall w a w', t w = (Ok a, w') -> P (db w) -> P (db w').

Lemma preserves_bind P {E A B} (m : Tx E A) (f : A -> Tx E B) :
  preserves P m -> (forall a, preserves P (f a)) -> preserves P (m ≫= f).
Proof.
  intros Hm Hf w b w' H Hw. apply Tx_bind_Ok in H as (a & w1 & H1 & H2).
  eapply Hf; [exact H2|]. by eapply Hm.
Qed.

Lemma preserves_mret P {E A} (a : A) : preserves P (mret a : Tx E A).
Proof. by intros w b w' [= <- <-]. Qed.

Lemma preserves_stmt P {E A} `{FromSql E} (f : Db -> result unit (A * Db)) :
  (forall d a d', P d -> f d = Ok (a, d') -> P d') -> preserves P (stmt f).
Proof. intros Hf w a w' H1 Hw. apply stmt_Ok in H1 as (d & Hd & ->). by eapply Hf. Qed.

Lemma preserves_execute P {E} `{FromSql E} (f : Db -> Db) :
  (forall d, P d -> P (f d)) -> preserves P (execute f).
Proof. intros Hf. apply preserves_stmt. intros d a d' Hd [= _ <-]. by apply Hf. Qed.

Lemma preserves_query P {E A} `{FromSql E} (f : Db -> A) : preserves P (query f).
Proof. apply preserves_stmt. by intros d a d' Hd [= _ <-]. Qed.

Lemma preserves_write P {E A} `{FromSql E} (t : Tx E A) w :
  preserves P t -> P (db (interfere w)) -> P (db (write t w).2).
Proof.
  intros Ht Hw. destruct (write t w) as [[a|e] w'] eqn:E'; cbn.
  - apply write_Ok in E' as (w1 & w2 & Hd & _ & Hr & -> & _). eapply Ht; [exact Hr|]. by rewrite Hd.
  - by rewrite (write_Err _ _ _ _ E').
Qed.

#[export] Hint Resolve preserves_bind preserves_mret preserves_query : kohaku.

(** ** Lists of rows *)

Lemma elem_of_update_where {A} (p : A -> bool) f (l : list A) y :
  y ∈ update_where p f l <-> exists x, x ∈ l /\ y = if p x then f x else x.
Proof.
  unfold update_where. rewrite list_elem_of_fmap. split; intros (x & H1 & H2); exists x; auto.
Qed.

Lemma elem_of_delete_where {A} (p : A -> bool) (l : list A) x :
  x ∈ delete_where p l <-> x ∈ l /\ p x = false.
Proof.
  unfold delete_where. rewrite !list_elem_of_In, filter_In. by rewrite negb_true_iff.
Qed.

Lemma count_where_0 {A} (p : A -> bool) (l : list A) :
  count_where p l = 0 <-> Forall (fun x => p x = false) l.
Proof.
  unfold count_where. induction l as [|x l IH]; cbn; [done|]. rewrite Forall_cons.
  destruct (p x) eqn:Hx; cbn [length].
  - split; [lia|]. by intros [? _].
  - rewrite IH. tauto.
Qed.

Lemma count_where_app {A} (p : A -> bool) (l k : list A) :
  count_where p (l ++ k) = count_where p l + count_where p k.
Proof. unfold count_where. rewrite List.filter_app, length_app. lia. Qed.

Lemma count_where_nonneg {A} (p : A -> bool) (l : list A) : 0 <= count_where p l.
Proof. unfold count_where. lia. Qed.

Lemma count_where_cons {A} (p : A -> bool) x (l : list A) :
  count_where p (x :: l) = (if p x then 1 else 0) + count_where p l.
Proof. unfold count_where. cbn. destruct (p x); cbn [length]; lia. Qed.

Lemma update_where_id {A} (p : A -> bool) f (l : list A) :
  Forall (fun x => p x = false) l -> update_where p f l = l.
Proof. induction 1 as [|x l Hx Hl IH]; [done|]. unfold update_where in *. cbn. by rewrite Hx, IH. Qed.

(** ** Running transactions *)

Lemma stmt_run {E A} `{FromSql E} (f : Db -> result unit (A * Db)) w a d :
  faults w = [] -> f (db w) = Ok (a, d) -> stmt f w = (Ok a, with_db d (tick w)).
Proof. intros Hf Hd. unfold stmt, faulty. by rewrite Hf, Hd. Qed.

Lemma write_run {E A} `{FromSql E} (work : Tx E A) w a w2 :
  faults w = [] -> others w = [] -> work (with_db (db w) (tick w)) = (Ok a, w2) ->
  faults w2 = [] -> write work w = (Ok a, with_db (db w2) (tick w2)).
Proof.
  intros Hf Ho Hw Hf2. unfold write. cbv zeta. replace (interfere w) with w
    by (unfold interfere; by rewrite Ho).
  rewrite (stmt_run _ w tt (db w)) by done. cbn [db]. rewrite Hw.
  by rewrite (stmt_run _ w2 tt (db w2)).
Qed.

Lemma find_first_update {A} (p q : A -> bool) f l :
  (forall x, q (f x) = q x) ->
  find_first q (update_where p f l) = (fun x => if p x then f x else x) <$> find_first q l.
Proof.
  intros Hq. induction l as [|x l IH]; [done|]. unfold update_where in *. cbn.
  assert (Hx : q (if p x then f x else x) = q x) by (destruct (p x); auto).
  rewrite Hx. by destruct (q x).
Qed.

Lemma interfere_same w1 w2 :
  db w1 = db w2 -> others w1 = others w2 -> db (interfere w1) = db (interfere w2).
Proof. unfold interfere. intros Hd ->. destruct (others w2); cbn; congruence. Qed.

Lemma interfere_others w1 w2 :
  others w1 = others w2 -> others (interfere w1) = others (interfere w2).
Proof. unfold interfere. intros Ho. rewrite Ho. destruct (others w2) eqn:E; cbn; congruence. Qed.

(** Parts of a request that touch neither the database nor the others' turns. *)
Definition still {E A} (t : Tx E A) : Prop :=
  forall w, db (t w).2 = db w /\ others (t w).2 = others w.

Lemma still_bind {E A B} (m : Tx E A) (f : A -> Tx E B) :
  still m -> (forall a, still (f a)) -> still (m ≫= f).
Proof.
  intros Hm Hf w. specialize (Hm w). unfold mbind, Tx_bind.
  destruct (m w) as [[a|e] w1]; cbn in *; [|done]. destruct (Hf a w1) as [-> ->]. done.
Qed.

Lemma still_query {E A} `{FromSql E} (f : Db -> A) : still (query f).
Proof. intros w. unfold query, stmt. by destruct (faulty w). Qed.

Lemma still_draw {E A} `{FromRandom E} (f : Tape -> result unit A * Tape) : still (draw f).
Proof. intros w. unfold draw. by destruct (f (tape w)) as [[]]. Qed.

Lemma still_Ok {E A} (t : Tx E A) w a w' :
  still t -> t w = (Ok a, w') -> db w' = db w /\ others w' = others w.
Proof. intros Ht E'. specialize (Ht w). by rewrite E' in Ht. Qed.

(** ** Requests among others

    A request runs transactions while others commit theirs. [inv_tx] says that one
    transaction body keeps a property, [safe] that a whole run does when the others do. *)

Definition good (P : Db -> Prop) (w : World) : Prop :=
  P (db w) /\ Forall (fun f => forall d, P d -> P (f d)) (others w).

Definition inv_tx (P : Db -> Prop) {E A} (t : Tx E A) : Prop :=
  forall w, others (t w).2 = others w /\
    forall a w', t w = (Ok a, w') -> P (db w) -> P (db w').

Definition safe (P : Db -> Prop) {E A} (t : Tx E A) : Prop := forall w, good P w -> good P (t w).2.

Section Safety.
Context (P : Db -> Prop) {E : Type}.

Lemma inv_bind {A B} (m : Tx E A) (f : A -> Tx E B) :
  inv_tx P m -> (forall a, inv_tx P (f a)) -> inv_tx P (m ≫= f).
Proof.
  intros Hm Hf w. destruct (Hm w) as [Ho Hp]. split.
  - unfold mbind, Tx_bind. destruct (m w) as [[a|e] w1]; [|done]. cbn in Ho. rewrite <- Ho. apply Hf.
  - intros b w' H Hw. apply Tx_bind_Ok in H as (a & w1 & H1 & H2).
    eapply Hf; [exact H2|]. by eapply Hp.
Qed.

Lemma inv_mret {A} (a : A) : inv_tx P (mret a : Tx E A).
Proof. intros w. split; [done|]. by intros b w' [= <- <-]. Qed.

Lemma inv_fail {A} (e : E) : inv_tx P (fail e : Tx E A).
Proof. by intros w. Qed.

Lemma inv_stmt `{FromSql E} {A} (f : Db -> result unit (A * Db)) :
  (forall d a d', f d = Ok (a, d') -> P d -> P d') -> inv_tx P (stmt (E := E) f).
Proof.
  intros Hf w. split.
  - unfold stmt. destruct (faulty w); [done|]. by destruct (f (db w)) as [[]|].
  - intros a w' H1 Hw. apply stmt_Ok in H1 as (d & Hd & ->). by eapply Hf.
Qed.

Lemma inv_query `{FromSql E} {A} (f : Db -> A) : inv_tx P (query (E := E) f).
Proof. apply inv_stmt. by intros d a d' [= _ <-]. Qed.

Lemma inv_execute `{FromSql E} (f : Db -> Db) :
  (forall d, P d -> P (f d)) -> inv_tx P (execute (E := E) f).
Proof. intros Hf. apply inv_stmt. intros d a d' [= _ <-]. apply Hf. Qed.

Lemma inv_consume_one `{FromSql E} n (f : Db -> Db) :
  (forall d, P d -> P (f d)) -> inv_tx P (consume_one (E := E) n f).
Proof.
  intros Hf. apply inv_bind.
  - apply inv_stmt. intros d a d' [= _ <-]. apply Hf.
  - intros a. repeat case_match; (apply inv_mret || apply inv_fail).
Qed.

Lemma inv_consume_returning `{FromSql E} {A} (rows : Db -> list A) (f : Db -> Db) :
  (forall d, P d -> P (f d)) -> inv_tx P (consume_returning (E := E) rows f).
Proof.
  intros Hf. apply inv_bind.
  - apply inv_stmt. intros d a d' [= _ <-]. apply Hf.
  - intros a. repeat case_match; (apply inv_mret || apply inv_fail).
Qed.

Lemma inv_draw `{FromRandom E} {A} (f : Tape -> result unit A * Tape) : inv_tx P (draw (E := E) f).
Proof.
  intros w. split; [unfold draw; by destruct (f (tape w)) as [[]]|].
  intros a w' Hd. by apply draw_Ok in Hd as (t & _ & ->).
Qed.

Lemma inv_wake : inv_tx P (wake : Tx E unit).
Proof. intros w. split; [done|]. by intros a w' [= _ <-]. Qed.

Lemma inv_audit `{FromSql E} actor action target now :
  (forall f s d, P d -> P (set_audit_log f s d)) -> inv_tx P (audit (E := E) actor action target now).
Proof. intros Hf. apply inv_stmt. intros d a d' [= _ <-]. apply Hf. Qed.

Lemma interfere_good w : good P w -> good P (interfere w).
Proof.
  intros [Hp Ho]. unfold interfere. destruct (others w) as [|f l] eqn:Eo.
  { split; [done|by rewrite Eo]. }
  apply Forall_cons in Ho as [Hf Hl]. split; [by apply Hf|done].
Qed.

Lemma safe_write `{FromSql E} {A} (t : Tx E A) : inv_tx P t -> safe P (write t).
Proof.
  intros Ht w Hw. apply interfere_good in Hw as [Hp Ho].
  assert (Hst : forall (f : Db -> result unit (unit * Db)) x, others (stmt (E := E) f x).2 = others x).
  { intros f x. unfold stmt. destruct (faulty x); [done|]. by destruct (f (db x)) as [[]|]. }
  unfold write. cbv zeta. pose proof (Hst (fun d => Ok (tt, d)) (interfere w)) as H1.
  destruct (stmt _ (interfere w)) as [[u|e] w1] eqn:E1; cbn in H1.
  - apply stmt_Ok in E1 as (d & [= <- <-] & ->). destruct (Ht (with_db (db (interfere w)) (tick (interfere w)))) as [H2 H3].
    destruct (t _) as [[a|e] w2] eqn:E2; cbn in H2.
    + specialize (H3 a w2 eq_refl Hp). pose proof (Hst (fun d => Ok (tt, d)) w2) as H4.
      destruct (stmt _ w2) as [[v|e] w3] eqn:E3; cbn in H4.
      * apply stmt_Ok in E3 as (d & [= <- <-] & ->). split; cbn; [done|]. by rewrite H2.
      * split; cbn; [done|]. by rewrite H4, H2.
    + split; cbn; [done|]. by rewrite H2.
  - apply stmt_Err in E1. split; cbn; [by rewrite E1|by rewrite H1].
Qed.

Lemma safe_still {A} (t : Tx E A) : still t -> safe P t.
Proof. intros Ht w [Hp Ho]. destruct (Ht w) as [H1 H2]. split; [by rewrite H1|by rewrite H2]. Qed.

Lemma safe_read {A} (t : Tx E A) : still t -> safe P (read t).
Proof. intros Ht w Hw. apply interfere_good in Hw. unfold read. exact (safe_still t Ht _ Hw). Qed.

Lemma safe_bind {A B} (m : Tx E A) (f : A -> Tx E B) :
  safe P m -> (forall a, safe P (f a)) -> safe P (m ≫= f).
Proof.
  intros Hm Hf w Hw. specialize (Hm w Hw). unfold mbind, Tx_bind.
  destruct (m w) as [[a|e] w1]; [by apply Hf|done].
Qed.
End Safety.

Lemma still_mret {E A} (a : A) : still (mret a : Tx E A).
Proof. by intros w. Qed.

Lemma still_fail {E A} (e : E) : still (fail e : Tx E A).
Proof. by intros w. Qed.

Lemma still_stmt {E A} `{FromSql E} (f : Db -> result unit (A * Db)) :
  (forall d a d', f d = Ok (a, d') -> d' = d) -> still (stmt (E := E) f).
Proof.
  intros Hf w. unfold stmt. destruct (faulty w); [done|].
  destruct (f (db w)) as [[a d]|] eqn:E1; [|done]. cbn. by rewrite (Hf _ _ _ E1).
Qed.

(** [t] succeeds whenever no statement fails. *)
Definition runs {E A} (t : Tx E A) : Prop :=
  forall w, faults w = [] -> exists a w', t w = (Ok a, w') /\ faults w' = [].

Lemma runs_bind {E A B} (m : Tx E A) (f : A -> Tx E B) :
  runs m -> (forall a, runs (f a)) -> runs (m ≫= f).
Proof.
  intros Hm Hf w Hw. destruct (Hm w Hw) as (a & w1 & H1 & Hw1).
  destruct (Hf a w1 Hw1) as (b & w2 & H2 & Hw2). exists b, w2. by rewrite (Tx_bind_run _ _ _ _ _ H1).
Qed.

Lemma runs_mret {E A} (a : A) : runs (mret a : Tx E A).
Proof. intros w Hw. by eexists _, _. Qed.

Lemma runs_query {E A} `{FromSql E} (f : Db -> A) : runs (query (E := E) f).
Proof.
  intros w Hw. eexists _, _. split; [by apply stmt_run|]. cbn. by rewrite Hw.
Qed.

Lemma runs_execute {E} `{FromSql E} (f : Db -> Db) : runs (execute (E := E) f).
Proof.
  intros w Hw. eexists _, _. split; [by apply stmt_run|]. cbn. by rewrite Hw.
Qed.

(** A transaction that runs, alone, commits. *)
Lemma runs_write {E A} `{FromSql E} (t : Tx E A) w :
  runs t -> faults w = [] -> others w = [] ->
  exists a w1 w', t (with_db (db w) (tick w)) = (Ok a, w1) /\ write t w = (Ok a, w') /\
    faults w' = [] /\ db w' = db w1 /\ others w' = others w1.
Proof.
  intros Ht Hf Ho. destruct (Ht (with_db (db w) (tick w))) as (a & w1 & H1 & Hw1);
    [cbn; by rewrite Hf|]. exists a, w1. eexists. split; [done|].
  split; [by apply write_run|]. cbn. by rewrite Hw1.
Qed.

Create HintDb inv.
#[export] Hint Resolve inv_bind inv_mret inv_fail inv_query inv_execute inv_consume_one
  inv_consume_returning inv_draw inv_wake inv_audit : inv.
#[export] Hint Resolve safe_bind safe_write safe_still safe_read still_mret still_fail still_query
  still_draw still_bind : inv.
#[export] Hint Resolve runs_bind runs_mret runs_query runs_execute : inv.
