(* ===== verification/Outbox.v ===== *)
(** * The outbox (src/src/mail/outbox.rs, src/src/auth/mail.rs)

    The SQL wall clock [unixepoch()] read by a give-up action is a parameter. *)

From S2P Require Import Prelude Str Keys Text Time Db.

Definition MAX_AGE : Z := 24 * 60 * 60.
Definition RETRY_DELAYS : list Z := [60; 5 * 60; 30 * 60; 2 * 60 * 60].

(** ** Mail kinds *)

Inductive SqlError := SqlFailed.

#[global] Instance SqlError_from_sql : FromSql SqlError := SqlFailed.

Record MailKind := {
  k_name : str; k_priority : Priority; k_token : bool; k_lifetime : Z;
  k_give_up : option (Z -> Tx SqlError unit) }.

Definition RESET_LIFETIME : Z := 60 * 60.
Definition SECURITY_LIFETIME : Z := 24 * 60 * 60.

(** The account of an outbox row, [SELECT user_id FROM outbox WHERE id = ?1]. *)
Definition row_account (d : Db) (id : Z) : option Z :=
  match find_first (fun m => m_id m =? id) (outbox d) with
  | Some m => match m_recipient m with ToUser u => Some u | ToAddress _ => None end
  | None => None
  end.

Definition use_token (now : Z) (t : Token) : Token :=
  {| t_id := t_id t; t_purpose := t_purpose t; t_token_hash := t_token_hash t;
     t_user_id := t_user_id t; t_email := t_email t; t_totp_nonce := t_totp_nonce t;
     t_expires_at := t_expires_at t; t_used_at := Some now |}.

(** An unused reset token of account [u]; no token matches a missing account. *)
Definition unused_reset_of (u : option Z) (t : Token) : bool :=
  bool_decide (t_purpose t = ResetToken) && bool_decide (t_used_at t = None)
  && match u with Some _ => bool_decide (t_user_id t = u) | None => false end.

Definition update_tokens (p : Token -> bool) (f : Token -> Token) (d : Db) : Db :=
  set_tokens (update_where p f) (tokens_seq d) d.

(** [expire_reset_token]. *)
Definition expire_reset_token (unixepoch outbox_id : Z) : Tx SqlError unit :=
  execute (fun d => update_tokens (unused_reset_of (row_account d outbox_id))
                      (use_token unixepoch) d).

Definition RESET_LINK (unixepoch : Z) : MailKind :=
  {| k_name := lit "account_reset_link"; k_priority := Normal; k_token := true;
     k_lifetime := RESET_LIFETIME; k_give_up := Some (expire_reset_token unixepoch) |}.

Definition LOCKOUT : MailKind :=
  {| k_name := lit "account_lockout"; k_priority := Security; k_token := false;
     k_lifetime := SECURITY_LIFETIME; k_give_up := None |}.

Definition PASSWORD_CHANGED : MailKind :=
  {| k_name := lit "account_password_changed"; k_priority := Security; k_token := false;
     k_lifetime := SECURITY_LIFETIME; k_give_up := None |}.

Definition KINDS (unixepoch : Z) : list MailKind :=
  [RESET_LINK unixepoch; LOCKOUT; PASSWORD_CHANGED].

(** ** Queuing *)

Class FromRecipient (E : Type) := from_recipient : E.

Inductive EnqueueError := InvalidRecipient | EnqueueDatabase.

#[global] Instance EnqueueError_from_sql : FromSql EnqueueError := EnqueueDatabase.
#[global] Instance EnqueueError_from_recipient : FromRecipient EnqueueError := InvalidRecipient.

Record NewMail := {
  n_kind : MailKind; n_recipient : Recipient; n_subject : str; n_body : str; n_placeholder : bool }.

Definition has_user (d : Db) (id : Z) : bool := existsb (fun u => u_id u =? id) (users d).

(** [INSERT INTO outbox]; the account recipient is a foreign key. *)
Definition insert_mail (mail : NewMail) (now : Z) (d : Db) : result unit (Z * Db) :=
  let id := outbox_seq d + 1 in
  let row := {| m_id := id; m_kind := k_name (n_kind mail); m_recipient := n_recipient mail;
                m_subject := subject (n_subject mail); m_body := n_body mail;
                m_priority := k_priority (n_kind mail); m_token := k_token (n_kind mail);
                m_placeholder := n_placeholder mail; m_attempts := 0; m_next_attempt_at := now;
                m_queued_at := now; m_expires_at := now + k_lifetime (n_kind mail);
                m_outcome := None |} in
  match n_recipient mail with
  | ToUser u => if has_user d u then Ok (id, set_outbox (fun l => l ++ [row]) id d) else Err tt
  | ToAddress _ => Ok (id, set_outbox (fun l => l ++ [row]) id d)
  end.

Section Enqueue.
Context `{Crates} {E : Type} `{FromSql E} `{FromRecipient E}.

(** [enqueue]; the wake-up is not undone by a rollback. *)
Definition enqueue (mail : NewMail) (now : Z) : Tx E Z :=
  _ ← (match n_recipient mail with
       | ToAddress a =>
           match validate_recipient a with Ok _ => mret tt | Err _ => fail from_recipient end
       | ToUser _ => mret tt
       end : Tx E unit);
  id ← stmt (insert_mail mail now);
  _ ← wake;
  mret id.
End Enqueue.

(** ** Deadlines and retries *)

Definition deadline (queued_at expires_at : Z) : Z := Z.min (queued_at + MAX_AGE) expires_at.

(** [next_attempt]; [failures] is a [u32]. *)
Definition next_attempt (failures ended_at deadline : Z) : option Z :=
  let index := Z.max 0 (failures - 1) in
  let delay := nth (Z.to_nat (Z.min index (Z.of_nat (length RETRY_DELAYS) - 1))) RETRY_DELAYS 0 in
  let next := ended_at + delay in
  then_some (next <? deadline) next.

Definition find_kind (kinds : list MailKind) (name : str) : option MailKind :=
  find_first (fun k => zlist_eqb (k_name k) name) kinds.

Definition unsent (id : Z) (m : Mail) : bool :=
  (m_id m =? id) && bool_decide (m_outcome m = None).

Definition find_unsent (id : Z) (d : Db) : option Mail := find_first (unsent id) (outbox d).

Definition set_outcome (o : MailOutcome) (attempts : Z) (m : Mail) : Mail :=
  {| m_id := m_id m; m_kind := m_kind m; m_recipient := m_recipient m; m_subject := m_subject m;
     m_body := m_body m; m_priority := m_priority m; m_token := m_token m;
     m_placeholder := m_placeholder m; m_attempts := attempts;
     m_next_attempt_at := m_next_attempt_at m; m_queued_at := m_queued_at m;
     m_expires_at := m_expires_at m; m_outcome := Some o |}.

Definition set_attempts (attempts next : Z) (m : Mail) : Mail :=
  {| m_id := m_id m; m_kind := m_kind m; m_recipient := m_recipient m; m_subject := m_subject m;
     m_body := m_body m; m_priority := m_priority m; m_token := m_token m;
     m_placeholder := m_placeholder m; m_attempts := attempts; m_next_attempt_at := next;
     m_queued_at := m_queued_at m; m_expires_at := m_expires_at m; m_outcome := m_outcome m |}.

Definition change_outbox (f : list Mail -> list Mail) (d : Db) : Db := set_outbox f (outbox_seq d) d.

Definition delete_mail (id : Z) : Tx SqlError unit :=
  execute (change_outbox (delete_where (fun m => m_id m =? id))).

(** [give_up]. *)
Definition give_up_row (kinds : list MailKind) (id : Z) : Tx SqlError unit :=
  row ← query (find_unsent id);
  match row with
  | None => mret tt
  | Some m =>
      _ ← (match (k ← find_kind kinds (m_kind m); k_give_up k) with
           | Some action => action id
           | None => mret tt
           end : Tx SqlError unit);
      if m_token m then delete_mail id
      else execute (change_outbox (update_where (unsent id)
                                     (fun m => set_outcome MailGivenUp (m_attempts m) m)))
  end.

Definition expired (now : Z) (m : Mail) : bool :=
  bool_decide (m_outcome m = None) && (Z.min (m_queued_at m + MAX_AGE) (m_expires_at m) <=? now).

Fixpoint give_up_all (kinds : list MailKind) (ids : list Z) : Tx SqlError unit :=
  match ids with
  | [] => mret tt
  | id :: ids => _ ← give_up_row kinds id; give_up_all kinds ids
  end.

(** [give_up_expired]: how many. *)
Definition give_up_expired (kinds : list MailKind) (now : Z) : Tx SqlError Z :=
  ids ← query (fun d => map m_id (List.filter (expired now) (outbox d)));
  _ ← give_up_all kinds ids;
  mret (Z.of_nat (length ids)).

(** ** Picking *)

Record DueRow := {
  due_id : Z; due_kind : str; due_address : str; due_subject : str; due_body : str;
  due_priority : Priority; due_attempts : Z }.

Inductive Pick := Due (row : DueRow) | Idle (next : option Z).

Definition due (now : Z) (m : Mail) : bool :=
  bool_decide (m_outcome m = None) && (m_next_attempt_at m <=? now).

(** The sort key of [ORDER BY]: security rows first. *)
Definition due_key (m : Mail) : list Z :=
  [if bool_decide (m_priority m = Security) then 0 else 1; m_next_attempt_at m; m_queued_at m;
   m_id m].

Definition first_by {A} (le : A -> A -> bool) (l : list A) : option A :=
  match l with
  | [] => None
  | x :: l => Some (fold_left (fun a b => if le a b then a else b) l x)
  end.

(** [coalesce(o.address, u.email)]; [None] is SQL's [NULL]. *)
Definition row_address (d : Db) (m : Mail) : option str :=
  match m_recipient m with
  | ToAddress a => Some a
  | ToUser id => u_email <$> find_first (fun u => u_id u =? id) (users d)
  end.

(** The due row as the query returns it; a [NULL] address fails the conversion. *)
Definition select_due (now : Z) (d : Db) : result unit (option DueRow * Db) :=
  match first_by (fun a b => lex_le (due_key a) (due_key b)) (List.filter (due now) (outbox d)) with
  | None => Ok (None, d)
  | Some m =>
      match row_address d m with
      | Some a =>
          Ok (Some {| due_id := m_id m; due_kind := m_kind m; due_address := a;
                      due_subject := m_subject m; due_body := m_body m;
                      due_priority := m_priority m; due_attempts := m_attempts m |}, d)
      | None => Err tt
      end
  end.

Definition min_next (l : list Mail) : option Z :=
  match List.filter (fun m => bool_decide (m_outcome m = None)) l with
  | [] => None
  | m :: l => Some (fold_left (fun a b => Z.min a (m_next_attempt_at b)) l (m_next_attempt_at m))
  end.

(** [pick]. *)
Definition pick (kinds : list MailKind) (now : Z) : Tx SqlError Pick :=
  _ ← give_up_expired kinds now;
  _ ← execute (change_outbox (delete_where (fun m => m_placeholder m && due now m)));
  row ← stmt (select_due now);
  match row with
  | Some row => mret (Due row)
  | None => next ← query (fun d => min_next (outbox d)); mret (Idle next)
  end.

(** ** Recording *)

Inductive FailureClass :=
| Connection | Tls | Protocol | Authentication | Rejected | Temporary | Timeout | Build | Panic.

Record Failure := { class : FailureClass; code : option Z }.

Inductive Outcome := Sent | Failed (f : Failure).

(** [record]. *)
Definition record (kinds : list MailKind) (id : Z) (o : Outcome) (ended_at : Z)
  : Tx SqlError unit :=
  row ← query (find_unsent id);
  match row with
  | None => mret tt
  | Some m =>
      let attempts := m_attempts m + 1 in
      match o with
      | Sent =>
          if m_token m then delete_mail id
          else execute (change_outbox (update_where (fun m => m_id m =? id)
                                         (set_outcome MailSent attempts)))
      | Failed _ =>
          match next_attempt attempts ended_at (deadline (m_queued_at m) (m_expires_at m)) with
          | Some next =>
              execute (change_outbox (update_where (fun m => m_id m =? id)
                                        (set_attempts attempts next)))
          | None =>
              _ ← execute (change_outbox (update_where (fun m => m_id m =? id)
                             (fun m => set_attempts attempts (m_next_attempt_at m) m)));
              give_up_row kinds id
          end
      end
  end.

(** ** The worker *)

(** How the task of one delivery attempt ended. *)
Inductive TaskEnd := Finished (r : result Failure unit) | Panicked | TimedOut.

(** The outcome [attempt] records; [built] is whether the message could be built. *)
Definition attempt_outcome (built : bool) (e : TaskEnd) : Outcome :=
  match e with
  | Finished r =>
      if built then match r with Ok _ => Sent | Err f => Failed f end
      else Failed {| class := Build; code := None |}
  | Panicked => Failed {| class := Panic; code := None |}
  | TimedOut => Failed {| class := Timeout; code := None |}
  end.

(** One round of [Worker::run] with a due row: pick, deliver, record. *)
Definition worker_round (kinds : list MailKind) (deliver : DueRow -> Outcome)
  (now ended_at : Z) : Tx SqlError Pick :=
  p ← write (pick kinds now);
  match p with
  | Due row => _ ← write (record kinds (due_id row) (deliver row) ended_at); mret p
  | Idle _ => mret p
  end.

(** The pause after an idle round, in seconds; [None] waits for a wake-up only. *)
Definition idle_wait (next : option Z) (now : Z) : option Z :=
  (fun t => Z.max 0 (t - now)) <$> next.

(** ** The account mails *)

Record MailText := { text_subject : str; text_body : str }.

Definition NL : str := [10].

Definition reset_link (origin : str) (now : Z) (link : str) : MailText :=
  {| text_subject := lit "Reset your Kohaku password";
     text_body :=
       lit "Someone asked at " ++ format_utc_minute now
       ++ lit " to reset the password of your Kohaku account at " ++ origin ++ lit "." ++ NL
       ++ NL
       ++ lit "To choose a new password, open this link within one hour. It works once:" ++ NL
       ++ NL ++ link ++ NL ++ NL
       ++ lit "If you did not ask for this, ignore this mail: your password stays unchanged."
       ++ NL |}.

Definition lockout (origin : str) (now : Z) : MailText :=
  {| text_subject := lit "Kohaku sign-in locked for 15 minutes";
     text_body :=
       lit "Your Kohaku account at " ++ origin ++ lit " was locked for 15 minutes at "
       ++ format_utc_minute now ++ lit " after 10 failed" ++ NL
       ++ lit "sign-ins from browsers that have not signed in to it before." ++ NL ++ NL
       ++ lit "Browsers you signed in with before can still sign in. If the attempts were not" ++ NL
       ++ lit "yours, someone may be guessing your password. You get this mail at most once a day."
       ++ NL |}.

Definition password_changed (origin : str) (now : Z) : MailText :=
  {| text_subject := lit "Your Kohaku password was changed";
     text_body :=
       lit "The password of your Kohaku account at " ++ origin ++ lit " was changed at "
       ++ format_utc_minute now ++ lit "." ++ NL
       ++ lit "Every session of the account was signed out." ++ NL ++ NL
       ++ lit "If you did not change it, tell the operator of this Kohaku instance at once."
       ++ NL |}.

(** ** Lemmas: ordering *)

Lemma first_by_least {A} (le : A -> A -> bool) l x :
  (forall a, le a a = true) -> (forall a b, le a b = false -> le b a = true) ->
  (forall a b c, le a b = true -> le b c = true -> le a c = true) ->
  first_by le l = Some x -> x ∈ l /\ Forall (fun y => le x y = true) l.
Proof.
  intros Hr Ht Htr. destruct l as [|y l]; [done|]. cbn. intros [= <-].
  revert y. induction l as [|z l IH]; intros y; cbn.
  - split; [set_solver|]. by repeat constructor.
  - destruct (IH (if le y z then y else z)) as [Hin Hf]. rewrite Forall_cons in Hf.
    destruct Hf as [Hh Hf]. split.
    + destruct (le y z); set_solver.
    + rewrite !Forall_cons. destruct (le y z) eqn:E; split_and!; try done.
      * by eapply Htr.
      * eapply Htr; [exact Hh|]. by apply Ht.
Qed.

Lemma first_by_None {A} (le : A -> A -> bool) l : first_by le l = None -> l = [].
Proof. by destruct l. Qed.

(** ** Lemmas: giving up *)

Lemma expire_reset_outbox ue id w x w' :
  expire_reset_token ue id w = (Ok x, w') -> outbox (db w') = outbox (db w) /\
  tokens (db w') = update_where (unused_reset_of (row_account (db w) id)) (use_token ue)
                     (tokens (db w)).
Proof. unfold expire_reset_token. intros H. by apply execute_Ok in H as ->. Qed.

(** The give-up action of any kind leaves the outbox alone. *)
Lemma give_up_action_outbox ue name (id : Z) w x w' :
  (match (k ← find_kind (KINDS ue) name; k_give_up k) with
   | Some action => action id | None => mret tt end : Tx SqlError unit) w = (Ok x, w') ->
  outbox (db w') = outbox (db w).
Proof.
  destruct (find_kind (KINDS ue) name) as [k|] eqn:Ek; cbn.
  - destruct (k_give_up k) as [action|] eqn:Ea.
    + apply find_first_Some in Ek as [Hk _]. unfold KINDS in Hk.
      rewrite !elem_of_cons, elem_of_nil in Hk.
      destruct Hk as [->|[->|[->|[]]]]; cbn in Ea; try discriminate. injection Ea as <-.
      intros H. by apply expire_reset_outbox in H as [? _].
    + by intros [= <- <-].
  - by intros [= <- <-].
Qed.

(** What is still unsent after giving a row up was there before and is another row. *)
Lemma give_up_unsent ue id w x w' :
  give_up_row (KINDS ue) id w = (Ok x, w') ->
  forall m, m ∈ outbox (db w') -> m_outcome m = None -> m ∈ outbox (db w) /\ m_id m <> id.
Proof.
  unfold give_up_row. intros H m Hm Ho. tx_inv. subst x0. cbn [db with_db] in H.
  destruct (find_unsent id (db w)) as [r|] eqn:Ef.
  - apply Tx_bind_Ok in H as (y & w1 & Ha & H). apply give_up_action_outbox in Ha. cbn in Ha.
    destruct (m_token r); unfold delete_mail in H; apply execute_Ok in H as ->; cbn in Hm;
      rewrite Ha in Hm.
    + apply elem_of_delete_where in Hm as [Hm Hid]. split; [done|]. by propify.
    + apply elem_of_update_where in Hm as (y' & Hy & ->). unfold unsent in *.
      destruct (m_id y' =? id) eqn:Eid; cbn in *; [|split; [done|by propify]].
      destruct (bool_decide (m_outcome y' = None)) eqn:Eo; [done|].
      by rewrite bool_decide_eq_false in Eo.
  - tx_inv. subst. cbn in Hm. split; [done|]. unfold find_unsent in Ef. apply find_first_None in Ef.
    rewrite Forall_forall in Ef. specialize (Ef m Hm). unfold unsent in Ef.
    rewrite bool_decide_eq_true_2, andb_true_r in Ef by done. by propify.
Qed.

Lemma give_up_all_unsent ue ids w x w' :
  give_up_all (KINDS ue) ids w = (Ok x, w') ->
  forall m, m ∈ outbox (db w') -> m_outcome m = None -> m ∈ outbox (db w) /\ m_id m ∉ ids.
Proof.
  revert w. induction ids as [|id ids IH]; cbn [give_up_all]; intros w H m Hm Ho.
  - tx_inv. subst. split; [done|]. apply not_elem_of_nil.
  - apply Tx_bind_Ok in H as (y & w1 & Hg & H).
    destruct (IH _ H m Hm Ho) as [Hm1 Hi]. destruct (give_up_unsent _ _ _ _ _ Hg m Hm1 Ho).
    split; [done|]. by apply not_elem_of_cons.
Qed.

Lemma give_up_expired_unsent ue now w n w' :
  give_up_expired (KINDS ue) now w = (Ok n, w') ->
  forall m, m ∈ outbox (db w') -> m_outcome m = None ->
    m ∈ outbox (db w) /\ now < deadline (m_queued_at m) (m_expires_at m).
Proof.
  unfold give_up_expired. intros H m Hm Ho. tx_inv. subst.
  destruct (give_up_all_unsent _ _ _ _ _ Hx0 m Hm Ho) as [Hin Hids]. cbn in Hin, Hids.
  split; [done|]. apply Z.lt_nge. intros Hle. apply Hids, list_elem_of_fmap. exists m. split; [done|].
  apply list_elem_of_In, filter_In. split; [by apply list_elem_of_In|].
  unfold expired, deadline in *. rewrite bool_decide_eq_true_2 by done. cbn. lia.
Qed.

(** ** The outbox invariant *)

(** A row bearing a token never keeps an outcome: it goes when sent or given up. Ids are
    never used twice. *)
Definition outbox_inv (d : Db) : Prop :=
  (forall m, m ∈ outbox d -> m_token m = true -> m_outcome m = None) /\
  (forall m m', m ∈ outbox d -> m' ∈ outbox d -> m_id m = m_id m' -> m = m') /\
  (forall m, m ∈ outbox d -> m_id m <= outbox_seq d).

Lemma outbox_inv_delete p d : outbox_inv d -> outbox_inv (change_outbox (delete_where p) d).
Proof.
  intros (Ht & Hd & Hs). split_and!; cbn.
  - intros m [Hm _]%elem_of_delete_where. by apply Ht.
  - intros m m' [Hm _]%elem_of_delete_where [Hm' _]%elem_of_delete_where. by apply Hd.
  - intros m [Hm _]%elem_of_delete_where. by apply Hs.
Qed.

Lemma outbox_inv_update p f d :
  (forall m, m_id (f m) = m_id m) ->
  (forall m, m ∈ outbox d -> p m = true -> m_token (f m) = true -> m_outcome (f m) = None) ->
  outbox_inv d -> outbox_inv (change_outbox (update_where p f) d).
Proof.
  intros Hid Hf (Ht & Hd & Hs). split_and!; cbn.
  - intros m (x & Hx & ->)%elem_of_update_where. destruct (p x) eqn:Hp; [by apply Hf|by apply Ht].
  - intros m m' (x & Hx & ->)%elem_of_update_where (y & Hy & ->)%elem_of_update_where He.
    assert (x = y) as ->; [|done]. apply Hd; [done|done|].
    by destruct (p x), (p y); rewrite ?Hid in He.
  - intros m (x & Hx & ->)%elem_of_update_where. specialize (Hs x Hx).
    destruct (p x); by rewrite ?Hid.
Qed.

Lemma outbox_inv_same d d' :
  outbox d' = outbox d -> outbox_seq d' = outbox_seq d -> outbox_inv d -> outbox_inv d'.
Proof. unfold outbox_inv. by intros -> ->. Qed.

Lemma give_up_action_seq ue name (id : Z) w x w' :
  (match (k ← find_kind (KINDS ue) name; k_give_up k) with
   | Some action => action id | None => mret tt end : Tx SqlError unit) w = (Ok x, w') ->
  outbox_seq (db w') = outbox_seq (db w).
Proof.
  destruct (find_kind (KINDS ue) name) as [k|] eqn:Ek; cbn.
  - destruct (k_give_up k) as [action|] eqn:Ea.
    + apply find_first_Some in Ek as [Hk _]. unfold KINDS in Hk.
      rewrite !elem_of_cons, elem_of_nil in Hk.
      destruct Hk as [->|[->|[->|[]]]]; cbn in Ea; try discriminate. injection Ea as <-.
      intros H. by apply execute_Ok in H as ->.
    + by intros [= <- <-].
  - by intros [= <- <-].
Qed.

Lemma find_unsent_elem id d m : find_unsent id d = Some m -> m ∈ outbox d /\ m_id m = id.
Proof.
  intros H. apply find_first_Some in H as [Hm Hu]. unfold unsent in Hu. propify. intuition.
Qed.

Lemma give_up_inv ue id : preserves outbox_inv (give_up_row (KINDS ue) id).
Proof.
  intros w a w' H Hi. unfold give_up_row in H. tx_inv. subst x. cbn [db with_db] in H.
  destruct (find_unsent id (db w)) as [m|] eqn:Ef; [|tx_inv; by subst].
  apply find_unsent_elem in Ef as [Hm Hid].
  apply Tx_bind_Ok in H as (y & w1 & Ha & H).
  pose proof (give_up_action_outbox _ _ _ _ _ _ Ha) as Ho.
  apply give_up_action_seq in Ha as Hq. cbn in Ho, Hq.
  pose proof (outbox_inv_same _ _ Ho Hq Hi) as Hi1.
  destruct (m_token m) eqn:Et; unfold delete_mail in H; apply execute_Ok in H as ->; cbn [db with_db].
  - by apply outbox_inv_delete.
  - apply outbox_inv_update; [done| |done]. intros x Hx Hp Htok. exfalso.
    unfold unsent in Hp. propify. destruct Hp as [Hp _]. rewrite Ho in Hx.
    destruct Hi as (_ & Hd & _). rewrite (Hd x m Hx Hm) in Htok by congruence.
    cbn in Htok. congruence.
Qed.

Lemma give_up_all_inv ue ids : preserves outbox_inv (give_up_all (KINDS ue) ids).
Proof.
  induction ids as [|id ids IH]; cbn [give_up_all]; [apply preserves_mret|].
  apply preserves_bind; [apply give_up_inv|done].
Qed.

Lemma pick_inv ue now : preserves outbox_inv (pick (KINDS ue) now).
Proof.
  apply preserves_bind; [|intros _; apply preserves_bind; [|intros _; apply preserves_bind]].
  - apply preserves_bind; [apply preserves_query|]. intros ids.
    apply preserves_bind; [apply give_up_all_inv|]. intros _. apply preserves_mret.
  - apply preserves_execute. intros d. apply outbox_inv_delete.
  - apply preserves_stmt. intros d a d' Hd. unfold select_due.
    destruct (first_by _ _); [|by intros [= _ <-]]. destruct (row_address _ _); [|done].
    by intros [= _ <-].
  - intros [r|]; [apply preserves_mret|]. apply preserves_bind; [apply preserves_query|].
    intros n. apply preserves_mret.
Qed.

Lemma record_inv ue id o t : preserves outbox_inv (record (KINDS ue) id o t).
Proof.
  intros w a w' H Hi. unfold record in H. tx_inv. subst x. cbn [db with_db] in H.
  destruct (find_unsent id (db w)) as [m|] eqn:Ef; [|tx_inv; by subst].
  apply find_unsent_elem in Ef as [Hm Hid]. destruct o as [|fl].
  - destruct (m_token m) eqn:Et; unfold delete_mail in H; apply execute_Ok in H as ->; cbn [db with_db].
    + by apply outbox_inv_delete.
    + apply outbox_inv_update; [done| |done]. intros x Hx Hp Htok. exfalso. propify.
      destruct Hi as (_ & Hd & _). rewrite (Hd x m Hx Hm) in Htok by congruence.
      cbn in Htok. congruence.
  - destruct (next_attempt _ _ _) as [n|].
    + apply execute_Ok in H as ->. apply outbox_inv_update; [done| |done].
      intros x Hx _ Htok. destruct Hi as (Ht & _). cbn in *. by apply Ht.
    + apply Tx_bind_Ok in H as (u & w1 & H1 & H2). apply execute_Ok in H1 as ->.
      eapply give_up_inv; [exact H2|]. apply outbox_inv_update; [done| |done].
      intros x Hx _ Htok. destruct Hi as (Ht & _). cbn in *. by apply Ht.
Qed.

Lemma insert_mail_Ok mail now d id d' :
  insert_mail mail now d = Ok (id, d') ->
  id = outbox_seq d + 1 /\ exists row, d' = set_outbox (fun l => l ++ [row]) id d /\
    m_id row = id /\ m_outcome row = None /\ m_recipient row = n_recipient mail /\
    m_kind row = k_name (n_kind mail) /\ m_token row = k_token (n_kind mail) /\
    m_queued_at row = now /\ m_expires_at row = now + k_lifetime (n_kind mail) /\
    m_body row = n_body mail /\ m_placeholder row = n_placeholder mail /\ m_attempts row = 0 /\
    m_next_attempt_at row = now.
Proof.
  unfold insert_mail. destruct (n_recipient mail) as [a|u] eqn:Er; [|destruct (has_user d u); [|done]];
    intros [= <- <-]; (split; [done|]); eexists; split_and!; try done.
Qed.

(** A queued mail is one row more; nothing else of the database changes. *)
Lemma enqueue_Ok `{Crates} {E} `{FromSql E} `{FromRecipient E} mail now w id w' :
  enqueue (E := E) mail now w = (Ok id, w') ->
  insert_mail mail now (db w) = Ok (id, db w') /\ statements w' = statements w + 1.
Proof.
  unfold enqueue. intros He. apply Tx_bind_Ok in He as (x & w1 & Hv & He).
  assert (w1 = w) as ->.
  { destruct (n_recipient mail); [destruct (validate_recipient _)|]; tx_inv; done. }
  apply Tx_bind_Ok in He as (i & w2 & Hi & He). apply stmt_Ok in Hi as (d & Hi & ->).
  apply Tx_bind_Ok in He as (y & w3 & Hw & He). unfold wake in Hw. tx_inv. by simplify_eq.
Qed.

Lemma enqueue_inv `{Crates} {E} `{FromSql E} `{FromRecipient E} mail now :
  preserves outbox_inv (enqueue (E := E) mail now).
Proof.
  unfold enqueue. apply preserves_bind.
  { destruct (n_recipient mail); [|apply preserves_mret]. destruct (validate_recipient _);
      [apply preserves_mret|by intros w x w']. }
  intros _. apply preserves_bind; [|intros id; apply preserves_bind; [by intros w a w' [= <- <-]|];
    intros _; apply preserves_mret].
  apply preserves_stmt. intros d id d' (Ht & Hd & Hs) Hi.
  apply insert_mail_Ok in Hi as (Hid & row & -> & Hrow & Ho & _). split_and!; cbn.
  - intros m [Hm|[= ->]%list_elem_of_singleton]%elem_of_app; [by apply Ht|done].
  - intros m m' [Hm|[= ->]%list_elem_of_singleton]%elem_of_app
      [Hm'|[= ->]%list_elem_of_singleton]%elem_of_app He; [by apply Hd| | |done].
    + specialize (Hs m Hm). lia.
    + specialize (Hs m' Hm'). lia.
  - intros m [Hm|[= ->]%list_elem_of_singleton]%elem_of_app; [specialize (Hs m Hm)|]; lia.
Qed.

(** [next_attempt] waits at least a minute and stays before the deadline. *)
Lemma next_attempt_bounds k t dl n :
  next_attempt k t dl = Some n -> t + 60 <= n < dl.
Proof.
  unfold next_attempt. rewrite then_some_Some, Z.ltb_lt. intros [Hlt <-]. split; [|done].
  change (Z.of_nat (length RETRY_DELAYS) - 1) with 3.
  assert (Hi : 0 <= Z.min (Z.max 0 (k - 1)) 3 <= 3) by lia.
  set (i := Z.min (Z.max 0 (k - 1)) 3) in *.
  assert (i = 0 \/ i = 1 \/ i = 2 \/ i = 3) as [Hv|[Hv|[Hv|Hv]]] by lia; rewrite Hv.
  - change (nth (Z.to_nat 0) RETRY_DELAYS 0) with 60. lia.
  - change (nth (Z.to_nat 1) RETRY_DELAYS 0) with 300. lia.
  - change (nth (Z.to_nat 2) RETRY_DELAYS 0) with 1800. lia.
  - change (nth (Z.to_nat 3) RETRY_DELAYS 0) with 7200. lia.
Qed.

Lemma next_attempt_late k t dl n : 4 <= k -> next_attempt k t dl = Some n -> n = t + 7200.
Proof.
  intros Hk. unfold next_attempt. rewrite then_some_Some. intros [_ <-].
  change (Z.of_nat (length RETRY_DELAYS) - 1) with 3.
  replace (Z.min (Z.max 0 (k - 1)) 3) with 3 by lia. reflexivity.
Qed.

(** The attempts on one row: the [k]-th ended at [t]. *)
Inductive attempted (queued expires : Z) : Z -> Z -> Prop :=
| first_attempt t : queued <= t -> attempted queued expires 1 t
| another_attempt k t n t' :
    attempted queued expires k t ->
    next_attempt k t (deadline queued expires) = Some n -> n <= t' ->
    attempted queued expires (k + 1) t'.

(** When the [k]-th attempt can end at the earliest. *)
Definition earliest (k : Z) : Z :=
  if k <=? 1 then 0 else if k =? 2 then 60 else if k =? 3 then 360 else 2160 + (k - 4) * 7200.

Lemma earliest_late k : 4 <= k -> earliest k = 2160 + (k - 4) * 7200.
Proof.
  intros Hk. unfold earliest. destruct (Z.leb_spec k 1); [lia|].
  destruct (Z.eqb_spec k 2); [lia|]. destruct (Z.eqb_spec k 3); [lia|]. done.
Qed.

Lemma attempted_earliest queued expires k t :
  attempted queued expires k t -> 1 <= k /\ queued + earliest k <= t.
Proof.
  induction 1 as [t Ht|k t n t' _ [Hk IH] Hn Hle]; [split; [lia|]; unfold earliest; cbn; lia|].
  split; [lia|]. destruct (Z.le_gt_cases 4 k) as [H4|H4].
  - apply next_attempt_late in Hn; [|done]. rewrite earliest_late in * by lia. lia.
  - unfold next_attempt in Hn. apply then_some_Some in Hn as [_ <-].
    assert (k = 1 \/ k = 2 \/ k = 3) as [-> |[-> | ->]] by lia.
    + change (t + 60 <= t') in Hle. change (earliest (1 + 1)) with 60. cbn in IH. lia.
    + change (t + 300 <= t') in Hle. change (earliest (2 + 1)) with 360. cbn in IH. lia.
    + change (t + 1800 <= t') in Hle. change (earliest (3 + 1)) with 2160. cbn in IH. lia.
Qed.

(** ** Theorems *)

(** The worker attempts only rows it should, in the promised order: the row picked is
    unsent, due, before its deadline and no placeholder, and no other due row comes
    before it (security first, then next attempt, then queue time); when idle, nothing
    is due. *)
Theorem pick_spec (ue now : Z) (w w' : World) (p : Pick) :
  pick (KINDS ue) now w = (Ok p, w') ->
  match p with
  | Due r =>
      exists m, m ∈ outbox (db w') /\ m_id m = due_id r /\ row_address (db w') m = Some (due_address r)
        /\ m_outcome m = None /\ m_next_attempt_at m <= now /\ m_placeholder m = false
        /\ now < deadline (m_queued_at m) (m_expires_at m)
        /\ forall m', m' ∈ outbox (db w') -> due now m' = true ->
                      lex_le (due_key m) (due_key m') = true
  | Idle _ => forall m, m ∈ outbox (db w') -> due now m = false
  end.
Proof.
  unfold pick. intros H. apply Tx_bind_Ok in H as (n & w1 & Hg & H).
  apply Tx_bind_Ok in H as (u & w2 & Hd & H). apply execute_Ok in Hd as ->.
  apply Tx_bind_Ok in H as (row & w3 & Hs & H). apply stmt_Ok in Hs as (d & Hs & ->).
  unfold select_due in Hs. cbn [db with_db] in Hs.
  set (l := outbox (change_outbox _ (db w1))) in Hs.
  assert (Hl : l = delete_where (fun m => m_placeholder m && due now m) (outbox (db w1))) by done.
  destruct (first_by _ (List.filter (due now) l)) as [m|] eqn:Ef.
  - destruct (row_address _ m) as [a|] eqn:Ea; [|done]. injection Hs as <- <-. tx_inv. subst.
    cbn [db with_db due_id due_address] in *.
    apply first_by_least in Ef as [Hm Hf].
    2: intros; apply lex_le_refl. 2: intros ? ?; apply lex_le_total. 2: intros ? ? ?; apply lex_le_trans.
    apply list_elem_of_In, filter_In in Hm as [Hm Hdue]. apply list_elem_of_In in Hm.
    assert (Hm1 := Hm). apply elem_of_delete_where in Hm1 as [Hm1 Hp]. rewrite Hdue, andb_true_r in Hp.
    unfold due in Hdue. rewrite andb_true_iff, bool_decide_eq_true, Z.leb_le in Hdue.
    destruct Hdue as [Ho Hn]. exists m. split_and!; try done.
    + by apply (give_up_expired_unsent _ _ _ _ _ Hg m).
    + intros m' Hm' Hd'. rewrite Forall_forall in Hf. apply Hf.
      apply list_elem_of_In, filter_In. split; [by apply list_elem_of_In|done].
  - injection Hs as <- <-. tx_inv. subst. cbn [db with_db]. apply first_by_None in Ef.
    intros m Hm. destruct (due now m) eqn:Edue; [|done].
    assert (Hin : In m (List.filter (due now) l)) by (apply filter_In; split; [by apply list_elem_of_In|done]).
    by rewrite Ef in Hin.
Qed.

(** Retries end: a mail is attempted at most 15 times, whatever its lifetime, and each
    retry starts before the deadline. *)
Theorem attempts_are_bounded (queued expires k t : Z) :
  attempted queued expires k t -> k <= 15.
Proof.
  intros H. destruct H as [t Ht|k t n t' Hk Hn Hle]; [lia|].
  pose proof (attempted_earliest _ _ _ _ Hk) as [H1 He].
  destruct (Z.le_gt_cases k 14); [lia|]. exfalso.
  apply next_attempt_bounds in Hn as Hb. apply next_attempt_late in Hn; [|lia].
  rewrite earliest_late in He by lia. unfold deadline, MAX_AGE in *. lia.
Qed.

Lemma attempts_are_bounded_witness : attempted 0 86400 2 61 /\ 2 <= 15.
Proof.
  assert (H : attempted 0 86400 2 61).
  { apply (another_attempt 0 86400 1 1 61 61); [apply first_attempt; lia|reflexivity|lia]. }
  split; [exact H|]. exact (attempts_are_bounded 0 86400 2 61 H).
Defined.

(** Giving up a reset mail kills its link: the row is gone, and the account it was for
    has no unused reset token left. *)
Theorem give_up_kills_reset_link (ue id u : Z) (w w' : World) (m : Mail) :
  give_up_row (KINDS ue) id w = (Ok tt, w') ->
  find_unsent id (db w) = Some m -> find_first (fun m => m_id m =? id) (outbox (db w)) = Some m ->
  m_kind m = k_name (RESET_LINK ue) -> m_token m = true -> m_recipient m = ToUser u ->
  (forall t, t ∈ tokens (db w') -> unused_reset_of (Some u) t = false) /\
  (forall m', m' ∈ outbox (db w') -> m_id m' <> id).
Proof.
  unfold give_up_row. intros H Hf Hr Hk Ht Hu. tx_inv. subst x. rewrite Hf in H.
  apply Tx_bind_Ok in H as (y & w1 & Ha & H). rewrite Ht in H. unfold delete_mail in H.
  apply execute_Ok in H as ->. rewrite Hk in Ha. cbn in Ha.
  apply expire_reset_outbox in Ha as [Ho Htk]. cbn in Ho, Htk. unfold row_account in Htk. cbn in Htk.
  rewrite Hr, Hu in Htk. cbn [db with_db]. split.
  - intros t Hin. change (t ∈ tokens (db w1)) in Hin. rewrite Htk in Hin.
    apply elem_of_update_where in Hin as (x & _ & ->). destruct (unused_reset_of (Some u) x) eqn:E; [|done].
    unfold unused_reset_of, use_token. cbn. by rewrite andb_false_r.
  - intros m' Hin. apply elem_of_delete_where in Hin as [_ Hid]. by propify.
Qed.

(** The outbox stays sound: whatever is queued, picked, delivered or given up, a row that
    bears a token never keeps an outcome (its body goes with it), and a row id is never
    used twice, so a late outcome cannot hit another mail. *)
Theorem outbox_stays_sound `{Crates} (ue now t id : Z) (o : Outcome) (mail : NewMail) (w : World) :
  outbox_inv (db (interfere w)) ->
  outbox_inv (db (write (E := SqlError) (pick (KINDS ue) now) w).2) /\
  outbox_inv (db (write (record (KINDS ue) id o t) w).2) /\
  outbox_inv (db (write (give_up_expired (KINDS ue) now) w).2) /\
  outbox_inv (db (write (E := EnqueueError) (enqueue mail now) w).2).
Proof.
  intros Hi. split_and!; apply preserves_write; try done; try apply enqueue_inv.
  - apply pick_inv.
  - apply record_inv.
  - apply preserves_bind; [apply preserves_query|]. intros ids.
    apply preserves_bind; [apply give_up_all_inv|]. intros _. apply preserves_mret.
Qed.

(** ** Witnesses *)

Definition sample_user : User :=
  {| u_id := 7; u_email := lit "m@example.net"; u_password_hash := Some (lit "hash");
     u_role := Maintainer; u_disabled := false; u_totp_nonce := None; u_totp_last_step := None;
     u_failed_logins := 0; u_locked_until := None; u_device_failures := 0;
     u_device_window_start := None; u_lockout_mailed_at := None; u_created_at := 0 |}.

Definition sample_mail (id : Z) (p : Priority) (next : Z) : Mail :=
  {| m_id := id; m_kind := lit "account_reset_link"; m_recipient := ToUser 7;
     m_subject := lit "s"; m_body := lit "b"; m_priority := p; m_token := true;
     m_placeholder := false; m_attempts := 0; m_next_attempt_at := next; m_queued_at := 0;
     m_expires_at := 3600; m_outcome := None |}.

Definition sample_token : Token :=
  {| t_id := 1; t_purpose := ResetToken; t_token_hash := []; t_user_id := Some 7; t_email := None;
     t_totp_nonce := None; t_expires_at := 3600; t_used_at := None |}.

Definition sample_db : Db :=
  set_tokens (fun _ => [sample_token]) 1
    (set_outbox (fun _ => [sample_mail 1 Normal 3; sample_mail 2 Security 4]) 2
       (set_users (fun _ => [sample_user]) empty_db)).

Lemma pick_spec_witness :
  exists r w', pick (KINDS 5) 5 (quiet sample_db []) = (Ok (Due r), w') /\ due_id r = 2 /\
    exists m, m ∈ outbox (db w') /\ m_id m = due_id r /\ row_address (db w') m = Some (due_address r)
      /\ m_outcome m = None /\ m_next_attempt_at m <= 5 /\ m_placeholder m = false
      /\ 5 < deadline (m_queued_at m) (m_expires_at m)
      /\ forall m', m' ∈ outbox (db w') -> due 5 m' = true ->
                    lex_le (due_key m) (due_key m') = true.
Proof.
  eexists _, _. split; [vm_compute; reflexivity|]. split; [reflexivity|].
  refine (pick_spec 5 5 (quiet sample_db []) _ (Due _) _). vm_compute. reflexivity.
Defined.

Lemma give_up_kills_reset_link_witness :
  exists w', give_up_row (KINDS 5) 1 (quiet sample_db []) = (Ok tt, w') /\
    (forall t, t ∈ tokens (db w') -> unused_reset_of (Some 7) t = false) /\
    (forall m', m' ∈ outbox (db w') -> m_id m' <> 1).
Proof.
  exists (give_up_row (KINDS 5) 1 (quiet sample_db [])).2. split; [vm_compute; reflexivity|].
  apply (give_up_kills_reset_link 5 1 7 (quiet sample_db []) _ (sample_mail 1 Normal 3));
    vm_compute; reflexivity.
Defined.
