(* ===== verification/Auth.v ===== *)
(** * Sessions, devices, passwords and the credential check
    (src/src/auth/session.rs, credentials.rs, password.rs, recovery.rs, reset.rs)

    Waiting for a hashing permit is the environment's choice ([permit]); header values
    and form fields are inputs of a request. *)

From S2P Require Import Prelude Str Codec Keys Totp Text Time Http Urls Db Outbox.

Inductive AuthError := AuthDatabase | AuthRandom | AuthRecipient.

#[global] Instance AuthError_from_sql : FromSql AuthError := AuthDatabase.
#[global] Instance AuthError_from_random : FromRandom AuthError := AuthRandom.
#[global] Instance AuthError_from_recipient : FromRecipient AuthError := AuthRecipient.

(** ** Passwords and emails (password.rs) *)

Definition PASSWORD_MIN : Z := 12.
Definition PASSWORD_MAX : Z := 1024.

Definition normalize_email (email : str) : str :=
  to_ascii_lowercase (trim_matches is_ascii_whitespace email).

Inductive PasswordRule := TooShort | TooLong.

Definition check_password_rule (password : str) : result PasswordRule unit :=
  let n := char_count password in
  if n <? PASSWORD_MIN then Err TooShort else if PASSWORD_MAX <? n then Err TooLong else Ok tt.

(** ** Sessions (session.rs) *)

Definition IDLE_SECONDS : Z := 12 * 60 * 60.
Definition ABSOLUTE_SECONDS : Z := 7 * 24 * 60 * 60.
Definition TOUCH_SECONDS : Z := 5 * 60.
Definition DEVICE_SECONDS : Z := 365 * 24 * 60 * 60.
Definition DEVICES_KEPT : nat := 10.

Definition LOGIN_PATH : str := lit "/admin/login".

Definition SESSION_COOKIE : str := lit "__Host-kohaku_session".
Definition DEVICE_COOKIE : str := lit "__Host-kohaku_device".

Record SessionUser := {
  session_id : Z; user_id : Z; role : Role; email : str; totp_enrolled : bool; csrf : bytes }.

Section Auth.
Context `{Crates}.

(** The [key=value] pairs of the cookie headers, in order. *)
Definition cookie_pairs (headers : list bytes) : list (str * str) :=
  concat (map (fun value =>
    match header_to_str value with
    | Some text => omap (fun pair => split_once 61 (trim_matches (Z.eqb 32) pair)) (split 59 text)
    | None => []
    end) headers).

(** [cookie_token]: the value of the only pair of that name, if it looks like a token. *)
Definition cookie_token (headers : list bytes) (name : str) : option str :=
  match filter (fun kv => kv.1 = name) (cookie_pairs headers) with
  | [(_, value)] => then_some (is_token_text value) value
  | _ => None
  end.

Definition device_hash (headers : list bytes) : option bytes :=
  (fun token => sha256 (utf8 token)) <$> cookie_token headers DEVICE_COOKIE.

Definition find_user (d : Db) (id : Z) : option User := find_first (fun u => u_id u =? id) (users d).

(** A session row that is valid at [now] for its account [u]. *)
Definition session_live (now : Z) (s : Session) (u : User) : bool :=
  bool_decide (u_password_hash u <> None) && negb (u_disabled u)
  && (now - IDLE_SECONDS <? s_last_seen s) && (now - ABSOLUTE_SECONDS <? s_created_at s).

(** The joined row of [current]'s query. *)
Definition select_session (hash : bytes) (now : Z) (d : Db) : option (SessionUser * Z) :=
  match find_first (fun s => zlist_eqb (s_token_hash s) hash
                             && is_some_and (session_live now s) (find_user d (s_user_id s)))
          (sessions d) with
  | Some s =>
      u ← find_user d (s_user_id s);
      Some ({| session_id := s_id s; user_id := s_user_id s; role := u_role u; email := u_email u;
               totp_enrolled := bool_decide (u_totp_nonce u <> None); csrf := s_csrf_token s |},
            s_last_seen s)
  | None => None
  end.

Definition touch_session (id now : Z) (s : Session) : Session :=
  {| s_id := s_id s; s_token_hash := s_token_hash s; s_user_id := s_user_id s;
     s_csrf_token := s_csrf_token s; s_created_at := s_created_at s; s_last_seen := now;
     s_pending_totp_nonce := s_pending_totp_nonce s |}.

(** [session::current]. *)
Definition current (headers : list bytes) (now : Z) : Tx AuthError (option SessionUser) :=
  match cookie_token headers SESSION_COOKIE with
  | None => mret None
  | Some token =>
      found ← read (query (select_session (sha256 (utf8 token)) now));
      match found with
      | None => mret None
      | Some (user, last_seen) =>
          _ ← (if TOUCH_SECONDS <=? now - last_seen then
                 write (execute (set_sessions (update_where
                   (fun s => (s_id s =? session_id user) && (s_last_seen s <? now))
                   (touch_session (session_id user) now))))
               else mret tt : Tx AuthError unit);
          mret (Some user)
      end
  end.

(** ** The session layers *)

Inductive LayerAnswer :=
| ToLogin                       (** 303 to the login page *)
| Forbidden                     (** 403 *)
| LayerError                    (** 500 *)
| NotFoundAnswer                (** 404 *)
| Proceed (user : SessionUser). (** the handler runs *)

(** [check_csrf]; [field] is the form's [csrf] value, [None] when the form is rejected. *)
Definition check_csrf (field : option str) (expected : bytes) : bool :=
  match field with
  | None => false
  | Some text =>
      if is_token_text text then
        match base64url_decode text with Some token => ct_eq token expected | None => false end
      else false
  end.

(** [session::layer]. *)
Definition layer (m : Method) (headers : list bytes) (csrf_field : option str) (now : Z)
  (w : World) : LayerAnswer * World :=
  match current headers now w with
  | (Err _, w) => (LayerError, w)
  | (Ok user, w) =>
      let safe := bool_decide (m = GET) || bool_decide (m = HEAD) in
      match user with
      | None => (if safe then ToLogin else Forbidden, w)
      | Some user =>
          if safe then (Proceed user, w)
          else if check_csrf csrf_field (csrf user) then (Proceed user, w) else (Forbidden, w)
      end
  end.

(** [session::admin_layer], inside [layer]. *)
Definition admin_layer (user : option SessionUser) : LayerAnswer :=
  match user with
  | Some user => if bool_decide (role user = Admin) then Proceed user else NotFoundAnswer
  | None => NotFoundAnswer
  end.

(** ** Cookies *)

Definition cookie (name value attributes : str) : str :=
  name ++ lit "=" ++ value ++ lit "; Secure; HttpOnly; SameSite=Strict; Path=/" ++ attributes.

Definition session_cookie (token : str) : str := cookie SESSION_COOKIE token [].

Definition device_cookie (token : str) : str :=
  cookie DEVICE_COOKIE token (lit "; Max-Age=" ++ show_unsigned DEVICE_SECONDS).

Definition expired_session_cookie : str := cookie SESSION_COOKIE [] (lit "; Max-Age=0").

(** [SessionUser::csrf_field]: what the account's forms embed. *)
Definition csrf_field (user : SessionUser) : str := base64url_encode (csrf user).

(** ** New sessions and devices *)

(** [INSERT INTO sessions]: the token hash is unique, the account a foreign key. *)
Definition insert_session (hash : bytes) (user : Z) (csrf : bytes) (now : Z) (d : Db)
  : result unit (unit * Db) :=
  if existsb (fun s => zlist_eqb (s_token_hash s) hash) (sessions d) || negb (has_user d user)
  then Err tt
  else Ok (tt, set_sessions (fun l => l ++
         [{| s_id := next_rowid s_id l; s_token_hash := hash; s_user_id := user;
             s_csrf_token := csrf; s_created_at := now; s_last_seen := now;
             s_pending_totp_nonce := None |}]) d).

(** [session::create]; the cookie value. *)
Definition create_session (user : Z) (now : Z) : Tx AuthError str :=
  '(_, text) ← draw random_token;
  csrf ← draw (random_bytes KEY_BYTES);
  _ ← stmt (insert_session (sha256 (utf8 text)) user csrf now);
  mret text.

Definition insert_device (hash : bytes) (user now : Z) (d : Db) : result unit (unit * Db) :=
  if existsb (fun v => zlist_eqb (d_token_hash v) hash) (known_devices d) || negb (has_user d user)
  then Err tt
  else Ok (tt, set_known_devices (fun l => l ++
         [{| d_id := next_rowid d_id l; d_user_id := user; d_token_hash := hash;
             d_created_at := now |}]) d).

(** Newest first: [ORDER BY created_at DESC, id DESC]. *)
Definition newer (a b : Device) : bool := lex_le [d_created_at b; d_id b] [d_created_at a; d_id a].

Definition newest_first (l : list Device) : list Device := sort_by newer l.

(** The subquery of the eviction. *)
Definition kept_devices (user : Z) (l : list Device) : list Device :=
  take DEVICES_KEPT (newest_first (List.filter (fun v => d_user_id v =? user) l)).

Definition evict_devices (user : Z) (l : list Device) : list Device :=
  delete_where (fun v => (d_user_id v =? user)
                         && negb (bool_decide (d_id v ∈ map d_id (kept_devices user l)))) l.

(** [session::add_device]; the cookie value. *)
Definition add_device (user now : Z) : Tx AuthError str :=
  '(_, text) ← draw random_token;
  _ ← stmt (insert_device (sha256 (utf8 text)) user now);
  _ ← execute (set_known_devices (evict_devices user));
  mret text.

(** [session::is_known_device]. *)
Definition is_known_device (user : Z) (hash : bytes) (now : Z) (d : Db) : bool :=
  existsb (fun v => (d_user_id v =? user) && zlist_eqb (d_token_hash v) hash
                    && (now - DEVICE_SECONDS <? d_created_at v)) (known_devices d).

(** [session::end_all]. *)
Definition end_all (user : Z) : Tx AuthError unit :=
  _ ← execute (set_sessions (delete_where (fun s => s_user_id s =? user)));
  execute (set_known_devices (delete_where (fun v => d_user_id v =? user))).

(** ** Hashing *)

Definition hash_password (password : str) : Tx AuthError str :=
  salt ← draw (random_bytes 16); mret (argon2_hash salt (utf8 password)).

Definition verify_password (password hash : str) : bool := argon2_verify (utf8 password) hash.

(** [dummy_hash]: made once per process. *)
Definition dummy_hash : Tx AuthError str :=
  known ← get_dummy;
  match known with
  | Some h => mret h
  | None =>
      password ← draw (random_bytes 32);
      h ← hash_password (base32 password);
      _ ← set_dummy h;
      mret h
  end.

(** ** Recovery codes and reset tokens *)

(** [INSERT OR IGNORE INTO recovery_codes]: how many rows, 0 for a repeated code. *)
Definition insert_code (user : Z) (hash : bytes) (d : Db) : result unit (Z * Db) :=
  if negb (has_user d user) then Err tt
  else if existsb (fun c => (r_user_id c =? user) && zlist_eqb (r_code_hash c) hash)
            (recovery_codes d) then Ok (0, d)
  else Ok (1, set_recovery_codes (fun l => l ++ [{| r_user_id := user; r_code_hash := hash |}]) d).

(** The [while] of [replace]; each round draws ten octets, so the tape bounds it. *)
Fixpoint replace_loop (fuel : nat) (user : Z) (codes : list str) : Tx AuthError (list str) :=
  if (length codes <? COUNT)%nat then
    match fuel with
    | O => fail AuthRandom
    | S fuel =>
        bs ← draw (random_bytes (LENGTH * 5 / 8));
        n ← stmt (insert_code user (sha256 (utf8 (base32 bs))));
        replace_loop fuel user (if n =? 1 then codes ++ [base32 bs] else codes)
    end
  else mret codes.

(** [recovery::replace]. *)
Definition replace_codes (user : Z) : Tx AuthError (list str) :=
  _ ← execute (set_recovery_codes (delete_where (fun c => r_user_id c =? user)));
  n ← tape_left;
  replace_loop (S n) user [].

(** [recovery::consume]. *)
Definition consume_code (user : Z) (code : str) : Tx AuthError bool :=
  let matches c := (r_user_id c =? user) && zlist_eqb (r_code_hash c) (sha256 (utf8 code)) in
  consume_one (fun d => count_where matches (recovery_codes d))
    (set_recovery_codes (delete_where matches)).

Definition reset_path (token : str) : str := lit "/admin/reset/" ++ token.

(** [INSERT INTO tokens] of a reset token. *)
Definition insert_reset_token (hash : bytes) (user now : Z) (d : Db) : result unit (unit * Db) :=
  if existsb (fun t => zlist_eqb (t_token_hash t) hash) (tokens d) || negb (has_user d user)
  then Err tt
  else
    let id := tokens_seq d + 1 in
    Ok (tt, set_tokens (fun l => l ++
         [{| t_id := id; t_purpose := ResetToken; t_token_hash := hash; t_user_id := Some user;
             t_email := None; t_totp_nonce := None; t_expires_at := now + RESET_LIFETIME;
             t_used_at := None |}]) id d).

(** [issue_reset_token]; the link. *)
Definition issue_reset_token (urls : Urls) (user now : Z) : Tx AuthError str :=
  _ ← execute (update_tokens (unused_reset_of (Some user)) (use_token now));
  '(_, token) ← draw random_token;
  _ ← stmt (insert_reset_token (sha256 (utf8 token)) user now);
  mret (token_link urls (reset_path token)).
End Auth.

(** ** Sessions *)

(** The signed-in account that a live session row stands for. *)
Definition session_user (s : Session) (u : User) : SessionUser :=
  {| session_id := s_id s; user_id := s_user_id s; role := u_role u; email := u_email u;
     totp_enrolled := bool_decide (u_totp_nonce u <> None); csrf := s_csrf_token s |}.

Lemma session_live_spec now s u :
  session_live now s u = true <->
  u_password_hash u <> None /\ u_disabled u = false /\
  now < s_last_seen s + IDLE_SECONDS /\ now < s_created_at s + ABSOLUTE_SECONDS.
Proof.
  unfold session_live. rewrite !andb_true_iff, bool_decide_eq_true, negb_true_iff, !Z.ltb_lt.
  intuition lia.
Qed.

Lemma select_session_Some hash now d user seen :
  select_session hash now d = Some (user, seen) ->
  exists s u, s ∈ sessions d /\ s_token_hash s = hash /\ find_user d (s_user_id s) = Some u /\
    session_live now s u = true /\ user = session_user s u /\ seen = s_last_seen s.
Proof.
  unfold select_session. destruct (find_first _ _) as [s|] eqn:E; [|done].
  apply find_first_Some in E as [Hs Hp]. rewrite andb_true_iff, zlist_eqb_eq in Hp.
  destruct Hp as [Hh Hl]. destruct (find_user d (s_user_id s)) as [u|] eqn:Eu; [|done]. cbn.
  intros [= <- <-]. exists s, u. done.
Qed.

Section SessionLemmas.
Context `{Crates}.

Lemma current_Some headers now w user w' :
  current headers now w = (Ok (Some user), w') ->
  exists token seen, cookie_token headers SESSION_COOKIE = Some token /\
    select_session (sha256 (utf8 token)) now (db (interfere w)) = Some (user, seen).
Proof.
  unfold current. destruct (cookie_token _ _) as [token|]; [|intros; tx_inv; discriminate].
  intros Hc. apply Tx_bind_Ok in Hc as (found & w1 & Hr & Hc). unfold read in Hr.
  apply query_Ok in Hr as [-> ->].
  destruct (select_session _ _ _) as [[u seen]|] eqn:E; [|tx_inv; discriminate].
  apply Tx_bind_Ok in Hc as (x & w2 & _ & Hc). tx_inv. simplify_eq. eauto.
Qed.

Lemma check_csrf_true field expected :
  check_csrf field expected = true ->
  exists f, field = Some f /\ base64url_decode f = Some expected.
Proof.
  unfold check_csrf. destruct field as [f|]; [|done]. destruct (is_token_text f); [|done].
  destruct (base64url_decode f) as [t|] eqn:E; [|done]. intros ->%ct_eq_spec. eauto.
Qed.

Lemma base64url_char_range c : is_base64url_char c = true -> 45 <= c <= 122 /\ c <> 59 /\ c <> 61.
Proof.
  unfold is_base64url_char, is_ascii_alphanumeric, is_ascii_lowercase, is_ascii_uppercase,
    is_ascii_digit. rewrite !orb_true_iff, !andb_true_iff, !Z.leb_le, !Z.eqb_eq. lia.
Qed.

(** A token travels in a cookie unchanged: the only pair of a header [name=token]. *)
Lemma cookie_token_single `{!CrateLaws} name token :
  forallb is_base64url_char name = true -> forallb is_base64url_char token = true ->
  is_token_text token = true ->
  cookie_token [name ++ 61 :: token] name = Some token.
Proof.
  rewrite !forallb_Forall. intros Hn Hc Ht. unfold cookie_token, cookie_pairs.
  assert (Hall : Forall (fun c => 45 <= c <= 122 /\ c <> 59) (name ++ 61 :: token)).
  { apply Forall_app. split; [|constructor; [lia|]]; (eapply Forall_impl; [eassumption|]);
      intros c Hx%base64url_char_range; lia. }
  assert (Hv : header_to_str (name ++ 61 :: token) = Some (name ++ 61 :: token)).
  { apply header_to_str_visible, forallb_Forall.
    eapply Forall_impl; [exact Hall|]. intros c Hx. bool_lia. }
  cbn [map concat]. rewrite Hv, app_nil_r. rewrite split_none.
  2: { intros Hin. rewrite Forall_forall in Hall. specialize (Hall _ Hin). lia. }
  cbn [omap list_omap]. rewrite trim_matches_id.
  2, 3: intros c Hc'; rewrite Forall_forall in Hall; apply Z.eqb_neq.
  2: apply head_Some_elem_of in Hc'; specialize (Hall _ Hc'); lia.
  2: apply last_Some_elem_of in Hc'; specialize (Hall _ Hc'); lia.
  assert (Hs : split_once 61 (name ++ 61 :: token) = Some (name, token)).
  { apply split_once_spec. split; [done|]. intros Hin. rewrite Forall_forall in Hn.
    specialize (Hn _ Hin). apply base64url_char_range in Hn. lia. }
  rewrite Hs. rewrite filter_cons_True by done. cbn. by rewrite Ht.
Qed.
End SessionLemmas.

(** A request gets past the session layer only as the account of a session that is
    live in the database at that moment: its cookie hashes to the row's token hash, the
    account is enabled and has a password, and neither the idle nor the absolute limit
    has passed. A method other than [GET] and [HEAD] also needs the form field that
    decodes to that very session's CSRF token. *)
Theorem layer_needs_live_session `{Crates} (m : Method) (headers : list bytes)
    (field : option str) (now : Z) (w w' : World) (user : SessionUser) :
  layer m headers field now w = (Proceed user, w') ->
  exists token s u,
    cookie_token headers SESSION_COOKIE = Some token /\
    s ∈ sessions (db (interfere w)) /\ s_token_hash s = sha256 (utf8 token) /\
    find_user (db (interfere w)) (s_user_id s) = Some u /\
    u_password_hash u <> None /\ u_disabled u = false /\
    now < s_last_seen s + IDLE_SECONDS /\ now < s_created_at s + ABSOLUTE_SECONDS /\
    user = session_user s u /\
    (m = GET \/ m = HEAD \/
     exists f, field = Some f /\ base64url_decode f = Some (s_csrf_token s)).
Proof.
  unfold layer. destruct (current headers now w) as [[found|e] w1] eqn:E; [|done].
  destruct found as [u|]; [|by case_if].
  apply current_Some in E as (token & seen & Htok & Hsel).
  apply select_session_Some in Hsel as (s & x & Hs & Hh & Hx & Hl & -> & ->).
  apply session_live_spec in Hl as (Hp & Hd & Hi & Ha). intros Hcase.
  assert (Hu : user = session_user s x /\ (m = GET \/ m = HEAD \/
     exists f, field = Some f /\ base64url_decode f = Some (s_csrf_token s))).
  { destruct (_ || _) eqn:Es.
    - apply orb_true_iff in Es. rewrite !bool_decide_eq_true in Es. destruct Es; simplify_eq; auto.
    - destruct (check_csrf _ _) eqn:Ec; [|done]. apply check_csrf_true in Ec. simplify_eq. auto. }
  destruct Hu as [-> Hm]. exists token, s, x. done.
Qed.

(** What [create_session] stores. *)
Lemma create_session_Ok `{Crates} user now w text w' :
  create_session user now w = (Ok text, w') ->
  exists bs csrf, length bs = KEY_BYTES /\ forallb is_byte bs = true /\
    text = base64url_encode bs /\ length csrf = KEY_BYTES /\ forallb is_byte csrf = true /\
    has_user (db w) user = true /\
    Forall (fun s => s_token_hash s <> sha256 (utf8 text)) (sessions (db w)) /\
    db w' = set_sessions (fun l => l ++
      [{| s_id := next_rowid s_id l; s_token_hash := sha256 (utf8 text); s_user_id := user;
          s_csrf_token := csrf; s_created_at := now; s_last_seen := now;
          s_pending_totp_nonce := None |}]) (db w).
Proof.
  unfold create_session. intros Hc. apply Tx_bind_Ok in Hc as ([bs t] & w1 & Hd & Hc).
  apply draw_Ok in Hd as (t1 & Hd & ->). apply random_token_Ok in Hd as (Hl & Hb & ->).
  apply Tx_bind_Ok in Hc as (csrf & w2 & Hd & Hc). apply draw_Ok in Hd as (t2 & Hd & ->).
  apply random_bytes_Ok in Hd as [Hl' Hb']. apply Tx_bind_Ok in Hc as (x & w3 & Hi & Hc).
  apply stmt_Ok in Hi as (d & Hi & ->). tx_inv. simplify_eq. unfold insert_session in Hi.
  destruct (_ || _) eqn:E; [done|]. rewrite orb_false_iff, negb_false_iff in E. destruct E as [E1 E2].
  simplify_eq. exists bs, csrf. split_and!; try done.
  apply Forall_forall. intros s Hs Heq. apply not_true_iff_false in E1. apply E1, existsb_In.
  exists s. split; [done|]. by apply zlist_eqb_eq.
Qed.

(** A stored session signs its account in: with its cookie, on every method with its form
    token, until the idle limit runs out. *)
Lemma session_row_works `{CrateLaws} (s : Session) (u : User) (bs : bytes) (m : Method)
    (now : Z) (w : World) :
  s ∈ sessions (db w) -> NoDup (map s_token_hash (sessions (db w))) ->
  s_token_hash s = sha256 (utf8 (base64url_encode bs)) ->
  length bs = KEY_BYTES -> forallb is_byte bs = true ->
  length (s_csrf_token s) = KEY_BYTES -> forallb is_byte (s_csrf_token s) = true ->
  find_user (db w) (s_user_id s) = Some u -> session_live now s u = true ->
  faults w = [] -> others w = [] ->
  exists w', layer m [SESSION_COOKIE ++ 61 :: base64url_encode bs]
    (Some (csrf_field (session_user s u))) now w = (Proceed (session_user s u), w').
Proof.
  intros Hs Hnd Hh Hl Hb Hl' Hb' Hu Hlive Hf Ho.
  assert (Hi : interfere w = w) by (unfold interfere; by rewrite Ho).
  assert (Hsel : select_session (sha256 (utf8 (base64url_encode bs))) now (db w)
                 = Some (session_user s u, s_last_seen s)).
  { unfold select_session. destruct (find_first _ _) as [x|] eqn:E.
    - apply find_first_Some in E as [Hx Hp]. rewrite andb_true_iff, zlist_eqb_eq in Hp.
      destruct Hp as [Hp _]. assert (x = s) as -> by (eapply NoDup_map_inj; try done; congruence).
      by rewrite Hu.
    - apply find_first_None in E. rewrite Forall_forall in E. specialize (E s Hs).
      by rewrite Hh, zlist_eqb_refl, Hu in E; cbn in E; rewrite Hlive in E. }
  assert (Hcur : exists w', current [SESSION_COOKIE ++ 61 :: base64url_encode bs] now w
                            = (Ok (Some (session_user s u)), w')).
  { unfold current. rewrite cookie_token_single.
    2: reflexivity. 2: apply base64url_chars. 2: by apply is_token_encode.
    unfold read at 1. erewrite Tx_bind_run.
    2: { rewrite Hi. unfold query. rewrite (stmt_run _ w (Some (session_user s u, s_last_seen s)) (db w));
         [done|done|by rewrite Hsel]. }
    cbv beta iota. destruct (TOUCH_SECONDS <=? now - s_last_seen s); [|by eexists].
    eexists. erewrite Tx_bind_run; [reflexivity|]. apply write_run; [cbn; by rewrite Hf|done| |].
    - apply stmt_run; [|done]. cbn. by rewrite Hf.
    - cbn. by rewrite Hf. }
  destruct Hcur as [w' Hcur]. exists w'. unfold layer. rewrite Hcur.
  assert (Hcs : check_csrf (Some (csrf_field (session_user s u))) (s_csrf_token s) = true).
  { unfold check_csrf, csrf_field. cbn. rewrite is_token_encode, base64url_roundtrip by done.
    by apply ct_eq_spec. }
  cbv zeta. change (csrf (session_user s u)) with (s_csrf_token s). rewrite Hcs. by destruct (_ || _).
Qed.

(** ** Devices *)

Lemma newest_first_sorted l : sorted newer (newest_first l).
Proof.
  apply sort_by_sorted.
  - intros x y. apply lex_le_total.
  - intros x y z Hxy Hyz. exact (lex_le_trans _ _ _ Hyz Hxy).
Qed.

Lemma elem_of_evict user l v :
  v ∈ evict_devices user l <->
  v ∈ l /\ (d_user_id v = user -> d_id v ∈ map d_id (kept_devices user l)).
Proof.
  unfold evict_devices. rewrite elem_of_delete_where, andb_false_iff, negb_false_iff, Z.eqb_neq,
    bool_decide_eq_true. fold (kept_devices user l). destruct (decide (d_user_id v = user)); tauto.
Qed.

Lemma elem_of_kept user l v :
  v ∈ newest_first (List.filter (fun v => d_user_id v =? user) l) <-> v ∈ l /\ d_user_id v = user.
Proof.
  unfold newest_first. rewrite sort_by_perm, !list_elem_of_In, filter_In, Z.eqb_eq. done.
Qed.

Lemma evict_count user l :
  NoDup (map d_id l) -> count_where (fun v => d_user_id v =? user) (evict_devices user l) <= 10.
Proof.
  intros Hd. unfold count_where. set (k := List.filter _ (evict_devices user l)).
  assert (Hk : map d_id k ⊆+ map d_id (kept_devices user l)).
  { apply NoDup_submseteq.
    - apply NoDup_map_filter. unfold evict_devices, delete_where. by apply NoDup_map_filter.
    - intros i Hi. apply list_elem_of_fmap in Hi as (v & -> & Hv).
      unfold k in Hv. rewrite list_elem_of_In, filter_In, <- list_elem_of_In in Hv.
      destruct Hv as [Hv Hu]. apply elem_of_evict in Hv as [_ Hv]. apply Hv. by propify. }
  apply submseteq_length in Hk. rewrite !length_map in Hk. unfold kept_devices in Hk.
  rewrite length_take in Hk. unfold DEVICES_KEPT in Hk. lia.
Qed.

(** What goes is never newer than what stays. *)
Lemma evict_newest user l v v' :
  NoDup (map d_id l) -> v ∈ l -> d_user_id v = user -> v ∉ evict_devices user l ->
  v' ∈ evict_devices user l -> d_user_id v' = user -> newer v' v = true.
Proof.
  intros Hd Hv Hu Hout Hv' Hu'. rewrite elem_of_evict in Hout. apply elem_of_evict in Hv' as [Hl' Hk'].
  specialize (Hk' Hu'). apply list_elem_of_fmap in Hk' as (x & He & Hx).
  assert (Hin : forall y, y ∈ kept_devices user l -> y ∈ l /\ d_user_id y = user).
  { intros y Hy. apply elem_of_kept. rewrite <- (take_drop DEVICES_KEPT). set_solver. }
  assert (v' = x) as -> by (eapply NoDup_map_inj; [done|done|by apply Hin|done]).
  eapply (sorted_take_drop newer DEVICES_KEPT); [apply newest_first_sorted|exact Hx|].
  assert (Hall : v ∈ newest_first (List.filter (fun v => d_user_id v =? user) l))
    by (by apply elem_of_kept).
  rewrite <- (take_drop DEVICES_KEPT) in Hall. apply elem_of_app in Hall as [Hall|Hall]; [|done].
  destruct Hout. split; [done|]. intros _. apply list_elem_of_fmap. by exists v.
Qed.

Lemma next_rowid_above {A} (id : A -> Z) l x : x ∈ l -> id x < next_rowid id l.
Proof.
  unfold next_rowid. induction l as [|y l IH]; [set_solver|]. cbn.
  intros [->|Hx]%elem_of_cons; [lia|]. specialize (IH Hx). lia.
Qed.

Lemma next_rowid_fresh {A} (id : A -> Z) l x :
  id x = next_rowid id l -> NoDup (map id l) -> NoDup (map id (l ++ [x])).
Proof.
  intros Hx Hd. rewrite map_app. apply NoDup_app. split_and!; [done| |apply NoDup_singleton].
  intros i (y & -> & Hy)%list_elem_of_fmap Hi. apply list_elem_of_singleton in Hi.
  pose proof (next_rowid_above id l y Hy). lia.
Qed.

Lemma add_device_Ok `{Crates} user now w text w' :
  add_device user now w = (Ok text, w') ->
  exists v, d_id v = next_rowid d_id (known_devices (db w)) /\ d_user_id v = user /\
    d_token_hash v = sha256 (utf8 text) /\ d_created_at v = now /\ has_user (db w) user = true /\
    Forall (fun x => d_token_hash x <> d_token_hash v) (known_devices (db w)) /\
    db w' = set_known_devices (fun l => evict_devices user (l ++ [v])) (db w).
Proof.
  unfold add_device. intros Hc. apply Tx_bind_Ok in Hc as ([bs t] & w1 & Hd & Hc).
  apply draw_Ok in Hd as (t1 & Hd & ->). apply Tx_bind_Ok in Hc as (x & w3 & Hi & Hc).
  apply stmt_Ok in Hi as (d & Hi & ->). tx_inv. simplify_eq. unfold insert_device in Hi.
  destruct (_ || _) eqn:E; [done|]. rewrite orb_false_iff, negb_false_iff in E. destruct E as [E1 E2].
  simplify_eq. eexists {| d_id := _; d_user_id := _; d_token_hash := _; d_created_at := _ |}.
  cbn in *. split_and!; try done.
  apply Forall_forall. intros v Hv Heq. apply not_true_iff_false in E1. apply E1, existsb_In.
  exists v. split; [done|]. by apply zlist_eqb_eq.
Qed.

(** Signing in on a new browser keeps at most ten device cookies of the account: what
    is dropped is never newer than what stays, no other account's devices change, and
    the new cookie itself is known (unless the clock ran backwards). *)
Theorem device_cookies_capped `{Crates} (user now : Z) (w w' : World) (text : str) :
  add_device user now w = (Ok text, w') -> NoDup (map d_id (known_devices (db w))) ->
  count_where (fun v => d_user_id v =? user) (known_devices (db w')) <= 10 /\
  (forall v, d_user_id v <> user ->
     (v ∈ known_devices (db w') <-> v ∈ known_devices (db w))) /\
  (forall v v', v ∈ known_devices (db w) -> d_user_id v = user -> v ∉ known_devices (db w') ->
     v' ∈ known_devices (db w') -> d_user_id v' = user -> newer v' v = true) /\
  ((forall v, v ∈ known_devices (db w) -> d_user_id v = user -> d_created_at v <= now) ->
   is_known_device user (sha256 (utf8 text)) now (db w') = true).
Proof.
  intros Ha Hd. apply add_device_Ok in Ha as (v & Hid & Hu & Hh & Hc & _ & _ & Hdb).
  rewrite Hdb. cbn [known_devices set_known_devices].
  assert (Hd' : NoDup (map d_id (known_devices (db w) ++ [v]))) by (by apply next_rowid_fresh).
  split_and!.
  - by apply evict_count.
  - intros x Hx. rewrite elem_of_evict, elem_of_app, list_elem_of_singleton. intuition congruence.
  - intros x x' Hx Hxu Hout Hin Hu'. eapply evict_newest; try done. set_solver.
  - intros Hclock. unfold is_known_device. apply existsb_In. exists v. split.
    2: { rewrite Hu, Hh, Hc, Z.eqb_refl, zlist_eqb_refl. cbn. unfold DEVICE_SECONDS. bool_lia. }
    cbn [known_devices set_known_devices].
    destruct (decide (v ∈ evict_devices user (known_devices (db w) ++ [v]))) as [|Hout]; [done|].
    exfalso. assert (Hv : v ∈ known_devices (db w) ++ [v]) by set_solver.
    assert (Hex : exists y, y ∈ kept_devices user (known_devices (db w) ++ [v])).
    { unfold kept_devices. pose proof (proj2 (elem_of_kept user _ v) (conj Hv Hu)) as Hk.
      destruct (newest_first _) as [|y k]; [set_solver|]. exists y. cbn. set_solver. }
    destruct Hex as [y Hy].
    assert (Hyl : y ∈ known_devices (db w) ++ [v] /\ d_user_id y = user).
    { apply elem_of_kept. rewrite <- (take_drop DEVICES_KEPT). set_solver. }
    destruct Hyl as [Hyl Hyu].
    assert (Hye : y ∈ evict_devices user (known_devices (db w) ++ [v])).
    { apply elem_of_evict. split; [done|]. intros _. apply list_elem_of_fmap. by exists y. }
    pose proof (evict_newest _ _ v y Hd' Hv Hu Hout Hye Hyu) as Hn.
    apply elem_of_app in Hyl as [Hyo|Hyo]; [|set_solver].
    specialize (Hclock y Hyo Hyu). pose proof (next_rowid_above d_id _ y Hyo).
    unfold newer in Hn. cbn in Hn. propify. lia.
Qed.

(** ** Recovery codes *)

Section RecoveryLemmas.
Context `{Crates}.

(** The rows of one account's codes. *)
Definition code_rows (user : Z) (codes : list str) : list RecoveryCode :=
  map (fun c => {| r_user_id := user; r_code_hash := sha256 (utf8 c) |}) codes.

Lemma recovery_code_shape bs :
  forallb is_byte bs = true -> length bs = 10%nat ->
  length (base32 bs) = LENGTH /\ forallb is_base32_char (base32 bs) = true.
Proof.
  intros Hb Hl. destruct (base32_whole bs 2 Hb Hl) as [Hn Hc]. split; [done|].
  apply forallb_Forall. eapply Forall_impl; [exact Hc|]. intros c Hin.
  assert (Ha : forallb is_base32_char ALPHABET = true) by reflexivity.
  rewrite forallb_forall in Ha. by apply Ha, list_elem_of_In.
Qed.

(** More rounds than octets left change nothing: the bound is never what ends the loop. *)
Lemma replace_loop_fuel fuel user codes w :
  (length (tape w) < fuel)%nat ->
  replace_loop fuel user codes w = replace_loop (S fuel) user codes w.
Proof.
  revert codes w. induction fuel as [|fuel IH]; intros codes w Hf; [lia|].
  change (replace_loop (S fuel) user codes w = replace_loop (S (S fuel)) user codes w).
  cbn [replace_loop]. destruct (length codes <? COUNT)%nat; [|done].
  unfold mbind, Tx_bind. destruct (draw _ w) as [[bs|] w1] eqn:E; [|done].
  apply draw_Ok in E as (t & E & ->). unfold random_bytes in E.
  destruct (Nat.ltb_spec (length (tape w)) (LENGTH * 5 / 8)); [done|]. simplify_eq.
  assert (Ht : (length (drop (LENGTH * 5 / 8) (tape w)) < length (tape w))%nat).
  { rewrite length_drop. change (LENGTH * 5 / 8)%nat with 10%nat in *. lia. }
  unfold stmt. destruct (faulty _); [done|]. destruct (insert_code _ _ _) as [[n d]|]; [|done].
  apply IH. change (length (drop 10 (tape w)) < fuel)%nat. change (LENGTH * 5 / 8)%nat with 10%nat in Ht. lia.
Qed.

Lemma replace_loop_Ok fuel user codes w codes' w' :
  replace_loop fuel user codes w = (Ok codes', w') ->
  Forall (fun c => length c = LENGTH /\ forallb is_base32_char c = true) codes ->
  (length codes <= COUNT)%nat ->
  List.filter (fun c => r_user_id c =? user) (recovery_codes (db w)) = code_rows user codes ->
  NoDup (map (fun c => sha256 (utf8 c)) codes) ->
  length codes' = COUNT /\
  Forall (fun c => length c = LENGTH /\ forallb is_base32_char c = true) codes' /\
  List.filter (fun c => r_user_id c =? user) (recovery_codes (db w')) = code_rows user codes' /\
  NoDup (map (fun c => sha256 (utf8 c)) codes') /\
  exists l, db w' = set_recovery_codes (fun k => k ++ l) (db w) /\
    Forall (fun c => r_user_id c = user) l.
Proof.
  revert codes w. induction fuel as [|fuel IH]; intros codes w Hr Hs Hn Hrows Hd; cbn [replace_loop] in Hr;
    destruct (Nat.ltb_spec (length codes) COUNT) as [Hlt|Hge]; try (tx_inv; fail).
  1, 3: tx_inv; simplify_eq; split_and!; try done; [lia|]; exists [];
        (split; [|done]); destruct (db w') as []; unfold set_recovery_codes; cbn; by rewrite app_nil_r.
  apply Tx_bind_Ok in Hr as (bs & w1 & Hdr & Hr). apply draw_Ok in Hdr as (t & Hdr & ->).
  apply random_bytes_Ok in Hdr as [Hl Hb]. destruct (recovery_code_shape bs Hb Hl) as [Hl' Hb'].
  apply Tx_bind_Ok in Hr as (n & w2 & Hi & Hr). apply stmt_Ok in Hi as (d & Hi & ->).
  unfold insert_code in Hi. cbn [db with_tape] in Hi.
  destruct (has_user _ _); cbn [negb] in Hi; [|done].
  destruct (existsb _ _) eqn:Ex; simplify_eq; cbn [Z.eqb Pos.eqb] in Hr.
  - apply IH in Hr; try done.
  - apply IH in Hr as (H1 & H2 & H3 & H4 & l & H5 & H6).
    + split_and!; try done.
      exists ({| r_user_id := user; r_code_hash := sha256 (utf8 (base32 bs)) |} :: l).
      split; [|by constructor]. rewrite H5. cbn. unfold set_recovery_codes. cbn.
      by rewrite <- (assoc_L (++)).
    + apply Forall_app. split; [done|]. by repeat constructor.
    + rewrite length_app. cbn. lia.
    + cbn. rewrite List.filter_app, Hrows. cbn. rewrite Z.eqb_refl. unfold code_rows.
      by rewrite map_app.
    + rewrite map_app. apply NoDup_app. split_and!; [done| |apply NoDup_singleton].
      intros h Hh Hin. apply list_elem_of_singleton in Hin as ->.
      apply not_true_iff_false in Ex. apply Ex, existsb_In.
      apply list_elem_of_fmap in Hh as (c & He & Hc).
      exists {| r_user_id := user; r_code_hash := sha256 (utf8 c) |}. cbn. split.
      * assert (Hin : {| r_user_id := user; r_code_hash := sha256 (utf8 c) |}
                        ∈ List.filter (fun c => r_user_id c =? user) (recovery_codes (db w))).
        { rewrite Hrows. apply list_elem_of_fmap. eauto. }
        rewrite list_elem_of_In, filter_In, <- list_elem_of_In in Hin. apply Hin.
      * rewrite Z.eqb_refl. by apply zlist_eqb_eq.
Qed.
End RecoveryLemmas.

Lemma count_where_filter {A} (p q : A -> bool) l :
  (forall x, p x = true -> q x = true) -> count_where p l = count_where p (List.filter q l).
Proof.
  intros Hpq. induction l as [|x l IH]; [done|]. cbn [List.filter].
  destruct (q x) eqn:Hq; rewrite !count_where_cons; rewrite IH; [done|].
  destruct (p x) eqn:Hp; [by rewrite (Hpq x Hp) in Hq|]. lia.
Qed.

Lemma count_code_rows `{Crates} user codes c :
  NoDup (map (fun c => sha256 (utf8 c)) codes) -> c ∈ codes ->
  count_where (fun r => (r_user_id r =? user) && zlist_eqb (r_code_hash r) (sha256 (utf8 c)))
    (code_rows user codes) = 1.
Proof.
  induction codes as [|x l IH]; [set_solver|]. cbn [map]. intros [Hx Hd]%NoDup_cons Hc.
  unfold code_rows in *. cbn [map]. rewrite count_where_cons. cbn. rewrite Z.eqb_refl. cbn.
  destruct (zlist_eqb _ _) eqn:E.
  - apply zlist_eqb_eq in E. cut (count_where (fun r => (r_user_id r =? user)
      && zlist_eqb (r_code_hash r) (sha256 (utf8 c))) (code_rows user l) = 0); [unfold code_rows; lia|].
    apply count_where_0, Forall_forall. intros r (y & -> & Hy)%list_elem_of_fmap. cbn.
    rewrite Z.eqb_refl. cbn. apply not_true_iff_false. rewrite zlist_eqb_eq. intros He.
    apply Hx. rewrite E, <- He. by apply list_elem_of_fmap; eauto.
  - rewrite IH; [lia|done|]. apply elem_of_cons in Hc as [->|]; [|done].
    by rewrite zlist_eqb_refl in E.
Qed.

Lemma replace_codes_Ok `{Crates} user w codes w' :
  replace_codes user w = (Ok codes, w') ->
  length codes = COUNT /\
  Forall (fun c => length c = LENGTH /\ forallb is_base32_char c = true) codes /\
  List.filter (fun c => r_user_id c =? user) (recovery_codes (db w')) = code_rows user codes /\
  NoDup (map (fun c => sha256 (utf8 c)) codes) /\
  exists l, db w' = set_recovery_codes (fun k => delete_where (fun c => r_user_id c =? user) k ++ l) (db w) /\
    Forall (fun c => r_user_id c = user) l.
Proof.
  unfold replace_codes. intros Hr. apply Tx_bind_Ok in Hr as (x & w1 & Hx & Hr).
  apply execute_Ok in Hx as ->. apply Tx_bind_Ok in Hr as (n & w2 & [= <- <-] & Hr).
  apply replace_loop_Ok in Hr as (Hlen & Hs & Hrows & Hd & l & Hdb & Hl);
    [do 4 (split; [done|]); by exists l|done|unfold COUNT; cbn; lia| |constructor].
  cbn [db with_db set_recovery_codes recovery_codes]. unfold delete_where. cbn.
  induction (recovery_codes (db w)) as [|r k IH]; [done|]. cbn.
  destruct (r_user_id r =? user) eqn:E; cbn; [done|by rewrite E].
Qed.

(** Replacing an account's recovery codes gives ten distinct codes of the shape that is
    accepted when typed; no other account's codes change, and each of the ten is
    accepted exactly once. *)
Theorem fresh_codes_work_once `{Crates} (user : Z) (w w' : World) (codes : list str) :
  replace_codes user w = (Ok codes, w') ->
  length codes = COUNT /\ NoDup codes /\ Forall (fun c => normalize c = Some c) codes /\
  (forall r, r_user_id r <> user ->
     (r ∈ recovery_codes (db w') <-> r ∈ recovery_codes (db w))) /\
  (forall c w1, c ∈ codes -> recovery_codes (db w1) = recovery_codes (db w') -> faults w1 = [] ->
     exists w2 w3, consume_code user c w1 = (Ok true, w2) /\
       consume_code user c w2 = (Ok false, w3)).
Proof.
  intros (Hlen & Hs & Hrows & Hd & l & Hdb & Hl)%replace_codes_Ok.
  split_and!; [done| | | |].
  - by eapply NoDup_fmap_1.
  - eapply Forall_impl; [exact Hs|]. intros c [Hc Hc']. apply normalize_spec.
    by rewrite normalize_id.
  - intros r Hru. rewrite Hdb. cbn. rewrite elem_of_app, elem_of_delete_where, Z.eqb_neq.
    rewrite Forall_forall in Hl. split; [intros [[? _]|Hr]; [done|by apply Hl in Hr]|auto].
  - intros c w1 Hc Hrc Hf. unfold consume_code, consume_one.
    assert (H1 : count_where (fun r => (r_user_id r =? user)
      && zlist_eqb (r_code_hash r) (sha256 (utf8 c))) (recovery_codes (db w1)) = 1).
    { rewrite Hrc, (count_where_filter _ (fun c => r_user_id c =? user)), Hrows.
      - by apply count_code_rows.
      - intros r. by rewrite andb_true_iff; intros [? _]. }
    eexists _, _. split.
    + erewrite Tx_bind_run; [|by apply stmt_run]. cbv beta. rewrite H1. reflexivity.
    + erewrite Tx_bind_run; [|apply stmt_run; [cbn; by rewrite Hf|reflexivity]]. cbv beta.
      cbn [db with_db set_recovery_codes recovery_codes].
      rewrite (proj2 (count_where_0 _ _)); [reflexivity|].
      apply Forall_forall. by intros r [_ Hr]%elem_of_delete_where.
Qed.
