(* ===== verification/Credentials.v ===== *)
(** * The credential check (src/src/auth/credentials.rs)

    [check] is the whole path of a login or re-authentication: the read, the one password
    verification and the write transaction that decides. Between the read and the write
    other requests may change the database. *)

From S2P Require Import Prelude Str Codec Keys Config Urls Totp Text Time Http Db Outbox Auth.

Definition LOCK_AFTER : Z := 10.
Definition LOCK_SECONDS : Z := 15 * 60.
Definition DEVICE_WINDOW_SECONDS : Z := 60 * 60.
Definition DEVICE_FAILURES_MAX : Z := 20.
Definition LOCKOUT_MAIL_SECONDS : Z := 24 * 60 * 60.
Definition CODE_MAX : Z := 32.

Inductive Lookup := ByEmail (email : str) | ById (id : Z).

Record Attempt := {
  at_account : Lookup; at_password : str; at_code : str; at_device : option bytes }.

Record Account := {
  id : Z; acc_email : str; acc_role : Role; disabled : bool; password_hash : option str;
  totp_nonce : option bytes; locked_until : option Z; device_failures : Z;
  device_window_start : option Z }.

Definition account_row (u : User) : Account :=
  {| id := u_id u; acc_email := u_email u; acc_role := u_role u; disabled := u_disabled u;
     password_hash := u_password_hash u; totp_nonce := u_totp_nonce u;
     locked_until := u_locked_until u; device_failures := u_device_failures u;
     device_window_start := u_device_window_start u |}.

Definition find (l : Lookup) (d : Db) : option Account :=
  account_row <$> find_first (fun u => match l with
                                       | ByEmail e => zlist_eqb (u_email u) e
                                       | ById i => u_id u =? i
                                       end) (users d).

(** [Account::blocked]. *)
Definition blocked (a : Account) (known_device : bool) (now : Z) : bool :=
  if known_device then
    is_some_and (fun start => now <? start + DEVICE_WINDOW_SECONDS) (device_window_start a)
    && (DEVICE_FAILURES_MAX <=? device_failures a)
  else is_some_and (fun until => now <? until) (locked_until a).

Definition usable_hash (a : Account) (known_device : bool) (now : Z) : option str :=
  match password_hash a with
  | Some hash =>
      if negb (disabled a) && negb (blocked a known_device now) then Some hash else None
  | None => None
  end.

Inductive Outcome (T : Type) := Success (t : T) | Failure | TwoFactorRequired | Busy.
Arguments Success {T} t.
Arguments Failure {T}.
Arguments TwoFactorRequired {T}.
Arguments Busy {T}.

(** What the handlers use of [AppState] besides the database. *)
Record App := { app_secret : bytes; app_base_url : BaseUrl }.

Definition app_urls (app : App) : Urls := urls_new (app_base_url app).
Definition app_origin (app : App) : str := main_origin (app_urls app).

Record Verified := { v_hash : option str; v_known_device : bool; v_code : str }.

(** ** Counting failures *)

Definition window_over (now : Z) (u : User) : bool :=
  match u_device_window_start u with
  | None => true
  | Some start => start + DEVICE_WINDOW_SECONDS <=? now
  end.

Definition set_lockout (failed : Z) (until : option Z) (dev : Z) (start : option Z)
  (mailed : option Z) (u : User) : User :=
  {| u_id := u_id u; u_email := u_email u; u_password_hash := u_password_hash u;
     u_role := u_role u; u_disabled := u_disabled u; u_totp_nonce := u_totp_nonce u;
     u_totp_last_step := u_totp_last_step u; u_failed_logins := failed; u_locked_until := until;
     u_device_failures := dev; u_device_window_start := start; u_lockout_mailed_at := mailed;
     u_created_at := u_created_at u |}.

(** The failure of a known device: in its window, not past the cap. *)
Definition count_device_failure (now : Z) (u : User) : User :=
  set_lockout (u_failed_logins u) (u_locked_until u)
    (if window_over now u then 1 else u_device_failures u + 1)
    (if window_over now u then Some now else u_device_window_start u)
    (u_lockout_mailed_at u) u.

Definition device_capped (now : Z) (u : User) : bool :=
  is_some_and (fun start => now <? start + DEVICE_WINDOW_SECONDS) (u_device_window_start u)
  && (DEVICE_FAILURES_MAX <=? u_device_failures u).

Definition locks (u : User) : bool := LOCK_AFTER <=? u_failed_logins u + 1.

(** The failure of an unknown device. *)
Definition count_login_failure (now : Z) (u : User) : User :=
  set_lockout
    (if locks u then 0 else u_failed_logins u + 1)
    (if locks u then Some (now + LOCK_SECONDS) else u_locked_until u)
    (u_device_failures u) (u_device_window_start u)
    (if locks u && match u_lockout_mailed_at u with
                   | None => true
                   | Some at_ => at_ <=? now - LOCKOUT_MAIL_SECONDS
                   end
     then Some now else u_lockout_mailed_at u) u.

Definition lock_open (now : Z) (u : User) : bool :=
  match u_locked_until u with None => true | Some until => until <=? now end.

(** [UPDATE ... RETURNING]: whether a lock and a lockout mail started now. *)
Definition login_failure_stmt (user now : Z) (d : Db) : result unit (option (bool * bool) * Db) :=
  let p u := (u_id u =? user) && lock_open now u in
  let d' := set_users (update_where p (count_login_failure now)) d in
  Ok ((fun u => let u := count_login_failure now u in
                (bool_decide (u_locked_until u = Some (now + LOCK_SECONDS)),
                 bool_decide (u_lockout_mailed_at u = Some now)))
      <$> find_first p (users d), d').

Section Credentials.
Context `{Crates} (app : App).

(** [count_failure]. *)
Definition count_failure (a : Account) (known_device : bool) (now : Z) : Tx AuthError unit :=
  if known_device then
    execute (set_users (update_where (fun u => (u_id u =? id a) && negb (device_capped now u))
                          (count_device_failure now)))
  else
    started ← stmt (login_failure_stmt (id a) now);
    match started with
    | Some (true, true) =>
        let text := lockout (app_origin app) now in
        _ ← enqueue {| n_kind := LOCKOUT; n_recipient := ToUser (id a);
                       n_subject := text_subject text; n_body := text_body text;
                       n_placeholder := false |} now;
        mret tt
    | _ => mret tt
    end.

Definition set_last_step (step : Z) (u : User) : User :=
  {| u_id := u_id u; u_email := u_email u; u_password_hash := u_password_hash u;
     u_role := u_role u; u_disabled := u_disabled u; u_totp_nonce := u_totp_nonce u;
     u_totp_last_step := Some step; u_failed_logins := u_failed_logins u;
     u_locked_until := u_locked_until u; u_device_failures := u_device_failures u;
     u_device_window_start := u_device_window_start u;
     u_lockout_mailed_at := u_lockout_mailed_at u; u_created_at := u_created_at u |}.

(** Rows the replay write takes: only a later step than the last accepted one. *)
Definition step_later (user step : Z) (u : User) : bool :=
  (u_id u =? user) && match u_totp_last_step u with None => true | Some l => l <? step end.

(** [code_accepted]. *)
Definition code_accepted (user : Z) (seed : bytes) (code : str) (now : Z) : Tx AuthError bool :=
  let code := trim_matches is_ascii_whitespace code in
  if is_code code then
    match matching_step seed code now with
    | None => mret false
    | Some step =>
        consume_one (fun d => count_where (step_later user step) (users d))
          (set_users (update_where (step_later user step) (set_last_step step)))
    end
  else
    match normalize code with
    | Some code => consume_code user code
    | None => mret false
    end.

(** The seed of an enrolled account; the derivation panics only on a nonce of 4 GiB, and
    stored nonces have 16 bytes. *)
Definition account_seed (user : Z) (nonce : bytes) : bytes :=
  default [] (derive (app_secret app) user nonce).

Definition clear_failures (u : User) : User :=
  set_lockout 0 (u_locked_until u) 0 None (u_lockout_mailed_at u) u.

(** The second factor: [None] when the account must enroll first. *)
Definition second_factor (a : Account) (code : str) (now : Z) : Tx AuthError (option bool) :=
  match totp_nonce a with
  | None => if requires_two_factor (acc_role a) then mret None else mret (Some true)
  | Some nonce => b ← code_accepted (id a) (account_seed (id a) nonce) code now; mret (Some b)
  end.

(** [decide]: one write transaction. *)
Definition decide {T} (user : Z) (v : Verified) (now : Z)
  (success : Account -> Z -> Tx AuthError T) : Tx AuthError (Outcome T) :=
  account ← query (find (ById user));
  match account with
  | None => mret Failure
  | Some a =>
      if blocked a (v_known_device v) now then mret Failure
      else
        let password_ok := bool_decide (v_hash v <> None)
          && bool_decide (v_hash v = password_hash a) && negb (disabled a) in
        if negb password_ok then
          _ ← count_failure a (v_known_device v) now; mret Failure
        else
          factor ← second_factor a (v_code v) now;
          match factor with
          | None => mret TwoFactorRequired
          | Some false => _ ← count_failure a (v_known_device v) now; mret Failure
          | Some true =>
              _ ← execute (set_users (update_where (fun u => u_id u =? id a) clear_failures));
              t ← success a now;
              mret (Success t)
          end
  end.

(** The account and whether the request's device cookie is one of its own. *)
Definition look_up (at_ : Attempt) (now : Z) : Tx AuthError (option Account * bool) :=
  account ← query (find (at_account at_));
  match account, at_device at_ with
  | Some a, Some hash => known ← query (is_known_device (id a) hash now); mret (Some a, known)
  | _, _ => mret (account, false)
  end.

(** [check]; [permit] is whether a hashing permit came within its wait. *)
Definition check {T} (permit : bool) (at_ : Attempt) (now : Z)
  (success : Account -> Z -> Tx AuthError T) : Tx AuthError (Outcome T) :=
  '(account, known_device) ← read (look_up at_ now);
  if negb permit then mret Busy
  else
    let oversize := (PASSWORD_MAX <? char_count (at_password at_))
                    || (CODE_MAX <? char_count (at_code at_)) in
    let target := opt_filter (fun _ => negb oversize)
                    (a ← account; usable_hash a known_device now) in
    dummy ← dummy_hash;
    _ ← count_password_check;
    let input := if oversize then [] else at_password at_ in
    let matched := verify_password input (default dummy target) && bool_decide (target <> None) in
    match account with
    | None => mret Failure
    | Some a =>
        write (decide (id a)
                 {| v_hash := opt_filter (fun _ => matched) target;
                    v_known_device := known_device; v_code := at_code at_ |} now success)
    end.
End Credentials.

(** ** Lemmas *)

Section CredentialLemmas.
Context `{Crates} (app : App).

Lemma find_by_id user d a : find (ById user) d = Some a ->
  exists u, find_user d user = Some u /\ a = account_row u /\ u_id u = user.
Proof.
  unfold find, find_user. destruct (find_first _ _) as [u|] eqn:E; [|done]. intros [= <-].
  exists u. apply find_first_Some in E as Hu. destruct Hu as [_ Hu]. propify. auto.
Qed.

(** How a code was accepted, and what that used up. *)
Inductive factor_used (user : Z) (seed : bytes) (code : str) (now : Z) (d d' : Db) : Prop :=
| used_totp step u :
    matching_step seed (trim_matches is_ascii_whitespace code) now = Some step ->
    u ∈ users d -> u_id u = user ->
    (forall l, u_totp_last_step u = Some l -> l < step) ->
    d' = set_users (update_where (step_later user step) (set_last_step step)) d ->
    factor_used user seed code now d d'
| used_recovery c hash :
    normalize (trim_matches is_ascii_whitespace code) = Some c ->
    hash = sha256 (utf8 c) -> {| r_user_id := user; r_code_hash := hash |} ∈ recovery_codes d ->
    d' = set_recovery_codes
           (delete_where (fun c => (r_user_id c =? user) && zlist_eqb (r_code_hash c) hash)) d ->
    factor_used user seed code now d d'.

Lemma count_where_1 {A} (p : A -> bool) l : count_where p l = 1 -> exists x, x ∈ l /\ p x = true.
Proof.
  unfold count_where. destruct (List.filter p l) as [|x k] eqn:E; [done|]. intros _. exists x.
  assert (Hin : In x (List.filter p l)) by (rewrite E; by left).
  apply filter_In in Hin as [? ?]. by rewrite list_elem_of_In.
Qed.

Lemma code_accepted_true user seed code now w w' :
  code_accepted user seed code now w = (Ok true, w') ->
  factor_used user seed code now (db w) (db w').
Proof.
  unfold code_accepted. destruct (is_code _).
  - destruct (matching_step _ _ _) as [step|] eqn:Em; [|done]. intros Hc.
    apply consume_one_Ok in Hc as [-> [[? _]|[_ Hc]]]; [done|].
    apply count_where_1 in Hc as (u & Hu & Hp). unfold step_later in Hp. propify.
    destruct Hp as [Hid Hl]. econstructor 1; try done.
    intros l Hs. rewrite Hs in Hl. by propify.
  - destruct (normalize _) as [c|] eqn:En; [|done]. unfold consume_code. intros Hc.
    apply consume_one_Ok in Hc as [-> [[? _]|[_ Hc]]]; [done|].
    apply count_where_1 in Hc as ([u h] & Hu & Hp). cbn in Hp. rewrite andb_true_iff, zlist_eqb_eq in Hp.
    destruct Hp as [Hid Hh]. propify. subst. by econstructor 2.
Qed.

(** A refused code uses nothing up. *)
Lemma code_accepted_false user seed code now w w' :
  code_accepted user seed code now w = (Ok false, w') -> db w' = db w.
Proof.
  unfold code_accepted. destruct (is_code _).
  - destruct (matching_step _ _ _) as [step|]; [|by intros [= <-]]. intros Hc.
    apply consume_one_Ok in Hc as [-> [[_ Hc]|[? _]]]; [|done]. cbn.
    apply count_where_0 in Hc. unfold set_users. rewrite update_where_id by done. by destruct (db w).
  - destruct (normalize _) as [c|]; [|by intros [= <-]]. intros Hc.
    apply consume_one_Ok in Hc as [-> [[_ Hc]|[? _]]]; [|done]. cbn.
    apply count_where_0 in Hc. unfold set_recovery_codes.
    assert (E : forall l, Forall (fun x => (r_user_id x =? user)
        && zlist_eqb (r_code_hash x) (sha256 (utf8 c)) = false) l ->
      delete_where (fun x => (r_user_id x =? user) && zlist_eqb (r_code_hash x) (sha256 (utf8 c))) l = l).
    { intros l. induction 1 as [|x l Hx Hl IH]; [done|]. unfold delete_where in *. cbn.
      by rewrite Hx, IH. }
    rewrite E by done. by destruct (db w).
Qed.

(** What a passed check rests on, in the database of the deciding transaction. *)
Record passed (user : Z) (v : Verified) (now : Z) (d : Db) (a : Account) : Prop := {
  passed_found : find (ById user) d = Some a;
  passed_unblocked : blocked a (v_known_device v) now = false;
  passed_enabled : disabled a = false;
  passed_hash : exists h, v_hash v = Some h /\ password_hash a = Some h;
  passed_admin : acc_role a = Admin -> totp_nonce a <> None }.

(** [decide] succeeds only when every factor passed, and then runs [success] on the
    database with the factor used up and the counters cleared. *)
Lemma decide_success {T} user v now (success : Account -> Z -> Tx AuthError T) w t w' :
  decide app user v now success w = (Ok (Success t), w') ->
  exists a d1 w1, passed user v now (db w) a /\
    (match totp_nonce a with
     | Some nonce => factor_used user (account_seed app user nonce) (v_code v) now (db w) d1
     | None => d1 = db w
     end) /\
    db w1 = set_users (update_where (fun u => u_id u =? user) clear_failures) d1 /\
    success a now w1 = (Ok t, w') .
Proof.
  unfold decide. intros Hd. tx_inv. subst x. cbn [db with_db] in *.
  destruct (find (ById user) (db w)) as [a|] eqn:Ef; [|tx_inv; discriminate].
  destruct (find_by_id _ _ _ Ef) as (u & Hu & -> & Hid).
  destruct (blocked _ _ _) eqn:Eb; [tx_inv; discriminate|].
  destruct (negb (_ && _)) eqn:Ep; [tx_inv; discriminate|].
  rewrite negb_false_iff, !andb_true_iff, bool_decide_eq_true, bool_decide_eq_true, negb_true_iff in Ep.
  destruct Ep as [[Hn Hh] Hdis].
  apply Tx_bind_Ok in Hd as (factor & w1 & Hf & Hd).
  destruct factor as [[]|]; [|tx_inv; discriminate..].
  apply Tx_bind_Ok in Hd as (y & w2 & Hc & Hd). apply execute_Ok in Hc as ->.
  apply Tx_bind_Ok in Hd as (t' & w3 & Hs & Hd). tx_inv. subst.
  change (id (account_row u)) with (u_id u) in *.
  eexists (account_row u), (db w1), _. split_and!; [| | |exact Hs]; [| |done].
  - split; [done|done|done| |].
    + destruct (v_hash v) as [h|]; [|done]. by exists h.
    + intros Hr. unfold second_factor in Hf. destruct (totp_nonce (account_row u)); [done|].
      rewrite Hr in Hf. tx_inv. discriminate.
  - unfold second_factor in Hf. destruct (totp_nonce (account_row u)) as [nonce|].
    + apply Tx_bind_Ok in Hf as (b & w4 & Hb & Hf). tx_inv. subst.
      by apply code_accepted_true in Hb.
    + by destruct (requires_two_factor _); tx_inv; simplify_eq.
Qed.

Lemma still_hash_password p : still (hash_password p).
Proof. apply still_bind; [apply still_draw|]. by intros a w. Qed.

Lemma still_dummy_hash : still dummy_hash.
Proof.
  apply still_bind; [by intros w|]. intros [h|]; [by intros w|].
  apply still_bind; [apply still_draw|]. intros p.
  apply still_bind; [apply still_hash_password|]. intros h.
  apply still_bind; [by intros w|]. by intros a w.
Qed.

Lemma still_look_up at_ now : still (look_up at_ now).
Proof.
  apply still_bind; [apply still_query|]. intros [a|]; [|by intros w].
  destruct (at_device at_); [|by intros w].
  apply still_bind; [apply still_query|]. by intros k w.
Qed.

(** What the read phase found. *)
Lemma look_up_Ok at_ now w a known w' :
  look_up at_ now w = (Ok (a, known), w') ->
  a = find (at_account at_) (db w) /\
  (known = true -> exists acc hash, a = Some acc /\ at_device at_ = Some hash /\
                     is_known_device (id acc) hash now (db w) = true).
Proof.
  unfold look_up. intros Hl. tx_inv. subst x. cbn [db with_db] in *.
  destruct (find (at_account at_) (db w)) as [acc|]; [|tx_inv; by simplify_eq].
  destruct (at_device at_) as [hash|]; [|tx_inv; by simplify_eq]. tx_inv. simplify_eq.
  split; [done|]. intros Hk. eauto.
Qed.

(** [check] up to its write: the verdict that the write transaction decides on. *)
Lemma check_verified {T} permit at_ now (success : Account -> Z -> Tx AuthError T) w o w' :
  check app permit at_ now success w = (Ok o, w') ->
  (permit = false /\ o = Busy /\ db w' = db (interfere w)) \/
  (permit = true /\ find (at_account at_) (db (interfere w)) = None /\ o = Failure /\
     db w' = db (interfere w)) \/
  (permit = true /\ exists a v w1 w2,
     find (at_account at_) (db (interfere w)) = Some a /\
     db w1 = db (interfere (interfere w)) /\
     decide app (id a) v now success w1 = (Ok o, w2) /\ db w' = db w2 /\
     v_code v = at_code at_ /\
     (v_known_device v = true -> exists hash, at_device at_ = Some hash /\
        is_known_device (id a) hash now (db (interfere w)) = true) /\
     (forall h, v_hash v = Some h ->
        char_count (at_password at_) <= PASSWORD_MAX /\ char_count (at_code at_) <= CODE_MAX /\
        verify_password (at_password at_) h = true /\ password_hash a = Some h)).
Proof.
  unfold check. intros Hc. apply Tx_bind_Ok in Hc as ([a known] & w1 & Hr & Hc).
  unfold read in Hr. destruct (still_Ok _ _ _ _ (still_look_up _ _) Hr) as [Hd1 Ho1].
  apply look_up_Ok in Hr as [Ha Hk]. destruct permit; cbn [negb] in Hc.
  2: { tx_inv. left. by simplify_eq. }
  right. apply Tx_bind_Ok in Hc as (dm & w2 & Hdm & Hc).
  destruct (still_Ok _ _ _ _ still_dummy_hash Hdm) as [Hd2 Ho2].
  apply Tx_bind_Ok in Hc as (u & w3 & [= <- <-] & Hc).
  destruct a as [a|].
  - right. split; [done|]. apply write_Ok in Hc as (w4 & w5 & Hd4 & _ & Hdec & Hd5 & _ & _ & _).
    eexists a, _, w4, w5. split_and!; [done| |exact Hdec|done|done| |].
    + rewrite Hd4. apply interfere_same; cbn; congruence.
    + intros Hkn. cbn in Hkn. destruct (Hk Hkn) as (acc & hash & [= <-] & Hdev & Hkd). eauto.
    + intros h Hh. cbn in Hh. apply opt_filter_Some in Hh as [Ht Hm]. rewrite Ht in Hm.
      apply opt_filter_Some in Ht as [Hu Hov]. rewrite negb_true_iff in Hov. rewrite Hov in Hm.
      apply orb_false_iff in Hov as [Hpw Hcd]. propify. cbn in Hm.
      split_and!; [done|done|by destruct Hm|].
      unfold usable_hash in Hu. cbn in Hu. destruct (password_hash a); [|done]. by case_if.
  - left. tx_inv. simplify_eq. split_and!; try done. cbn. congruence.
Qed.

(** Everything a failed sign-in must not touch: all but the failure counters and the
    outbox. *)
Definition secrets (d : Db) :=
  (map (fun u => (u_id u, u_email u, u_password_hash u, u_role u, u_disabled u, u_totp_nonce u,
                  u_totp_last_step u)) (users d),
   sessions d, known_devices d, recovery_codes d, tokens d, projects d, audit_log d).

Lemma map_update_where {A B} (g : A -> B) (p : A -> bool) (f : A -> A) l :
  (forall x, g (f x) = g x) -> map g (update_where p f l) = map g l.
Proof.
  intros Hg. unfold update_where. rewrite map_map. apply map_ext. intros x.
  destruct (p x); [apply Hg|done].
Qed.

Lemma secrets_users p f d :
  (forall u, u_id (f u) = u_id u /\ u_email (f u) = u_email u /\
             u_password_hash (f u) = u_password_hash u /\ u_role (f u) = u_role u /\
             u_disabled (f u) = u_disabled u /\ u_totp_nonce (f u) = u_totp_nonce u /\
             u_totp_last_step (f u) = u_totp_last_step u) ->
  secrets (set_users (update_where p f) d) = secrets d.
Proof.
  intros Hf. unfold secrets. cbn. rewrite map_update_where; [done|]. intros u.
  destruct (Hf u) as (-> & -> & -> & -> & -> & -> & ->). done.
Qed.

Lemma enqueue_secrets {E} `{FromSql E} `{FromRecipient E} mail now s :
  preserves (fun d => secrets d = s) (enqueue (E := E) mail now).
Proof.
  unfold enqueue. apply preserves_bind.
  { destruct (n_recipient mail); [|apply preserves_mret]. destruct (validate_recipient _);
      [apply preserves_mret|by intros w x w']. }
  intros _. apply preserves_bind; [|intros i; apply preserves_bind; [by intros w a w' [= <- <-]|];
    intros _; apply preserves_mret].
  apply preserves_stmt. intros d i d' Hs Hi.
  by apply insert_mail_Ok in Hi as (_ & row & -> & _).
Qed.

Lemma count_failure_secrets a known now s :
  preserves (fun d => secrets d = s) (count_failure app a known now).
Proof.
  unfold count_failure. destruct known.
  - apply preserves_execute. intros d Hd. by rewrite secrets_users.
  - apply preserves_bind.
    + apply preserves_stmt. intros d x d' Hd [= _ <-]. by rewrite secrets_users.
    + intros [[[] []]|]; try apply preserves_mret.
      apply preserves_bind; [apply enqueue_secrets|]. intros _. apply preserves_mret.
Qed.

Lemma decide_failure {T} user v now (success : Account -> Z -> Tx AuthError T) w o w' :
  decide app user v now success w = (Ok o, w') -> (forall t, o <> Success t) ->
  secrets (db w') = secrets (db w).
Proof.
  unfold decide. intros Hd Ho. tx_inv. subst x. cbn [db with_db] in *.
  destruct (find (ById user) (db w)) as [a|]; [|tx_inv; by simplify_eq].
  destruct (blocked _ _ _); [tx_inv; by simplify_eq|].
  destruct (negb (_ && _)).
  { tx_inv. simplify_eq. by eapply count_failure_secrets; [exact Hx|]. }
  apply Tx_bind_Ok in Hd as (factor & w1 & Hf & Hd).
  destruct factor as [[]|].
  - tx_inv. simplify_eq. by edestruct Ho.
  - tx_inv. simplify_eq. eapply count_failure_secrets; [exact Hx|].
    unfold second_factor in Hf. destruct (totp_nonce a); [|by destruct (requires_two_factor _); tx_inv; simplify_eq].
    tx_inv. simplify_eq. apply code_accepted_false in Hx0. by rewrite Hx0.
  - unfold second_factor in Hf. destruct (totp_nonce a); [by tx_inv; simplify_eq|].
    destruct (requires_two_factor _); tx_inv; by simplify_eq.
Qed.

(** A blocked account: the attempt fails and changes nothing. *)
Lemma decide_blocked {T} user v now (success : Account -> Z -> Tx AuthError T) w o w' a :
  decide app user v now success w = (Ok o, w') ->
  find (ById user) (db w) = Some a -> blocked a (v_known_device v) now = true ->
  o = Failure /\ db w' = db w.
Proof.
  unfold decide. intros Hd Hf Hb. tx_inv. subst x. rewrite Hf, Hb in Hd. tx_inv. by simplify_eq.
Qed.
End CredentialLemmas.

(** ** Theorems *)

(** What a passed check rests on. When a check succeeds then, in the database its write
    transaction found, the account exists, is enabled and not blocked for this browser,
    the submitted password verifies against the hash stored then, an admin has a second
    factor enrolled, and an enrolled account's code was a later TOTP step or an unused
    recovery code, used up in the same transaction. *)
Lemma check_success `{Crates} {T} (app : App) (permit : bool) (at_ : Attempt)
    (now : Z) (success : Account -> Z -> Tx AuthError T) (w w' : World) (t : T) :
  check app permit at_ now success w = (Ok (Success t), w') ->
  let d := db (interfere (interfere w)) in
  exists a0 a h known d1 w1 w2,
    find (at_account at_) (db (interfere w)) = Some a0 /\ id a0 = id a /\
    find (ById (id a)) d = Some a /\ disabled a = false /\ blocked a known now = false /\
    (known = true -> exists hash, at_device at_ = Some hash /\
       is_known_device (id a) hash now (db (interfere w)) = true) /\
    password_hash a = Some h /\ verify_password (at_password at_) h = true /\
    (acc_role a = Admin -> totp_nonce a <> None) /\
    match totp_nonce a with
    | Some nonce => factor_used (id a) (account_seed app (id a) nonce) (at_code at_) now d d1
    | None => d1 = d
    end /\
    db w1 = set_users (update_where (fun u => u_id u =? id a) clear_failures) d1 /\
    success a now w1 = (Ok t, w2) /\ db w' = db w2.
Proof.
  intros Hc. destruct (check_verified _ _ _ _ _ _ _ _ Hc)
    as [(_ & [=] & _)|[(_ & _ & [=] & _)|(_ & a0 & v & w1 & w2 & Hf & Hd1 & Hdec & Hd2 & Hcode & Hk & Hh)]].
  apply decide_success in Hdec as (a & d1 & w3 & [Hfa Hb Hen (h & Hvh & Hph) Hadm] & Hfac & Hd3 & Hs).
  rewrite Hd1 in *. destruct (find_by_id _ _ _ Hfa) as (u & _ & -> & Hid).
  change (id (account_row u)) with (u_id u) in *. cbn zeta.
  exists a0, (account_row u), h, (v_known_device v), d1, w3, w2.
  change (id (account_row u)) with (u_id u). rewrite Hid in *. rewrite Hcode in Hfac.
  destruct (Hh h Hvh) as (_ & _ & Hver & _). by split_and!.
Qed.

(** A failed sign-in changes only failure counters and the outbox: no session, device,
    code, token, password or enrollment is touched, whatever was submitted. *)
Theorem failure_changes_only_counters `{Crates} {T} (app : App) (permit : bool) (at_ : Attempt)
    (now : Z) (success : Account -> Z -> Tx AuthError T) (w w' : World) (o : Outcome T) :
  check app permit at_ now success w = (Ok o, w') -> (forall t, o <> Success t) ->
  others w = [] -> secrets (db w') = secrets (db w).
Proof.
  intros Hc Ho Hq. assert (Hi : interfere w = w) by (unfold interfere; by rewrite Hq).
  destruct (check_verified _ _ _ _ _ _ _ _ Hc)
    as [(_ & _ & Hd)|[(_ & _ & _ & Hd)|(_ & a0 & v & w1 & w2 & _ & Hd1 & Hdec & Hd2 & _)]];
    rewrite ?Hi in *; [by rewrite Hd..|].
  by rewrite Hd2, (decide_failure _ _ _ _ _ _ _ _ Hdec Ho), Hd1.
Qed.

(** While an account is locked, every sign-in without one of its device cookies fails
    and changes nothing, even with the right password and code. *)
Theorem locked_account_is_frozen `{Crates} {T} (app : App) (permit : bool) (at_ : Attempt)
    (now until : Z) (success : Account -> Z -> Tx AuthError T) (w w' : World) (o : Outcome T)
    (a : Account) :
  check app permit at_ now success w = (Ok o, w') -> others w = [] -> at_device at_ = None ->
  find (at_account at_) (db w) = Some a -> find (ById (id a)) (db w) = Some a ->
  locked_until a = Some until -> now < until ->
  (o = Failure \/ o = Busy) /\ db w' = db w.
Proof.
  intros Hc Hq Hdev Hfa Hfid Hl Hn.
  assert (Hi : interfere w = w) by (unfold interfere; by rewrite Hq).
  destruct (check_verified _ _ _ _ _ _ _ _ Hc)
    as [(_ & -> & Hd)|[(_ & _ & -> & Hd)|(_ & a0 & v & w1 & w2 & Hf & Hd1 & Hdec & Hd2 & _ & Hk & _)]];
    rewrite ?Hi in *; [by auto..|].
  assert (a0 = a) as -> by congruence.
  destruct (decide_blocked _ _ _ _ _ _ _ _ a Hdec) as [-> Hdb]; [by rewrite Hd1| |rewrite Hd2, Hdb, Hd1; auto].
  destruct (v_known_device v); [destruct (Hk eq_refl) as (hash & Hh & _); congruence|].
  unfold blocked. rewrite Hl. cbn. lia.
Qed.

(** ** Replay *)

Lemma step_used user step l :
  count_where (step_later user step) (update_where (step_later user step) (set_last_step step) l) = 0.
Proof.
  apply count_where_0, Forall_forall. intros u Hu. apply elem_of_update_where in Hu as (x & _ & ->).
  destruct (step_later user step x) eqn:E; [|done]. unfold step_later. cbn.
  rewrite Z.ltb_irrefl. by rewrite andb_false_r.
Qed.

Lemma count_where_impl {A} (p q : A -> bool) l :
  (forall x, p x = true -> q x = true) -> count_where q l = 0 -> count_where p l = 0.
Proof.
  intros Hpq. rewrite !count_where_0, !Forall_forall. intros Hq x Hx. specialize (Hq x Hx).
  destruct (p x) eqn:E; [|done]. rewrite (Hpq x E) in Hq. done.
Qed.

Lemma code_used user hash l :
  let p c := (r_user_id c =? user) && zlist_eqb (r_code_hash c) hash in
  count_where p (delete_where p l) = 0.
Proof.
  cbn. apply count_where_0, Forall_forall. intros c Hc. by apply elem_of_delete_where in Hc as [_ ?].
Qed.


(** ** Guessing *)

Definition lock_time (t : Z) (u : User) : Z :=
  match u_locked_until u with Some l => Z.max t l | None => t end.

(** Rows as the code leaves them: fewer failures than lock, a lock of at most 15 minutes,
    no failure counted while it lasts. *)
Definition lockout_wf (t : Z) (u : User) : Prop :=
  0 <= u_failed_logins u < LOCK_AFTER /\
  forall l, u_locked_until u = Some l -> l <= t + LOCK_SECONDS /\ (t < l -> u_failed_logins u = 0).

Section Guessing.
Context `{Crates} (app : App) (user : Z).

(** One wrong password from a browser without a device cookie, decided alone. *)
Definition guess (t : Z) (d : Db) : Db :=
  db (write (decide (T := unit) app user
               {| v_hash := None; v_known_device := false; v_code := [] |} t
               (fun _ _ => mret tt)) (quiet d [])).2.

(** How many of the guesses at times [ts] were weighed at all. *)
Fixpoint guesses (ts : list Z) (d : Db) : Z :=
  match ts with
  | [] => 0
  | t :: ts =>
      (if is_some_and (fun a => negb (blocked a false t)) (find (ById user) d) then 1 else 0)
      + guesses ts (guess t d)
  end.

Lemma find_user_failure d p f :
  (forall u, u_id (f u) = u_id u) ->
  find_user (set_users (update_where p f) d) user =
  (fun u => if p u then f u else u) <$> find_user d user.
Proof. intros Hf. unfold find_user. cbn. apply find_first_update. intros u. by rewrite Hf. Qed.

Lemma has_user_find d u : find_user d user = Some u -> has_user d user = true.
Proof.
  intros Hu. apply existsb_In. exists u. unfold find_user in Hu.
  by apply find_first_Some in Hu.
Qed.

Lemma blocked_lock_open u t : blocked (account_row u) false t = negb (lock_open t u).
Proof.
  unfold blocked, lock_open. cbn. destruct (u_locked_until u); cbn; [|done].
  rewrite Z.leb_antisym. by rewrite negb_involutive.
Qed.

(** A guess counts once, or not at all while the lock lasts. *)
Lemma guess_user t d u :
  find_user d user = Some u ->
  find_user (guess t d) user = Some (if lock_open t u then count_login_failure t u else u).
Proof.
  intros Hu. apply find_first_Some in Hu as Hid. destruct Hid as [_ Hid]. propify. unfold guess.
  set (w := quiet d []).
  assert (Hfind : find (ById user) d = Some (account_row u))
    by (unfold find; unfold find_user in Hu; by rewrite Hu).
  unfold decide. destruct (lock_open t u) eqn:El.
  - set (w0 := with_db d (tick w)).
    assert (Hcf : exists w2, count_failure app (account_row u) false t (with_db d (tick w0)) = (Ok tt, w2) /\
        faults w2 = [] /\ find_user (db w2) user = Some (count_login_failure t u)).
    { unfold count_failure. cbn [id account_row]. rewrite Hid.
      set (d' := set_users (update_where (fun x => (u_id x =? user) && lock_open t x)
                              (count_login_failure t)) d).
      assert (Hu' : find_user d' user = Some (count_login_failure t u)).
      { unfold d'. rewrite find_user_failure, Hu by done. cbn. rewrite Hid, Z.eqb_refl, El. done. }
      erewrite Tx_bind_run by (apply (stmt_run _ _ _ d'); done). cbv beta.
      destruct (_ <$> _) as [[[] []]|]; try (eexists; split_and!; done).
      erewrite Tx_bind_run.
      2: { unfold enqueue. cbn [n_recipient].
           erewrite Tx_bind_run by reflexivity. cbv beta.
           erewrite Tx_bind_run; [reflexivity|]. apply stmt_run; [done|].
           unfold insert_mail. cbn [n_recipient]. cbn [db with_db].
           rewrite (has_user_find _ _ Hu'). reflexivity. }
      eexists. split_and!; done. }
    destruct Hcf as (w2 & Hcf & Hf2 & Hu2).
    erewrite write_run; [cbn; exact Hu2|done|done| |exact Hf2].
    erewrite Tx_bind_run by (apply (stmt_run _ _ _ d); done). cbn [db with_db].
    cbv beta. change (db w) with d. rewrite Hfind, blocked_lock_open, El. cbn [negb v_hash v_known_device].
    rewrite (bool_decide_eq_false_2 (None <> None)) by (by intros []). cbn [andb negb].
    by erewrite Tx_bind_run by exact Hcf.
  - rewrite (write_run _ w Failure (with_db d (tick (with_db d (tick w))))); [exact Hu|done|done| |done].
    erewrite Tx_bind_run by (apply (stmt_run _ _ _ d); done). cbv beta.
    cbn [db with_db]. change (db w) with d. rewrite Hfind, blocked_lock_open, El. done.
Qed.

Lemma guesses_potential t0 t1 ts d u :
  find_user d user = Some u -> lockout_wf t0 u -> times_from t0 ts ->
  t0 <= t1 -> Forall (fun t => t <= t1) ts ->
  900 * guesses ts d + (10 * lock_time t0 u + 900 * u_failed_logins u) <= 10 * t1 + 9000.
Proof.
  revert t0 d u. induction ts as [|t ts IH]; intros t0 d u Hu [Hf Hl] Ht Hle Hall.
  - cbn. unfold lock_time, LOCK_AFTER, LOCK_SECONDS in *.
    destruct (u_locked_until u) as [l|]; [|lia]. destruct (Hl l eq_refl) as [H1 H2].
    destruct (Z.lt_ge_cases t0 l); [specialize (H2 ltac:(lia))|]; lia.
  - destruct Ht as [Ht Hts]. apply Forall_cons in Hall as [Hall1 Hall].
    cbn [guesses]. unfold find. unfold find_user in Hu. rewrite Hu. cbn [fmap option_fmap option_map is_some_and].
    rewrite blocked_lock_open, negb_involutive. fold (find_user d user) in Hu.
    pose proof (guess_user t d u Hu) as Hg.
    destruct (lock_open t u) eqn:El.
    + specialize (IH t (guess t d) _ Hg). unfold lock_open in El.
      assert (Hopen : lock_time t0 u <= t).
      { unfold lock_time. destruct (u_locked_until u); propify; lia. }
      assert (Hw : lockout_wf t (count_login_failure t u)).
      { unfold count_login_failure, lockout_wf, locks, LOCK_AFTER in *. cbn.
        destruct (Z.leb_spec 10 (u_failed_logins u + 1)); cbn; (split; [lia|]).
        - intros l [= <-]. split; [lia|done].
        - intros l Hl'. rewrite Hl' in El. propify. unfold LOCK_SECONDS. split; lia. }
      specialize (IH Hw Hts Hall1 Hall). revert IH. unfold count_login_failure, locks, LOCK_AFTER in *.
      unfold lock_time. cbn. destruct (Z.leb_spec 10 (u_failed_logins u + 1)); cbn.
      * unfold LOCK_SECONDS. intros IH. unfold lock_time in Hopen. lia.
      * intros IH. unfold lock_time in Hopen. destruct (u_locked_until u); propify; lia.
    + specialize (IH t (guess t d) _ Hg). unfold lock_open in El.
      destruct (u_locked_until u) as [l|] eqn:Elock; [|done]. propify.
      destruct (Hl l eq_refl) as [H1 H2].
      assert (Hw : lockout_wf t u).
      { split; [done|]. intros l' Hl'. rewrite Elock in Hl'. injection Hl' as <-. split; [lia|].
        intros _. apply H2. lia. }
      specialize (IH Hw Hts Hall1 Hall). unfold lock_time in *. rewrite Elock in *. lia.
Qed.
End Guessing.

(** C11: guessing is slow. However an attacker without a device cookie times wrong passwords,
    the account weighs at most ten at once and one every 90 seconds on average; the rest
    are refused unseen. *)
Theorem guess_rate_bound `{Crates} (app : App) (user t0 t1 : Z) (ts : list Z) (d : Db) (u : User) :
  find_user d user = Some u -> lockout_wf t0 u -> times_from t0 ts ->
  t0 <= t1 -> Forall (fun t => t <= t1) ts ->
  90 * guesses app user ts d <= (t1 - t0) + 900.
Proof.
  intros Hu Hw Ht Hle Hall. pose proof (guesses_potential app user t0 t1 ts d u Hu Hw Ht Hle Hall) as Hp.
  destruct Hw as [Hf _]. assert (t0 <= lock_time t0 u) by (unfold lock_time; destruct (u_locked_until u); lia).
  lia.
Qed.

(** ** Work done by a check *)

(** Parts that begin no password check. *)
Definition hashless {E A} (t : Tx E A) : Prop :=
  forall w, password_checks (t w).2 = password_checks w.

Section Hashless.
Context {E : Type} `{FromSql E} `{FromRandom E}.

Lemma hashless_bind {A B} (m : Tx E A) (f : A -> Tx E B) :
  hashless m -> (forall a, hashless (f a)) -> hashless (m ≫= f).
Proof.
  intros Hm Hf w. specialize (Hm w). unfold mbind, Tx_bind.
  destruct (m w) as [[a|e] w1]; cbn in *; [by rewrite Hf|done].
Qed.

Lemma hashless_mret {A} (a : A) : hashless (mret a : Tx E A).
Proof. done. Qed.

Lemma hashless_stmt {A} (f : Db -> result unit (A * Db)) : hashless (stmt f).
Proof. intros w. unfold stmt. destruct (faulty w); [done|]. by destruct (f (db w)) as [[]|]. Qed.

Lemma hashless_query {A} (f : Db -> A) : hashless (query f).
Proof. apply hashless_stmt. Qed.

Lemma hashless_execute (f : Db -> Db) : hashless (execute f).
Proof. apply hashless_stmt. Qed.

Lemma hashless_consume count f : hashless (consume_one count f).
Proof.
  apply hashless_bind; [apply hashless_stmt|]. intros n. by repeat case_if.
Qed.

Lemma hashless_draw {A} (f : Tape -> result unit A * Tape) : hashless (draw f).
Proof. intros w. unfold draw. by destruct (f (tape w)) as [[]]. Qed.

Lemma hashless_interfere w : password_checks (interfere w) = password_checks w.
Proof. unfold interfere. by destruct (others w). Qed.

Lemma hashless_write {A} (t : Tx E A) : hashless t -> hashless (write t).
Proof.
  intros Ht w. unfold write. cbv zeta.
  assert (Hs := hashless_stmt (fun d => Ok (tt, d)) (interfere w)).
  rewrite hashless_interfere in Hs.
  destruct (stmt _ (interfere w)) as [[u|] w1]; cbn in *; [|done].
  specialize (Ht w1). destruct (t w1) as [[a|] w2]; cbn in *; [|congruence].
  assert (Hs2 := hashless_stmt (fun d => Ok (tt, d)) w2).
  destruct (stmt _ w2) as [[v|] w3]; cbn in *; congruence.
Qed.
End Hashless.

#[export] Hint Resolve hashless_bind hashless_mret hashless_stmt hashless_query hashless_execute
  hashless_consume hashless_draw hashless_write : kohaku.

Lemma hashless_enqueue `{Crates} mail now : hashless (enqueue (E := AuthError) mail now).
Proof.
  unfold enqueue. apply hashless_bind.
  { destruct (n_recipient mail); [|done]. by destruct (validate_recipient _). }
  intros _. apply hashless_bind; [auto with kohaku|]. intros i. by apply hashless_bind.
Qed.

Lemma hashless_count_failure `{Crates} app a known now : hashless (count_failure app a known now).
Proof.
  unfold count_failure. destruct known; [auto with kohaku|].
  apply hashless_bind; [auto with kohaku|]. intros [[[] []]|]; auto with kohaku.
  apply hashless_bind; [apply hashless_enqueue|]. auto with kohaku.
Qed.

Lemma hashless_code_accepted `{Crates} user seed code now : hashless (code_accepted user seed code now).
Proof.
  unfold code_accepted. destruct (is_code _).
  - destruct (matching_step _ _ _); auto with kohaku.
  - destruct (normalize _); unfold consume_code; auto with kohaku.
Qed.

Lemma hashless_decide `{Crates} {T} app user v now (success : Account -> Z -> Tx AuthError T) :
  (forall a n, hashless (success a n)) -> hashless (decide app user v now success).
Proof.
  intros Hs. apply hashless_bind; [auto with kohaku|]. intros [a|]; [|done].
  destruct (blocked _ _ _); [done|]. cbv zeta. destruct (negb (_ && _)).
  { apply hashless_bind; [apply hashless_count_failure|]. auto with kohaku. }
  apply hashless_bind.
  { unfold second_factor. destruct (totp_nonce a); [|by destruct (requires_two_factor _)].
    apply hashless_bind; [apply hashless_code_accepted|]. auto with kohaku. }
  intros [[]|]; [| |done].
  - apply hashless_bind; [auto with kohaku|]. intros _. apply hashless_bind; auto with kohaku.
  - apply hashless_bind; [apply hashless_count_failure|]. auto with kohaku.
Qed.

Lemma hashless_dummy_hash `{Crates} : hashless dummy_hash.
Proof.
  apply hashless_bind; [done|]. intros [h|]; [done|].
  apply hashless_bind; [apply hashless_draw|]. intros p.
  apply hashless_bind; [apply hashless_bind; [apply hashless_draw|done]|]. intros h.
  by apply hashless_bind.
Qed.

(** Every answered check does the same password work: exactly one verification, whether
    the account exists, is locked, disabled or has no password, or the input is too
    long; only a check that got no permit does none. *)
Theorem check_hashes_once `{Crates} {T} (app : App) (permit : bool) (at_ : Attempt) (now : Z)
    (success : Account -> Z -> Tx AuthError T) (w w' : World) (o : Outcome T) :
  (forall a n, hashless (success a n)) ->
  check app permit at_ now success w = (Ok o, w') ->
  password_checks w' = password_checks w + (if permit then 1 else 0).
Proof.
  intros Hs Hc. unfold check in Hc. apply Tx_bind_Ok in Hc as ([a known] & w1 & Hr & Hc).
  assert (H1 : password_checks w1 = password_checks w).
  { unfold read in Hr. rewrite <- (hashless_interfere w).
    change w1 with (@snd (result AuthError (option Account * bool)) World (Ok (a, known), w1)).
    rewrite <- Hr. clear. unfold look_up. revert w. intros w. generalize (interfere w). clear w.
    change (hashless (look_up at_ now)). apply hashless_bind; [auto with kohaku|].
    intros [x|]; [|done]. destruct (at_device at_); [|done].
    apply hashless_bind; auto with kohaku. }
  destruct permit; cbn [negb] in Hc; [|tx_inv; simplify_eq; lia].
  apply Tx_bind_Ok in Hc as (dm & w2 & Hdm & Hc).
  assert (H2 : password_checks w2 = password_checks w1)
    by (pose proof (hashless_dummy_hash w1) as Hh; by rewrite Hdm in Hh).
  apply Tx_bind_Ok in Hc as (u & w3 & [= <- <-] & Hc). destruct a as [a|].
  - match type of Hc with write ?t ?x = _ => pose proof (hashless_write t) as Hw; specialize (Hw
      ltac:(by apply hashless_decide) x) end. rewrite Hc in Hw. cbn in Hw. lia.
  - tx_inv. simplify_eq. cbn. lia.
Qed.
