(* ===== verification/Accounts.v ===== *)
(** * The account handlers
    (src/src/admin/{mod,login,account,reset}.rs, src/src/auth/commands.rs)

    Each handler is a function from the request and the [World] to its answer and the new
    [World]. Permits, rate-limit decisions and clock readings are inputs: which of them a
    request gets is decided elsewhere. Templates are named with the values they show. *)

From S2P Require Import Prelude Str Codec Keys Net Rate Config Urls Totp Text Time Http Db.
From S2P Require Import Outbox Auth Credentials.

(** ** Handlers *)

Definition Handler (P : Type) : Type := World -> Response P * World.

Definition respond {P} (r : Response P) : Handler P := fun w => (r, w).

(** Runs [t] and continues with its value, or with its error. *)
Definition on_result {E A P} (t : Tx E A) (bad : E -> Handler P) (good : A -> Handler P)
  : Handler P := fun w =>
  match t w with
  | (Ok a, w) => good a w
  | (Err e, w) => bad e w
  end.

(** [admin::server_error]. *)
Definition server_error {E P} (e : E) : Handler P := respond (Status 500).

(** ** Pages *)

(** [admin::Nav]. *)
Record Nav := { nav_email : str; nav_csrf : str; nav_admin : bool }.

Inductive Page :=
| LoginPage (failed : bool)
| TwoFactorRequiredPage
| HomePage (nav : Nav) (role : str) (totp_enrolled : bool) (listed : list Project)
| AccountPage (nav : Nav) (role : str) (totp_enrolled two_factor_required : bool)
    (recovery_left : Z) (error notice : option str)
| EnrollPage (nav : Nav) (uri seed : str) (failed : bool)
| CodesPage (nav : Nav) (intro : str) (codes : list str)
| RequestPage
| SentPage
| FormPage (token : str) (error : option str)
| InvalidPage
| DonePage.

Definition HOME : str := lit "/admin".
Definition ACCOUNT_PATH : str := lit "/admin/account".
Definition REAUTH_FAILED : str :=
  lit "That did not work. Check your current password and code, then try again.".

Definition rule_message (r : PasswordRule) : str :=
  match r with
  | TooShort => lit "The password needs at least 12 characters."
  | TooLong => lit "The password may have at most 1024 characters."
  end.

Section Accounts.
Context `{Crates} (app : App).

Definition nav_of (user : SessionUser) : Nav :=
  {| nav_email := email user; nav_csrf := csrf_field user;
     nav_admin := bool_decide (role user = Admin) |}.

(** ** Login (login.rs) *)

(** [login::form]. *)
Definition login_form (headers : list bytes) (now : Z) : Handler Page :=
  on_result (current headers now) server_error (fun user =>
    respond (match user with Some _ => SeeOther HOME [] | None => Html (LoginPage false) end)).

Record LoginForm := { lf_email : str; lf_password : str; lf_code : str }.

(** The work of a passed login, in the deciding transaction. *)
Definition login_success (device : option bytes) (a : Account) (now : Z)
  : Tx AuthError (str * option str) :=
  session ← create_session (id a) now;
  known ← (match device with
           | Some hash => query (is_known_device (id a) hash now)
           | None => mret false
           end : Tx AuthError bool);
  if (known : bool) then mret (session, None)
  else d ← add_device (id a) now; mret (session, Some d).

(** [login::submit]. *)
Definition login_submit (permit : bool) (headers : list bytes) (form : LoginForm) (now : Z)
  : Handler Page :=
  let device := device_hash headers in
  let attempt := {| at_account := ByEmail (normalize_email (lf_email form));
                    at_password := lf_password form; at_code := lf_code form;
                    at_device := device |} in
  on_result (check app permit attempt now (login_success device)) server_error (fun o =>
    respond (match o with
             | Success (token, device) =>
                 SeeOther HOME (session_cookie token ::
                   match device with Some d => [device_cookie d] | None => [] end)
             | Failure => Html (LoginPage true)
             | TwoFactorRequired => Html TwoFactorRequiredPage
             | Busy => BusyAnswer Hashing
             end)).

(** ** Signed-in home and logout (mod.rs) *)

(** [admin::logout]. *)
Definition logout (user : SessionUser) : Handler Page :=
  on_result (write (execute (set_sessions (delete_where (fun s => s_id s =? session_id user)))
                    : Tx AuthError unit))
    server_error (fun _ => respond (SeeOther LOGIN_PATH [expired_session_cookie])).

(** ** The account page (account.rs) *)

(** The [SELECT] of [page]; no row is an error. *)
Definition select_account_state (user : Z) (d : Db) : result unit ((bool * Z) * Db) :=
  match find_user d user with
  | Some u => Ok ((bool_decide (u_totp_nonce u <> None),
                   count_where (fun c => r_user_id c =? user) (recovery_codes d)), d)
  | None => Err tt
  end.

Definition account_page (user : SessionUser) (error notice : option str) : Handler Page :=
  on_result (read (stmt (select_account_state (user_id user)) : Tx AuthError (bool * Z)))
    server_error (fun '(enrolled, codes_left) =>
      respond (Html (AccountPage (nav_of user) (role_as_str (role user)) enrolled
                       (requires_two_factor (role user)) codes_left error notice))).

Definition codes_page (user : SessionUser) (intro : str) (codes : list str) : Response Page :=
  Html (CodesPage (nav_of user) intro (map display codes)).

Definition enroll_page (user : SessionUser) (nonce : bytes) (failed : bool) : Response Page :=
  let seed := account_seed app (user_id user) nonce in
  Html (EnrollPage (nav_of user) (key_uri (host (app_base_url app)) (email user) seed)
          (seed_base32 seed) failed).

(** [account::show]. *)
Definition show (user : SessionUser) : Handler Page := account_page user None None.

Record Reauth := { current_password : str; reauth_code : str }.

(** [Reauth::attempt]. *)
Definition reauth_attempt (form : Reauth) (user : SessionUser) (headers : list bytes) : Attempt :=
  {| at_account := ById (user_id user); at_password := current_password form;
     at_code := reauth_code form; at_device := device_hash headers |}.

(** [reauthed]: continues after a passed check, answers otherwise. *)
Definition reauthed {T} (user : SessionUser) (t : Tx AuthError (Outcome T))
  (done : T -> Handler Page) : Handler Page :=
  on_result t server_error (fun o =>
    match o with
    | Success v => done v
    | Failure | TwoFactorRequired => account_page user (Some REAUTH_FAILED) None
    | Busy => respond (BusyAnswer Hashing)
    end).

Definition set_password (hash : str) (u : User) : User :=
  {| u_id := u_id u; u_email := u_email u; u_password_hash := Some hash; u_role := u_role u;
     u_disabled := u_disabled u; u_totp_nonce := u_totp_nonce u;
     u_totp_last_step := u_totp_last_step u; u_failed_logins := u_failed_logins u;
     u_locked_until := u_locked_until u; u_device_failures := u_device_failures u;
     u_device_window_start := u_device_window_start u;
     u_lockout_mailed_at := u_lockout_mailed_at u; u_created_at := u_created_at u |}.

Definition set_totp (nonce : option bytes) (step : option Z) (u : User) : User :=
  {| u_id := u_id u; u_email := u_email u; u_password_hash := u_password_hash u;
     u_role := u_role u; u_disabled := u_disabled u; u_totp_nonce := nonce;
     u_totp_last_step := step; u_failed_logins := u_failed_logins u;
     u_locked_until := u_locked_until u; u_device_failures := u_device_failures u;
     u_device_window_start := u_device_window_start u;
     u_lockout_mailed_at := u_lockout_mailed_at u; u_created_at := u_created_at u |}.

Definition set_pending (nonce : option bytes) (s : Session) : Session :=
  {| s_id := s_id s; s_token_hash := s_token_hash s; s_user_id := s_user_id s;
     s_csrf_token := s_csrf_token s; s_created_at := s_created_at s; s_last_seen := s_last_seen s;
     s_pending_totp_nonce := nonce |}.

(** The statements shared by a password change and a reset: the hash, the sessions and
    devices, the reset tokens, the mail and the audit entry. *)
Definition store_password (user : Z) (r : Role) (hash : str) (action : Action) (now : Z)
  : Tx AuthError unit :=
  _ ← execute (set_users (update_where (fun u => u_id u =? user) (set_password hash)));
  _ ← end_all user;
  _ ← execute (update_tokens (unused_reset_of (Some user)) (use_token now));
  let text := password_changed (app_origin app) now in
  _ ← enqueue {| n_kind := PASSWORD_CHANGED; n_recipient := ToUser user;
                 n_subject := text_subject text; n_body := text_body text;
                 n_placeholder := false |} now;
  audit (UserActor user r) action (TUser user) now.

Record PasswordForm := {
  pf_current_password : str; pf_code : str; pf_new_password : str; pf_new_password_again : str }.

(** [account::change_password]; [permit] is for hashing the new password, [permit'] for
    checking the current one. *)
Definition change_password (permit permit' : bool) (user : SessionUser) (headers : list bytes)
  (form : PasswordForm) (now : Z) : Handler Page :=
  match check_password_rule (pf_new_password form) with
  | Err rule => account_page user (Some (rule_message rule)) None
  | Ok _ =>
      if negb (zlist_eqb (pf_new_password form) (pf_new_password_again form)) then
        account_page user (Some (lit "The two new passwords differ.")) None
      else if negb permit then respond (BusyAnswer Hashing)
      else
        on_result (hash_password (pf_new_password form)) server_error (fun hash =>
          let reauth := {| current_password := pf_current_password form;
                           reauth_code := pf_code form |} in
          reauthed user
            (check app permit' (reauth_attempt reauth user headers) now
               (fun a now => store_password (id a) (acc_role a) hash UserPasswordChange now))
            (fun _ => respond (SeeOther LOGIN_PATH [])))
  end.

(** The work of [start_totp] after the check: the nonce, kept on the session. *)
Definition start_totp_tx (user : SessionUser) (a : Account) (now : Z) : Tx AuthError bytes :=
  nonce ← draw (random_bytes NONCE_BYTES);
  _ ← execute (set_sessions (update_where (fun s => s_id s =? session_id user)
                               (set_pending (Some nonce))));
  mret nonce.

(** [account::start_totp]. *)
Definition start_totp (permit : bool) (user : SessionUser) (headers : list bytes) (form : Reauth)
  (now : Z) : Handler Page :=
  reauthed user
    (check app permit (reauth_attempt form user headers) now (start_totp_tx user))
    (fun nonce => respond (enroll_page user nonce false)).

Inductive Confirmed := NotStarted | WrongCode (nonce : bytes) | Enrolled (codes : list str).

(** The transaction of [confirm_totp]. *)
Definition confirm_totp_tx (user : SessionUser) (code : str) (now : Z) : Tx AuthError Confirmed :=
  pending ← query (fun d => s ← find_first (fun s => s_id s =? session_id user) (sessions d);
                            s_pending_totp_nonce s);
  match pending with
  | None => mret NotStarted
  | Some nonce =>
      match matching_step (account_seed app (user_id user) nonce) (trim code) now with
      | None => mret (WrongCode nonce)
      | Some step =>
          _ ← execute (set_users (update_where (fun u => u_id u =? user_id user)
                                    (set_totp (Some nonce) (Some step))));
          codes ← replace_codes (user_id user);
          _ ← execute (set_sessions (delete_where (fun s =>
                 (s_user_id s =? user_id user) && negb (s_id s =? session_id user))));
          _ ← execute (set_known_devices (delete_where (fun v => d_user_id v =? user_id user)));
          _ ← execute (set_sessions (update_where (fun s => s_id s =? session_id user)
                                       (set_pending None)));
          _ ← audit (UserActor (user_id user) (role user)) UserTotpEnable (TUser (user_id user)) now;
          mret (Enrolled codes)
      end
  end.

(** [account::confirm_totp]. *)
Definition confirm_totp (user : SessionUser) (code : str) (now : Z) : Handler Page :=
  on_result (write (confirm_totp_tx user code now)) server_error (fun c =>
    match c with
    | Enrolled codes =>
        respond (codes_page user
          (lit "Two-factor login is on. Every other session was signed out.") codes)
    | WrongCode nonce => respond (enroll_page user nonce true)
    | NotStarted => account_page user (Some (lit "Start the setup again.")) None
    end).

(** The work of [disable_totp] after the check. *)
Definition disable_totp_tx (a : Account) (now : Z) : Tx AuthError unit :=
  _ ← execute (set_users (update_where (fun u => u_id u =? id a) (set_totp None None)));
  _ ← execute (set_recovery_codes (delete_where (fun c => r_user_id c =? id a)));
  _ ← execute (set_known_devices (delete_where (fun v => d_user_id v =? id a)));
  audit (UserActor (id a) (acc_role a)) UserTotpDisable (TUser (id a)) now.

(** [account::disable_totp]. *)
Definition disable_totp (permit : bool) (user : SessionUser) (headers : list bytes)
  (form : Reauth) (now : Z) : Handler Page :=
  if requires_two_factor (role user) then
    account_page user (Some (lit "Your role requires two-factor login.")) None
  else
    reauthed user (check app permit (reauth_attempt form user headers) now disable_totp_tx)
      (fun _ => account_page user None (Some (lit "Two-factor login is off."))).

(** The work of [regenerate_codes] after the check. *)
Definition regenerate_tx (a : Account) (now : Z) : Tx AuthError (list str) :=
  codes ← replace_codes (id a);
  _ ← audit (UserActor (id a) (acc_role a)) UserRecoveryCodes (TUser (id a)) now;
  mret codes.

(** [account::regenerate_codes]. *)
Definition regenerate_codes (permit : bool) (user : SessionUser) (headers : list bytes)
  (form : Reauth) (now : Z) : Handler Page :=
  if negb (totp_enrolled user) then
    account_page user (Some (lit "Two-factor login is off.")) None
  else
    reauthed user
      (check app permit (reauth_attempt form user headers) now regenerate_tx)
      (fun codes => respond (codes_page user (lit "Your old recovery codes no longer work.") codes)).

(** The transaction of [end_other_sessions]. *)
Definition end_others_tx (user : SessionUser) (now : Z) : Tx AuthError unit :=
  _ ← execute (set_sessions (delete_where (fun s =>
         (s_user_id s =? user_id user) && negb (s_id s =? session_id user))));
  audit (UserActor (user_id user) (role user)) UserSessionsEnd (TUser (user_id user)) now.

(** [account::end_other_sessions]. *)
Definition end_other_sessions (user : SessionUser) (now : Z) : Handler Page :=
  on_result (write (end_others_tx user now)) server_error (fun _ => respond (SeeOther ACCOUNT_PATH [])).

(** ** Password reset (reset.rs) *)

Definition PLACEHOLDER_ADDRESS : str := lit "placeholder@kohaku.invalid".

(** The account a reset mail goes to. *)
Definition reset_account (e : str) (d : Db) : option Z :=
  u_id <$> find_first (fun u => zlist_eqb (u_email u) e && bool_decide (u_role u = Maintainer)
                                && negb (u_disabled u)
                                && bool_decide (u_password_hash u <> None)) (users d).

(** [user_id IS NULL AND purpose = 'reset' AND used_at IS NULL]. *)
Definition orphan_reset (t : Token) : bool :=
  bool_decide (t_user_id t = None) && bool_decide (t_purpose t = ResetToken)
  && bool_decide (t_used_at t = None).

(** [queue_reset]. *)
Definition queue_reset (e : str) (now : Z) : Tx AuthError unit :=
  account ← query (reset_account e);
  '(text, recipient, placeholder) ←
    (match account with
     | Some user =>
         link ← issue_reset_token (app_urls app) user now;
         mret (reset_link (app_origin app) now link, ToUser user, false)
     | None =>
         _ ← execute (update_tokens orphan_reset (use_token now));
         '(_, unused) ← draw random_token;
         mret (reset_link (app_origin app) now (token_link (app_urls app) (reset_path unused)),
               ToAddress PLACEHOLDER_ADDRESS, true)
     end : Tx AuthError (MailText * Recipient * bool));
  _ ← enqueue {| n_kind := RESET_LINK now; n_recipient := recipient;
                 n_subject := text_subject text; n_body := text_body text;
                 n_placeholder := placeholder |} now;
  mret tt.

(** The process's mail limits: the limiter, the instance-wide bucket and the per-boot MAC. *)
Record MailLimits := { limiter : Limiter; instance : Bucket; boot_mac : bytes -> bytes }.

(** The two checks of [request], the second only after the first. *)
Definition take_mail (l : MailLimits) (e : str) (client : IpAddr) (now : Z) : bool * MailLimits :=
  let '(ok, lim) := mail_address_take (boot_mac l) (limiter l) e now in
  if negb ok then (false, {| limiter := lim; instance := instance l; boot_mac := boot_mac l |})
  else
    let '(ok, lim, b) := mail_budget_take lim (instance l) client now in
    (ok, {| limiter := lim; instance := b; boot_mac := boot_mac l |}).

(** [reset::request]; [permit] is a public write permit, [tick] and [now] the two clocks. *)
Definition reset_request (permit : bool) (e : str) (client : IpAddr) (tick now : Z)
  (l : MailLimits) (w : World) : Response Page * MailLimits * World :=
  let e := normalize_email e in
  if negb (is_ok (validate_recipient e)) then (Status 422, l, w)
  else
    let '(ok, l) := take_mail l e client tick in
    if negb ok then (Status 429, l, w)
    else if negb permit then (BusyAnswer PublicWrites, l, w)
    else
      let '(r, w) := on_result (write (queue_reset e now)) server_error
                       (fun _ => respond (Html SentPage)) w in
      (r, l, w).

Definition enabled_user (d : Db) (user : option Z) : option User :=
  id ← user; opt_filter (fun u => negb (u_disabled u)) (find_user d id).

(** A reset token that [now] accepts. *)
Definition reset_token_live (hash : bytes) (now : Z) (d : Db) (t : Token) : bool :=
  zlist_eqb (t_token_hash t) hash && bool_decide (t_purpose t = ResetToken)
  && bool_decide (t_used_at t = None) && (now <? t_expires_at t)
  && bool_decide (is_Some (enabled_user d (t_user_id t))).

(** [token_valid]. *)
Definition token_valid (token : str) (now : Z) : Tx AuthError bool :=
  if negb (is_token_text token) then mret false
  else read (query (fun d => existsb (reset_token_live (sha256 (utf8 token)) now d) (tokens d))).

(** [reset::link_form]. *)
Definition link_form (token : str) (now : Z) : Handler Page :=
  on_result (token_valid token now) server_error (fun valid =>
    respond (Html (if valid then FormPage token None else InvalidPage))).

(** The rows the consuming [UPDATE ... RETURNING] gives. *)
Definition consumed_rows (hash : bytes) (now : Z) (d : Db) : list (Z * Role) :=
  omap (fun t => u ← enabled_user d (t_user_id t); Some (u_id u, u_role u))
    (List.filter (reset_token_live hash now d) (tokens d)).

(** The transaction of [link_submit]. *)
Definition reset_tx (hash : bytes) (password : str) (now : Z) : Tx AuthError bool :=
  account ← consume_returning (consumed_rows hash now)
              (fun d => update_tokens (reset_token_live hash now d) (use_token now) d);
  match account with
  | None => mret false
  | Some (user, r) => _ ← store_password user r password UserPasswordReset now; mret true
  end.

(** [reset::link_submit]; [now] at the first reading of the clock, [now'] at the second. *)
Definition link_submit (permit : bool) (token password again : str) (now now' : Z)
  : Handler Page :=
  on_result (token_valid token now) server_error (fun valid =>
    if negb valid then respond (Html InvalidPage)
    else
      match check_password_rule password with
      | Err rule => respond (Html (FormPage token (Some (rule_message rule))))
      | Ok _ =>
          if negb (zlist_eqb password again) then
            respond (Html (FormPage token (Some (lit "The two passwords differ."))))
          else if negb permit then respond (BusyAnswer Hashing)
          else
            on_result (hash_password password) server_error (fun hash =>
              on_result (write (reset_tx (sha256 (utf8 token)) hash now')) server_error (fun ok =>
                respond (Html (if ok then DonePage else InvalidPage))))
      end).

(** ** Commands (auth/commands.rs) *)

Inductive AccountCommandError := NoAccount | CommandFailed (e : AuthError).

#[global] Instance AccountCommandError_from_sql : FromSql AccountCommandError :=
  CommandFailed from_sql.
#[global] Instance AccountCommandError_from_random : FromRandom AccountCommandError :=
  CommandFailed from_random.

(** The [?] conversion of an [AuthError]. *)
Definition lift {A} (t : Tx AuthError A) : Tx AccountCommandError A := fun w =>
  match t w with (Ok a, w) => (Ok a, w) | (Err e, w) => (Err (CommandFailed e), w) end.

(** The transaction of [with_account]. *)
Definition with_account_tx {T} (e : str) (work : Z -> Tx AccountCommandError T)
  : Tx AccountCommandError T :=
  user ← query (fun d => u_id <$> find_first (fun u => zlist_eqb (u_email u) (normalize_email e))
                                   (users d));
  match user with None => fail NoAccount | Some user => work user end.

(** [with_account], after the database is open. *)
Definition with_account {T} (e : str) (work : Z -> Tx AccountCommandError T)
  : Tx AccountCommandError T :=
  write (with_account_tx e work).

Definition unlock_tx (now user : Z) : Tx AccountCommandError unit :=
  _ ← execute (set_users (update_where (fun u => u_id u =? user)
         (fun u => set_lockout 0 None 0 None (u_lockout_mailed_at u) u)));
  audit CliActor UserUnlock (TUser user) now.

(** [unlock]. *)
Definition unlock (e : str) (now : Z) : Tx AccountCommandError unit :=
  with_account e (unlock_tx now).

Definition reset_password_tx (now user : Z) : Tx AccountCommandError str :=
  link ← lift (issue_reset_token (app_urls app) user now);
  _ ← audit CliActor UserResetLink (TUser user) now;
  mret link.

(** [reset_password]; the link. *)
Definition reset_password (e : str) (now : Z) : Tx AccountCommandError str :=
  with_account e (reset_password_tx now).
End Accounts.

(** ** Lemmas *)

Lemma on_result_inv {E A P} (t : Tx E A) (bad : E -> Handler P) good w r w' :
  on_result t bad good w = (r, w') ->
  (exists a w1, t w = (Ok a, w1) /\ good a w1 = (r, w')) \/
  (exists e w1, t w = (Err e, w1) /\ bad e w1 = (r, w')).
Proof. unfold on_result. destruct (t w) as [[a|e] w1]; [left|right]; eauto. Qed.

Section AccountLemmas.
Context `{Crates} (app : App).

(** A new session row and what else a login stores. *)
Lemma login_success_Ok device a now w token dev w' :
  login_success device a now w = (Ok (token, dev), w') ->
  exists bs s, length bs = KEY_BYTES /\ forallb is_byte bs = true /\
    token = base64url_encode bs /\ s_user_id s = id a /\
    s_token_hash s = sha256 (utf8 token) /\ s_created_at s = now /\ s_last_seen s = now /\
    length (s_csrf_token s) = KEY_BYTES /\ forallb is_byte (s_csrf_token s) = true /\
    Forall (fun x => s_token_hash x <> s_token_hash s) (sessions (db w)) /\
    sessions (db w') = sessions (db w) ++ [s] /\ users (db w') = users (db w).
Proof.
  unfold login_success. intros Hl. apply Tx_bind_Ok in Hl as (t & w1 & Hc & Hl).
  apply create_session_Ok in Hc as (bs & cs & Hlen & Hb & -> & Hl' & Hb' & _ & Hfr & Hdb).
  apply Tx_bind_Ok in Hl as (known & w2 & Hk & Hl).
  assert (Hd2 : db w2 = db w1).
  { destruct device; [|by tx_inv; simplify_eq]. apply query_Ok in Hk as [_ ->]. done. }
  exists bs, {| s_id := next_rowid s_id (sessions (db w));
                s_token_hash := sha256 (utf8 (base64url_encode bs)); s_user_id := id a;
                s_csrf_token := cs; s_created_at := now; s_last_seen := now;
                s_pending_totp_nonce := None |}.
  assert (Hd : token = base64url_encode bs /\ sessions (db w') = sessions (db w2)
               /\ users (db w') = users (db w2)).
  { destruct known.
    - tx_inv. by simplify_eq.
    - apply Tx_bind_Ok in Hl as (dv & w3 & Ha & Hl). tx_inv. simplify_eq.
      apply add_device_Ok in Ha as (v & _ & _ & _ & _ & _ & _ & Ha). by rewrite Ha. }
  destruct Hd as (-> & -> & ->). rewrite Hd2, Hdb. cbn. split_and!; done.
Qed.

(** A used-up factor leaves the rest of the account and every other account alone. *)
Lemma factor_used_rest user seed code now d d' :
  factor_used user seed code now d d' ->
  sessions d' = sessions d /\ known_devices d' = known_devices d /\ tokens d' = tokens d /\
  forall i, exists f, (forall u, u_id (f u) = u_id u /\ u_password_hash (f u) = u_password_hash u /\
      u_disabled (f u) = u_disabled u /\ u_role (f u) = u_role u /\ u_email (f u) = u_email u) /\
    find_user d' i = f <$> find_user d i.
Proof.
  intros [step u _ _ _ _ ->|c hash _ _ _ ->]; cbn; split_and!; try done; intros i.
  - exists (fun u => if step_later user step u then set_last_step step u else u).
    split; [by intros u0; destruct (step_later _ _ _)|]. apply find_first_update. done.
  - exists (fun u => u). split; [done|]. unfold find_user. cbn. by destruct (find_first _ _).
Qed.
End AccountLemmas.

Lemma login_submit_Ok `{Crates} (app : App) permit headers form now w loc cookies w' :
  login_submit app permit headers form now w = (SeeOther loc cookies, w') ->
  exists token dev, loc = HOME /\
    cookies = session_cookie token :: match dev with Some x => [device_cookie x] | None => [] end /\
    check app permit
      {| at_account := ByEmail (normalize_email (lf_email form)); at_password := lf_password form;
         at_code := lf_code form; at_device := device_hash headers |} now
      (login_success (device_hash headers)) w = (Ok (Success (token, dev)), w').
Proof.
  unfold login_submit. cbv zeta. intros Hl.
  apply on_result_inv in Hl as [(o & w1 & Hc & Hl)|(e & w1 & _ & Hl)]; [|done].
  injection Hl as Hr <-. destruct o as [[token dev]| | |]; try done. simplify_eq. eauto.
Qed.

(** C1: a login answers with a session cookie only when every factor passed: in the database
    its transaction found, the account of that email exists, is enabled and not blocked
    for this browser, the submitted password verifies against the hash stored then, an
    admin has a second factor enrolled, and an enrolled account's code was a later TOTP
    step or an unused recovery code that the same transaction used up. Being exempt from
    the lock takes one of the account's own unexpired device cookies. *)
Theorem login_needs_every_factor `{Crates} (app : App) (permit : bool) (headers : list bytes)
    (form : LoginForm) (now : Z) (w w' : World) (loc : str) (cookies : list str) :
  login_submit app permit headers form now w = (SeeOther loc cookies, w') ->
  let d := db (interfere (interfere w)) in
  exists a h known d1,
    is_Some (find (ByEmail (normalize_email (lf_email form))) (db (interfere w))) /\
    find (ById (id a)) d = Some a /\ disabled a = false /\ blocked a known now = false /\
    (known = true -> exists hash, device_hash headers = Some hash /\
       is_known_device (id a) hash now (db (interfere w)) = true) /\
    password_hash a = Some h /\ verify_password (lf_password form) h = true /\
    (acc_role a = Admin -> totp_nonce a <> None) /\
    match totp_nonce a with
    | Some nonce => factor_used (id a) (account_seed app (id a) nonce) (lf_code form) now d d1
    | None => d1 = d
    end /\
    exists s, sessions (db w') = sessions d ++ [s] /\ s_user_id s = id a.
Proof.
  intros Hl. apply login_submit_Ok in Hl as (token & dev & _ & _ & Hc).
  apply check_success in Hc as (a0 & a & h & known & d1 & w1 & w2 & Hf0 & _ & Hf & Hd & Hb & Hk & Hh
    & Hv & Hadm & Hfac & Hd1 & Hs & Hd2).
  apply login_success_Ok in Hs as (bs & s & _ & _ & _ & Hu & _ & _ & _ & _ & _ & _ & Hses & _).
  cbn zeta. exists a, h, known, d1. split_and!; try done.
  exists s. split; [|done]. rewrite Hd2, Hses, Hd1. cbn. f_equal.
  destruct (totp_nonce a); [|by subst]. by apply factor_used_rest in Hfac as (-> & _).
Qed.


(** ** New passwords *)

(** What a stored password leaves behind, in a database before and after. *)
Record password_stored (user : Z) (r : Role) (hash : str) (action : Action) (now : Z)
    (d d' : Db) : Prop := {
  ps_users : users d' = update_where (fun u => u_id u =? user) (set_password hash) (users d);
  ps_sessions : sessions d' = delete_where (fun s => s_user_id s =? user) (sessions d);
  ps_devices : known_devices d' = delete_where (fun v => d_user_id v =? user) (known_devices d);
  ps_tokens : tokens d' = update_where (unused_reset_of (Some user)) (use_token now) (tokens d);
  ps_codes : recovery_codes d' = recovery_codes d;
  ps_mail : exists m, outbox d' = outbox d ++ [m] /\ m_recipient m = ToUser user /\
              m_kind m = k_name PASSWORD_CHANGED /\ m_placeholder m = false;
  ps_audit : exists i, audit_log d' = audit_log d ++
    [{| a_id := i; a_actor := (role_as_str r, Some user); a_action := identifier action;
        a_target := (lit "user", Some user); a_time := now |}] }.

Lemma store_password_Ok `{Crates} (app : App) user r hash action now w x w' :
  store_password app user r hash action now w = (Ok x, w') ->
  password_stored user r hash action now (db w) (db w').
Proof.
  unfold store_password, end_all. cbv zeta. intros Hs.
  apply Tx_bind_Ok in Hs as (? & w1 & Hx & Hs). apply execute_Ok in Hx as ->.
  apply Tx_bind_Ok in Hs as (? & w2 & Hx & Hs). tx_inv.
  apply enqueue_Ok in Hx1 as [Hi _].
  apply insert_mail_Ok in Hi as (_ & row & Hdb & _ & _ & Hrec & Hkind & _ & _ & _ & _ & Hph & _).
  apply stmt_Ok in Hs as (d2 & [= _ <-] & ->). cbn [db with_db]. rewrite Hdb.
  split; [done|done|done|done|done| |by eexists]. by exists row.
Qed.

(** No session, device or unused reset token of the account is left, and its password is
    the new one. *)
Lemma password_stored_clean user r hash action now d d' :
  password_stored user r hash action now d d' ->
  Forall (fun s => s_user_id s <> user) (sessions d') /\
  Forall (fun v => d_user_id v <> user) (known_devices d') /\
  Forall (fun t => unused_reset_of (Some user) t = false) (tokens d') /\
  Forall (fun u => u_id u = user -> u_password_hash u = Some hash) (users d') /\
  (forall s, s_user_id s <> user -> (s ∈ sessions d' <-> s ∈ sessions d)) /\
  (forall v, d_user_id v <> user -> (v ∈ known_devices d' <-> v ∈ known_devices d)) /\
  (forall u, u_id u <> user -> (u ∈ users d' <-> u ∈ users d)).
Proof.
  intros [Hu Hs Hv Ht _ _ _]. rewrite Hu, Hs, Hv, Ht. split_and!.
  - apply Forall_forall. intros s [_ Hs']%elem_of_delete_where. by propify.
  - apply Forall_forall. intros s [_ Hs']%elem_of_delete_where. by propify.
  - apply Forall_forall. intros t (x & _ & ->)%elem_of_update_where.
    destruct (unused_reset_of _ x) eqn:E; [|done]. unfold unused_reset_of. cbn.
    by rewrite andb_false_r.
  - apply Forall_forall. intros u (x & _ & ->)%elem_of_update_where.
    destruct (Z.eqb_spec (u_id x) user); [done|]. by intros.
  - intros s Hn. rewrite elem_of_delete_where, Z.eqb_neq. tauto.
  - intros s Hn. rewrite elem_of_delete_where, Z.eqb_neq. tauto.
  - intros u Hn. rewrite elem_of_update_where. split.
    + intros (x & Hx & ->). destruct (Z.eqb_spec (u_id x) user); [by destruct Hn|done].
    + intros Hin. exists u. by rewrite (proj2 (Z.eqb_neq _ _) Hn).
Qed.

Lemma reauthed_Done `{Crates} {T} user (t : Tx AuthError (Outcome T)) done w loc cs w' :
  reauthed user t done w = (SeeOther loc cs, w') ->
  exists v w1, t w = (Ok (Success v), w1) /\ done v w1 = (SeeOther loc cs, w').
Proof.
  unfold reauthed, account_page. intros Hr.
  apply on_result_inv in Hr as [(o & w1 & Ht & Hr)|(e & w1 & _ & Hr)]; [|done].
  destruct o; [by eauto| | |done];
    apply on_result_inv in Hr as [([? ?] & w2 & _ & Hr)|(e & w2 & _ & Hr)]; discriminate.
Qed.

Lemma check_password_rule_Ok p u :
  check_password_rule p = Ok u -> PASSWORD_MIN <= char_count p <= PASSWORD_MAX.
Proof. unfold check_password_rule. repeat case_if; try done. intros _. propify. lia. Qed.

Lemma hash_password_Ok `{Crates} p w h w' :
  hash_password p w = (Ok h, w') ->
  (exists salt, length salt = 16%nat /\ h = argon2_hash salt (utf8 p)) /\
  db w' = db w /\ others w' = others w.
Proof.
  unfold hash_password. intros Hh. apply Tx_bind_Ok in Hh as (salt & w1 & Hd & Hh).
  apply draw_Ok in Hd as (t & Hd & ->). apply random_bytes_Ok in Hd as [Hl _]. tx_inv. simplify_eq.
  eauto.
Qed.

(** A passed check of the signed-in account [user]. *)
Lemma check_success_by_id `{Crates} {T} (app : App) permit user at_ now
    (success : Account -> Z -> Tx AuthError T) w t w' :
  check app permit at_ now success w = (Ok (Success t), w') -> at_account at_ = ById user ->
  exists a h w1 w2, find (ById user) (db (interfere (interfere w))) = Some a /\ id a = user /\
    password_hash a = Some h /\ verify_password (at_password at_) h = true /\
    (exists d1, match totp_nonce a with
       | Some nonce => factor_used user (account_seed app user nonce) (at_code at_) now
                         (db (interfere (interfere w))) d1
       | None => d1 = db (interfere (interfere w))
       end /\ db w1 = set_users (update_where (fun u => u_id u =? user) clear_failures) d1) /\
    success a now w1 = (Ok t, w2) /\ db w' = db w2.
Proof.
  intros Hc Hat. apply check_success in Hc as (a0 & a & h & known & d1 & w1 & w2 & Hf0 & Hid & Hf & _
    & _ & _ & Hh & Hv & _ & Hfac & Hd1 & Hs & Hd2). rewrite Hat in Hf0.
  apply find_by_id in Hf0 as (u & _ & -> & Hu). cbn [id account_row] in Hid.
  assert (id a = user) as Ha by congruence. rewrite Ha in *. exists a, h, w1, w2. split_and!; eauto.
Qed.

(** The tables a passed check leaves as they were. *)
Lemma checked_rest `{Crates} (app : App) user (a : Account) code now d d1 :
  match totp_nonce a with
  | Some nonce => factor_used user (account_seed app user nonce) code now d d1
  | None => d1 = d
  end -> sessions d1 = sessions d /\ known_devices d1 = known_devices d /\ tokens d1 = tokens d.
Proof.
  destruct (totp_nonce a); [|by intros ->]. by intros (? & ? & ? & _)%factor_used_rest.
Qed.


Lemma reset_token_live_spec hash now d t :
  reset_token_live hash now d t = true <->
  t_token_hash t = hash /\ t_purpose t = ResetToken /\ t_used_at t = None /\ now < t_expires_at t /\
  exists user u, t_user_id t = Some user /\ find_user d user = Some u /\ u_disabled u = false.
Proof.
  unfold reset_token_live, enabled_user.
  rewrite !andb_true_iff, zlist_eqb_eq, !bool_decide_eq_true, Z.ltb_lt.
  assert (Hu : is_Some (id ← t_user_id t; opt_filter (fun u => negb (u_disabled u)) (find_user d id)) <->
    exists user u, t_user_id t = Some user /\ find_user d user = Some u /\ u_disabled u = false).
  { split.
    - intros [u Hu]. destruct (t_user_id t) as [user|]; [|done]. cbn in Hu.
      apply opt_filter_Some in Hu as [Hf Hd]. rewrite negb_true_iff in Hd. eauto.
    - intros (user & u & -> & Hf & Hd). exists u. cbn. apply opt_filter_Some.
      by rewrite Hf, Hd. }
  rewrite Hu. tauto.
Qed.

Lemma reset_tx_Ok `{Crates} (app : App) hash password now w w' :
  reset_tx app hash password now w = (Ok true, w') ->
  exists t user u, t ∈ tokens (db w) /\ reset_token_live hash now (db w) t = true /\
    t_user_id t = Some user /\ find_user (db w) user = Some u /\ u_disabled u = false /\
    password_stored user (u_role u) password UserPasswordReset now
      (update_tokens (reset_token_live hash now (db w)) (use_token now) (db w)) (db w').
Proof.
  unfold reset_tx. intros Hr. apply Tx_bind_Ok in Hr as (acc & w1 & Hc & Hr).
  apply consume_returning_Ok in Hc as [-> Hrows].
  destruct acc as [[user r]|]; [|by tx_inv; discriminate].
  apply Tx_bind_Ok in Hr as (x & w2 & Hs & Hr). tx_inv. subst.
  assert (Hin : (user, r) ∈ consumed_rows hash now (db w)) by (rewrite Hrows; set_solver).
  unfold consumed_rows in Hin. apply list_elem_of_omap in Hin as (t & Ht & Hu).
  rewrite list_elem_of_In, filter_In, <- list_elem_of_In in Ht. destruct Ht as [Ht Hl].
  apply store_password_Ok in Hs. pose proof Hl as Hl'.
  apply reset_token_live_spec in Hl' as (_ & _ & _ & _ & user' & u & Hid & Hf & Hd).
  unfold enabled_user in Hu. rewrite Hid in Hu. cbn in Hu. rewrite Hf in Hu. cbn in Hu.
  rewrite Hd in Hu. cbn in Hu. injection Hu as <- <-.
  assert (u_id u = user') as Hu'.
  { unfold find_user in Hf. apply find_first_Some in Hf as [_ Hf]. by propify. }
  rewrite Hu' in Hs. exists t, user', u. done.
Qed.

Lemma link_submit_Done `{Crates} (app : App) permit token password again now now' w w' :
  link_submit app permit token password again now now' w = (Html DonePage, w') ->
  is_token_text token = true /\ PASSWORD_MIN <= char_count password <= PASSWORD_MAX /\
  password = again /\ exists salt w1 w2, db w1 = db (interfere (interfere w)) /\
    others w1 = others (interfere (interfere w)) /\
    reset_tx app (sha256 (utf8 token)) (argon2_hash salt (utf8 password)) now' w1 = (Ok true, w2) /\
    db w' = db w2.
Proof.
  unfold link_submit. intros Hl. apply on_result_inv in Hl as [(valid & w1 & Hv & Hl)|(? & ? & _ & Hl)];
    [|discriminate]. destruct valid; [|discriminate]. cbn [negb] in Hl. unfold token_valid in Hv.
  destruct (is_token_text token); cbn [negb] in Hv; [|by tx_inv; discriminate].
  unfold read in Hv. apply query_Ok in Hv as [_ ->].
  destruct (check_password_rule password) as [u|] eqn:Er; [|discriminate].
  apply check_password_rule_Ok in Er. destruct (zlist_eqb _ _) eqn:Ez; [|discriminate].
  apply zlist_eqb_eq in Ez. cbn [negb] in Hl. destruct permit; [|discriminate]. cbn [negb] in Hl.
  apply on_result_inv in Hl as [(hash & w2 & Hh & Hl)|(? & ? & _ & Hl)]; [|discriminate].
  apply hash_password_Ok in Hh as ((salt & _ & ->) & Hd2 & Ho2).
  apply on_result_inv in Hl as [(ok & w3 & Hw & Hl)|(? & ? & _ & Hl)]; [|discriminate].
  destruct ok; [|discriminate]. injection Hl as <-.
  apply write_Ok in Hw as (w4 & w5 & Hd4 & _ & Ht & Hd5 & _ & _ & Ho4).
  split; [done|]. split; [done|]. split; [done|]. exists salt, w4, w5. split_and!; try done.
  - rewrite Hd4. apply interfere_same; done.
  - rewrite Ho4. by apply interfere_others.
Qed.

(** A reset link sets the password only if, in the database its transaction found, it was
    an unused, unexpired reset token of an enabled account. The account then has no
    session, device cookie or unused reset link left (the used one included), its stored
    hash is that of the new password, and the mail and the audit entry are written; no
    other account's session or device changes, and nobody is signed in by it. *)
Theorem reset_link_sets_password `{Crates} (app : App) (permit : bool)
    (token password again : str) (now now' : Z) (w w' : World) :
  link_submit app permit token password again now now' w = (Html DonePage, w') ->
  let d := db (interfere (interfere w)) in
  exists t user u salt,
    t ∈ tokens d /\ t_token_hash t = sha256 (utf8 token) /\ t_purpose t = ResetToken /\
    t_used_at t = None /\ now' < t_expires_at t /\ t_user_id t = Some user /\
    find_user d user = Some u /\ u_disabled u = false /\
    PASSWORD_MIN <= char_count password <= PASSWORD_MAX /\ password = again /\
    Forall (fun s => s_user_id s <> user) (sessions (db w')) /\
    Forall (fun v => d_user_id v <> user) (known_devices (db w')) /\
    Forall (fun t => unused_reset_of (Some user) t = false) (tokens (db w')) /\
    Forall (fun u => u_id u = user ->
              u_password_hash u = Some (argon2_hash salt (utf8 password))) (users (db w')) /\
    (forall s, s_user_id s <> user -> (s ∈ sessions (db w') <-> s ∈ sessions d)) /\
    (forall v, d_user_id v <> user -> (v ∈ known_devices (db w') <-> v ∈ known_devices d)) /\
    (exists m, outbox (db w') = outbox d ++ [m] /\ m_recipient m = ToUser user /\
       m_kind m = k_name PASSWORD_CHANGED) /\
    (exists e, audit_log (db w') = audit_log d ++ [e] /\
       a_action e = identifier UserPasswordReset /\
       a_actor e = (role_as_str (u_role u), Some user)).
Proof.
  intros Hl. apply link_submit_Done in Hl as (_ & Hr & He & salt & w1 & w2 & Hd1 & _ & Ht & Hd2).
  apply reset_tx_Ok in Ht as (t & user & u & Hin & Hlive & Hid & Hf & Hd & Hs).
  apply reset_token_live_spec in Hlive as (Hh & Hp & Hus & Hex & _).
  rewrite Hd1, <- Hd2 in *. cbn zeta. exists t, user, u, salt. do 10 (split; [done|]).
  destruct (password_stored_clean _ _ _ _ _ _ _ Hs) as (H1 & H2 & H3 & H4 & H5 & H6 & _).
  destruct Hs as [_ _ _ _ _ (m & Hm & Hmr & Hmk & _) (i & Ha)].
  do 6 (split; [done|]). split; [by exists m|]. eexists. by split_and!.
Qed.

(** ** Reset links *)

Lemma issue_reset_token_Ok `{Crates} urls user now w link w' :
  issue_reset_token urls user now w = (Ok link, w') ->
  exists bs t, length bs = KEY_BYTES /\ forallb is_byte bs = true /\
    link = token_link urls (reset_path (base64url_encode bs)) /\
    t_purpose t = ResetToken /\ t_token_hash t = sha256 (utf8 (base64url_encode bs)) /\
    t_user_id t = Some user /\ t_expires_at t = now + RESET_LIFETIME /\ t_used_at t = None /\
    Forall (fun x => t_token_hash x <> t_token_hash t) (tokens (db w)) /\
    has_user (db w) user = true /\
    db w' = set_tokens (fun l => update_where (unused_reset_of (Some user)) (use_token now) l ++ [t])
              (tokens_seq (db w) + 1) (db w) /\
    statements w' = statements w + 2.
Proof.
  unfold issue_reset_token. intros Hi. apply Tx_bind_Ok in Hi as (x & w1 & Hx & Hi).
  apply execute_Ok in Hx as ->. apply Tx_bind_Ok in Hi as ([bs tok] & w2 & Hd & Hi).
  apply draw_Ok in Hd as (tp & Hd & ->). apply random_token_Ok in Hd as (Hl & Hb & ->).
  apply Tx_bind_Ok in Hi as (y & w3 & Hs & Hi). apply stmt_Ok in Hs as (d & Hs & ->). tx_inv.
  subst. unfold insert_reset_token in Hs. cbn [db with_db with_tape] in Hs.
  destruct (_ || _) eqn:E; [done|]. apply orb_false_iff in E as [E1 E2]. rewrite negb_false_iff in E2.
  injection Hs as <- <-.
  eexists bs, {| t_id := tokens_seq (db w) + 1; t_purpose := ResetToken; t_token_hash := _;
                 t_user_id := Some user; t_email := None; t_totp_nonce := None; t_expires_at := _;
                 t_used_at := None |}. cbn -[next_rowid]. split_and!; try done; [|lia].
  apply Forall_forall. intros t Ht He. apply not_true_iff_false in E1. apply E1, existsb_In.
  exists (if unused_reset_of (Some user) t then use_token now t else t). split.
  - apply elem_of_update_where. eauto.
  - apply zlist_eqb_eq. by destruct (unused_reset_of _ _).
Qed.

Lemma unused_after_use user now l :
  count_where (unused_reset_of (Some user)) (update_where (unused_reset_of (Some user)) (use_token now) l) = 0.
Proof.
  apply count_where_0, Forall_forall. intros t (x & _ & ->)%elem_of_update_where.
  destruct (unused_reset_of _ x) eqn:E; [|done]. unfold unused_reset_of. cbn. by rewrite andb_false_r.
Qed.

(** The reset link that the command prints is on the configured main host, is accepted
    for one hour while the account is enabled, and is then the only unused reset link of
    that account: every earlier one is void. *)
Theorem printed_link_works `{CrateLaws} (app : App) (e : str) (now : Z) (w w' : World) (link : str) :
  reset_password app e now w = (Ok link, w') ->
  exists token user,
    link = origin (app_base_url app) ++ lit "/admin/reset/" ++ token /\
    is_token_text token = true /\
    (exists u, u ∈ users (db (interfere w)) /\ u_email u = normalize_email e /\ u_id u = user) /\
    count_where (unused_reset_of (Some user)) (tokens (db w')) = 1 /\
    forall n u, now <= n < now + 60 * 60 -> find_user (db w') user = Some u ->
      u_disabled u = false ->
      existsb (reset_token_live (sha256 (utf8 token)) n (db w')) (tokens (db w')) = true.
Proof.
  unfold reset_password, with_account, with_account_tx, reset_password_tx. intros Hr.
  apply write_Ok in Hr as (w1 & w2 & Hd1 & _ & Hr & -> & _).
  apply Tx_bind_Ok in Hr as (found & w3 & Hq & Hr). apply query_Ok in Hq as [-> ->].
  destruct (find_first _ _) as [u|] eqn:Ef; cbn [fmap option_fmap option_map] in Hr; [|done].
  apply find_first_Some in Ef as [Hu He]. apply zlist_eqb_eq in He.
  apply Tx_bind_Ok in Hr as (lk & w4 & Hi & Hr). unfold lift in Hi.
  destruct (issue_reset_token _ _ _ _) as [[lk'|] w5] eqn:Ei; [|done]. simplify_eq.
  apply issue_reset_token_Ok in Ei as (bs & t & Hl & Hb & -> & Hp & Hh & Hus & Hex & Hun & _ & _
    & Hdb & _).
  apply Tx_bind_Ok in Hr as (x & w6 & Ha & Hr). apply stmt_Ok in Ha as (d & [= _ <-] & ->).
  tx_inv. subst. cbn [db with_db tokens set_audit_log] in *. rewrite Hdb.
  cbn [tokens set_tokens]. exists (base64url_encode bs), (u_id u). split_and!.
  - done.
  - by apply is_token_encode.
  - exists u. by rewrite <- Hd1.
  - rewrite count_where_app, unused_after_use, count_where_cons. unfold unused_reset_of.
    rewrite Hp, Hun, Hus. rewrite !bool_decide_eq_true_2 by done. reflexivity.
  - intros n u' Hn Hf Hdis. apply existsb_In. exists t. split; [set_solver|].
    apply reset_token_live_spec. rewrite Hex. unfold RESET_LIFETIME. split_and!; try done; [lia|].
    by exists (u_id u), u'.
Qed.

(** Queueing a reset mail for an account with a password runs four statements, for any
    other address three: the placeholder branch has no counterpart of the token's
    [INSERT]. *)
Theorem reset_request_statements `{Crates} (app : App) (e : str) (now : Z) (w w' : World) (u : unit) :
  queue_reset app e now w = (Ok u, w') ->
  statements w' = statements w +
    match reset_account e (db w) with Some _ => 4 | None => 3 end.
Proof.
  unfold queue_reset. intros Hq. apply Tx_bind_Ok in Hq as (acc & w1 & Hx & Hq).
  apply query_Ok in Hx as [-> ->]. apply Tx_bind_Ok in Hq as ([[text rcp] ph] & w2 & Hb & Hq).
  apply Tx_bind_Ok in Hq as (i & w3 & He & Hq). apply enqueue_Ok in He as [_ He]. tx_inv. subst.
  rewrite He. destruct (reset_account e (db w)) as [user|].
  - apply Tx_bind_Ok in Hb as (lk & w4 & Hi & Hb). tx_inv. subst.
    apply issue_reset_token_Ok in Hi as (_ & _ & _ & _ & _ & _ & _ & _ & _ & _ & _ & _ & _ & ->).
    cbn. lia.
  - apply Tx_bind_Ok in Hb as (x & w4 & Hi & Hb). apply execute_Ok in Hi as ->.
    apply Tx_bind_Ok in Hb as ([bs tok] & w5 & Hd & Hb). apply draw_Ok in Hd as (tp & _ & ->).
    tx_inv. subst. cbn. lia.
Qed.

(** ** Enrollment *)

(** Confirming an enrollment stores exactly the nonce that this session started with, and
    only when a code of its seed was typed back; that code's step counts as used. Ten new
    recovery codes are shown, every other session and every device cookie of the account
    is gone, and nothing is pending any more. *)
Theorem enrollment_takes_effect `{Crates} (app : App) (user : SessionUser) (code : str) (now : Z)
    (w w' : World) (nav : Nav) (intro : str) (shown : list str) :
  confirm_totp app user code now w = (Html (CodesPage nav intro shown), w') ->
  exists nonce step s codes,
    s ∈ sessions (db (interfere w)) /\ s_id s = session_id user /\
    s_pending_totp_nonce s = Some nonce /\
    matching_step (account_seed app (user_id user) nonce) (trim code) now = Some step /\
    Forall (fun u => u_id u = user_id user ->
              u_totp_nonce u = Some nonce /\ u_totp_last_step u = Some step) (users (db w')) /\
    shown = map display codes /\ length codes = COUNT /\
    List.filter (fun r => r_user_id r =? user_id user) (recovery_codes (db w'))
      = code_rows (user_id user) codes /\
    Forall (fun s => s_user_id s = user_id user -> s_id s = session_id user) (sessions (db w')) /\
    Forall (fun s => s_id s = session_id user -> s_pending_totp_nonce s = None) (sessions (db w')) /\
    Forall (fun v => d_user_id v <> user_id user) (known_devices (db w')).
Proof.
  unfold confirm_totp. intros Hc. apply on_result_inv in Hc as [(c & w1 & Hw & Hc)|(? & ? & _ & Hc)];
    [|discriminate]. destruct c as [|nonce|codes]; try discriminate.
  { apply on_result_inv in Hc as [([? ?] & ? & _ & Hc)|(? & ? & _ & Hc)]; discriminate. }
  injection Hc as <- <- <- <-. apply write_Ok in Hw as (w2 & w3 & Hd2 & _ & Ht & -> & _).
  unfold confirm_totp_tx in Ht. apply Tx_bind_Ok in Ht as (p & w4 & Hq & Ht).
  apply query_Ok in Hq as [-> ->]. rewrite Hd2 in *.
  destruct (find_first _ _) as [s|] eqn:Es; [|by tx_inv; discriminate].
  apply find_first_Some in Es as [Hs Hsi]. cbn [mbind option_bind] in Ht.
  destruct (s_pending_totp_nonce s) as [nonce|] eqn:Ep; [|by tx_inv; discriminate].
  destruct (matching_step _ _ _) as [step|] eqn:Em; [|by tx_inv; discriminate].
  apply Tx_bind_Ok in Ht as (x & w5 & Hx & Ht). apply execute_Ok in Hx as ->.
  apply Tx_bind_Ok in Ht as (cs & w6 & Hr & Ht).
  apply replace_codes_Ok in Hr as (Hlen & _ & Hrows & _ & l & Hdb & _). tx_inv.
  match goal with Ha : audit _ _ _ _ _ = _ |- _ => apply stmt_Ok in Ha as (d & [= _ <-] & ->) end.
  simplify_eq. exists nonce, step, s, codes. cbn [db with_db set_audit_log] in *.
  split; [done|]. split; [by propify|]. do 2 (split; [done|]). split.
  { cbn. rewrite Hdb. cbn. apply Forall_forall. intros u (y & _ & ->)%elem_of_update_where.
    destruct (Z.eqb_spec (u_id y) (user_id user)); [done|]. by intros. }
  do 2 (split; [done|]). split; [exact Hrows|]. cbn [sessions set_sessions known_devices
    set_known_devices set_audit_log]. split_and!.
  - apply Forall_forall. intros x' (y & Hy & ->)%elem_of_update_where.
    apply elem_of_delete_where in Hy as [_ Hy]. rewrite andb_false_iff, negb_false_iff in Hy.
    destruct (Z.eqb_spec (s_id y) (session_id user)); cbn; [done|]. intros Hu. destruct Hy; [propify; lia|done].
  - apply Forall_forall. intros x' (y & Hy & ->)%elem_of_update_where.
    destruct (Z.eqb_spec (s_id y) (session_id user)); [done|]. by intros.
  - apply Forall_forall. intros v [_ Hv]%elem_of_delete_where. by propify.
Qed.
