(* ===== verification/Hosts.v ===== *)
(** * Hosts (src/src/routing/hosts.rs)

    The host map is a pair of finite maps built from the projects table; a rebuild swaps
    the whole map and a failed one keeps the old. *)

From stdpp Require Import gmap.
From S2P Require Import Prelude Str Keys Net Config Urls Http Db.

Inductive HostEntry := Main | ProjectHost (id : Z).

#[global] Instance HostEntry_eq_dec : EqDecision HostEntry.
Proof. solve_decision. Defined.

(** [normalize]: one trailing [:] plus digits removed, ASCII lowercased. *)
Definition normalize_host (host : str) : str :=
  let without_port :=
    match rsplit_once 58 host with
    | Some (name, port) =>
        if negb (zlist_eqb port []) && forallb is_ascii_digit (utf8 port) then name else host
    | None => host
    end in
  to_ascii_lowercase without_port.

(** [request_host]: from exactly one non-empty [Host] header. *)
Definition request_host `{Crates} (headers : list bytes) : option str :=
  match headers with
  | [value] =>
      text ← header_to_str value;
      if zlist_eqb text [] then None else Some (normalize_host text)
  | _ => None
  end.

Record HostMap := { entries : gmap str HostEntry; domains : gmap str str }.

(** [HostMap::new]. *)
Definition host_map_new (base_url : BaseUrl) : HostMap :=
  {| entries := {[ host base_url := Main ]}; domains := ∅ |}.

Definition with_project (h : str) (project : Z) (m : HostMap) : HostMap :=
  {| entries := <[h := ProjectHost project]> (entries m); domains := domains m |}.

Definition with_domain (slug h : str) (m : HostMap) : HostMap :=
  {| entries := entries m; domains := <[slug := h]> (domains m) |}.

(** [HostMap::get] and [HostMap::domain]. *)
Definition get_host (m : HostMap) (h : str) : option HostEntry := entries m !! h.

Definition domain (m : HostMap) (slug : str) : option str := domains m !! slug.

(** One row of the [SELECT]. *)
Definition add_row (m : HostMap) (p : Project) : HostMap :=
  match public_host (p_settings p) with
  | Some h => with_domain (p_slug p) h (with_project h (p_id p) m)
  | None => m
  end.

(** [load]. *)
Definition load (base_url : BaseUrl) (d : Db) : HostMap :=
  fold_left add_row (projects d) (host_map_new base_url).

(** [refresh]: a failure keeps the old map. *)
Definition refresh {E} `{FromSql E} (base_url : BaseUrl) (m : HostMap) (w : World)
  : result E unit * HostMap * World :=
  match read (query (load base_url) : Tx E HostMap) w with
  | (Ok m', w) => (Ok tt, m', w)
  | (Err e, w) => (Err e, m, w)
  end.

(** One tick of [watch] on a connection whose [data_version] is [version]: the map is
    rebuilt when the version changed, and only a successful rebuild moves on. *)
Definition watch_tick {E} `{FromSql E} (base_url : BaseUrl) (version : Z) (seen : option Z)
  (m : HostMap) (w : World) : option Z * HostMap * World :=
  match read (v ← query (fun _ => version);
              if bool_decide (seen <> Some v) then m' ← query (load base_url); mret (v, m')
              else mret (v, m) : Tx E (Z * HostMap)) w with
  | (Ok (v, m'), w) => (Some v, m', w)
  | (Err _, w) => (seen, m, w)
  end.

(** ** Lemmas *)

Definition host_of (p : Project) : option str := public_host (p_settings p).

(** Slugs and custom domains are unique among the projects. *)
Definition hosts_unique (l : list Project) : Prop :=
  NoDup (map p_slug l) /\ NoDup (omap host_of l).

Lemma fold_add_get l m h :
  NoDup (omap host_of l) ->
  get_host (fold_left add_row l m) h =
  match find_first (fun p => bool_decide (host_of p = Some h)) l with
  | Some p => Some (ProjectHost (p_id p))
  | None => get_host m h
  end.
Proof.
  revert m. induction l as [|p l IH]; intros m Hd; [done|]. cbn [fold_left find_first].
  cbn [omap list_omap] in Hd. destruct (host_of p) as [hp|] eqn:Ep.
  - apply NoDup_cons in Hd as [Hp Hd]. rewrite IH by done.
    unfold add_row. unfold host_of in Ep. rewrite Ep. cbn [entries with_domain with_project].
    destruct (decide (hp = h)) as [->|Hne].
    + rewrite (bool_decide_eq_true_2 (Some h = Some h)) by done.
      replace (find_first _ l) with (@None Project).
      * unfold get_host. cbn. by rewrite lookup_insert_eq.
      * symmetry. apply find_first_None, Forall_forall. intros q Hq.
        apply bool_decide_eq_false. intros Hh. apply Hp, list_elem_of_omap. eauto.
    + rewrite (bool_decide_eq_false_2 (Some hp = Some h)) by congruence.
      destruct (find_first _ l); [done|]. unfold get_host. cbn. by rewrite lookup_insert_ne.
  - rewrite IH by done. unfold add_row. unfold host_of in Ep. rewrite Ep. done.
Qed.

Lemma fold_add_domain l m slug :
  NoDup (map p_slug l) ->
  domain (fold_left add_row l m) slug =
  match find_first (fun p => bool_decide (p_slug p = slug)) l with
  | Some p => match host_of p with Some h => Some h | None => domain m slug end
  | None => domain m slug
  end.
Proof.
  revert m. induction l as [|p l IH]; intros m Hd; [done|]. cbn [fold_left find_first].
  cbn [map] in Hd. apply NoDup_cons in Hd as [Hp Hd]. rewrite IH by done.
  assert (Hnone : p_slug p = slug -> find_first (fun p => bool_decide (p_slug p = slug)) l = None).
  { intros <-. apply find_first_None, Forall_forall. intros q Hq. apply bool_decide_eq_false.
    intros Hs. apply Hp, list_elem_of_fmap. eauto. }
  unfold add_row, host_of. destruct (public_host (p_settings p)) as [hp|] eqn:Ep.
  - destruct (decide (p_slug p = slug)) as [He|Hne].
    + rewrite Hnone, bool_decide_eq_true_2 by done. rewrite Ep. unfold domain. cbn.
      by rewrite He, lookup_insert_eq.
    + rewrite bool_decide_eq_false_2 by done.
      assert (Hm : domain (with_domain (p_slug p) hp (with_project hp (p_id p) m)) slug = domain m slug)
        by (unfold domain; cbn; by rewrite lookup_insert_ne). by rewrite Hm.
  - destruct (decide (p_slug p = slug)) as [He|Hne].
    + rewrite Hnone, bool_decide_eq_true_2 by done. by rewrite Ep.
    + by rewrite bool_decide_eq_false_2 by done.
Qed.

(** ** Theorems *)

(** The host map routes exactly what the database says. With unique slugs and domains,
    none of them the main host, a name reaches the main site iff it is the configured
    host, a project iff it is that project's domain, and nothing otherwise; a slug
    redirects iff its project has a domain. *)
Theorem load_routes_exactly (base_url : BaseUrl) (d : Db) (h slug : str) :
  hosts_unique (projects d) ->
  Forall (fun p => host_of p <> Some (host base_url)) (projects d) ->
  (get_host (load base_url d) h = Some Main <-> h = host base_url) /\
  (forall i, get_host (load base_url d) h = Some (ProjectHost i) <->
     exists p, p ∈ projects d /\ p_id p = i /\ host_of p = Some h) /\
  (forall x, domain (load base_url d) slug = Some x <->
     exists p, p ∈ projects d /\ p_slug p = slug /\ host_of p = Some x).
Proof.
  intros [Hs Hh] Hm. unfold load. rewrite fold_add_get by done.
  rewrite fold_add_domain by done. rewrite Forall_forall in Hm.
  assert (Hnew : get_host (host_map_new base_url) h = if decide (h = host base_url) then Some Main else None).
  { unfold get_host. cbn. case_decide as E; [by rewrite E, lookup_singleton_eq|].
    by rewrite lookup_singleton_ne. }
  split_and!.
  - destruct (find_first _ _) as [p|] eqn:E.
    + apply find_first_Some in E as [Hp E]. apply bool_decide_eq_true in E.
      split; [done|]. intros ->. by destruct (Hm p Hp).
    + rewrite Hnew. by case_decide.
  - intros i. destruct (find_first _ _) as [p|] eqn:E.
    + apply find_first_Some in E as [Hp E]. apply bool_decide_eq_true in E. split.
      * intros [= <-]. eauto.
      * intros (q & Hq & <- & Hqh). do 2 f_equal. clear -Hp Hq E Hqh Hh.
        induction (projects d) as [|x l IH]; [set_solver|]. cbn in Hh.
        destruct (host_of x) as [hx|] eqn:Ex.
        -- apply NoDup_cons in Hh as [Hx Hh].
           apply elem_of_cons in Hp as [->|Hp], Hq as [->|Hq]; try done; try (by apply IH).
           ++ destruct Hx. apply list_elem_of_omap. exists q. split; [done|]. congruence.
           ++ destruct Hx. apply list_elem_of_omap. exists p. split; [done|]. congruence.
        -- apply elem_of_cons in Hp as [->|Hp], Hq as [->|Hq]; try congruence. by apply IH.
    + apply find_first_None in E. rewrite Forall_forall in E. split.
      * rewrite Hnew. by case_decide.
      * intros (q & Hq & _ & Hqh). specialize (E q Hq). by rewrite bool_decide_eq_false in E.
  - intros x. destruct (find_first _ _) as [p|] eqn:E.
    + apply find_first_Some in E as [Hp E]. apply bool_decide_eq_true in E. split.
      * destruct (host_of p) as [hp|] eqn:Ep; [|by intros]. intros [= <-]. eauto.
      * intros (q & Hq & Hqs & Hqh). assert (q = p) as -> by (eapply NoDup_map_inj; eauto; congruence).
        by rewrite Hqh.
    + apply find_first_None in E. rewrite Forall_forall in E. split; [done|].
      intros (q & Hq & Hqs & _). specialize (E q Hq). by rewrite bool_decide_eq_false in E.
Qed.

(** The exception of the previous theorem: when a project's stored domain is the host of a
    changed base URL, that host reaches the project and no name reaches the main site. *)
Theorem moved_main_host_is_shadowed (base_url : BaseUrl) (d : Db) (p : Project) (h : str) :
  hosts_unique (projects d) -> p ∈ projects d -> host_of p = Some (host base_url) ->
  get_host (load base_url d) h <> Some Main.
Proof.
  intros [_ Hh] Hp Hph. unfold load. rewrite fold_add_get by done.
  destruct (find_first _ _) as [q|] eqn:E; [done|]. unfold get_host. cbn.
  destruct (decide (h = host base_url)) as [->|Hne]; [|by rewrite lookup_singleton_ne].
  apply find_first_None in E. rewrite Forall_forall in E. specialize (E p Hp).
  by rewrite bool_decide_eq_false in E.
Qed.
