(* ===== verification/Projects.v ===== *)
(** * Projects
    (src/src/projects/{mod,commands,redirect}.rs, src/src/admin/projects.rs,
    migrations/0003_projects.sql)

    The field rules, the changes to the projects table and the admin's handlers. The
    handlers carry the shared host map, which a committed change republishes. *)

From S2P Require Import Prelude Str Codec Keys Net Config Cli Urls Totp Text Time Http Db.
From S2P Require Import Outbox Auth Credentials Accounts Hosts.

Definition SLUG_MAX : Z := 40.
Definition NAME_MAX : Z := 80.
Definition PRIVACY_NOTICE_MAX : Z := 1024.
Definition SECURITY_CONTACT_MAX : Z := 254.

Inductive Field := SlugField | NameField | PublicHostField | PrivacyNoticeField | SecurityContactField.

Record Problem := { field : Field; message : str }.

Definition SLUG_RULE : Problem := {| field := SlugField; message :=
  lit "The slug must be 1 to 40 characters from a-z, 0-9 and '-', starting with a letter or digit." |}.
Definition SLUG_TAKEN : Problem := {| field := SlugField; message :=
  lit "The slug is taken by another project." |}.
Definition NAME_LENGTH : Problem := {| field := NameField; message :=
  lit "The name must be 1 to 80 characters long." |}.
Definition NAME_CHARACTERS : Problem := {| field := NameField; message :=
  lit "The name must be one line without control, invisible or direction-changing characters." |}.
Definition HOST_RULE : Problem := {| field := PublicHostField; message :=
  lit "The custom domain must be a DNS name with at least one dot, such as bugs.example.net, without scheme, port or trailing dot, and not an IP address." |}.
Definition HOST_MAIN : Problem := {| field := PublicHostField; message :=
  lit "The custom domain cannot be Kohaku's own host." |}.
Definition HOST_TAKEN : Problem := {| field := PublicHostField; message :=
  lit "The custom domain is used by another project." |}.
Definition NOTICE_LENGTH : Problem := {| field := PrivacyNoticeField; message :=
  lit "The privacy notice must be at most 1024 bytes long." |}.
Definition NOTICE_CHARACTERS : Problem := {| field := PrivacyNoticeField; message :=
  lit "The privacy notice must not contain control, invisible or direction-changing characters." |}.
Definition CONTACT_LENGTH : Problem := {| field := SecurityContactField; message :=
  lit "The security contact must be at most 254 characters long." |}.
Definition CONTACT_CHARACTERS : Problem := {| field := SecurityContactField; message :=
  lit "The security contact must be one line without control, invisible or direction-changing characters." |}.

(** ** Field rules *)

Definition slug_byte (b : Z) : bool := is_ascii_lowercase b || is_ascii_digit b || (b =? 45).

(** [parse_slug]: [[a-z0-9][a-z0-9-]{0,39}], exactly as given. *)
Definition parse_slug (text : str) : result Problem str :=
  let bytes := utf8 text in
  match bytes with
  | [] => Err SLUG_RULE
  | b :: _ =>
      if (str_len text <=? SLUG_MAX) && negb (b =? 45) && forallb slug_byte bytes
      then Ok text else Err SLUG_RULE
  end.

Definition parse_name (text : str) : result Problem str :=
  if negb (is_single_line text) then Err NAME_CHARACTERS
  else
    let name := trim text in
    if zlist_eqb name [] || (NAME_MAX <? char_count name) then Err NAME_LENGTH else Ok name.

Definition parse_host (text : str) (base_url : BaseUrl) : result Problem (option str) :=
  let h := to_ascii_lowercase (trim text) in
  if zlist_eqb h [] then Ok None
  else
    h ← map_err (fun _ => HOST_RULE) (dns_name h);
    if negb (contains_char 46 h) then Err HOST_RULE
    else if zlist_eqb h (host base_url) then Err HOST_MAIN
    else Ok (Some h).

Definition parse_privacy_notice (text : str) : result Problem (option str) :=
  let text := normalize_line_endings text in
  if negb (is_multi_line text) then Err NOTICE_CHARACTERS
  else
    let notice := trim text in
    if PRIVACY_NOTICE_MAX <? str_len notice then Err NOTICE_LENGTH
    else Ok (then_some (negb (zlist_eqb notice [])) notice).

Definition parse_security_contact (text : str) : result Problem (option str) :=
  if negb (is_single_line text) then Err CONTACT_CHARACTERS
  else
    let contact := trim text in
    if SECURITY_CONTACT_MAX <? char_count contact then Err CONTACT_LENGTH
    else Ok (then_some (negb (zlist_eqb contact [])) contact).

(** [Settings::new]. *)
Definition settings_new (n : str) (h : option str) : Settings :=
  {| name := n; public_host := h; screenshots_enabled := false; features_enabled := false;
     require_email := false; plus_one_enabled := true; privacy_notice := None;
     security_contact := None |}.

(** ** The table *)

(** The [CHECK]s of the projects table; SQLite's [length] counts characters. *)
Definition table_checks (slug : str) (s : Settings) : bool :=
  (1 <=? char_count slug) && (char_count slug <=? 40)
  && is_some_and (fun c => is_ascii_lowercase c || is_ascii_digit c) (head slug)
  && forallb slug_byte slug
  && (1 <=? char_count (name s)) && (char_count (name s) <=? 80)
  && match public_host s with
     | Some h => (3 <=? char_count h) && (char_count h <=? 253) && contains_char 46 h
                 && forallb (fun c => slug_byte c || (c =? 46)) h
     | None => true
     end
  && match privacy_notice s with
     | Some n => (1 <=? str_len n) && (str_len n <=? 1024)
     | None => true
     end
  && match security_contact s with
     | Some c => (1 <=? char_count c) && (char_count c <=? 254)
     | None => true
     end.

Definition slug_used (slug : str) (l : list Project) : bool :=
  existsb (fun p => zlist_eqb (p_slug p) slug) l.

(** [public_host = ?1 AND id != ?2]; a missing host is used by nobody. *)
Definition host_used (h : option str) (except : Z) (l : list Project) : bool :=
  match h with
  | Some h => existsb (fun p => bool_decide (public_host (p_settings p) = Some h)
                                && negb (p_id p =? except)) l
  | None => false
  end.

(** [INSERT INTO projects ... RETURNING id]; ids start at 1, so 0 excepts no row. *)
Definition insert_project (slug : str) (s : Settings) (now : Z) (d : Db) : result unit (Z * Db) :=
  if slug_used slug (projects d) || host_used (public_host s) 0 (projects d) || negb (table_checks slug s)
  then Err tt
  else
    let id := projects_seq d + 1 in
    Ok (id, set_projects (fun l => l ++ [{| p_id := id; p_slug := slug; p_settings := s;
                                            p_created_at := now |}]) id d).

Definition set_settings (s : Settings) (p : Project) : Project :=
  {| p_id := p_id p; p_slug := p_slug p; p_settings := s; p_created_at := p_created_at p |}.

(** [UPDATE projects SET ... WHERE id = ?1]. *)
Definition update_project (id : Z) (s : Settings) (d : Db) : result unit (unit * Db) :=
  match find_first (fun p => p_id p =? id) (projects d) with
  | Some p =>
      if host_used (public_host s) id (projects d) || negb (table_checks (p_slug p) s) then Err tt
      else Ok (tt, set_projects (update_where (fun p => p_id p =? id) (set_settings s))
                     (projects_seq d) d)
  | None => Ok (tt, d)
  end.

(** ** Changes *)

Inductive ProjectError := Invalid (p : Problem) | ProjectDatabase.

#[global] Instance ProjectError_from_sql : FromSql ProjectError := ProjectDatabase.

(** [projects::find] and [list]. *)
Definition find_project (slug : str) (d : Db) : option Project :=
  find_first (fun p => zlist_eqb (p_slug p) slug) (projects d).

Definition list_projects (d : Db) : list Project :=
  sort_by (fun p q => lex_le (utf8 (p_slug p)) (utf8 (p_slug q))) (projects d).

(** [host_taken]: no query without a host. *)
Definition host_taken (h : option str) (except : Z) : Tx ProjectError bool :=
  match h with
  | None => mret false
  | Some _ => query (fun d => host_used h except (projects d))
  end.

(** [projects::create]. *)
Definition create (slug : str) (s : Settings) (actor : Actor) (now : Z) : Tx ProjectError Z :=
  slug_taken ← query (fun d => slug_used slug (projects d));
  if (slug_taken : bool) then fail (Invalid SLUG_TAKEN)
  else
    taken ← host_taken (public_host s) 0;
    if (taken : bool) then fail (Invalid HOST_TAKEN)
    else
      id ← stmt (insert_project slug s now);
      _ ← audit actor ProjectCreate (TProject id) now;
      mret id.

(** [projects::update]. *)
Definition update (id : Z) (s : Settings) (actor : Actor) (now : Z) : Tx ProjectError bool :=
  current ← query (fun d => find_first (fun p => p_id p =? id) (projects d));
  match current with
  | None => mret false
  | Some p =>
      if bool_decide (p_settings p = s) then mret false
      else
        taken ← host_taken (public_host s) id;
        if (taken : bool) then fail (Invalid HOST_TAKEN)
        else
          _ ← stmt (update_project id s);
          _ ← audit actor ProjectUpdate (TProject id) now;
          mret true
  end.

(** [projects::delete]. *)
Definition delete (id : Z) (actor : Actor) (now : Z) : Tx ProjectError bool :=
  n ← stmt (fun d => Ok (count_where (fun p => p_id p =? id) (projects d),
                         set_projects (delete_where (fun p => p_id p =? id)) (projects_seq d) d));
  if n =? 0 then mret false
  else _ ← audit actor ProjectDelete (TProject id) now; mret true.

(** [commands::create], after the database is open; a value that is not UTF-8 is NUL. *)
Definition arg_text (value : bytes) : str := default [0] (from_utf8 value).

Definition command_args (base_url : BaseUrl) (args : CreateArgs) : result Problem (str * Settings) :=
  slug ← parse_slug (arg_text (arg_slug args));
  n ← parse_name (arg_text (arg_name args));
  h ← match arg_host args with
      | Some h => parse_host (arg_text h) base_url
      | None => Ok None
      end;
  Ok (slug, settings_new n h).

Definition command_create (base_url : BaseUrl) (args : CreateArgs) (now : Z)
  : Tx ProjectError unit :=
  match command_args base_url args with
  | Err problem => fail (Invalid problem)
  | Ok (slug, s) => write (_ ← create slug s CliActor now; mret tt)
  end.

(** ** Project administration (admin/projects.rs) *)

Definition LIST_PATH : str := lit "/admin/projects".
Definition CONFIRM_FAILED : str :=
  lit "The project was not deleted: type its slug exactly to confirm the deletion.".

Record CreateForm := { cf_slug : str; cf_name : str; cf_public_host : str }.

Definition create_form_default : CreateForm :=
  {| cf_slug := []; cf_name := []; cf_public_host := [] |}.

Record SettingsForm := {
  sf_name : str; sf_public_host : str; sf_screenshots_enabled : option str;
  sf_features_enabled : option str; sf_require_email : option str;
  sf_plus_one_enabled : option str; sf_privacy_notice : str; sf_security_contact : str }.

(** [SettingsForm::of]. *)
Definition form_of (s : Settings) : SettingsForm :=
  let on (value : bool) := then_some value (lit "on") in
  {| sf_name := name s; sf_public_host := default [] (public_host s);
     sf_screenshots_enabled := on (screenshots_enabled s);
     sf_features_enabled := on (features_enabled s); sf_require_email := on (require_email s);
     sf_plus_one_enabled := on (plus_one_enabled s);
     sf_privacy_notice := default [] (privacy_notice s);
     sf_security_contact := default [] (security_contact s) |}.

(** [SettingsForm::parse]. *)
Definition form_parse (f : SettingsForm) (base_url : BaseUrl) : result Problem Settings :=
  let is_some (o : option str) := bool_decide (is_Some o) in
  n ← parse_name (sf_name f);
  h ← parse_host (sf_public_host f) base_url;
  notice ← parse_privacy_notice (sf_privacy_notice f);
  contact ← parse_security_contact (sf_security_contact f);
  Ok {| name := n; public_host := h; screenshots_enabled := is_some (sf_screenshots_enabled f);
        features_enabled := is_some (sf_features_enabled f);
        require_email := is_some (sf_require_email f);
        plus_one_enabled := is_some (sf_plus_one_enabled f); privacy_notice := notice;
        security_contact := contact |}.

Inductive ProjectPage :=
| ListPage (nav : Nav) (listed : list Project) (form : CreateForm) (error : option str)
| SettingsPage (nav : Nav) (slug : str) (form : SettingsForm) (error delete_error : option str).

(** A request's state: the world and the shared host map. *)
Definition Site : Type := World * HostMap.

Definition SiteHandler : Type := Site -> Response ProjectPage * Site.

Definition site_respond (r : Response ProjectPage) : SiteHandler := fun st => (r, st).

Definition site_result {E A} (t : Tx E A) (bad : E -> SiteHandler) (good : A -> SiteHandler)
  : SiteHandler := fun '(w, m) =>
  match t w with
  | (Ok a, w) => good a (w, m)
  | (Err e, w) => bad e (w, m)
  end.

(** Errors of a handler's own reads. *)
Definition site_error {E} (e : E) : SiteHandler := site_respond (Status 500).

Section Handlers.
Context `{Crates} (app : App).

(** [publish]: a failed rebuild is logged only. *)
Definition publish : Site -> Site := fun '(w, m) =>
  let '(_, m, w) := refresh (E := SqlError) (app_base_url app) m w in (w, m).

(** [to_settings]. *)
Definition to_settings (slug : str) : Response ProjectPage :=
  let location := lit "/admin/p/" ++ slug ++ lit "/settings" in
  if header_text_ok location then SeeOther location [] else Status 500.

Definition actor (user : SessionUser) : Actor := UserActor (user_id user) (role user).

(** [find]: none for a malformed slug. *)
Definition find_by_path (slug : str) : Tx SqlError (option Project) :=
  match parse_slug slug with
  | Err _ => mret None
  | Ok slug => read (query (find_project slug))
  end.

Definition list_page (user : SessionUser) (form : CreateForm) (error : option str) : SiteHandler :=
  site_result (read (query list_projects) : Tx SqlError (list Project)) site_error (fun l =>
    let page := ListPage (nav_of user) l form error in
    site_respond (match error with Some _ => Refused page | None => Html page end)).

(** [list]. *)
Definition list_handler (user : SessionUser) : SiteHandler :=
  list_page user create_form_default None.

(** [create]. *)
Definition create_handler (user : SessionUser) (form : CreateForm) (now : Z) : SiteHandler :=
  match slug ← parse_slug (cf_slug form);
        n ← parse_name (cf_name form);
        h ← parse_host (cf_public_host form) (app_base_url app);
        Ok (slug, settings_new n h) with
  | Err problem => list_page user form (Some (message problem))
  | Ok (slug, s) =>
      site_result (write (create slug s (actor user) now))
        (fun e => match e with
                  | Invalid problem => list_page user form (Some (message problem))
                  | ProjectDatabase => site_respond (Status 500)
                  end)
        (fun _ st => (to_settings slug, publish st))
  end.

Definition settings_page (user : SessionUser) (slug : str) (form : SettingsForm)
  (error delete_error : option str) : Response ProjectPage :=
  let page := SettingsPage (nav_of user) slug form error delete_error in
  if bool_decide (is_Some error) || bool_decide (is_Some delete_error) then Refused page
  else Html page.

(** [settings]. *)
Definition settings_handler (user : SessionUser) (slug : str) : SiteHandler :=
  site_result (find_by_path slug) site_error (fun found =>
    site_respond (match found with
                  | Some p => settings_page user (p_slug p) (form_of (p_settings p)) None None
                  | None => Status 404
                  end)).

(** [save]. *)
Definition save_handler (user : SessionUser) (slug : str) (form : SettingsForm) (now : Z)
  : SiteHandler :=
  site_result (find_by_path slug) site_error (fun found =>
    match found with
    | None => site_respond (Status 404)
    | Some p =>
        match form_parse form (app_base_url app) with
        | Err problem =>
            site_respond (settings_page user (p_slug p) form (Some (message problem)) None)
        | Ok s =>
            site_result (write (update (p_id p) s (actor user) now))
              (fun e => site_respond
                 (match e with
                  | Invalid problem =>
                      settings_page user (p_slug p) form (Some (message problem)) None
                  | ProjectDatabase => Status 500
                  end))
              (fun changed st => (to_settings (p_slug p), if (changed : bool) then publish st else st))
        end
    end).

(** [delete]. *)
Definition delete_handler (user : SessionUser) (slug confirm : str) (now : Z) : SiteHandler :=
  site_result (find_by_path slug) site_error (fun found =>
    match found with
    | None => site_respond (Status 404)
    | Some p =>
        if negb (zlist_eqb confirm (p_slug p)) then
          site_respond (settings_page user (p_slug p) (form_of (p_settings p)) None
                          (Some CONFIRM_FAILED))
        else
          site_result (write (delete (p_id p) (actor user) now)) site_error
            (fun deleted st => if (deleted : bool) then (SeeOther LIST_PATH [], publish st)
                               else (Status 404, st))
    end).
End Handlers.

(** ** The signed-in home (admin/mod.rs) *)

(** [admin::home]. *)
Definition home `{Crates} (user : SessionUser) : Handler Page :=
  on_result (if bool_decide (role user = Admin) then read (query list_projects) else mret []
             : Tx AuthError (list Project))
    server_error (fun listed =>
      respond (Html (HomePage (nav_of user) (role_as_str (role user)) (totp_enrolled user) listed))).

(** ** The canonical redirect (redirect.rs) *)

(** [canonical], for the raw [path] and [query] of the request. *)
Definition canonical_redirect `{Crates} {P} (m : HostMap) (path : str) (query : option str) : Response P :=
  match strip_prefix (lit "/p/") path with
  | None => Status 404
  | Some after =>
      let '(slug, rest) := match split_once 47 after with
                           | Some (slug, rest) => (slug, 47 :: rest)
                           | None => (after, [])
                           end in
      if zlist_eqb rest (lit "/api") || starts_with (lit "/api/") rest then Status 404
      else
        match domain m slug with
        | None => Status 404
        | Some h =>
            let path := if zlist_eqb rest [] then lit "/" else rest in
            let query := match query with Some q => lit "?" ++ q | None => [] end in
            let location := project_origin h ++ path ++ query in
            if header_text_ok location then PermanentRedirect location else Status 400
        end
  end.

(** ** Lemmas: field rules *)

Lemma trim_idem s : trim (trim s) = trim s.
Proof. apply trim_matches_idem. Qed.

Lemma trim_single_line s : is_single_line s = true -> is_single_line (trim s) = true.
Proof. rewrite !is_single_line_Forall. apply trim_matches_Forall. Qed.

Lemma parse_name_Ok t n :
  parse_name t = Ok n ->
  parse_name n = Ok n /\ 1 <= char_count n <= 80.
Proof.
  unfold parse_name. destruct (is_single_line t) eqn:Es; cbn [negb]; [|done].
  destruct (zlist_eqb (trim t) []) eqn:Ez; [done|]. cbn [orb].
  destruct (Z.ltb_spec NAME_MAX (char_count (trim t))); [done|]. intros [= <-].
  rewrite trim_single_line, trim_idem, Ez by done. cbn [negb orb].
  destruct (Z.ltb_spec NAME_MAX (char_count (trim t))); [lia|]. split; [done|].
  unfold NAME_MAX in *. split; [|lia]. unfold char_count.
  destruct (trim t); [by cbn in Ez|cbn; lia].
Qed.

Lemma parse_slug_Ok t s :
  parse_slug t = Ok s ->
  s = t /\ utf8 t = t /\ 1 <= char_count t <= 40 /\ forallb slug_byte t = true /\
  is_some_and (fun c => is_ascii_lowercase c || is_ascii_digit c) (head t) = true.
Proof.
  unfold parse_slug. destruct (utf8 t) as [|b bs] eqn:Eu; [done|].
  destruct (_ && _) eqn:E; [|done]. intros [= <-]. rewrite !andb_true_iff in E.
  destruct E as [[Hl Hb] Ha].
  assert (Ht : utf8 t = t).
  { apply (utf8_ascii_inv slug_byte); [|by rewrite Eu]. unfold slug_byte, is_ascii_lowercase,
      is_ascii_digit. intros c Hc. bool_lia. }
  unfold str_len, SLUG_MAX in Hl. rewrite Ht in *. rewrite Eu in *. propify.
  split; [done|]. split; [done|]. split.
  { unfold char_count. cbn [length] in *. lia. }
  split; [done|]. cbn in Ha |- *. rewrite andb_true_iff in Ha. destruct Ha as [Ha _].
  unfold slug_byte in Ha. destruct (Z.eqb_spec b 45); [done|]. by rewrite orb_false_r in Ha.
Qed.

(** A dot makes at least three characters: no label of a DNS name is empty. *)
Lemma dns_name_dotted h n :
  dns_name h = Ok n -> 46 ∈ h -> 3 <= char_count h <= 253.
Proof.
  intros Hd Hdot. pose proof (dns_name_chars _ _ Hd) as [-> Hc].
  assert (Hu : utf8 h = h).
  { apply utf8_ascii_id, Forall_forall. intros c Hin. rewrite forallb_Forall, Forall_forall in Hc.
    specialize (Hc c Hin). unfold is_dns_char, is_ascii_lowercase, is_ascii_digit in Hc. bool_lia. }
  unfold dns_name in Hd. destruct (zlist_eqb h [] || _) eqn:E; [done|].
  apply orb_false_iff in E as [_ Hlen]. unfold str_len in Hlen. rewrite Hu in Hlen.
  destruct (forallb label_ok (split 46 h)) eqn:El; [|done]. propify. split; [|unfold char_count; lia].
  pose proof (join_split 46 h) as Hj. destruct (split 46 h) as [|a [|b l]] eqn:Es.
  - by apply split_not_nil in Es.
  - exfalso. pose proof (split_pieces 46 h) as Hp. rewrite Es in Hp. cbn in Hj. subst a.
    by apply Forall_inv in Hp.
  - cbn in El. rewrite !andb_true_iff in El. destruct El as (Ha & Hb & _).
    apply label_ok_chars in Ha as [Ha _], Hb as [Hb _]. unfold char_count. rewrite <- Hj.
    destruct a; [done|]. destruct b; [done|]. destruct l; cbn; rewrite ?length_app; cbn; lia.
Qed.

Lemma dns_chars_stable h :
  forallb is_dns_char h = true -> to_ascii_lowercase (trim h) = h.
Proof.
  rewrite forallb_Forall. intros Hc. unfold trim. rewrite trim_matches_id.
  - unfold to_ascii_lowercase. induction Hc as [|c h Hc Hh IH]; [done|]. cbn. rewrite IH. f_equal.
    unfold to_ascii_lowercase_char. unfold is_dns_char, is_ascii_lowercase, is_ascii_digit in Hc.
    destruct (is_ascii_uppercase c) eqn:E; [|done]. unfold is_ascii_uppercase in E. bool_lia.
  - intros c Hh. apply head_Some_elem_of in Hh. rewrite Forall_forall in Hc. specialize (Hc c Hh).
    unfold is_dns_char, is_ascii_lowercase, is_ascii_digit in Hc. unfold is_whitespace. bool_lia.
  - intros c Hh. apply last_Some_elem_of in Hh. rewrite Forall_forall in Hc. specialize (Hc c Hh).
    unfold is_dns_char, is_ascii_lowercase, is_ascii_digit in Hc. unfold is_whitespace. bool_lia.
Qed.

Lemma parse_host_Ok t base h :
  parse_host t base = Ok h ->
  parse_host (default [] h) base = Ok h /\
  forall x, h = Some x -> 3 <= char_count x <= 253 /\ contains_char 46 x = true /\
    forallb is_dns_char x = true /\ x <> host base.
Proof.
  unfold parse_host. cbv zeta. set (y := to_ascii_lowercase (trim t)).
  destruct (zlist_eqb y []) eqn:Ez; [by intros [= <-]|].
  destruct (dns_name y) as [n|] eqn:Ed; [|done]. cbn [map_err mbind result_bind].
  pose proof (dns_name_chars _ _ Ed) as [-> Hc].
  destruct (contains_char 46 y) eqn:Edot; cbn [negb]; [|done].
  destruct (zlist_eqb y (host base)) eqn:Em; [done|]. intros [= <-].
  change (default [] (Some y)) with y. rewrite dns_chars_stable, Ez, Ed by done. cbn [map_err mbind result_bind].
  rewrite Edot, Em. cbn [negb]. split; [done|]. intros x [= <-].
  apply contains_char_spec in Edot as Hdot. pose proof (dns_name_dotted _ _ Ed Hdot).
  split_and!; try done; try lia. intros He. by rewrite He, zlist_eqb_refl in Em.
Qed.

(** The shared tail of the two optional text rules. *)
Lemma optional_trim_stable s (big : str -> bool) x :
  (if big (trim s) then None else Some (then_some (negb (zlist_eqb (trim s) [])) (trim s))) = Some x ->
  trim (default [] x) = default [] x /\ big (trim s) = false /\ default [] x = trim s /\
  then_some (negb (zlist_eqb (default [] x) [])) (default [] x) = x.
Proof.
  destruct (big (trim s)); [done|]. intros [= <-].
  destruct (zlist_eqb (trim s) []) eqn:Ez; cbn [negb then_some].
  - apply zlist_eqb_eq in Ez. by rewrite Ez.
  - change (default [] (Some (trim s))) with (trim s). by rewrite trim_idem, Ez.
Qed.

Lemma parse_privacy_notice_Ok t x :
  parse_privacy_notice t = Ok x ->
  parse_privacy_notice (default [] x) = Ok x /\
  forall n, x = Some n -> 1 <= str_len n <= 1024.
Proof.
  unfold parse_privacy_notice. cbv zeta. set (y := normalize_line_endings t).
  destruct (is_multi_line y) eqn:Em; cbn [negb]; [|done]. intros Hp.
  assert (Hx : (if (PRIVACY_NOTICE_MAX <? str_len (trim y)) then None
                else Some (then_some (negb (zlist_eqb (trim y) [])) (trim y))) = Some x).
  { destruct (_ <? _); congruence. }
  apply (optional_trim_stable y (fun n => PRIVACY_NOTICE_MAX <? str_len n)) in Hx
    as (Ht & Hb & Hd & Hs).
  assert (Hcr : 13 ∉ default [] x).
  { rewrite Hd. assert (Hy : Forall (fun c => c <> 13) y).
    { apply Forall_forall. intros c Hc ->. by apply (normalize_line_endings_no_cr t). }
    apply (trim_matches_Forall is_whitespace) in Hy. rewrite Forall_forall in Hy. intros Hin.
    by apply Hy in Hin. }
  assert (Hn : normalize_line_endings (default [] x) = default [] x).
  { unfold normalize_line_endings. by rewrite replace_crlf_id, replace_char_id. }
  assert (Hm : is_multi_line (default [] x) = true).
  { rewrite Hd. apply is_multi_line_Forall, trim_matches_Forall. by apply is_multi_line_Forall. }
  rewrite Hn, Hm, Ht. cbn [negb]. cbv beta in Hb. rewrite <- Hd in Hb. rewrite Hb, Hs.
  split; [done|]. intros n ->. change (default [] (Some n)) with n in *. subst n. unfold PRIVACY_NOTICE_MAX in *. propify.
  split; [|done]. unfold str_len. destruct (trim y) as [|c l]; [done|].
  rewrite utf8_cons, length_app. unfold utf8_char. repeat case_if; cbn [length]; lia.
Qed.

Lemma parse_security_contact_Ok t x :
  parse_security_contact t = Ok x ->
  parse_security_contact (default [] x) = Ok x /\
  forall c, x = Some c -> 1 <= char_count c <= 254.
Proof.
  unfold parse_security_contact. cbv zeta.
  destruct (is_single_line t) eqn:Em; cbn [negb]; [|done]. intros Hp.
  assert (Hx : (if (SECURITY_CONTACT_MAX <? char_count (trim t)) then None
                else Some (then_some (negb (zlist_eqb (trim t) [])) (trim t))) = Some x).
  { destruct (_ <? _); congruence. }
  apply (optional_trim_stable t (fun n => SECURITY_CONTACT_MAX <? char_count n)) in Hx
    as (Ht & Hb & Hd & Hs).
  assert (Hm : is_single_line (default [] x) = true) by (rewrite Hd; by apply trim_single_line).
  rewrite Hm, Ht. cbn [negb]. cbv beta in Hb. rewrite <- Hd in Hb. rewrite Hb, Hs.
  split; [done|]. intros c ->. change (default [] (Some c)) with c in *. subst c. unfold SECURITY_CONTACT_MAX in *. propify.
  split; [|done]. unfold char_count. destruct (trim t); [done|cbn; lia].
Qed.

Lemma is_some_on (b : bool) : bool_decide (is_Some (then_some b (lit "on"))) = b.
Proof. by destruct b. Qed.

Lemma form_parse_Ok f base s :
  form_parse f base = Ok s ->
  parse_name (sf_name f) = Ok (name s) /\ parse_host (sf_public_host f) base = Ok (public_host s) /\
  parse_privacy_notice (sf_privacy_notice f) = Ok (privacy_notice s) /\
  parse_security_contact (sf_security_contact f) = Ok (security_contact s).
Proof.
  unfold form_parse. cbv zeta. intros Hf.
  apply bind_Ok_inv in Hf as (n & Hn & Hf). apply bind_Ok_inv in Hf as (h & Hh & Hf).
  apply bind_Ok_inv in Hf as (p & Hp & Hf). apply bind_Ok_inv in Hf as (c & Hc & Hf).
  injection Hf as <-. done.
Qed.

(** The settings form shows what is stored: submitting the form of accepted settings
    unchanged gives back exactly those settings, so it records no change. *)
Theorem settings_form_roundtrip (f : SettingsForm) (base_url : BaseUrl) (s : Settings) :
  form_parse f base_url = Ok s -> form_parse (form_of s) base_url = Ok s.
Proof.
  intros (Hn & Hh & Hp & Hc)%form_parse_Ok. unfold form_parse, form_of. cbv zeta.
  cbn [sf_name sf_public_host sf_privacy_notice sf_security_contact sf_screenshots_enabled
       sf_features_enabled sf_require_email sf_plus_one_enabled].
  apply parse_name_Ok in Hn as [-> _]. apply parse_host_Ok in Hh as [-> _].
  apply parse_privacy_notice_Ok in Hp as [-> _]. apply parse_security_contact_Ok in Hc as [-> _].
  cbn [mbind result_bind]. rewrite !is_some_on. by destruct s.
Qed.

(** What the rules accept, the table's checks accept. *)
Lemma accepted_pass_checks slug t f base s :
  parse_slug t = Ok slug -> form_parse f base = Ok s -> table_checks slug s = true.
Proof.
  intros Hs (Hn & Hh & Hp & Hc)%form_parse_Ok. apply parse_slug_Ok in Hs as (-> & _ & Hl & Ha & Hhd).
  apply parse_name_Ok in Hn as [_ Hn]. apply parse_host_Ok in Hh as [_ Hh].
  apply parse_privacy_notice_Ok in Hp as [_ Hp]. apply parse_security_contact_Ok in Hc as [_ Hc].
  unfold table_checks. rewrite Ha, Hhd. rewrite !andb_true_iff, !Z.leb_le.
  split_and!; try done; try lia.
  - destruct (public_host s) as [h|]; [|done]. destruct (Hh h eq_refl) as (Hb & Hd & Hdns & _).
    rewrite Hd, !andb_true_iff, !Z.leb_le. split_and!; try done; try lia.
  - destruct (privacy_notice s); [|done]. specialize (Hp _ eq_refl). bool_lia.
  - destruct (security_contact s); [|done]. specialize (Hc _ eq_refl). bool_lia.
Qed.

(** ** The table's invariant *)

(** Ids are never reused, slugs and domains are unique, every row passes the checks. *)
Record projects_wf (d : Db) : Prop := {
  wf_ids : NoDup (map p_id (projects d));
  wf_hosts : hosts_unique (projects d);
  wf_seq : Forall (fun p => 1 <= p_id p <= projects_seq d) (projects d);
  wf_seq_nonneg : 0 <= projects_seq d;
  wf_checks : Forall (fun p => table_checks (p_slug p) (p_settings p) = true) (projects d) }.

Lemma slug_used_false slug l : slug_used slug l = false -> slug ∉ map p_slug l.
Proof.
  intros Hs (p & -> & Hp)%list_elem_of_fmap. apply not_true_iff_false in Hs. apply Hs, existsb_In.
  exists p. by rewrite zlist_eqb_refl.
Qed.

Lemma host_used_false h except l x :
  host_used h except l = false -> h = Some x ->
  Forall (fun p => host_of p = Some x -> p_id p = except) l.
Proof.
  intros Hu ->. apply Forall_forall. intros p Hp Hh. cbn in Hu.
  destruct (Z.eq_dec (p_id p) except); [done|]. apply not_true_iff_false in Hu. destruct Hu.
  apply existsb_In. exists p. split; [done|]. unfold host_of in Hh. rewrite bool_decide_eq_true_2 by done.
  by rewrite (proj2 (Z.eqb_neq _ _)).
Qed.

Lemma NoDup_omap_snoc {A B} (f : A -> option B) l x :
  NoDup (omap f l) -> (forall y, f x = Some y -> y ∉ omap f l) -> NoDup (omap f (l ++ [x])).
Proof.
  intros Hd Hx. rewrite omap_app. cbn. destruct (f x) as [y|]; [|by rewrite app_nil_r].
  apply NoDup_app. split_and!; [done| |apply NoDup_singleton]. intros z Hz Hy.
  apply list_elem_of_singleton in Hy as ->. by apply (Hx y).
Qed.

Lemma insert_project_wf slug s now d id d' :
  insert_project slug s now d = Ok (id, d') -> projects_wf d -> projects_wf d'.
Proof.
  unfold insert_project. destruct (_ || _) eqn:E; [done|]. cbv zeta. intros [= <- <-].
  rewrite !orb_false_iff, negb_false_iff in E. destruct E as [[Es Eh] Ec].
  intros [Hi [Hs Hh] Hq Hn Hc]. split; cbn.
  - rewrite map_app. apply NoDup_app. split_and!; [done| |apply NoDup_singleton].
    intros i (p & -> & Hp)%list_elem_of_fmap Hin. apply list_elem_of_singleton in Hin.
    rewrite Forall_forall in Hq. specialize (Hq p Hp). cbn in Hin. lia.
  - split.
    + rewrite map_app. apply NoDup_app. split_and!; [done| |apply NoDup_singleton].
      intros x Hx Hin. apply list_elem_of_singleton in Hin as ->. by apply (slug_used_false slug) in Es.
    + apply NoDup_omap_snoc; [done|]. intros x Hx Hin. cbn in Hx.
      apply list_elem_of_omap in Hin as (p & Hp & Hph).
      pose proof (host_used_false _ _ _ x Eh Hx) as Hall. rewrite Forall_forall in Hall, Hq.
      specialize (Hall p Hp Hph). specialize (Hq p Hp). lia.
  - apply Forall_app. split; [|repeat constructor; cbn; lia].
    eapply Forall_impl; [exact Hq|]. cbn. lia.
  - lia.
  - apply Forall_app. split; [done|]. by repeat constructor.
Qed.

Lemma omap_host_update i s l h :
  NoDup (map p_id l) ->
  h ∈ omap host_of (update_where (fun p => p_id p =? i) (set_settings s) l) ->
  (h ∈ omap host_of l) \/ public_host s = Some h.
Proof.
  intros _ (p & (x & Hx & ->)%elem_of_update_where & Hp)%list_elem_of_omap.
  destruct (p_id x =? i); [by right|]. left. apply list_elem_of_omap. eauto.
Qed.

Lemma NoDup_host_update i s l :
  NoDup (map p_id l) -> NoDup (omap host_of l) ->
  (forall x, public_host s = Some x -> Forall (fun p => host_of p = Some x -> p_id p = i) l) ->
  NoDup (omap host_of (update_where (fun p => p_id p =? i) (set_settings s) l)).
Proof.
  induction l as [|p l IH]; [done|]. intros Hi Hh Hs. cbn [map] in Hi. apply NoDup_cons in Hi as [Hp Hi].
  assert (Hh' : NoDup (omap host_of l)).
  { cbn in Hh. destruct (host_of p); [by apply NoDup_cons in Hh as [_ Hh]|done]. }
  assert (Hs' : forall x, public_host s = Some x -> Forall (fun p => host_of p = Some x -> p_id p = i) l).
  { intros x Hx. specialize (Hs x Hx). by apply Forall_cons in Hs as [_ Hs]. }
  specialize (IH Hi Hh' Hs'). change (update_where (fun p => p_id p =? i) (set_settings s) (p :: l))
    with ((if p_id p =? i then set_settings s p else p)
          :: update_where (fun p => p_id p =? i) (set_settings s) l).
  cbn [omap list_omap]. destruct (host_of _) as [x|] eqn:Ex; [|done]. apply NoDup_cons. split; [|done].
  intros Hin. apply list_elem_of_omap in Hin as (q & (y & Hy & ->)%elem_of_update_where & Hq).
  destruct (Z.eqb_spec (p_id p) i) as [He|Hne].
  - assert (Hyi : p_id y <> i).
    { intros Heq. apply Hp, list_elem_of_fmap. exists y. split; [congruence|done]. }
    rewrite (proj2 (Z.eqb_neq _ _) Hyi) in Hq. specialize (Hs' x Ex). rewrite Forall_forall in Hs'.
    by apply Hyi, Hs'.
  - destruct (Z.eqb_spec (p_id y) i) as [Hye|Hyn].
    + specialize (Hs x Hq). apply Forall_cons in Hs as [Hs _]. by apply Hne, Hs.
    + cbn in Hh. rewrite Ex in Hh. apply NoDup_cons in Hh as [Hh _]. apply Hh, list_elem_of_omap. eauto.
Qed.

Lemma map_update_same {A B} (g : A -> B) (p : A -> bool) f (l : list A) :
  (forall x, g (f x) = g x) -> map g (update_where p f l) = map g l.
Proof.
  intros Hg. unfold update_where. induction l as [|x l IH]; [done|]. cbn. rewrite IH.
  f_equal. by destruct (p x).
Qed.

Lemma update_project_wf i s d u d' :
  update_project i s d = Ok (u, d') -> projects_wf d -> projects_wf d'.
Proof.
  unfold update_project. destruct (find_first _ _) as [p|] eqn:Ef; [|by intros [= _ <-]].
  destruct (_ || _) eqn:E; [done|]. intros [= _ <-]. rewrite orb_false_iff, negb_false_iff in E.
  destruct E as [Eh Ec]. intros [Hi [Hs Hh] Hq Hn Hc]. split; cbn; try done.
  - by rewrite map_update_same.
  - split; [by rewrite map_update_same|]. apply NoDup_host_update; try done.
    intros x Hx. by apply (host_used_false (public_host s)).
  - apply Forall_forall. intros q (y & Hy & ->)%elem_of_update_where. rewrite Forall_forall in Hq.
    specialize (Hq y Hy). by destruct (p_id y =? i).
  - apply Forall_forall. intros q (y & Hy & ->)%elem_of_update_where.
    destruct (Z.eqb_spec (p_id y) i) as [He|]; [|rewrite Forall_forall in Hc; by apply Hc].
    cbn. apply find_first_Some in Ef as [Hp Hpi]. propify.
    assert (y = p) as -> by (apply (NoDup_map_inj p_id (projects d)); [done|done|done|congruence]). done.
Qed.

Lemma NoDup_omap_delete {A B} (f : A -> option B) (p : A -> bool) l :
  NoDup (omap f l) -> NoDup (omap f (delete_where p l)).
Proof.
  induction l as [|x l IH]; [done|]. unfold delete_where in *. cbn. intros Hd.
  assert (Hl : NoDup (omap f l)) by (destruct (f x); [by apply NoDup_cons in Hd as [_ Hd]|done]).
  destruct (p x); cbn; [by apply IH|]. destruct (f x) as [y|]; [|by apply IH].
  apply NoDup_cons in Hd as [Hy _]. apply NoDup_cons. split; [|by apply IH].
  intros (z & Hz & Hfz)%list_elem_of_omap. apply Hy, list_elem_of_omap. exists z.
  split; [|done]. rewrite list_elem_of_In, filter_In, <- list_elem_of_In in Hz. apply Hz.
Qed.

Lemma delete_project_wf p d :
  projects_wf d -> projects_wf (set_projects (delete_where p) (projects_seq d) d).
Proof.
  intros [Hi [Hs Hh] Hq Hn Hc]. split; cbn; try done.
  - by apply NoDup_map_filter.
  - split; [by apply NoDup_map_filter|by apply NoDup_omap_delete].
  - apply Forall_forall. intros q [Hq' _]%elem_of_delete_where. rewrite Forall_forall in Hq. by apply Hq.
  - apply Forall_forall. intros q [Hq' _]%elem_of_delete_where. rewrite Forall_forall in Hc. by apply Hc.
Qed.

(** The table together with the main host: no project owns it. *)
Definition site_ok (base_url : BaseUrl) (d : Db) : Prop :=
  projects_wf d /\ Forall (fun p => host_of p <> Some (host base_url)) (projects d).

Lemma site_ok_audit base f s d : site_ok base d -> site_ok base (set_audit_log f s d).
Proof. intros [[Hi Hh Hq Hn Hc] Hm]. split; [by split|done]. Qed.

Lemma create_inv base slug s actor now :
  public_host s <> Some (host base) -> inv_tx (site_ok base) (create slug s actor now).
Proof.
  intros Hm. apply inv_bind; [apply inv_query|]. intros []; [apply inv_fail|].
  apply inv_bind.
  { unfold host_taken. destruct (public_host s); [apply inv_query|apply inv_mret]. }
  intros []; [apply inv_fail|]. apply inv_bind.
  - apply inv_stmt. intros d i d' Hins [Hwf Hmain].
    split; [by eapply insert_project_wf|]. unfold insert_project in Hins.
    destruct (_ || _); [done|]. injection Hins as _ <-. cbn. apply Forall_app. split; [done|].
    by repeat constructor.
  - intros i. apply inv_bind; [|intros; apply inv_mret]. apply inv_audit. apply site_ok_audit.
Qed.

Lemma update_inv base i s actor now :
  public_host s <> Some (host base) -> inv_tx (site_ok base) (update i s actor now).
Proof.
  intros Hm. apply inv_bind; [apply inv_query|]. intros [p|]; [|apply inv_mret].
  destruct (bool_decide _); [apply inv_mret|]. apply inv_bind.
  { unfold host_taken. destruct (public_host s); [apply inv_query|apply inv_mret]. }
  intros []; [apply inv_fail|]. apply inv_bind.
  - apply inv_stmt. intros d u d' Hup [Hwf Hmain]. split; [by eapply update_project_wf|].
    unfold update_project in Hup. destruct (find_first _ _); [|by injection Hup as _ <-].
    destruct (_ || _); [done|]. injection Hup as _ <-. cbn. apply Forall_forall.
    intros q (y & Hy & ->)%elem_of_update_where. rewrite Forall_forall in Hmain.
    destruct (p_id y =? i); [done|by apply Hmain].
  - intros []. apply inv_bind; [|intros; apply inv_mret]. apply inv_audit. apply site_ok_audit.
Qed.

Lemma delete_inv base i actor now : inv_tx (site_ok base) (delete i actor now).
Proof.
  apply inv_bind.
  - apply inv_stmt. intros d n d' [= _ <-] [Hwf Hmain]. split; [by apply delete_project_wf|].
    cbn. apply Forall_forall. intros q [Hq _]%elem_of_delete_where. rewrite Forall_forall in Hmain.
    by apply Hmain.
  - intros n. destruct (n =? 0); [apply inv_mret|]. apply inv_bind; [|intros; apply inv_mret].
    apply inv_audit. apply site_ok_audit.
Qed.

(** A handler keeps [P] whatever it answers, when the others do. *)
Definition site_safe (P : Db -> Prop) (h : SiteHandler) : Prop :=
  forall w m, good P w -> good P (h (w, m)).2.1.

Lemma site_safe_result P {E A} (t : Tx E A) bad ok :
  safe P t -> (forall e, site_safe P (bad e)) -> (forall a, site_safe P (ok a)) ->
  site_safe P (site_result t bad ok).
Proof.
  intros Ht Hb Hg w m Hw. cbn. specialize (Ht w Hw). destruct (t w) as [[a|e] w1];
    [by apply Hg|by apply Hb].
Qed.

Lemma site_safe_respond P r : site_safe P (site_respond r).
Proof. by intros w m Hw. Qed.

Lemma publish_good P app w m : good P w -> good P (publish app (w, m)).1.
Proof.
  intros Hw. unfold publish, refresh.
  pose proof (safe_read P (query (E := SqlError) (load (app_base_url app))) (still_query _) w Hw) as Hr.
  by destruct (read _ w) as [[m'|e] w1].
Qed.

Lemma site_safe_list P `{Crates} user form error : site_safe P (list_page user form error).
Proof.
  apply site_safe_result; [apply safe_read, still_query| |]; intros; apply site_safe_respond.
Qed.

Lemma find_by_path_safe P slug : safe P (find_by_path slug).
Proof.
  unfold find_by_path. destruct (parse_slug slug); [apply safe_read, still_query|].
  apply safe_still, still_mret.
Qed.

Lemma create_handler_safe `{Crates} app user form now :
  site_safe (site_ok (app_base_url app)) (create_handler app user form now).
Proof.
  unfold create_handler. destruct (_ ≫= _) as [[slug s]|problem] eqn:Ep; [|apply site_safe_list].
  apply bind_Ok_inv in Ep as (sl & _ & Ep). apply bind_Ok_inv in Ep as (n & _ & Ep).
  apply bind_Ok_inv in Ep as (h & Hh & Ep). injection Ep as <- <-.
  apply parse_host_Ok in Hh as [_ Hh]. apply site_safe_result.
  - apply safe_write, create_inv. cbn. intros ->. by destruct (Hh _ eq_refl) as (_ & _ & _ & ?).
  - intros [problem|]; [apply site_safe_list|apply site_safe_respond].
  - intros i w m Hw. by apply publish_good.
Qed.

Lemma save_handler_safe `{Crates} app user slug form now :
  site_safe (site_ok (app_base_url app)) (save_handler app user slug form now).
Proof.
  apply site_safe_result; [apply find_by_path_safe|intros; apply site_safe_respond|].
  intros [p|]; [|apply site_safe_respond].
  destruct (form_parse _ _) as [s|problem] eqn:Ef; [|apply site_safe_respond].
  apply form_parse_Ok in Ef as (_ & Hh & _). apply parse_host_Ok in Hh as [_ Hh].
  apply site_safe_result.
  - apply safe_write, update_inv. intros Hs. by destruct (Hh _ Hs) as (_ & _ & _ & ?).
  - intros e. apply site_safe_respond.
  - intros [] w m Hw; [by apply publish_good|done].
Qed.

Lemma delete_handler_safe `{Crates} app user slug confirm now :
  site_safe (site_ok (app_base_url app)) (delete_handler app user slug confirm now).
Proof.
  apply site_safe_result; [apply find_by_path_safe|intros; apply site_safe_respond|].
  intros [p|]; [|apply site_safe_respond]. destruct (negb _); [apply site_safe_respond|].
  apply site_safe_result; [apply safe_write, delete_inv|intros; apply site_safe_respond|].
  intros [] w m Hw; [by apply publish_good|done].
Qed.

Lemma command_create_safe base_url args now :
  safe (site_ok base_url) (command_create base_url args now).
Proof.
  unfold command_create, command_args. destruct (_ ≫= _) as [[slug s]|problem] eqn:Ep; [|apply safe_still, still_fail].
  apply bind_Ok_inv in Ep as (sl & _ & Ep). apply bind_Ok_inv in Ep as (n & _ & Ep).
  apply bind_Ok_inv in Ep as (h & Hh & Ep). injection Ep as <- <-.
  apply safe_write, inv_bind; [|intros; apply inv_mret]. apply create_inv. cbn. intros ->.
  destruct (arg_host args); [|done]. apply parse_host_Ok in Hh as [_ Hh].
  by destruct (Hh _ eq_refl) as (_ & _ & _ & ?).
Qed.

(** C38: administration keeps the sites apart. Whatever the forms and the command are given,
    whatever fails and whatever other requests commit in between, the projects keep
    unique ids, slugs and domains, none of them the main host, and every row passes the
    table's checks. *)
Theorem administration_keeps_sites_apart `{Crates} (app : App) (user : SessionUser) (slug confirm : str)
    (create_form : CreateForm) (form : SettingsForm) (args : CreateArgs) (now : Z)
    (w : World) (m : HostMap) :
  good (site_ok (app_base_url app)) w ->
  site_ok (app_base_url app) (db (create_handler app user create_form now (w, m)).2.1) /\
  site_ok (app_base_url app) (db (save_handler app user slug form now (w, m)).2.1) /\
  site_ok (app_base_url app) (db (delete_handler app user slug confirm now (w, m)).2.1) /\
  site_ok (app_base_url app) (db (command_create (app_base_url app) args now w).2).
Proof.
  intros Hw. split_and!.
  - by apply create_handler_safe.
  - by apply save_handler_safe.
  - by apply delete_handler_safe.
  - by apply command_create_safe.
Qed.

(** ** What the handlers do *)

Lemma interfere_alone w : others w = [] -> interfere w = w.
Proof. intros Ho. unfold interfere. by rewrite Ho. Qed.

Lemma create_Ok slug s a now w i w' :
  create slug s a now w = (Ok i, w') ->
  slug_used slug (projects (db w)) = false /\ host_used (public_host s) 0 (projects (db w)) = false /\
  i = projects_seq (db w) + 1 /\ others w' = others w /\
  projects (db w') = projects (db w) ++ [{| p_id := i; p_slug := slug; p_settings := s;
                                            p_created_at := now |}] /\
  exists e, audit_log (db w') = audit_log (db w) ++ [e] /\ a_actor e = actor_columns a /\
    a_action e = identifier ProjectCreate /\ a_target e = (lit "project", Some i) /\ a_time e = now.
Proof.
  unfold create. intros Hc. apply Tx_bind_Ok in Hc as (st & w1 & Hq & Hc).
  apply query_Ok in Hq as [-> ->]. destruct (slug_used _ _) eqn:Es; [by tx_inv|].
  apply Tx_bind_Ok in Hc as (ht & w2 & Hh & Hc).
  assert (Hd2 : db w2 = db w /\ others w2 = others w).
  { unfold host_taken in Hh. destruct (public_host s); [by apply query_Ok in Hh as [_ ->]|].
    by tx_inv; simplify_eq. }
  destruct Hd2 as [Hd2 Ho2]. destruct ht; [by tx_inv|].
  apply Tx_bind_Ok in Hc as (i' & w3 & Hi & Hc). apply stmt_Ok in Hi as (d & Hi & ->).
  apply Tx_bind_Ok in Hc as (x & w4 & Ha & Hc). apply stmt_Ok in Ha as (d' & [= _ <-] & ->).
  tx_inv. simplify_eq. rewrite Hd2 in Hi. unfold insert_project in Hi.
  destruct (_ || _) eqn:E; [done|]. rewrite !orb_false_iff in E. destruct E as [[_ Eh] _].
  simplify_eq. cbn. split_and!; try done. by eexists.
Qed.

Lemma publish_map app w m st :
  publish app (w, m) = st ->
  db st.1 = db (interfere w) /\ (st.2 = load (app_base_url app) (db st.1) \/ st.2 = m).
Proof.
  intros <-. unfold publish, refresh. destruct (read _ w) as [[m'|e] w1] eqn:E; unfold read in E; cbn.
  - apply query_Ok in E as [-> ->]. auto.
  - apply stmt_Err in E. auto.
Qed.

(** A created project is the one the form describes. When the form's answer is the
    redirect to the new settings page, the slug and the domain were free, the table has
    one row more, with a new id and the defaults of a new project, the audit log one
    entry more, and the host map is the database's, unless its rebuild failed and the
    old one was kept. *)
Theorem create_form_creates `{Crates} (app : App) (user : SessionUser) (form : CreateForm) (now : Z)
    (w w' : World) (m m' : HostMap) (loc : str) (cs : list str) :
  create_handler app user form now (w, m) = (SeeOther loc cs, (w', m')) -> others w = [] ->
  exists slug n h i,
    parse_slug (cf_slug form) = Ok slug /\ parse_name (cf_name form) = Ok n /\
    parse_host (cf_public_host form) (app_base_url app) = Ok h /\
    slug_used slug (projects (db w)) = false /\ host_used h 0 (projects (db w)) = false /\
    i = projects_seq (db w) + 1 /\
    projects (db w') = projects (db w) ++ [{| p_id := i; p_slug := slug;
                         p_settings := settings_new n h; p_created_at := now |}] /\
    (exists e, audit_log (db w') = audit_log (db w) ++ [e] /\
       a_actor e = (role_as_str (role user), Some (user_id user)) /\
       a_action e = identifier ProjectCreate /\ a_target e = (lit "project", Some i)) /\
    (m' = load (app_base_url app) (db w') \/ m' = m) /\
    loc = lit "/admin/p/" ++ slug ++ lit "/settings".
Proof.
  unfold create_handler. intros Hc Ho. destruct (_ ≫= _) as [[slug s]|problem] eqn:Ep.
  2: { unfold list_page, site_result in Hc. by destruct (read _ w) as [[]]. }
  apply bind_Ok_inv in Ep as (sl & Hsl & Ep). apply bind_Ok_inv in Ep as (n & Hn & Ep).
  apply bind_Ok_inv in Ep as (h & Hh & Ep). injection Ep as <- <-.
  unfold site_result in Hc. destruct (write _ w) as [[i|e] w1] eqn:Ew.
  2: { destruct e; [|done]. unfold list_page, site_result in Hc. by destruct (read _ w1) as [[]]. }
  apply write_Ok in Ew as (w2 & w3 & Hd2 & _ & Hcr & Hd1 & _ & Ho1 & Ho2).
  rewrite (interfere_alone w Ho) in *.
  apply create_Ok in Hcr as (Hs1 & Hs2 & Hi & Ho3 & Hp & (e & He & Hea & Hec & Het & _)).
  destruct (to_settings sl) as [| |l cs'| | |] eqn:El; try (injection Hc as Hbad _; discriminate).
  injection Hc as -> -> Hpub.
  destruct (publish_map _ _ _ _ Hpub) as [Hdw Hm]. cbn [fst snd] in *.
  rewrite (interfere_alone w1) in Hdw by congruence. rewrite Hdw, Hd1, Hd2 in *.
  unfold to_settings in El. destruct (header_text_ok _); [|done]. injection El as <- _.
  exists sl, n, h, i. split_and!; try done. by exists e.
Qed.

Lemma find_by_path_Ok slug w found w' :
  find_by_path slug w = (Ok found, w') -> others w = [] ->
  db w' = db w /\ others w' = [] /\ (forall p, found = Some p -> find_project slug (db w) = Some p).
Proof.
  unfold find_by_path. destruct (parse_slug slug) as [s|] eqn:Es.
  - apply parse_slug_Ok in Es as (-> & _). intros Hr Ho. unfold read in Hr.
    rewrite (interfere_alone w Ho) in Hr. apply query_Ok in Hr as [-> ->]. done.
  - intros Hr Ho. tx_inv. by simplify_eq.
Qed.

(** Deletion needs the slug typed exactly: either nothing in the database changes, or
    the confirmation was the slug of an existing project and exactly that project is
    gone, with one audit entry. *)
Theorem deletion_needs_the_slug `{Crates} (app : App) (user : SessionUser) (slug confirm : str) (now : Z)
    (w w' : World) (m m' : HostMap) (r : Response ProjectPage) :
  delete_handler app user slug confirm now (w, m) = (r, (w', m')) -> others w = [] ->
  db w' = db w \/
  exists p, find_project slug (db w) = Some p /\ confirm = slug /\ r = SeeOther LIST_PATH [] /\
    projects (db w') = delete_where (fun q => p_id q =? p_id p) (projects (db w)) /\
    sessions (db w') = sessions (db w) /\ users (db w') = users (db w) /\
    exists e, audit_log (db w') = audit_log (db w) ++ [e] /\
      a_action e = identifier ProjectDelete /\ a_target e = (lit "project", Some (p_id p)).
Proof.
  unfold delete_handler, site_result at 1. intros Hd Ho.
  destruct (find_by_path slug w) as [[found|e] w1] eqn:Ef.
  2: { unfold find_by_path in Ef. destruct (parse_slug slug); [|by tx_inv]. unfold read in Ef.
       apply stmt_Err in Ef. rewrite (interfere_alone w Ho) in Ef. injection Hd as _ <- _. auto. }
  apply find_by_path_Ok in Ef as (Hd1 & Ho1 & Hf); [|done].
  destruct found as [p|]; [|injection Hd as _ <- _; auto]. specialize (Hf p eq_refl).
  assert (Hsl : p_slug p = slug).
  { unfold find_project in Hf. apply find_first_Some in Hf as [_ Hf]. by apply zlist_eqb_eq. }
  destruct (zlist_eqb confirm (p_slug p)) eqn:Ec; cbn [negb] in Hd; [|injection Hd as _ <- _; auto].
  apply zlist_eqb_eq in Ec. unfold site_result in Hd.
  destruct (write _ w1) as [[deleted|e] w2] eqn:Ew.
  2: { apply write_Err in Ew. rewrite (interfere_alone w1 Ho1), Hd1 in Ew. injection Hd as _ <- _. auto. }
  apply write_Ok in Ew as (w3 & w4 & Hd3 & _ & Hx & Hd4 & _ & Ho2 & Ho3).
  rewrite (interfere_alone w1 Ho1) in *. unfold delete in Hx.
  apply Tx_bind_Ok in Hx as (n & w5 & Hs & Hx). apply stmt_Ok in Hs as (d5 & Hs & ->).
  injection Hs as <- <-. destruct (Z.eqb_spec (count_where (fun p0 => p_id p0 =? p_id p) (projects (db w3))) 0)
    as [Hz|Hnz].
  - unfold mret, Tx_ret in Hx. injection Hx as <- <-. injection Hd as _ <- _. left. rewrite Hd4. cbn.
    apply count_where_0 in Hz. unfold set_projects.
    replace (delete_where _ _) with (projects (db w3)); [rewrite <- Hd1, <- Hd3; by destruct (db w3)|].
    unfold delete_where. induction Hz as [|x l Hx Hl IH]; [done|]. cbn. by rewrite Hx, <- IH.
  - apply Tx_bind_Ok in Hx as (y & w6 & Ha & Hx). apply stmt_Ok in Ha as (d6 & [= _ <-] & ->).
    unfold mret, Tx_ret in Hx. injection Hx as <- <-. cbv beta iota in Hd.
    destruct (publish app (w2, m)) as [wp mp] eqn:Ep. injection Hd as <- <- <-.
    pose proof (publish_map _ _ _ _ Ep) as [Hdp _]. cbn [fst] in Hdp.
    rewrite (interfere_alone w2) in Hdp by (rewrite Ho2; cbn; congruence).
    rewrite Hdp, Hd4. cbn. rewrite Hd3, Hd1. right. exists p. split; [done|]. split; [congruence|].
    do 4 (split; [done|]). by eexists.
Qed.

(** The canonical redirect goes only to a stored domain: the location is [https://],
    the domain the host map has for the path's slug, the rest of the path and the query
    as sent; no path under [api] is redirected. *)
Theorem redirect_only_to_stored_domain `{Crates} (m : HostMap) (path : str) (query : option str) (loc : str) :
  canonical_redirect (P := ProjectPage) m path query = PermanentRedirect loc ->
  exists slug rest h,
    path = lit "/p/" ++ slug ++ rest /\ (47 ∉ slug) /\ (rest = [] \/ (exists r, rest = 47 :: r)) /\
    rest <> lit "/api" /\ starts_with (lit "/api/") rest = false /\
    domain m slug = Some h /\
    loc = lit "https://" ++ h ++ (if zlist_eqb rest [] then lit "/" else rest)
          ++ match query with Some q => lit "?" ++ q | None => [] end.
Proof.
  unfold canonical_redirect. destruct (strip_prefix _ path) as [after|] eqn:Ep; [|done].
  apply strip_prefix_spec in Ep as ->.
  set (sr := match split_once 47 after with Some (slug, rest) => (slug, 47 :: rest) | None => (after, []) end).
  assert (Hsr : after = sr.1 ++ sr.2 /\ (47 ∉ sr.1) /\ (sr.2 = [] \/ (exists r, sr.2 = 47 :: r))).
  { unfold sr. destruct (split_once 47 after) as [[a b]|] eqn:Es.
    - apply split_once_spec in Es as [-> Ha]. cbn. eauto.
    - apply split_once_None in Es. cbn. rewrite app_nil_r. auto. }
  destruct sr as [slug rest]. destruct Hsr as (-> & Hs & Hr). cbn [fst snd] in *.
  destruct (zlist_eqb rest (lit "/api")) eqn:Ea; [done|]. cbn [orb].
  destruct (starts_with (lit "/api/") rest) eqn:Ew; [done|].
  destruct (domain m slug) as [h|] eqn:Ed; [|done]. destruct (header_text_ok _); [|done].
  intros [= <-]. exists slug, rest, h. split_and!; try done.
  intros ->. by rewrite zlist_eqb_refl in Ea.
Qed.
