(* ===== verification/Jobs.v ===== *)
(** * Background jobs (src/src/jobs.rs)

    The schedule of the limiter sweep and retention, and the retention transactions.
    Instants are nanoseconds. *)

From S2P Require Import Prelude Str Keys Db Outbox Auth.

Definition SWEEP_EVERY : Z := 60 * 1000000000.
Definition RETENTION_EVERY : Z := 60 * 60 * 1000000000.
Definition AUDIT_KEEP_SECONDS : Z := 365 * 24 * 60 * 60.

Inductive Job := Sweep | Retention.

Record Schedule := { next_sweep : Z; next_retention : Z }.

(** [Schedule::new]. *)
Definition schedule_new (start : Z) : Schedule :=
  {| next_sweep := start + SWEEP_EVERY; next_retention := start |}.

(** [while next <= now { next += every }]; [fuel] bounds the rounds. *)
Fixpoint advance_past (fuel : nat) (next every now : Z) : Z :=
  match fuel with
  | O => next
  | S fuel => if next <=? now then advance_past fuel (next + every) every now else next
  end.

(** Rounds that reach past [now]. *)
Definition rounds (next every now : Z) : nat := Z.to_nat ((now - next) / every + 1).

(** [Schedule::due]. *)
Definition due_jobs (s : Schedule) (now : Z) : list Job * Schedule :=
  let '(sweep, ns) :=
    if next_sweep s <=? now
    then ([Sweep], advance_past (rounds (next_sweep s) SWEEP_EVERY now) (next_sweep s) SWEEP_EVERY now)
    else ([], next_sweep s) in
  let '(retention, nr) :=
    if next_retention s <=? now
    then ([Retention], advance_past (rounds (next_retention s) RETENTION_EVERY now)
                         (next_retention s) RETENTION_EVERY now)
    else ([], next_retention s) in
  (sweep ++ retention, {| next_sweep := ns; next_retention := nr |}).

(** [Schedule::next_wake]. *)
Definition next_wake (s : Schedule) : Z := Z.min (next_sweep s) (next_retention s).

(** ** Retention *)

Definition retention_outbox (kinds : list MailKind) (now : Z) : Tx SqlError unit :=
  _ ← give_up_expired kinds now;
  execute (change_outbox (delete_where (fun m => bool_decide (m_outcome m <> None)))).

Definition retention_audit (now : Z) : Tx SqlError unit :=
  execute (fun d => set_audit_log (delete_where (fun e => a_time e <? now - AUDIT_KEEP_SECONDS))
                      (audit_seq d) d).

Definition retention_sign_in (now : Z) : Tx SqlError unit :=
  _ ← execute (set_sessions (delete_where (fun s =>
         (s_last_seen s <=? now - IDLE_SECONDS) || (s_created_at s <=? now - ABSOLUTE_SECONDS))));
  _ ← execute (fun d => set_tokens (delete_where (fun t =>
         bool_decide (t_purpose t = ResetToken)
         && (bool_decide (t_used_at t <> None) || (t_expires_at t <=? now)))) (tokens_seq d) d);
  execute (set_known_devices (delete_where (fun v => d_created_at v <=? now - DEVICE_SECONDS))).

(** [retention]: each step its own transaction, a failed one left for the next run. *)
Definition retention (kinds : list MailKind) (now : Z) (w : World) : World :=
  let w := (write (retention_outbox kinds now) w).2 in
  let w := (write (retention_audit now) w).2 in
  (write (retention_sign_in now) w).2.

(** ** Theorems *)

Lemma advance_past_spec fuel next every now :
  0 < every -> now - next < every * Z.of_nat fuel ->
  exists k, 0 <= k /\ advance_past fuel next every now = next + k * every /\
    now < next + k * every /\ (next <= now -> next + k * every <= now + every) /\
    (now < next -> k = 0).
Proof.
  intros He. revert next. induction fuel as [|fuel IH]; intros next Hf.
  - exists 0. cbn [advance_past]. split_and!; lia.
  - cbn [advance_past]. destruct (Z.leb_spec next now) as [Hle|Hgt].
    + destruct (IH (next + every)) as (k & Hk & -> & H1 & H2 & H3); [lia|].
      exists (k + 1). split; [lia|]. split; [lia|]. split; [lia|]. split; [|lia]. intros _.
      destruct (Z.le_gt_cases (next + every) now) as [Hc|Hc]; [specialize (H2 Hc); lia|].
      rewrite (H3 Hc). lia.
    + exists 0. split_and!; lia.
Qed.

Lemma rounds_enough next every now :
  0 < every -> next <= now -> now - next < every * Z.of_nat (rounds next every now).
Proof.
  intros He Hle. unfold rounds. rewrite Z2Nat.id by (pose proof (Z.div_pos (now - next) every); lia).
  pose proof (Z.mul_succ_div_gt (now - next) every He). lia.
Qed.

(** A job runs exactly when it is due, and is then due again strictly later, at most one
    period after now, at a whole number of periods from before: however late the
    scheduler wakes, a job runs once and keeps its phase. *)
Theorem jobs_keep_their_phase (s s' : Schedule) (now : Z) (jobs : list Job) :
  due_jobs s now = (jobs, s') ->
  (Sweep ∈ jobs <-> next_sweep s <= now) /\ (Retention ∈ jobs <-> next_retention s <= now) /\
  NoDup jobs /\ now < next_wake s' /\
  (exists k, 0 <= k /\ next_sweep s' = next_sweep s + k * SWEEP_EVERY /\
     (next_sweep s <= now -> next_sweep s' <= now + SWEEP_EVERY) /\
     (now < next_sweep s -> next_sweep s' = next_sweep s)) /\
  (exists k, 0 <= k /\ next_retention s' = next_retention s + k * RETENTION_EVERY /\
     (next_retention s <= now -> next_retention s' <= now + RETENTION_EVERY) /\
     (now < next_retention s -> next_retention s' = next_retention s)).
Proof.
  unfold due_jobs.
  assert (Hloop : forall next every, 0 < every -> next <= now -> exists k, 0 <= k /\
    advance_past (rounds next every now) next every now = next + k * every /\
    now < next + k * every /\ next + k * every <= now + every).
  { intros next every He Hle.
    destruct (advance_past_spec (rounds next every now) next every now He (rounds_enough _ _ _ He Hle))
      as (k & Hk & Ha & H1 & H2 & _). eauto 10. }
  destruct (Z.leb_spec (next_sweep s) now) as [H1|H1], (Z.leb_spec (next_retention s) now) as [H2|H2];
    intros [= <- <-]; cbn [app next_sweep next_retention next_wake];
    try (destruct (Hloop _ SWEEP_EVERY ltac:(done) H1) as (k & Hk & -> & Hk1 & Hk2));
    try (destruct (Hloop _ RETENTION_EVERY ltac:(done) H2) as (j & Hj & -> & Hj1 & Hj2));
    unfold next_wake; cbn [next_sweep next_retention];
    (split; [set_solver by lia|]); (split; [set_solver by lia|]);
    (split; [repeat constructor; set_solver|]); (split; [lia|]); split.
  all: first [exists k; split_and!; lia | exists j; split_and!; lia | exists 0; split_and!; lia].
Qed.

(** ** Retention *)

Lemma give_up_runs ue i : runs (give_up_row (KINDS ue) i).
Proof.
  apply runs_bind; [apply runs_query|]. intros [m|]; [|apply runs_mret].
  apply runs_bind.
  - unfold KINDS, find_kind. cbn. repeat case_if; cbn; (apply runs_execute || apply runs_mret).
  - intros _. destruct (m_token m); apply runs_execute.
Qed.

Lemma retention_outbox_runs ue now : runs (retention_outbox (KINDS ue) now).
Proof.
  apply runs_bind; [|intros; apply runs_execute]. apply runs_bind; [apply runs_query|].
  intros ids. apply runs_bind; [|intros; apply runs_mret].
  induction ids as [|i ids IH]; [apply runs_mret|]. apply runs_bind; [apply give_up_runs|done].
Qed.

(** Giving mail up changes only the outbox and reset tokens. *)
Definition beside_mail (d0 d : Db) : Prop :=
  users d = users d0 /\ sessions d = sessions d0 /\ known_devices d = known_devices d0 /\
  audit_log d = audit_log d0 /\
  forall t, t_purpose t <> ResetToken -> (t ∈ tokens d <-> t ∈ tokens d0).

Lemma expire_beside d0 u ue d :
  beside_mail d0 d -> beside_mail d0 (update_tokens (unused_reset_of u) (use_token ue) d).
Proof.
  intros (H1 & H2 & H3 & H4 & H5). split_and!; try done. intros t Ht. rewrite <- H5 by done.
  cbn. rewrite elem_of_update_where. unfold unused_reset_of. split.
  - intros (x & Hx & ->). destruct (_ && _) eqn:E; [|done]. destruct Ht. cbn.
    rewrite !andb_true_iff, bool_decide_eq_true in E. by destruct E as [[? _] _].
  - intros Hin. exists t. split; [done|]. rewrite bool_decide_eq_false_2 by done. done.
Qed.

Lemma retention_outbox_beside d0 ue now : inv_tx (beside_mail d0) (retention_outbox (KINDS ue) now).
Proof.
  assert (Ho : forall f, inv_tx (beside_mail d0) (execute (E := SqlError) (change_outbox f)))
    by (intros f; by apply inv_execute).
  apply inv_bind; [|done]. apply inv_bind; [apply inv_query|].
  intros ids. apply inv_bind; [|intros; apply inv_mret].
  induction ids as [|i ids IH]; [apply inv_mret|]. apply inv_bind; [|done].
  apply inv_bind; [apply inv_query|]. intros [m|]; [|apply inv_mret]. apply inv_bind.
  - unfold KINDS, find_kind. cbn. repeat case_if; cbn; try apply inv_mret.
    apply inv_execute. intros d. apply expire_beside.
  - intros _. destruct (m_token m); apply Ho.
Qed.

(** Retention, run alone without failures, removes exactly what is dead: a session stays
    iff neither limit has passed, a device cookie iff it is under a year old, an audit
    entry iff it is at most a year old. No reset token that is used or expired, no mail
    with an outcome and no unsent mail past its deadline is left; every mail left was
    there, and accounts and other tokens are untouched. *)
Theorem retention_removes_the_dead (ue now : Z) (w : World) :
  faults w = [] -> others w = [] ->
  let d := db w in
  let d' := db (retention (KINDS ue) now w) in
  users d' = users d /\
  (forall s, s ∈ sessions d' <-> s ∈ sessions d /\
     now < s_last_seen s + IDLE_SECONDS /\ now < s_created_at s + ABSOLUTE_SECONDS) /\
  (forall v, v ∈ known_devices d' <-> v ∈ known_devices d /\ now < d_created_at v + DEVICE_SECONDS) /\
  (forall e, e ∈ audit_log d' <-> e ∈ audit_log d /\ now <= a_time e + AUDIT_KEEP_SECONDS) /\
  (forall t, t ∈ tokens d' -> t_purpose t = ResetToken -> t_used_at t = None /\ now < t_expires_at t) /\
  (forall t, t_purpose t <> ResetToken -> (t ∈ tokens d' <-> t ∈ tokens d)) /\
  (forall m, m ∈ outbox d' -> m ∈ outbox d /\ m_outcome m = None /\
     now < deadline (m_queued_at m) (m_expires_at m)).
Proof.
  intros Hf Ho. unfold retention. cbv zeta.
  destruct (runs_write (retention_outbox (KINDS ue) now) w (retention_outbox_runs ue now) Hf Ho)
    as (x & w1 & w2 & H1 & -> & Hf2 & Hd2 & Ho2).
  assert (Hbeside : beside_mail (db w) (db w2) /\ others w2 = []).
  { pose proof (retention_outbox_beside (db w) ue now (with_db (db w) (tick w))) as [Hoth Hb].
    rewrite H1 in Hoth. cbn in Hoth. rewrite Hd2, Ho2. split; [|congruence].
    apply (Hb x w1 H1). by split_and!. }
  destruct Hbeside as [(Hu & Hs & Hk & Ha & Ht) Ho2'].
  destruct (runs_write (retention_audit now) w2 (runs_execute _) Hf2 Ho2')
    as (y & w3 & w4 & H3 & Hw4 & Hf4 & Hd4 & Ho4). cbn [snd]. rewrite Hw4. cbn [snd].
  apply execute_Ok in H3 as ->. cbn [db with_db others tick] in Hd4, Ho4.
  destruct (runs_write (retention_sign_in now) w4) as (z & w5 & w6 & H5 & Hw6 & Hf6 & Hd6 & _);
    [|done|congruence|].
  { apply runs_bind; [apply runs_execute|]. intros _. apply runs_bind; [apply runs_execute|].
    intros _. apply runs_execute. }
  rewrite Hw6. cbn [snd]. unfold retention_sign_in in H5. tx_inv. rewrite Hd6. clear Hw6 Hd6 Hw4 Hf6.
  cbn [db with_db tick users sessions known_devices audit_log tokens outbox set_sessions set_tokens
       set_known_devices]. rewrite Hd4.
  cbn [users sessions known_devices audit_log tokens outbox set_audit_log].
  split; [done|]. split; [|split; [|split; [|split; [|split]]]].
  - intros s. rewrite elem_of_delete_where, Hs, orb_false_iff, !Z.leb_gt. intuition lia.
  - intros v. rewrite elem_of_delete_where, Hk, Z.leb_gt. intuition lia.
  - intros e. rewrite elem_of_delete_where, Ha, Z.ltb_ge. intuition lia.
  - intros t [_ Hp]%elem_of_delete_where Hr. rewrite (bool_decide_eq_true_2 _ Hr) in Hp. cbn in Hp.
    rewrite orb_false_iff, Z.leb_gt in Hp. destruct Hp as [Hp ?]. split; [|done].
    apply bool_decide_eq_false in Hp. destruct (t_used_at t); [by destruct Hp|done].
  - intros t Hr. rewrite elem_of_delete_where, Ht by done. rewrite (bool_decide_eq_false_2 _ Hr). tauto.
  - intros m Hm. unfold retention_outbox in H1. apply Tx_bind_Ok in H1 as (n & w7 & Hg & H1).
    apply execute_Ok in H1 as ->. rewrite Hd2 in Hm. cbn in Hm.
    apply elem_of_delete_where in Hm as [Hm Hout]. apply bool_decide_eq_false in Hout.
    destruct (m_outcome m) eqn:Eo; [by destruct Hout|].
    destruct (give_up_expired_unsent _ _ _ _ _ Hg m Hm Eo) as [Hin Hdl]. done.
Qed.
