(* ===== verification/Checks.v ===== *)
(** * The checks around every route
    (src/src/http/{fetch,headers,body,errors}.rs, src/src/logging.rs,
    src/src/routing/internal.rs)

    A header map is the list of its lowercase names with their values. A response keeps
    beside its status and headers the marks that the layers leave for each other. *)

From S2P Require Import Prelude Str Keys Net Rate Config Urls Http Db Outbox Auth Credentials.
From S2P Require Import Accounts Hosts Projects.

(** ** Headers *)

Definition Headers := list (str * bytes).

Definition get_all (h : Headers) (n : str) : list bytes := map snd (List.filter (fun kv => zlist_eqb kv.1 n) h).
Definition remove_header (n : str) (h : Headers) : Headers := List.filter (fun kv => negb (zlist_eqb kv.1 n)) h.
Definition insert_header (n : str) (v : bytes) (h : Headers) : Headers := remove_header n h ++ [(n, v)].

(** [fetch::single]: the one value, or an error when it is repeated. *)
Definition single (h : Headers) (n : str) : result unit (option bytes) :=
  match get_all h n with [] => Ok None | [v] => Ok (Some v) | _ => Err tt end.

(** ** Rejections and their counters (logging.rs) *)

Inductive Reason :=
| UnknownHost | CrossSite | AdminIsolation | Deadline | BodyTooLarge | MultipartBody
| RateLimited (c : RateClass) | BusyBound (b : Bound) | AcceptError.

#[global] Instance Bound_eq_dec : EqDecision Bound.
Proof. solve_decision. Defined.
#[global] Instance Reason_eq_dec : EqDecision Reason.
Proof. solve_decision. Defined.

Definition ALL_CLASSES : list RateClass := [Rate.Read; Login; Reset].
Definition ALL_BOUNDS : list Bound := [PublicWrites; Hashing].

(** [Reason::all]. *)
Definition all_reasons : list Reason :=
  [UnknownHost; CrossSite; AdminIsolation; Deadline; BodyTooLarge; MultipartBody]
  ++ map RateLimited ALL_CLASSES ++ map BusyBound ALL_BOUNDS ++ [AcceptError].

Definition class_name (c : RateClass) : str :=
  match c with Rate.Read => lit "read" | Login => lit "login" | Reset => lit "reset" end.

(** [Reason::name]. *)
Definition reason_name (r : Reason) : str :=
  match r with
  | UnknownHost => lit "unknown host (421)"
  | CrossSite => lit "cross-site request (403)"
  | AdminIsolation => lit "admin resource isolation (403)"
  | Deadline => lit "request deadline exceeded (408)"
  | BodyTooLarge => lit "body over its cap (413)"
  | MultipartBody => lit "multipart not accepted (415)"
  | RateLimited c => lit "rate limit " ++ class_name c ++ lit " (429)"
  | BusyBound b => lit "concurrency bound " ++ bound_name b ++ lit " full (503)"
  | AcceptError => lit "connection accept error"
  end.

(** [Counters]: one [u64] per reason, in the order of [Reason::all]. *)
Definition counters_default : list Z := map (fun _ => 0) all_reasons.

(** [Iterator::position]. *)
Fixpoint position {A} (p : A -> bool) (l : list A) : option nat :=
  match l with
  | [] => None
  | x :: l => if p x then Some 0%nat else S <$> position p l
  end.

(** [Counters::increment]; a reason without a counter would panic, which is [None]. *)
Definition increment (r : Reason) (c : list Z) : option (list Z) :=
  i ← position (fun x => bool_decide (x = r)) all_reasons;
  Some (alter (fun n => (n + 1) mod 2 ^ 64) i c).

(** [Counters::take]: the non-zero counts, and all of them reset. *)
Definition take_counts (c : list Z) : list (Reason * Z) * list Z :=
  (List.filter (fun rc => 0 <? rc.2) (zip all_reasons c), map (fun _ => 0) c).

(** [Counters::flush]: the lines logged. *)
Definition flush (c : list Z) : list str * list Z :=
  let '(counts, c) := take_counts c in
  (map (fun rc => lit "rejected requests: " ++ reason_name rc.1 ++ lit ": " ++ show_unsigned rc.2) counts, c).

(** ** Responses *)

(** What a response carries: a page, one of the fixed error bodies, an asset or text. *)
Inductive Body :=
| NoBody
| TextBody (text : str)
| LandingBody
| PageBody (p : Page)
| ProjectPageBody (p : ProjectPage)
| AssetBody (content : bytes)
| ErrorHtml (title text : str)
| ErrorJson (code text : str).

Record Resp := {
  rs_status : Z; rs_headers : Headers; rs_body : Body;
  (** [Rejected], [OwnBody] and [HashedAsset]. *)
  rs_rejected : option Reason; rs_own_body : bool; rs_hashed : bool }.

(** [StatusCode::into_response]. *)
Definition status_only (s : Z) : Resp :=
  {| rs_status := s; rs_headers := []; rs_body := NoBody; rs_rejected := None;
     rs_own_body := false; rs_hashed := false |}.

(** A rejection with its mark. *)
Definition reject (s : Z) (r : Reason) : Resp :=
  {| rs_status := s; rs_headers := []; rs_body := NoBody; rs_rejected := Some r;
     rs_own_body := false; rs_hashed := false |}.

Definition with_headers (f : Headers -> Headers) (r : Resp) : Resp :=
  {| rs_status := rs_status r; rs_headers := f (rs_headers r); rs_body := rs_body r;
     rs_rejected := rs_rejected r; rs_own_body := rs_own_body r; rs_hashed := rs_hashed r |}.

Definition CONTENT_TYPE : str := lit "content-type".
Definition CONTENT_LENGTH : str := lit "content-length".
Definition CACHE_CONTROL : str := lit "cache-control".
Definition CONTENT_SECURITY_POLICY : str := lit "content-security-policy".

(** ** Origin and Fetch-Metadata checks (fetch.rs) *)

Inductive Headerless := NotExempt | Exempt.

Definition SEC_FETCH_SITE : str := lit "sec-fetch-site".
Definition SEC_FETCH_MODE : str := lit "sec-fetch-mode".
Definition ORIGIN : str := lit "origin".

Definition origin_allowed (h : Headers) (expected : str) (headerless : Headerless) : bool :=
  match single h SEC_FETCH_SITE, single h ORIGIN with
  | Ok site, Ok origin =>
      match site with
      | Some site =>
          zlist_eqb site (lit "same-origin")
          && match origin with None => true | Some o => zlist_eqb o (utf8 expected) end
      | None =>
          match origin with
          | Some o => zlist_eqb o (utf8 expected)
          | None => match headerless with NotExempt => false | Exempt => true end
          end
      end
  | _, _ => false
  end.

Definition is_safe (m : Method) : bool := bool_decide (m = GET) || bool_decide (m = HEAD).

(** [admin_isolation_allows]. *)
Definition admin_isolation_allows (m : Method) (path : str) (h : Headers) : bool :=
  let admin := zlist_eqb path (lit "/admin") || starts_with (lit "/admin/") path in
  if negb admin || negb (is_safe m) then true
  else
    match single h SEC_FETCH_SITE with
    | Err _ => false
    | Ok None => true
    | Ok (Some site) =>
        if zlist_eqb site (lit "same-origin") || zlist_eqb site (lit "none") then true
        else if zlist_eqb site (lit "same-site") || zlist_eqb site (lit "cross-site") then
          match single h SEC_FETCH_MODE with
          | Ok (Some mode) => zlist_eqb mode (lit "navigate")
          | _ => false
          end
        else false
    end.

(** ** Multipart bodies (body.rs) *)

Definition is_multipart (h : Headers) : bool :=
  existsb (fun value =>
    let media_type := default [] (head (split 59 value)) in
    let trimmed := trim_matches is_ascii_whitespace media_type in
    (10 <? Z.of_nat (length trimmed))
    && zlist_eqb (to_ascii_lowercase (firstn 10 trimmed)) (lit "multipart/"))
    (get_all h CONTENT_TYPE).

(** ** Error bodies (errors.rs) *)

Inductive ErrorFormat := HtmlErrors | JsonErrors.

Definition is_client_error (s : Z) : bool := (400 <=? s) && (s <? 500).
Definition is_server_error (s : Z) : bool := (500 <=? s) && (s <? 600).

(** [describe]: code, title and text. *)
Definition describe (s : Z) : str * str * str :=
  if s =? 400 then (lit "bad_request", lit "Bad request", lit "The request could not be understood.")
  else if s =? 403 then (lit "forbidden", lit "Forbidden", lit "This request is not allowed.")
  else if s =? 404 then (lit "not_found", lit "Not found", lit "There is nothing here.")
  else if s =? 405 then (lit "method_not_allowed", lit "Method not allowed",
                         lit "This address does not accept that method.")
  else if s =? 408 then (lit "timeout", lit "Request timeout", lit "The request took too long.")
  else if s =? 413 then (lit "too_large", lit "Too large", lit "The request is too large.")
  else if s =? 415 then (lit "unsupported_media_type", lit "Unsupported media type",
                         lit "This content type is not accepted here.")
  else if s =? 421 then (lit "misdirected", lit "Misdirected request",
                         lit "This server does not serve that host.")
  else if s =? 429 then (lit "too_many_requests", lit "Too many requests",
                         lit "Too many requests. Try again later.")
  else if s =? 503 then (lit "busy", lit "Busy", lit "The server is busy. Try again later.")
  else if is_server_error s then (lit "internal", lit "Server error", lit "Something went wrong.")
  else (lit "error", lit "Error", lit "The request failed.").

(** [render]: content type and body. *)
Definition render (s : Z) (f : ErrorFormat) : str * Body :=
  let '(code, title, text) := describe s in
  match f with
  | HtmlErrors => (lit "text/html; charset=utf-8", ErrorHtml title text)
  | JsonErrors => (lit "application/json", ErrorJson code text)
  end.

(** [errors::response]. *)
Definition error_response (s : Z) (f : ErrorFormat) : Resp :=
  let '(content_type, body) := render s f in
  {| rs_status := s; rs_headers := [(CONTENT_TYPE, content_type)]; rs_body := body;
     rs_rejected := None; rs_own_body := false; rs_hashed := false |}.

(** The response half of [errors::layer]. *)
Definition error_body (f : ErrorFormat) (r : Resp) : Resp :=
  if negb (is_client_error (rs_status r) || is_server_error (rs_status r)) || rs_own_body r then r
  else
    let '(content_type, body) := render (rs_status r) f in
    {| rs_status := rs_status r;
       rs_headers := insert_header CONTENT_TYPE content_type (remove_header CONTENT_LENGTH (rs_headers r));
       rs_body := body; rs_rejected := rs_rejected r; rs_own_body := rs_own_body r;
       rs_hashed := rs_hashed r |}.

(** ** Security headers (headers.rs) *)

Definition RELEASE_CSP : str :=
  lit "default-src 'none'; script-src 'self'; style-src 'self'; img-src 'self'; form-action 'self'; frame-ancestors 'none'; base-uri 'none'".

(** [dev::DEV_CSP]. *)
Definition DEV_CSP : str :=
  lit "default-src 'none'; script-src 'self'; style-src 'self'; img-src 'self'; form-action 'self'; frame-ancestors 'none'; base-uri 'none'; connect-src 'self'".

(** The policy of the build; [dev] is the feature flag. *)
Definition CSP (dev : bool) : str := if dev then DEV_CSP else RELEASE_CSP.

Definition fixed_headers : list (str * str) :=
  [(lit "referrer-policy", lit "same-origin"); (lit "x-frame-options", lit "DENY");
   (lit "cross-origin-opener-policy", lit "same-origin"); (lit "x-content-type-options", lit "nosniff");
   (lit "permissions-policy", []); (lit "strict-transport-security", lit "max-age=31536000")].

Definition set_single_if_absent (n v : str) (h : Headers) : Headers :=
  if negb (length (get_all h n) =? 1)%nat then insert_header n v (remove_header n h) else h.

(** [headers::apply]. *)
Definition apply_headers (dev : bool) (h : Headers) : Headers :=
  let h := fold_left (fun h kv => insert_header kv.1 kv.2 (remove_header kv.1 h)) fixed_headers h in
  set_single_if_absent CACHE_CONTROL (lit "no-store")
    (set_single_if_absent CONTENT_SECURITY_POLICY (CSP dev) h).

(** The reason [headers::layer] counts. *)
Definition counted (r : Resp) : option Reason :=
  match rs_rejected r with
  | Some reason => Some reason
  | None =>
      if rs_status r =? 408 then Some Deadline
      else if rs_status r =? 413 then Some BodyTooLarge else None
  end.

(** The line [on_response] of the trace layer writes: its level and the status in it. *)
Inductive TraceLine := RequestFailed (status : Z) | RequestDone (status : Z).

Definition on_response (r : Resp) : option TraceLine :=
  match rs_rejected r with
  | Some _ => None
  | None => Some (if is_server_error (rs_status r) then RequestFailed (rs_status r) else RequestDone (rs_status r))
  end.

(** ** Internal endpoints (internal.rs) *)

Definition HEALTHZ : str := lit "/healthz".
Definition TLS_ASK : str := lit "/.well-known/kohaku/tls-ask".

(** [u8::from_str_radix(_, 16)] on two bytes: a leading [+] is a sign. *)
Definition hex_digit (b : Z) : option Z := Parser.to_digit 16 b.

Definition hex_pair (a b : Z) : option Z :=
  if a =? 43 then hex_digit b
  else h ← hex_digit a; l ← hex_digit b; Some (16 * h + l).

Fixpoint percent_bytes (bs : bytes) : option bytes :=
  match bs with
  | [] => Some []
  | c :: rest =>
      if c =? 37 then
        match rest with
        | a :: b :: rest => x ← hex_pair a b; (cons x) <$> percent_bytes rest
        | _ => None
        end
      else (cons c) <$> percent_bytes rest
  end.

Definition percent_decode (text : str) : option str := percent_bytes (utf8 text) ≫= from_utf8.

(** [single_domain]: the loop keeps the one value found so far. *)
Definition single_domain (query : str) : option str :=
  let values := omap (fun pair =>
    let '(name, value) := default (pair, []) (split_once 61 pair) in
    if zlist_eqb name (lit "domain") then Some value else None) (split 38 query) in
  match values with
  | [value] => opt_filter (fun d => negb (zlist_eqb d [])) (percent_decode value)
  | _ => None
  end.

(** [tls_ask]: the status. *)
Definition tls_ask (m : HostMap) (query : option str) : Z :=
  let allowed := is_some_and (fun domain =>
    match get_host m (normalize_host domain) with Some (ProjectHost _) => true | _ => false end)
    (query ≫= single_domain) in
  if allowed then 200 else 404.

(** ** Lemmas: headers *)

Lemma get_all_app h k n : get_all (h ++ k) n = get_all h n ++ get_all k n.
Proof. unfold get_all. by rewrite List.filter_app, map_app. Qed.

Lemma get_all_remove h n m :
  get_all (remove_header n h) m = if zlist_eqb m n then [] else get_all h m.
Proof.
  unfold get_all, remove_header. induction h as [|[k v] h IH]; cbn; [by destruct (zlist_eqb m n)|].
  destruct (zlist_eqb k n) eqn:E1; cbn; destruct (zlist_eqb k m) eqn:E2; cbn; rewrite ?IH.
  - apply zlist_eqb_eq in E1 as ->, E2 as ->. by rewrite zlist_eqb_refl.
  - done.
  - apply zlist_eqb_eq in E2 as ->. by rewrite E1.
  - done.
Qed.

Lemma get_all_insert h n v m :
  get_all (insert_header n v h) m = if zlist_eqb m n then [v] else get_all h m.
Proof.
  unfold insert_header. rewrite get_all_app, get_all_remove. unfold get_all. cbn.
  destruct (zlist_eqb m n) eqn:E.
  - apply zlist_eqb_eq in E as ->. by rewrite zlist_eqb_refl.
  - destruct (zlist_eqb n m) eqn:E2; [|by rewrite app_nil_r].
    apply zlist_eqb_eq in E2 as ->. by rewrite zlist_eqb_refl in E.
Qed.

Lemma get_all_set_single n v h m :
  get_all (set_single_if_absent n v h) m =
  if zlist_eqb m n then (if (length (get_all h n) =? 1)%nat then get_all h n else [v]) else get_all h m.
Proof.
  unfold set_single_if_absent. destruct (length (get_all h n) =? 1)%nat; cbn [negb].
  - destruct (zlist_eqb m n) eqn:E; [|done]. by apply zlist_eqb_eq in E as ->.
  - rewrite get_all_insert, get_all_remove. by destruct (zlist_eqb m n).
Qed.

Lemma get_all_fixed l h n :
  NoDup (map fst l) ->
  get_all (fold_left (fun h kv => insert_header kv.1 kv.2 (remove_header kv.1 h)) l h) n =
  match find_first (fun kv => zlist_eqb kv.1 n) l with
  | Some kv => [kv.2]
  | None => get_all h n
  end.
Proof.
  revert h. induction l as [|[k v] l IH]; intros h; [done|]. cbn [map fst].
  intros [Hk Hl]%NoDup_cons. cbn [fold_left fst snd]. rewrite IH by done. cbn [find_first fst].
  destruct (find_first _ l) as [[k' v']|] eqn:E.
  - apply find_first_Some in E as [Hin He]. cbn in He. apply zlist_eqb_eq in He as ->.
    destruct (zlist_eqb k n) eqn:E2; [|done]. apply zlist_eqb_eq in E2 as ->. destruct Hk.
    apply list_elem_of_fmap. by exists (n, v').
  - rewrite get_all_insert, get_all_remove. destruct (zlist_eqb n k) eqn:E2.
    + apply zlist_eqb_eq in E2 as ->. by rewrite zlist_eqb_refl.
    + destruct (zlist_eqb k n) eqn:E3; [|done]. apply zlist_eqb_eq in E3 as ->.
      by rewrite zlist_eqb_refl in E2.
Qed.

Lemma find_first_key {B} (l : list (str * B)) n v :
  NoDup (map fst l) -> (n, v) ∈ l -> find_first (fun kv => zlist_eqb kv.1 n) l = Some (n, v).
Proof.
  induction l as [|[k w] l IH]; intros Hd Hin; [by apply not_elem_of_nil in Hin|]. cbn [map fst] in Hd.
  apply NoDup_cons in Hd as [Hk Hd]. cbn [find_first fst]. apply elem_of_cons in Hin as [[= <- <-]|Hin].
  - by rewrite zlist_eqb_refl.
  - destruct (zlist_eqb k n) eqn:E; [|by apply IH]. apply zlist_eqb_eq in E as ->. destruct Hk.
    apply list_elem_of_fmap. by exists (n, v).
Qed.

Lemma fixed_names_distinct : NoDup (map fst fixed_headers).
Proof. apply (bool_decide_unpack _). vm_compute. exact I. Qed.

(** What [apply] leaves of one header. *)
Lemma get_all_apply dev h n :
  get_all (apply_headers dev h) n =
  match find_first (fun kv => zlist_eqb kv.1 n) fixed_headers with
  | Some kv => [kv.2]
  | None =>
      if zlist_eqb n CACHE_CONTROL then
        if (length (get_all h CACHE_CONTROL) =? 1)%nat then get_all h n else [lit "no-store"]
      else if zlist_eqb n CONTENT_SECURITY_POLICY then
        if (length (get_all h CONTENT_SECURITY_POLICY) =? 1)%nat then get_all h n else [CSP dev]
      else get_all h n
  end.
Proof.
  unfold apply_headers.
  assert (Hf : forall m, find_first (fun kv => zlist_eqb kv.1 m) fixed_headers = None ->
    get_all (fold_left (fun h kv => insert_header kv.1 kv.2 (remove_header kv.1 h)) fixed_headers h) m
    = get_all h m).
  { intros m Hm. rewrite get_all_fixed by apply fixed_names_distinct. by rewrite Hm. }
  rewrite !get_all_set_single.
  change (zlist_eqb CACHE_CONTROL CONTENT_SECURITY_POLICY) with false. cbv iota.
  rewrite (Hf CACHE_CONTROL), (Hf CONTENT_SECURITY_POLICY) by reflexivity.
  rewrite (get_all_fixed fixed_headers h n fixed_names_distinct).
  destruct (zlist_eqb n CACHE_CONTROL) eqn:E1.
  { apply zlist_eqb_eq in E1 as ->. reflexivity. }
  destruct (zlist_eqb n CONTENT_SECURITY_POLICY) eqn:E2; [|by destruct (find_first _ _)].
  apply zlist_eqb_eq in E2 as ->. reflexivity.
Qed.

(** ** list Z *)

Lemma position_Some {A} (p : A -> bool) l i :
  position p l = Some i <->
  exists x, l !! i = Some x /\ p x = true /\ forall j y, (j < i)%nat -> l !! j = Some y -> p y = false.
Proof.
  revert i. induction l as [|x l IH]; intros i; cbn [position].
  { split; [done|]. intros (x & Hx & _). by rewrite lookup_nil in Hx. }
  destruct (p x) eqn:Hp.
  - split.
    + intros [= <-]. exists x. split; [done|]. split; [done|]. intros j y Hj. lia.
    + intros (y & Hy & _ & Hmin). destruct i as [|i]; [done|]. by rewrite (Hmin 0%nat x) in Hp by (done || lia).
  - rewrite fmap_Some. split.
    + intros (j & Hj & ->). apply IH in Hj as (y & Hy & Hpy & Hmin). exists y. split_and!; try done.
      intros [|k] z Hk Hz; [by simplify_eq/=|]. apply (Hmin k z); [lia|done].
    + intros (y & Hy & Hpy & Hmin). destruct i as [|i]; [by simplify_eq/=; rewrite Hp in Hpy|].
      exists i. split; [|done]. apply IH. exists y. split_and!; try done.
      intros k z Hk Hz. apply (Hmin (S k) z); [lia|done].
Qed.

Lemma reasons_nodup : NoDup all_reasons.
Proof. apply (bool_decide_unpack _). vm_compute. exact I. Qed.

(** Every reason has a counter: [increment] never panics. *)
Lemma reason_index r :
  exists i, position (fun x => bool_decide (x = r)) all_reasons = Some i /\ all_reasons !! i = Some r.
Proof.
  destruct r; try destruct c; try destruct b; eexists; (split; [vm_compute; reflexivity|reflexivity]).
Qed.

(** [n] rejections for each reason, counted. *)
Fixpoint count_all (rs : list Reason) (c : list Z) : option (list Z) :=
  match rs with
  | [] => Some c
  | r :: rs => increment r c ≫= count_all rs
  end.

Lemma increment_lookup r c i x :
  all_reasons !! i = Some x ->
  exists c', increment r c = Some c' /\ length c' = length c /\
    c' !! i = (fun n => if bool_decide (x = r) then (n + 1) mod 2 ^ 64 else n) <$> c !! i.
Proof.
  intros Hi. destruct (reason_index r) as (k & Hk & Hr). unfold increment. rewrite Hk. cbn [mbind option_bind].
  eexists. split; [reflexivity|]. split; [apply length_alter|].
  destruct (base.decide (i = k)) as [->|Hne].
  - rewrite list_lookup_alter_eq. assert (x = r) as -> by congruence. by rewrite bool_decide_eq_true_2.
  - rewrite list_lookup_alter_ne by done. rewrite bool_decide_eq_false_2; [by destruct (c !! i)|].
    intros ->. apply Hne. by eapply (NoDup_lookup all_reasons i k r reasons_nodup).
Qed.

Lemma count_all_lookup rs c i x n :
  all_reasons !! i = Some x -> c !! i = Some n -> 0 <= n < 2 ^ 64 ->
  exists c', count_all rs c = Some c' /\ length c' = length c /\
    c' !! i = Some ((n + count_where (fun r => bool_decide (r = x)) rs) mod 2 ^ 64).
Proof.
  intros Hi. revert c n. induction rs as [|r rs IH]; intros c n Hc Hn; cbn [count_all].
  - exists c. split_and!; try done. rewrite Hc. f_equal.
    change (count_where _ []) with 0. rewrite Z.add_0_r, Z.mod_small; lia.
  - destruct (increment_lookup r c i x Hi) as (c' & -> & Hl & Hlk). cbn [mbind option_bind].
    rewrite Hc in Hlk. cbn in Hlk.
    destruct (IH c' _ Hlk) as (c2 & -> & Hl2 & Hlk2).
    { case_bool_decide; [apply Z.mod_pos_bound; lia|done]. }
    exists c2. split; [done|]. split; [congruence|]. rewrite Hlk2. f_equal. rewrite count_where_cons.
    destruct (base.decide (r = x)) as [->|Hne].
    + rewrite !bool_decide_eq_true_2 by done. rewrite Zplus_mod_idemp_l. f_equal. lia.
    + rewrite !bool_decide_eq_false_2 by congruence. f_equal.
Qed.

Lemma count_where_le_length {A} (p : A -> bool) l : count_where p l <= Z.of_nat (length l).
Proof. unfold count_where. pose proof (List.filter_length_le p l). lia. Qed.

(** The per-minute log counts every rejection once. After any sequence of rejections
    since the last flush (fewer than the [u64] counters hold) the counts taken are, for
    exactly the reasons that occurred, how often each did, and everything starts again
    from zero; no rejection finds its counter missing. *)
Theorem rejections_are_counted (rs : list Reason) :
  Z.of_nat (length rs) < 2 ^ 64 ->
  exists c, count_all rs counters_default = Some c /\
    (forall r n, (r, n) ∈ (take_counts c).1 <->
       0 < n /\ n = count_where (fun x => bool_decide (x = r)) rs) /\
    (take_counts c).2 = counters_default.
Proof.
  intros Hlen. assert (Hz : forall i r, all_reasons !! i = Some r -> counters_default !! i = Some 0).
  { intros i r Hi. unfold counters_default. by rewrite list_lookup_fmap, Hi. }
  assert (Hall : forall i r, all_reasons !! i = Some r -> exists c, count_all rs counters_default = Some c /\
    length c = length counters_default /\ c !! i = Some (count_where (fun x => bool_decide (x = r)) rs)).
  { intros i r Hi. destruct (count_all_lookup rs counters_default i r 0 Hi (Hz i r Hi)) as (c & H1 & H2 & H3);
      [lia|]. exists c. split_and!; try done. rewrite H3, Z.add_0_l, Z.mod_small; [done|].
    pose proof (count_where_nonneg (fun x => bool_decide (x = r)) rs).
    pose proof (count_where_le_length (fun x => bool_decide (x = r)) rs). lia. }
  destruct (Hall 0%nat UnknownHost eq_refl) as (c & Hc & Hl & _). exists c. split; [done|].
  assert (Hlk : forall i r, all_reasons !! i = Some r ->
    c !! i = Some (count_where (fun x => bool_decide (x = r)) rs)).
  { intros i r Hi. destruct (Hall i r Hi) as (c' & Hc' & _ & H3). congruence. }
  split.
  - intros r n. cbn [take_counts fst]. rewrite list_elem_of_In, filter_In, <- list_elem_of_In. cbn [snd].
    rewrite Z.ltb_lt. rewrite list_elem_of_lookup. split.
    + intros [(i & Hi) Hn]. apply lookup_zip_with_Some in Hi as (x & y & [= -> ->] & Hx & Hy).
      rewrite (Hlk _ _ Hx) in Hy. by simplify_eq.
    + intros [Hn ->]. split; [|done]. destruct (reason_index r) as (i & _ & Hi). exists i.
      apply lookup_zip_with_Some. eexists _, _. split; [reflexivity|]. split; [done|by apply Hlk].
  - cbn [take_counts snd]. unfold counters_default in *. rewrite length_map in Hl.
    apply list_eq_same_length with (n := length c); [done|by rewrite !length_map|].
    intros i x y _ Hx Hy. rewrite list_lookup_fmap in Hx.
    apply list_elem_of_lookup_2, list_elem_of_fmap in Hy as (r & -> & _).
    destruct (c !! i); by simplify_eq/=.
Qed.

(** ** The TLS ask *)

(** A byte written as [%] and two hex digits. *)
Definition hex_char (d : Z) : Z := if d <? 10 then 48 + d else 55 + d.

Definition percent_encode (bs : bytes) : bytes :=
  concat (map (fun b => [37; hex_char (b / 16); hex_char (b mod 16)]) bs).

Lemma hex_char_digit d : 0 <= d < 16 -> hex_digit (hex_char d) = Some d /\ hex_char d <> 43.
Proof.
  intros Hd. assert (Hc : forallb (fun n => bool_decide (hex_digit (hex_char (Z.of_nat n)) = Some (Z.of_nat n))
    && negb (hex_char (Z.of_nat n) =? 43)) (seq 0 16) = true) by (vm_compute; reflexivity).
  rewrite forallb_forall in Hc. specialize (Hc (Z.to_nat d)). rewrite in_seq in Hc.
  specialize (Hc ltac:(lia)). rewrite Z2Nat.id, andb_true_iff, bool_decide_eq_true in Hc by lia.
  destruct Hc as [H1 H2]. split; [done|]. by propify.
Qed.

Lemma percent_bytes_encode bs rest :
  forallb is_byte bs = true -> percent_bytes (percent_encode bs ++ rest) = app bs <$> percent_bytes rest.
Proof.
  induction bs as [|b bs IH]; intros Hb.
  { change (percent_encode [] ++ rest) with rest. by destruct (percent_bytes rest). }
  cbn [forallb] in Hb. apply andb_true_iff in Hb as [Hb Hbs]. unfold is_byte in Hb.
  assert (Hr : 0 <= b < 256) by bool_lia.
  destruct (hex_char_digit (b / 16)) as [H1 H2]; [split; [apply Z.div_pos|apply Z.div_lt_upper_bound]; lia|].
  destruct (hex_char_digit (b mod 16)) as [H3 _]; [apply Z.mod_pos_bound; lia|].
  change (percent_encode (b :: bs) ++ rest)
    with (37 :: hex_char (b / 16) :: hex_char (b mod 16) :: (percent_encode bs ++ rest)).
  cbn [percent_bytes]. rewrite Z.eqb_refl. unfold hex_pair.
  rewrite (proj2 (Z.eqb_neq _ _) H2), H1, H3. cbn [mbind option_bind].
  rewrite IH by done. rewrite <- Z.div_mod by lia. by destruct (percent_bytes rest).
Qed.

Lemma percent_bytes_plain bs : 37 ∉ bs -> percent_bytes bs = Some bs.
Proof.
  induction bs as [|b bs IH]; [done|]. intros [Hne Hni]%not_elem_of_cons. cbn [percent_bytes].
  rewrite (proj2 (Z.eqb_neq b 37)) by done. by rewrite IH.
Qed.

Lemma single_domain_Some q d :
  single_domain q = Some d ->
  exists value, omap (fun pair => let '(name, value) := default (pair, []) (split_once 61 pair) in
                  if zlist_eqb name (lit "domain") then Some value else None) (split 38 q) = [value] /\
    percent_decode value = Some d /\ d <> [].
Proof.
  unfold single_domain. destruct (omap _ _) as [|v [|]]; [done| |done]. intros H.
  apply opt_filter_Some in H as [Hd Hn]. rewrite negb_true_iff in Hn. exists v. split_and!; try done.
  intros ->. by rewrite zlist_eqb_refl in Hn.
Qed.

Lemma utf8_is_byte s : forallb is_scalar s = true -> forallb is_byte (utf8 s) = true.
Proof.
  induction s as [|c s IH]; [done|]. cbn [forallb]. rewrite andb_true_iff. intros [Hc Hs].
  rewrite utf8_cons, forallb_app, IH, andb_true_r by done. apply is_scalar_spec in Hc.
  unfold utf8_char, is_byte. destruct (Z.ltb_spec c 0x80); [|destruct (Z.ltb_spec c 0x800);
    [|destruct (Z.ltb_spec c 0x10000)]]; cbn [forallb]; z_div; bool_lia.
Qed.

(** The encoded text has only [%] and hex digits. *)
Lemma percent_encode_chars bs :
  forallb is_byte bs = true ->
  Forall (fun c => c = 37 \/ 48 <= c <= 57 \/ 65 <= c <= 70) (percent_encode bs).
Proof.
  induction bs as [|b bs IH]; intros Hb; [constructor|]. cbn [forallb] in Hb.
  apply andb_true_iff in Hb as [Hb Hbs]. unfold is_byte in Hb.
  assert (Hr : 0 <= b < 256) by bool_lia. assert (0 <= b / 16 < 16) by (z_div; lia).
  assert (0 <= b mod 16 < 16) by (z_div; lia).
  change (percent_encode (b :: bs)) with (37 :: hex_char (b / 16) :: hex_char (b mod 16) :: percent_encode bs).
  repeat apply Forall_cons_2; [lia| | |by apply IH]; unfold hex_char; case_if; bool_lia.
Qed.

(** The decoded value of a fully encoded [domain] parameter is the text itself. *)
Lemma single_domain_encode name :
  forallb is_scalar name = true -> name <> [] ->
  single_domain (lit "domain=" ++ percent_encode (utf8 name)) = Some name.
Proof.
  intros Hn Hne. apply utf8_is_byte in Hn as Hb. pose proof (percent_encode_chars _ Hb) as Hc.
  unfold single_domain. rewrite split_none.
  2:{ intros [Hin|Hin]%elem_of_app; [by vm_compute in Hin; repeat (apply elem_of_cons in Hin as [?|Hin]; [done|]); apply not_elem_of_nil in Hin|].
      rewrite Forall_forall in Hc. apply Hc in Hin. lia. }
  cbn [omap list_omap].
  rewrite (proj2 (split_once_spec 61 _ (lit "domain") (percent_encode (utf8 name)))).
  2:{ split; [done|]. apply (bool_decide_unpack _). vm_compute. exact I. }
  cbn -[lit percent_decode]. rewrite zlist_eqb_refl. unfold percent_decode.
  rewrite utf8_ascii_id by (eapply Forall_impl; [exact Hc|]; cbn; lia).
  rewrite <- (app_nil_r (percent_encode _)), percent_bytes_encode by done.
  cbn [percent_bytes fmap option_fmap option_map mbind option_bind]. rewrite app_nil_r, from_utf8_utf8 by done.
  unfold opt_filter. destruct (zlist_eqb name []) eqn:E; [|done]. by apply zlist_eqb_eq in E.
Qed.

(** The TLS ask answers 200 exactly for the custom domains: percent-encoded in full, a
    name is granted iff its normal form is the domain of a stored project (so never for an
    unknown name, and for the main host only when a project shadows it). *)
Theorem tls_ask_grants_project_domains (base_url : BaseUrl) (d : Db) (name : str) :
  hosts_unique (projects d) -> forallb is_scalar name = true -> name <> [] ->
  tls_ask (load base_url d) (Some (lit "domain=" ++ percent_encode (utf8 name))) = 200 <->
  exists p, p ∈ projects d /\ host_of p = Some (normalize_host name).
Proof.
  intros [_ Hu] Hn Hne. unfold tls_ask. cbn [mbind option_bind]. rewrite single_domain_encode by done.
  cbn [is_some_and]. unfold load. rewrite fold_add_get by done.
  destruct (find_first _ _) as [p|] eqn:E.
  - apply find_first_Some in E as [Hp E]. apply bool_decide_eq_true in E. split; [eauto|done].
  - apply find_first_None in E. rewrite Forall_forall in E. split.
    + unfold get_host. cbn. destruct (base.decide (normalize_host name = host base_url)) as [->|Hd].
      * by rewrite lookup_singleton_eq.
      * by rewrite lookup_singleton_ne.
    + intros (p & Hp & Hh). specialize (E p Hp). by rewrite bool_decide_eq_false in E.
Qed.

(** A response that is logged as a failure is not counted as a rejection, and the other way
    round: a 5xx answer is in the log or among the counters, never in both. *)
Theorem failures_are_logged_or_counted (r : Resp) :
  is_server_error (rs_status r) = true ->
  (on_response r = Some (RequestFailed (rs_status r)) /\ counted r = None) \/
  (on_response r = None /\ exists reason, counted r = Some reason).
Proof.
  intros Hs. unfold on_response, counted. destruct (rs_rejected r) as [reason|]; [right; eauto|left].
  rewrite Hs. split; [done|]. unfold is_server_error in Hs.
  destruct (Z.eqb_spec (rs_status r) 408), (Z.eqb_spec (rs_status r) 413); bool_lia || done.
Qed.
