(* ===== verification/Routes.v ===== *)
(** * Routes (src/src/routing/table.rs, src/src/routing/build.rs, src/src/dev.rs,
    src/src/assets.rs)

    Every route as data with its security declarations, the routers built from it, and the
    embedded assets under their hashed names. A handler is named by an [Endpoint]; what it
    does is [Server.handle]. *)

From S2P Require Import Prelude Str Codec Keys Rate Http Checks.

(** ** Declarations (table.rs) *)

Inductive HostKind := InternalHost | MainHost | ProjectHosts | BothHosts.

Inductive RoutePath := Pattern (pattern : str) | Fallback.

Inductive Access := Public | SessionAccess | AdminAccess.

Inductive CacheClass := NoStore | NoCache | StaticAsset | CanonicalRedirect.

Inductive Csp := Release.

Inductive BodyClass := DefaultBody.

Inductive Multipart := MultipartRejected.

#[global] Instance HostKind_eq_dec : EqDecision HostKind.
Proof. solve_decision. Defined.
#[global] Instance Access_eq_dec : EqDecision Access.
Proof. solve_decision. Defined.
#[global] Instance CacheClass_eq_dec : EqDecision CacheClass.
Proof. solve_decision. Defined.

(** [BodyClass::cap] and [BodyClass::deadline]. *)
Definition cap (b : BodyClass) : Z := match b with DefaultBody => 64 * 1024 end.

Definition deadline (b : BodyClass) : Z := match b with DefaultBody => seconds 15 end.

(** ** Handlers and methods *)

(** The handler functions the table names. *)
Inductive Endpoint :=
| EHealthz | ETlsAsk | ELanding | EAsset | ENotFound
| EHome | ELoginForm | ELoginSubmit | ELogout
| EShow | EChangePassword | EStartTotp | EConfirmTotp | EDisableTotp | ERegenerateCodes
| EEndOtherSessions
| ERequestForm | ERequest | ELinkForm | ELinkSubmit
| EList | ECreate | ESettings | ESave | EDelete
| EAdminNotFound | ECanonical
| EReloadScript | EBootId.

#[global] Instance Endpoint_eq_dec : EqDecision Endpoint.
Proof. solve_decision. Defined.

(** axum's [MethodRouter]: the handlers registered with [get], [post], [any] or
    [fallback]; which one a method reaches is [Axum.method_of]. *)
Record MethodRouter := { on_get : option Endpoint; on_post : option Endpoint; otherwise : option Endpoint }.

Definition get_ (e : Endpoint) : MethodRouter := {| on_get := Some e; on_post := None; otherwise := None |}.
Definition post_ (e : Endpoint) : MethodRouter := {| on_get := None; on_post := Some e; otherwise := None |}.
Definition any_ (e : Endpoint) : MethodRouter := {| on_get := None; on_post := None; otherwise := Some e |}.
Definition and_post (e : Endpoint) (m : MethodRouter) : MethodRouter :=
  {| on_get := on_get m; on_post := Some e; otherwise := otherwise m |}.
Definition or_else (e : Endpoint) (m : MethodRouter) : MethodRouter :=
  {| on_get := on_get m; on_post := on_post m; otherwise := Some e |}.

Record Route := {
  r_host : HostKind; r_path : RoutePath; r_example : str; r_methods : MethodRouter;
  r_access : Access; r_cache : CacheClass; r_csp : Csp; r_body : BodyClass;
  r_multipart : Multipart; r_headerless : Headerless; r_rate : list RateClass;
  r_errors : ErrorFormat }.

(** ** Assets (assets.rs) *)

Record Asset := { as_name : str; as_content_type : str; as_bytes : bytes }.

(** [ASSETS]; [css] is the embedded [static/kohaku.css]. *)
Definition ASSETS (css : bytes) : list Asset :=
  [{| as_name := lit "kohaku.css"; as_content_type := lit "text/css"; as_bytes := css |}].

Record Hashed := { h_file : str; h_path : str; h_asset : Asset }.

(** [{b:02x}]. *)
Definition lower_hex (b : Z) : str :=
  let digit d := if d <? 10 then 48 + d else 87 + d in [digit (b / 16); digit (b mod 16)].

(** [registry]; a name without an extension panics. *)
Definition hash_asset `{Crates} (a : Asset) : option Hashed :=
  let hash := concat (map lower_hex (firstn 8 (sha256 (as_bytes a)))) in
  '(stem, extension) ← rsplit_once 46 (as_name a);
  let file := stem ++ lit "." ++ hash ++ lit "." ++ extension in
  Some {| h_file := file; h_path := lit "/static/" ++ file; h_asset := a |}.

Definition registry `{Crates} (css : bytes) : option (list Hashed) := mapM hash_asset (ASSETS css).

(** [assets::path]; an asset that is not embedded panics. *)
Definition asset_path `{Crates} (css : bytes) (name : str) : option str :=
  reg ← registry css;
  h_path <$> find_first (fun h => zlist_eqb (as_name (h_asset h)) name) reg.

(** ** The table *)

Section Table.
Context `{Crates} (css : bytes).

Definition EXAMPLE_TOKEN : str := lit "/admin/reset/AAAAAAAAAAAAAAAAAAAAAAAAAAAAAAAAAAAAAAAAAAA".
Definition RELOAD_SCRIPT : str := lit "/static/dev-reload.js".

(** [crate::assets::path(kohaku.css)], which is always embedded ([asset_path_css]). *)
Definition asset_example : str := default [] (asset_path css (lit "kohaku.css")).

(** The routes of [admin_routes]: signing in and out and the account, *)
Definition account_routes : list Route :=
  [{| r_host := MainHost; r_path := Pattern (lit "/admin"); r_example := lit "/admin";
     r_methods := get_ EHome; r_access := SessionAccess;
     r_cache := NoStore; r_csp := Release; r_body := DefaultBody; r_multipart := MultipartRejected;
     r_headerless := NotExempt; r_rate := [Rate.Read]; r_errors := HtmlErrors |};
   {| r_host := MainHost; r_path := Pattern (lit "/admin/login"); r_example := lit "/admin/login";
     r_methods := and_post ELoginSubmit (get_ ELoginForm); r_access := Public;
     r_cache := NoStore; r_csp := Release; r_body := DefaultBody; r_multipart := MultipartRejected;
     r_headerless := NotExempt; r_rate := [Rate.Read; Login]; r_errors := HtmlErrors |};
   {| r_host := MainHost; r_path := Pattern (lit "/admin/logout"); r_example := lit "/admin/logout";
     r_methods := post_ ELogout; r_access := SessionAccess;
     r_cache := NoStore; r_csp := Release; r_body := DefaultBody; r_multipart := MultipartRejected;
     r_headerless := NotExempt; r_rate := []; r_errors := HtmlErrors |};
   {| r_host := MainHost; r_path := Pattern (lit "/admin/account"); r_example := lit "/admin/account";
     r_methods := get_ EShow; r_access := SessionAccess;
     r_cache := NoStore; r_csp := Release; r_body := DefaultBody; r_multipart := MultipartRejected;
     r_headerless := NotExempt; r_rate := [Rate.Read]; r_errors := HtmlErrors |};
   {| r_host := MainHost; r_path := Pattern (lit "/admin/account/password");
     r_example := lit "/admin/account/password";
     r_methods := post_ EChangePassword; r_access := SessionAccess;
     r_cache := NoStore; r_csp := Release; r_body := DefaultBody; r_multipart := MultipartRejected;
     r_headerless := NotExempt; r_rate := [Login]; r_errors := HtmlErrors |};
   {| r_host := MainHost; r_path := Pattern (lit "/admin/account/totp");
     r_example := lit "/admin/account/totp";
     r_methods := post_ EStartTotp; r_access := SessionAccess;
     r_cache := NoStore; r_csp := Release; r_body := DefaultBody; r_multipart := MultipartRejected;
     r_headerless := NotExempt; r_rate := [Login]; r_errors := HtmlErrors |};
   {| r_host := MainHost; r_path := Pattern (lit "/admin/account/totp/confirm");
     r_example := lit "/admin/account/totp/confirm";
     r_methods := post_ EConfirmTotp; r_access := SessionAccess;
     r_cache := NoStore; r_csp := Release; r_body := DefaultBody; r_multipart := MultipartRejected;
     r_headerless := NotExempt; r_rate := [Login]; r_errors := HtmlErrors |};
   {| r_host := MainHost; r_path := Pattern (lit "/admin/account/totp/disable");
     r_example := lit "/admin/account/totp/disable";
     r_methods := post_ EDisableTotp; r_access := SessionAccess;
     r_cache := NoStore; r_csp := Release; r_body := DefaultBody; r_multipart := MultipartRejected;
     r_headerless := NotExempt; r_rate := [Login]; r_errors := HtmlErrors |};
   {| r_host := MainHost; r_path := Pattern (lit "/admin/account/recovery-codes");
     r_example := lit "/admin/account/recovery-codes";
     r_methods := post_ ERegenerateCodes; r_access := SessionAccess;
     r_cache := NoStore; r_csp := Release; r_body := DefaultBody; r_multipart := MultipartRejected;
     r_headerless := NotExempt; r_rate := [Login]; r_errors := HtmlErrors |};
   {| r_host := MainHost; r_path := Pattern (lit "/admin/account/sessions/end-others");
     r_example := lit "/admin/account/sessions/end-others";
     r_methods := post_ EEndOtherSessions; r_access := SessionAccess;
     r_cache := NoStore; r_csp := Release; r_body := DefaultBody; r_multipart := MultipartRejected;
     r_headerless := NotExempt; r_rate := []; r_errors := HtmlErrors |}].

(** the reset of a password, the projects, and the rest of the area. *)
Definition management_routes : list Route :=
  [{| r_host := MainHost; r_path := Pattern (lit "/admin/reset"); r_example := lit "/admin/reset";
     r_methods := and_post ERequest (get_ ERequestForm); r_access := Public;
     r_cache := NoStore; r_csp := Release; r_body := DefaultBody; r_multipart := MultipartRejected;
     r_headerless := NotExempt; r_rate := [Rate.Read; Reset]; r_errors := HtmlErrors |};
   {| r_host := MainHost; r_path := Pattern (lit "/admin/reset/{token}"); r_example := EXAMPLE_TOKEN;
     r_methods := and_post ELinkSubmit (get_ ELinkForm); r_access := Public;
     r_cache := NoStore; r_csp := Release; r_body := DefaultBody; r_multipart := MultipartRejected;
     r_headerless := NotExempt; r_rate := [Rate.Read; Login]; r_errors := HtmlErrors |};
   {| r_host := MainHost; r_path := Pattern (lit "/admin/projects");
     r_example := lit "/admin/projects";
     r_methods := and_post ECreate (get_ EList); r_access := AdminAccess;
     r_cache := NoStore; r_csp := Release; r_body := DefaultBody; r_multipart := MultipartRejected;
     r_headerless := NotExempt; r_rate := [Rate.Read]; r_errors := HtmlErrors |};
   {| r_host := MainHost; r_path := Pattern (lit "/admin/p/{slug}/settings");
     r_example := lit "/admin/p/demo/settings";
     r_methods := and_post ESave (get_ ESettings); r_access := AdminAccess;
     r_cache := NoStore; r_csp := Release; r_body := DefaultBody; r_multipart := MultipartRejected;
     r_headerless := NotExempt; r_rate := [Rate.Read]; r_errors := HtmlErrors |};
   {| r_host := MainHost; r_path := Pattern (lit "/admin/p/{slug}/delete");
     r_example := lit "/admin/p/demo/delete";
     r_methods := post_ EDelete; r_access := AdminAccess;
     r_cache := NoStore; r_csp := Release; r_body := DefaultBody; r_multipart := MultipartRejected;
     r_headerless := NotExempt; r_rate := []; r_errors := HtmlErrors |};
   {| r_host := MainHost; r_path := Pattern (lit "/admin/"); r_example := lit "/admin/";
     r_methods := any_ EAdminNotFound; r_access := SessionAccess;
     r_cache := NoStore; r_csp := Release; r_body := DefaultBody; r_multipart := MultipartRejected;
     r_headerless := NotExempt; r_rate := [Rate.Read]; r_errors := HtmlErrors |};
   {| r_host := MainHost; r_path := Pattern (lit "/admin/{*rest}");
     r_example := lit "/admin/does-not-exist";
     r_methods := any_ EAdminNotFound; r_access := SessionAccess;
     r_cache := NoStore; r_csp := Release; r_body := DefaultBody; r_multipart := MultipartRejected;
     r_headerless := NotExempt; r_rate := [Rate.Read]; r_errors := HtmlErrors |}].

Definition admin_routes : list Route := account_routes ++ management_routes.

Definition project_routes : list Route :=
  map (fun '(pattern, example) =>
    {| r_host := MainHost; r_path := Pattern pattern; r_example := example;
      r_methods := or_else ENotFound (get_ ECanonical); r_access := Public;
      r_cache := CanonicalRedirect; r_csp := Release; r_body := DefaultBody; r_multipart := MultipartRejected;
      r_headerless := NotExempt; r_rate := [Rate.Read]; r_errors := HtmlErrors |})
    (zip [lit "/p/{slug}"; lit "/p/{slug}/"; lit "/p/{slug}/{*rest}"]
         [lit "/p/demo"; lit "/p/demo/"; lit "/p/demo/r/12"]).

(** [dev::routes], by the feature flag. *)
Definition dev_routes (dev : bool) : list Route :=
  if dev then
  [{| r_host := BothHosts; r_path := Pattern RELOAD_SCRIPT; r_example := RELOAD_SCRIPT;
     r_methods := get_ EReloadScript; r_access := Public;
     r_cache := NoStore; r_csp := Release; r_body := DefaultBody; r_multipart := MultipartRejected;
     r_headerless := NotExempt; r_rate := []; r_errors := HtmlErrors |};
   {| r_host := BothHosts; r_path := Pattern (lit "/dev/boot-id"); r_example := lit "/dev/boot-id";
     r_methods := get_ EBootId; r_access := Public;
     r_cache := NoStore; r_csp := Release; r_body := DefaultBody; r_multipart := MultipartRejected;
     r_headerless := NotExempt; r_rate := [Rate.Read]; r_errors := HtmlErrors |}]
  else [].

(** [table]. *)
Definition table (dev : bool) : list Route :=
  [{| r_host := InternalHost; r_path := Pattern (lit "/healthz"); r_example := lit "/healthz";
     r_methods := get_ EHealthz; r_access := Public;
     r_cache := NoStore; r_csp := Release; r_body := DefaultBody; r_multipart := MultipartRejected;
     r_headerless := NotExempt; r_rate := []; r_errors := JsonErrors |};
   {| r_host := InternalHost; r_path := Pattern TLS_ASK;
     r_example := lit "/.well-known/kohaku/tls-ask?domain=bugs.example.net";
     r_methods := get_ ETlsAsk; r_access := Public;
     r_cache := NoStore; r_csp := Release; r_body := DefaultBody; r_multipart := MultipartRejected;
     r_headerless := NotExempt; r_rate := []; r_errors := JsonErrors |};
   {| r_host := MainHost; r_path := Pattern (lit "/"); r_example := lit "/";
     r_methods := get_ ELanding; r_access := Public;
     r_cache := NoCache; r_csp := Release; r_body := DefaultBody; r_multipart := MultipartRejected;
     r_headerless := NotExempt; r_rate := [Rate.Read]; r_errors := HtmlErrors |};
   {| r_host := BothHosts; r_path := Pattern (lit "/static/{name}"); r_example := asset_example;
     r_methods := get_ EAsset; r_access := Public;
     r_cache := StaticAsset; r_csp := Release; r_body := DefaultBody; r_multipart := MultipartRejected;
     r_headerless := NotExempt; r_rate := []; r_errors := HtmlErrors |};
   {| r_host := MainHost; r_path := Fallback; r_example := lit "/does-not-exist";
     r_methods := or_else ENotFound (get_ ENotFound); r_access := Public;
     r_cache := NoStore; r_csp := Release; r_body := DefaultBody; r_multipart := MultipartRejected;
     r_headerless := NotExempt; r_rate := [Rate.Read]; r_errors := HtmlErrors |};
   {| r_host := ProjectHosts; r_path := Fallback; r_example := lit "/does-not-exist";
     r_methods := or_else ENotFound (get_ ENotFound); r_access := Public;
     r_cache := NoStore; r_csp := Release; r_body := DefaultBody; r_multipart := MultipartRejected;
     r_headerless := NotExempt; r_rate := [Rate.Read]; r_errors := HtmlErrors |}]
  ++ admin_routes ++ project_routes ++ dev_routes dev.
End Table.

(** ** The routers (build.rs) *)

(** axum's [Router]: its patterns in the order of registration, and its fallback. *)
Record Router := { by_pattern : list (str * Route); fallback : option Route }.

Definition router_new : Router := {| by_pattern := []; fallback := None |}.

(** [Router::route] and [Router::fallback_service]. *)
Definition add_route (pattern : str) (r : Route) (t : Router) : Router :=
  {| by_pattern := by_pattern t ++ [(pattern, r)]; fallback := fallback t |}.

Definition set_fallback (r : Route) (t : Router) : Router :=
  {| by_pattern := by_pattern t; fallback := Some r |}.

Record Routers := { internal : Router; internal_paths : list str; main : Router; project : Router }.

Definition is_main (k : HostKind) : bool := match k with MainHost | BothHosts => true | _ => false end.
Definition is_project (k : HostKind) : bool := match k with ProjectHosts | BothHosts => true | _ => false end.

(** One round of the loop of [build]; an internal fallback panics. *)
Definition register (t : Routers) (r : Route) : option Routers :=
  match r_host r, r_path r with
  | InternalHost, Pattern pattern =>
      Some {| internal := add_route pattern r (internal t);
              internal_paths := internal_paths t ++ [pattern]; main := main t; project := project t |}
  | InternalHost, Fallback => None
  | kind, Pattern pattern =>
      Some {| internal := internal t; internal_paths := internal_paths t;
              main := if is_main kind then add_route pattern r (main t) else main t;
              project := if is_project kind then add_route pattern r (project t) else project t |}
  | kind, Fallback =>
      Some {| internal := internal t; internal_paths := internal_paths t;
              main := if is_main kind then set_fallback r (main t) else main t;
              project := if is_project kind then set_fallback r (project t) else project t |}
  end.

Definition routers_new : Routers :=
  {| internal := router_new; internal_paths := []; main := router_new; project := router_new |}.

Fixpoint build_from (table : list Route) (t : Routers) : option Routers :=
  match table with
  | [] => Some t
  | r :: table => register t r ≫= build_from table
  end.

(** The routers of [build]. *)
Definition build (table : list Route) : option Routers := build_from table routers_new.

(** ** What the table declares *)

Definition endpoints (m : MethodRouter) : list Endpoint :=
  option_list (on_get m) ++ option_list (on_post m) ++ option_list (otherwise m).

(** Who may reach a handler: what the specification of the admin area says. *)
Definition endpoint_access (e : Endpoint) : Access :=
  match e with
  | EList | ECreate | ESettings | ESave | EDelete => AdminAccess
  | EHome | ELogout | EShow | EChangePassword | EStartTotp | EConfirmTotp | EDisableTotp
  | ERegenerateCodes | EEndOtherSessions | EAdminNotFound => SessionAccess
  | _ => Public
  end.

(** The admin pages open to everyone: signing in and the reset of a password. *)
Definition open_admin_patterns : list str :=
  [lit "/admin/login"; lit "/admin/reset"; lit "/admin/reset/{token}"].

Definition route_pattern (r : Route) : option str :=
  match r_path r with Pattern p => Some p | Fallback => None end.

Definition route_ok (r : Route) : bool :=
  forallb (fun e => bool_decide (r_access r = endpoint_access e)) (endpoints (r_methods r))
  && match route_pattern r with
     | Some p => negb (starts_with (lit "/admin") p)
                 || (bool_decide (r_host r = MainHost) && bool_decide (r_cache r = NoStore)
                     && (negb (bool_decide (r_access r = Public)) || existsb (zlist_eqb p) open_admin_patterns))
     | None => bool_decide (endpoints (r_methods r) = [ENotFound; ENotFound])
     end
  && (negb (bool_decide (is_Some (on_post (r_methods r)))) || negb (bool_decide (r_access r = Public))
      || existsb (fun c => applies_to c POST) (r_rate r)).

Section TableFacts.
Context `{Crates} (css : bytes).

Lemma table_ok dev : forallb route_ok (table css dev) = true.
Proof. destruct dev; vm_compute; reflexivity. Qed.

Lemma table_route_ok dev r : r ∈ table css dev -> route_ok r = true.
Proof. intros Hr. pose proof (table_ok dev) as Hk. rewrite forallb_forall in Hk. by apply Hk, list_elem_of_In. Qed.

(** The access a route declares is the one its handlers need. *)
Lemma table_access dev r e :
  r ∈ table css dev -> e ∈ endpoints (r_methods r) -> r_access r = endpoint_access e.
Proof.
  intros Hr He. apply table_route_ok in Hr. unfold route_ok in Hr. rewrite !andb_true_iff in Hr.
  destruct Hr as [[Hr _] _]. rewrite forallb_forall in Hr.
  apply list_elem_of_In, Hr, bool_decide_eq_true in He. exact He.
Qed.

Lemma table_not_exempt dev r : r ∈ table css dev -> r_headerless r = NotExempt.
Proof.
  intros Hr. assert (Hk : forallb (fun r => match r_headerless r with NotExempt => true | _ => false end)
    (table css dev) = true) by (destruct dev; vm_compute; reflexivity).
  rewrite forallb_forall in Hk. specialize (Hk r (proj1 (list_elem_of_In _ _) Hr)). by destruct (r_headerless r).
Qed.
End TableFacts.

(** ** The routers hold the table *)

Definition routes_of (t : Router) : list Route := map snd (by_pattern t) ++ option_list (fallback t).

Lemma routes_add p q t r : r ∈ routes_of (add_route p q t) -> r = q \/ r ∈ routes_of t.
Proof.
  unfold routes_of. cbn. rewrite map_app, !elem_of_app. cbn. rewrite list_elem_of_singleton. tauto.
Qed.

Lemma routes_fallback q t r : r ∈ routes_of (set_fallback q t) -> r = q \/ r ∈ routes_of t.
Proof. unfold routes_of. cbn. rewrite !elem_of_app, list_elem_of_singleton. tauto. Qed.

(** Where a route sits follows from its host kind. *)
Definition placed (l : list Route) (t : Routers) : Prop :=
  (forall r, r ∈ routes_of (internal t) -> r ∈ l /\ r_host r = InternalHost) /\
  (forall r, r ∈ routes_of (main t) -> r ∈ l /\ is_main (r_host r) = true) /\
  (forall r, r ∈ routes_of (project t) -> r ∈ l /\ is_project (r_host r) = true).

Lemma register_placed l t q t' : register t q = Some t' -> placed l t -> placed (q :: l) t'.
Proof.
  intros Hq (Hi & Hm & Hp).
  assert (Hw : forall r (Q : Prop), r ∈ l /\ Q -> r ∈ q :: l /\ Q) by (intros r Q [Hl HQ]; split; [by right|done]).
  assert (Hh : forall r (Q : Prop), r = q -> Q -> r ∈ q :: l /\ Q) by (intros r Q -> HQ; split; [by left|done]).
  unfold register in Hq. destruct (r_host q) eqn:Eh, (r_path q) eqn:Ep; try done; injection Hq as <-;
    split_and!; intros r Hr; cbn [internal main project is_main is_project] in Hr;
    try (apply routes_add in Hr as [->|Hr] || apply routes_fallback in Hr as [->|Hr]);
    first [apply Hw; by auto | apply Hh; [done|by rewrite Eh]].
Qed.

Lemma build_placed l : forall t, build l = Some t -> placed l t.
Proof.
  unfold build. assert (H0 : placed [] routers_new) by (split_and!; intros r Hr; by apply not_elem_of_nil in Hr).
  enough (Hg : forall l k t t', placed k t -> build_from l t = Some t' -> forall t'',
    t'' = t' -> placed (rev l ++ k) t'').
  { intros t Ht. destruct (Hg l [] routers_new t H0 Ht t eq_refl) as (H1 & H2 & H3).
    assert (He : forall r, r ∈ rev l ++ [] -> r ∈ l).
    { intros r. rewrite app_nil_r, !list_elem_of_In, <- in_rev. done. }
    split_and!; intros r Hr; [apply H1 in Hr|apply H2 in Hr|apply H3 in Hr]; naive_solver. }
  clear. induction l as [|q l IH]; intros k t t' Hk Hb t'' ->; cbn [build_from rev] in *.
  - by injection Hb as <-.
  - destruct (register t q) as [t1|] eqn:Hq; [|done]. cbn [mbind option_bind] in Hb.
    rewrite <- app_assoc. cbn [app]. eapply IH; [|exact Hb|done]. by eapply register_placed.
Qed.

(** The routers of a table, as a test. *)
Definition router_ok (t : Router) : bool := bool_decide (NoDup (map fst (by_pattern t))).

Definition routers_ok (t : Routers) : bool :=
  router_ok (internal t) && router_ok (main t) && router_ok (project t)
  && match fallback (main t), fallback (project t) with Some _, Some _ => true | _, _ => false end
  && bool_decide (internal_paths t = [HEALTHZ; TLS_ASK])
  && forallb (fun pr => negb (starts_with (lit "/admin") pr.1)
       || (bool_decide (r_host pr.2 = MainHost) && bool_decide (r_cache pr.2 = NoStore)
           && (negb (bool_decide (r_access pr.2 = Public)) || bool_decide (pr.1 ∈ open_admin_patterns))))
       (by_pattern (main t))
  && forallb (fun pr => forallb (fun e => bool_decide (e ∈ [EAsset; EReloadScript; EBootId]))
                          (endpoints (r_methods pr.2))) (by_pattern (project t)).

Section BuiltTable.
Context `{Crates} (css : bytes).

Lemma table_builds dev : match build (table css dev) with Some t => routers_ok t | None => false end = true.
Proof. destruct dev; vm_compute; reflexivity. Qed.

Lemma table_post_rate dev r e :
  r ∈ table css dev -> on_post (r_methods r) = Some e -> r_access r = Public ->
  exists c, c ∈ r_rate r /\ applies_to c POST = true.
Proof.
  intros Hr He Ha. apply table_route_ok in Hr. unfold route_ok in Hr. rewrite !andb_true_iff in Hr.
  destruct Hr as [_ Hr]. rewrite He, Ha in Hr. cbn [negb orb] in Hr.
  rewrite !bool_decide_eq_true_2 in Hr by done. cbn [negb orb] in Hr.
  apply existsb_exists in Hr as (c & Hc & Hp). exists c. split; [by apply list_elem_of_In|done].
Qed.

End BuiltTable.
