(* ===== verification/Pipeline.v ===== *)
(** * The request pipeline (src/src/routing/build.rs, src/src/http/{fetch,headers,body,errors}.rs)

    The layers around a handler and the dispatcher in front of the routers, as functions on
    services. What axum, tower-http and hyper do with a request is the class [Axum]; what
    the surroundings of one request decide (clock readings, permits, whether the deadline
    passed, development files) is its [Env]. The handlers are a parameter here and are
    filled in by [Server]. *)

From S2P Require Import Prelude Str Codec Keys Net Rate Config Urls Http Db Outbox Auth Credentials.
From S2P Require Import Accounts Hosts Projects Checks Routes.

(** ** Requests *)

Record Req := {
  rq_method : Method; rq_path : str; rq_query : option str; rq_headers : Headers;
  rq_body : bytes;
  (** [PeerAddr], set by the server. *)
  rq_peer : option IpAddr }.

(** What the layers attach to a request for each other and for the handler. *)
Record Exts := {
  x_routed : option (HostEntry * str);  (** [RoutedHost] *)
  x_client : option IpAddr;             (** [ClientAddr] *)
  x_user : option SessionUser;
  x_pattern : str;                      (** the pattern the router matched *)
  x_cap : option Z }.                   (** the body cap *)

Definition no_exts : Exts :=
  {| x_routed := None; x_client := None; x_user := None; x_pattern := []; x_cap := None |}.

Definition set_routed (r : HostEntry * str) (x : Exts) : Exts :=
  {| x_routed := Some r; x_client := x_client x; x_user := x_user x; x_pattern := x_pattern x;
     x_cap := x_cap x |}.
Definition set_client (c : IpAddr) (x : Exts) : Exts :=
  {| x_routed := x_routed x; x_client := Some c; x_user := x_user x; x_pattern := x_pattern x;
     x_cap := x_cap x |}.
Definition set_user (u : SessionUser) (x : Exts) : Exts :=
  {| x_routed := x_routed x; x_client := x_client x; x_user := Some u; x_pattern := x_pattern x;
     x_cap := x_cap x |}.
Definition set_pattern (p : str) (x : Exts) : Exts :=
  {| x_routed := x_routed x; x_client := x_client x; x_user := x_user x; x_pattern := p;
     x_cap := x_cap x |}.
Definition set_cap (c : Z) (x : Exts) : Exts :=
  {| x_routed := x_routed x; x_client := x_client x; x_user := x_user x; x_pattern := x_pattern x;
     x_cap := Some c |}.

(** ** The web framework *)

Class Axum := {
  (** [Router]: the registered pattern that a path matches. *)
  route_of : list str -> str -> option str;
  (** [MethodRouter]: the handler of a method; without one, 405. *)
  method_of : MethodRouter -> Method -> option Endpoint;
  (** The headers of axum's 405 ([Allow]). *)
  not_allowed_headers : MethodRouter -> Headers;
  (** [Path<String>]: the one parameter of a pattern, or the rejection's status. *)
  path_param : str -> str -> result Z str;
  (** [Form]: the fields of the request's form under a body cap, or the rejection's status. *)
  form_fields : option Z -> Req -> result Z (str -> option str);
  (** [RequestBodyLimitLayer]: whether the request declares a body over the cap. *)
  over_limit : Z -> Req -> bool }.

Definition literal_prefix (pattern : str) : str := default pattern (fst <$> split_once 123 pattern).

(** What the framework documents. *)
Class AxumLaws `{Axum} := {
  route_member : forall ps path p, route_of ps path = Some p -> p ∈ ps;
  (** A pattern without a parameter matches its own path only, and before any other. *)
  route_static : forall ps p, p ∈ ps -> 123 ∉ p -> route_of ps p = Some p;
  route_literal : forall ps path p, route_of ps path = Some p ->
    starts_with (literal_prefix p) path = true /\ (123 ∉ p -> path = p);
  (** [{*rest}] matches any non-empty rest. *)
  route_catch_all : forall ps prefix name rest, 123 ∉ prefix -> 125 ∉ name ->
    prefix ++ lit "{*" ++ name ++ lit "}" ∈ ps -> rest <> [] -> is_Some (route_of ps (prefix ++ rest));
  (** [get] also serves HEAD; [fallback] and [any] serve the methods without a handler. *)
  method_of_spec : forall m x, method_of m x =
    match (if is_safe x then on_get m else if bool_decide (x = POST) then on_post m else None) with
    | Some e => Some e
    | None => otherwise m
    end }.

(** ** State *)

(** What one process keeps between requests. *)
Record Server := {
  sv_world : World;
  sv_map : HostMap;
  (** The rate limiter, with the mail limits over it. *)
  sv_mail : MailLimits;
  sv_counters : list Z;
  sv_warnings : ClientWarnings }.

Definition set_world (w : World) (s : Server) : Server :=
  {| sv_world := w; sv_map := sv_map s; sv_mail := sv_mail s; sv_counters := sv_counters s;
     sv_warnings := sv_warnings s |}.
Definition set_limiter (l : Limiter) (s : Server) : Server :=
  {| sv_world := sv_world s; sv_map := sv_map s;
     sv_mail := {| limiter := l; instance := instance (sv_mail s); boot_mac := boot_mac (sv_mail s) |};
     sv_counters := sv_counters s; sv_warnings := sv_warnings s |}.
Definition set_counters (c : list Z) (s : Server) : Server :=
  {| sv_world := sv_world s; sv_map := sv_map s; sv_mail := sv_mail s; sv_counters := c;
     sv_warnings := sv_warnings s |}.
Definition set_warnings (n : ClientWarnings) (s : Server) : Server :=
  {| sv_world := sv_world s; sv_map := sv_map s; sv_mail := sv_mail s;
     sv_counters := sv_counters s; sv_warnings := n |}.

(** What the surroundings of one request decide. *)
Record Env := {
  e_tick : Z;            (** [clock.now()] at the rate layer *)
  e_session_now : Z;     (** [clock.unix()] at the session layer *)
  e_tick' : Z;           (** the handler's readings *)
  e_now : Z;
  e_now' : Z;
  e_hashing : bool;      (** whether the permits it asks for come *)
  e_hashing' : bool;
  e_public_write : bool;
  (** Whether the deadline passes, and then whether the work behind it is done first. *)
  e_late : option bool;
  e_file : str -> option bytes;  (** files of [static/], read by a [dev] build *)
  e_boot_id : str }.

Definition Service : Type := Req -> Exts -> Server -> Resp * Server.

(** [Config] values of [App] that the handlers do not read. *)
Record Setup := { st_app : App; st_trusted_proxies : TrustedProxies; st_css : bytes; st_dev : bool }.

Section Pipeline.
Context `{Crates} `{Axum} (setup : Setup) (e : Env) (handle : Endpoint -> Service).

(** ** Layers of a route *)

Definition IMMUTABLE : str := lit "public, max-age=31536000, immutable".
Definition REDIRECT_MAX_AGE : str := lit "max-age=3600".

Definition cache_value (c : CacheClass) (m : Method) (r : Resp) : str :=
  match c with
  | NoStore => lit "no-store"
  | NoCache => lit "no-cache"
  | StaticAsset =>
      if rs_hashed r && (rs_status r =? 200) && is_safe m then IMMUTABLE else lit "no-cache"
  | CanonicalRedirect => if rs_status r =? 308 then REDIRECT_MAX_AGE else lit "no-store"
  end.

Definition cache_layer (c : CacheClass) (csp : Csp) (next : Service) : Service := fun req x s =>
  let '(response, s) := next req x s in
  let value := cache_value c (rq_method req) response in
  (with_headers (fun h =>
     let h := insert_header CACHE_CONTROL value (remove_header CACHE_CONTROL h) in
     match csp with Release => remove_header CONTENT_SECURITY_POLICY h end) response, s).

(** [errors::layer]. *)
Definition errors_layer (f : ErrorFormat) (next : Service) : Service := fun req x s =>
  let '(response, s) := next req x s in (error_body f response, s).

(** [TimeoutLayer]: past the deadline the work behind it is dropped and answered 408; its
    transactions that are already running still commit. *)
Definition timeout_layer (next : Service) : Service := fun req x s =>
  match e_late e with
  | None => next req x s
  | Some true => (status_only 408, (next req x s).2)
  | Some false => (status_only 408, s)
  end.

(** [fetch::origin_layer]. *)
Definition origin_layer (headerless : Headerless) (next : Service) : Service := fun req x s =>
  if is_safe (rq_method req) then next req x s
  else
    match x_routed x with
    | Some (_, expected) =>
        if origin_allowed (rq_headers req) expected headerless then next req x s
        else (reject 403 CrossSite, s)
    | None => (reject 403 CrossSite, s)
    end.

(** The loop of [rate_layer]: the class that refused, if one did. *)
Fixpoint draw_classes (classes : list RateClass) (m : Method) (client : IpAddr) (l : Limiter)
  : option RateClass * Limiter :=
  match classes with
  | [] => (None, l)
  | c :: classes =>
      if applies_to c m then
        let '(ok, l) := limiter_admit l (demand_class c client) (e_tick e) in
        if ok then draw_classes classes m client l else (Some c, l)
      else draw_classes classes m client l
  end.

Definition rate_layer (classes : list RateClass) (next : Service) : Service := fun req x s =>
  match x_client x with
  | None => (status_only 500, s)
  | Some client =>
      let '(refused, l) := draw_classes classes (rq_method req) client (limiter (sv_mail s)) in
      let s := set_limiter l s in
      match refused with
      | Some c => (reject 429 (RateLimited c), s)
      | None => next req x s
      end
  end.

(** [body::multipart_layer]. *)
Definition multipart_layer (m : Multipart) (next : Service) : Service := fun req x s =>
  match m with
  | MultipartRejected =>
      if is_multipart (rq_headers req) then (reject 415 MultipartBody, s) else next req x s
  end.

(** [RequestBodyLimitLayer] and [DefaultBodyLimit]. *)
Definition limit_layer (cap : Z) (next : Service) : Service := fun req x s =>
  if over_limit cap req then (status_only 413, s) else next req (set_cap cap x) s.

Definition COOKIE : str := lit "cookie".
Definition LOCATION : str := lit "location".
Definition SET_COOKIE : str := lit "set-cookie".

(** [session::see_other]. *)
Definition see_other (path : str) : Resp :=
  {| rs_status := 303; rs_headers := [(LOCATION, path)]; rs_body := NoBody; rs_rejected := None;
     rs_own_body := false; rs_hashed := false |}.

(** The form's [csrf] field, which is empty when absent. *)
Definition csrf_of (req : Req) (x : Exts) : option str :=
  match form_fields (x_cap x) req with
  | Ok f => Some (default [] (f (lit "csrf")))
  | Err _ => None
  end.

(** [session::layer] around the rest of the route. *)
Definition session_layer (next : Service) : Service := fun req x s =>
  let '(answer, w) := layer (rq_method req) (get_all (rq_headers req) COOKIE) (csrf_of req x)
                        (e_session_now e) (sv_world s) in
  let s := set_world w s in
  match answer with
  | ToLogin => (see_other LOGIN_PATH, s)
  | Forbidden => (status_only 403, s)
  | LayerError => (status_only 500, s)
  | NotFoundAnswer => (status_only 404, s)
  | Proceed user => next req (set_user user x) s
  end.

(** [session::admin_layer] around the handler. *)
Definition admin_only_layer (next : Service) : Service := fun req x s =>
  match Auth.admin_layer (x_user x) with
  | Proceed _ => next req x s
  | _ => (status_only 404, s)
  end.

(** The method router's own dispatch. *)
Definition methods_service (m : MethodRouter) : Service := fun req x s =>
  match method_of m (rq_method req) with
  | Some ep => handle ep req x s
  | None => (with_headers (fun _ => not_allowed_headers m) (status_only 405), s)
  end.

(** The inner half of [layered]: the guard runs inside the body cap. *)
Definition access_layers (r : Route) : Service :=
  let methods := methods_service (r_methods r) in
  limit_layer (cap (r_body r))
    (match r_access r with
     | Public => methods
     | SessionAccess => session_layer methods
     | AdminAccess => session_layer (admin_only_layer methods)
     end).

(** [layered]. *)
Definition layered (r : Route) : Service :=
  let methods := access_layers r in
  match r_host r with
  | InternalHost => cache_layer (r_cache r) (r_csp r) (errors_layer (r_errors r) methods)
  | _ =>
      cache_layer (r_cache r) (r_csp r)
        (errors_layer (r_errors r)
          (timeout_layer
            (origin_layer (r_headerless r)
              (rate_layer (r_rate r)
                (multipart_layer (r_multipart r) methods)))))
  end.

(** A router's service; without a fallback, axum's own 404. *)
Definition router_service (t : Router) : Service := fun req x s =>
  match p ← route_of (map fst (by_pattern t)) (rq_path req);
        find_first (fun pr => zlist_eqb pr.1 p) (by_pattern t) with
  | Some (p, r) => layered r req (set_pattern p x) s
  | None =>
      match fallback t with
      | Some r => layered r req x s
      | None => (status_only 404, s)
      end
  end.

Definition X_FORWARDED_FOR : str := lit "x-forwarded-for".

(** [client_address_layer]; [resolve] never panics ([Net.resolve_client]). *)
Definition client_address_layer (next : Service) : Service := fun req x s =>
  match rq_peer req with
  | None => (status_only 500, s)
  | Some peer =>
      match resolve peer (get_all (rq_headers req) X_FORWARDED_FOR) (st_trusted_proxies setup) with
      | None => (status_only 500, s)
      | Some resolution =>
          let s := set_warnings (fold_left note (warnings resolution) (sv_warnings s)) s in
          next req (set_client (client resolution) x) s
      end
  end.

Definition host_router (t : Router) : Service := client_address_layer (router_service t).

(** The host entry and the origin of a request. *)
Definition routed_host (m : HostMap) (req : Req) : option (HostEntry * str) :=
  h ← request_host (get_all (rq_headers req) (lit "host"));
  entry ← get_host m h;
  Some (entry, match entry with
               | Main => app_origin (st_app setup)
               | ProjectHost _ => project_origin h
               end).

(** [admin_isolation_rejection] with its error page. *)
Definition admin_isolation_rejection : Resp :=
  let full := error_response 403 HtmlErrors in
  {| rs_status := 403; rs_headers := rs_headers full; rs_body := rs_body full;
     rs_rejected := Some AdminIsolation; rs_own_body := false; rs_hashed := false |}.

(** The 421 of a request for no known host. *)
Definition misdirected : Resp :=
  let full := error_response 421 HtmlErrors in
  {| rs_status := 421; rs_headers := rs_headers full; rs_body := rs_body full;
     rs_rejected := Some UnknownHost; rs_own_body := false; rs_hashed := false |}.

(** [Dispatcher::call]. *)
Definition dispatch (t : Routers) : Service := fun req x s =>
  if existsb (zlist_eqb (rq_path req)) (internal_paths t) then router_service (internal t) req x s
  else
    match routed_host (sv_map s) req with
    | None => (misdirected, s)
    | Some (Main, o) =>
        if negb (admin_isolation_allows (rq_method req) (rq_path req) (rq_headers req)) then
          (admin_isolation_rejection, s)
        else host_router (main t) req (set_routed (Main, o) x) s
    | Some (entry, o) => host_router (project t) req (set_routed (entry, o) x) s
    end.

(** [headers::layer]; every reason has a counter ([Checks.reason_index]). *)
Definition headers_layer (next : Service) : Service := fun req x s =>
  let '(response, s) := next req x s in
  let s := match counted response with
           | Some reason => set_counters (default (sv_counters s) (increment reason (sv_counters s))) s
           | None => s
           end in
  (with_headers (apply_headers (st_dev setup)) response, s).

(** The service of [build]; a table that does not build panics at the start. *)
Definition service (t : Routers) (req : Req) (s : Server) : Resp * Server :=
  headers_layer (dispatch t) req no_exts s.
End Pipeline.

(** ** When a handler runs *)

Section Calls.
Context `{Crates} `{Axum} (setup : Setup) (e : Env).

(** The access layers of [r] let the request through to its handler, from the world of [s0]
    to that of [s]. *)
Definition access_passed (r : Route) (req : Req) (x : Exts) (s0 s : Server) : Prop :=
  x_cap x = Some (cap (r_body r)) /\
  match r_access r with
  | Public => sv_world s = sv_world s0
  | a => exists u, x_user x = Some u /\
      layer (rq_method req) (get_all (rq_headers req) COOKIE) (csrf_of req x) (e_session_now e)
        (sv_world s0) = (Proceed u, sv_world s) /\
      (a = AdminAccess -> role u = Admin)
  end.

(** The origin, rate, multipart and size layers of [r] let it through, from the limiter
    [l0] to [l]. *)
Record layers_passed (r : Route) (req : Req) (x : Exts) (l0 l : Limiter) : Prop := {
  passed_origin : is_safe (rq_method req) = false ->
    exists entry origin, x_routed x = Some (entry, origin) /\
      origin_allowed (rq_headers req) origin (r_headerless r) = true;
  passed_rate : exists c, x_client x = Some c /\
    draw_classes e (r_rate r) (rq_method req) c l0 = (None, l);
  passed_multipart : r_multipart r = MultipartRejected -> is_multipart (rq_headers req) = false;
  passed_limit : over_limit (cap (r_body r)) req = false }.

(** [r] is the route the router picks for the request. *)
Definition picked (t : Router) (req : Req) (x : Exts) (r : Route) : Prop :=
  (exists p, route_of (map fst (by_pattern t)) (rq_path req) = Some p /\ (p, r) ∈ by_pattern t /\
     x_pattern x = p) \/
  (fallback t = Some r /\ route_of (map fst (by_pattern t)) (rq_path req) = None).

Definition router_for (t : Routers) (entry : HostEntry) : Router :=
  match entry with Main => main t | ProjectHost _ => project t end.

(** [called t s0 req ep x s]: a request [req] to a process in state [s0] may reach the
    handler [ep], in the state [s] and with the extensions [x]. *)
Inductive called (t : Routers) (s0 : Server) (req : Req) : Endpoint -> Exts -> Server -> Prop :=
| called_internal r ep x s :
    rq_path req ∈ internal_paths t -> picked (internal t) req x r ->
    access_passed r req x s0 s -> method_of (r_methods r) (rq_method req) = Some ep ->
    called t s0 req ep x s
| called_host entry origin r peer res ep x s :
    rq_path req ∉ internal_paths t ->
    routed_host setup (sv_map s0) req = Some (entry, origin) -> x_routed x = Some (entry, origin) ->
    (entry = Main -> admin_isolation_allows (rq_method req) (rq_path req) (rq_headers req) = true) ->
    rq_peer req = Some peer ->
    resolve peer (get_all (rq_headers req) X_FORWARDED_FOR) (st_trusted_proxies setup) = Some res ->
    x_client x = Some (client res) ->
    picked (router_for t entry) req x r ->
    layers_passed r req x (limiter (sv_mail s0)) (limiter (sv_mail s)) ->
    access_passed r req x s0 s -> method_of (r_methods r) (rq_method req) = Some ep ->
    called t s0 req ep x s.

(** The access layers and the method router agree on handlers that agree where they run. *)
Lemma access_agree h1 h2 r req x s0 (s : Server) :
  sv_world s = sv_world s0 ->
  (forall ep x' s', access_passed r req x' s0 s' -> method_of (r_methods r) (rq_method req) = Some ep ->
     x_routed x' = x_routed x -> x_client x' = x_client x -> x_pattern x' = x_pattern x ->
     limiter (sv_mail s') = limiter (sv_mail s) -> over_limit (cap (r_body r)) req = false ->
     h1 ep req x' s' = h2 ep req x' s') ->
  access_layers e h1 r req x s = access_layers e h2 r req x s.
Proof.
  intros Hs Hh. unfold access_layers. cbv zeta. unfold limit_layer. destruct (over_limit _ _) eqn:Eo; [done|].
  unfold access_passed in Hh. destruct (r_access r) eqn:Ea.
  - unfold methods_service. destruct (method_of _ _) as [ep|]; [|done]. by apply Hh.
  - unfold session_layer. destruct (layer _ _ _ _ _) as [[] w] eqn:El; try done.
    unfold methods_service. destruct (method_of _ _) as [ep|]; [|done]. apply Hh; try done.
    split; [done|]. exists user. rewrite <- Hs. cbn. by split_and!.
  - unfold session_layer. destruct (layer _ _ _ _ _) as [[] w] eqn:El; try done.
    unfold admin_only_layer. cbn [set_user x_user Auth.admin_layer].
    case_bool_decide as Hr; [|done].
    unfold methods_service. destruct (method_of _ _) as [ep|]; [|done]. apply Hh; try done.
    split; [done|]. exists user. rewrite <- Hs. cbn. by split_and!.
Qed.

Context `{!AxumLaws}.

(** How a router picks a route. *)
Lemma router_service_cases h (t : Router) req x s :
  (exists p r, route_of (map fst (by_pattern t)) (rq_path req) = Some p /\ (p, r) ∈ by_pattern t /\
     router_service e h t req x s = layered e h r req (set_pattern p x) s) \/
  (exists r, fallback t = Some r /\ route_of (map fst (by_pattern t)) (rq_path req) = None /\
     router_service e h t req x s = layered e h r req x s) \/
  (fallback t = None /\ router_service e h t req x s = (status_only 404, s)).
Proof.
  unfold router_service. destruct (route_of _ _) as [p|] eqn:Ep; cbn [mbind option_bind].
  - destruct (find_first _ _) as [[q r]|] eqn:Ef.
    + apply find_first_Some in Ef as [Hin Hq]. cbn in Hq. apply zlist_eqb_eq in Hq as ->. left. eauto.
    + apply route_member, list_elem_of_fmap in Ep as ([q r] & -> & Hin). apply find_first_None in Ef.
      rewrite Forall_forall in Ef. specialize (Ef _ Hin). cbn in Ef. by rewrite zlist_eqb_refl in Ef.
  - destruct (fallback t) eqn:Ef; right; [left|right]; eauto.
Qed.

Lemma router_routes_of (t : Router) p r : (p, r) ∈ by_pattern t -> r ∈ routes_of t.
Proof. intros Hp. apply elem_of_app. left. apply list_elem_of_fmap. by exists (p, r). Qed.

(** The same for the layers outside it. *)
Lemma entry_agree (n1 n2 : Service) r req x s :
  (forall s', sv_world s' = sv_world s ->
     (over_limit (cap (r_body r)) req = false ->
        layers_passed r req x (limiter (sv_mail s)) (limiter (sv_mail s'))) ->
     n1 req x s' = n2 req x s') ->
  let entry n := origin_layer (r_headerless r) (rate_layer e (r_rate r) (multipart_layer (r_multipart r) n)) in
  entry n1 req x s = entry n2 req x s.
Proof.
  intros Hn. cbv zeta. unfold origin_layer, rate_layer, multipart_layer.
  assert (Hgo : (is_safe (rq_method req) = false -> exists entry o, x_routed x = Some (entry, o) /\
      origin_allowed (rq_headers req) o (r_headerless r) = true) ->
    forall c s', sv_world s' = sv_world s -> x_client x = Some c ->
    draw_classes e (r_rate r) (rq_method req) c (limiter (sv_mail s)) = (None, limiter (sv_mail s')) ->
    is_multipart (rq_headers req) = false -> n1 req x s' = n2 req x s').
  { intros Ho c s' Hw Hc Hd Hm. apply Hn; [done|]. intros Hl. by split; eauto. }
  destruct (is_safe (rq_method req)) eqn:Es;
    [|destruct (x_routed x) as [[entry o]|] eqn:Er; [|done]; destruct (origin_allowed _ o _) eqn:Eo; [|done]].
  all: destruct (x_client x) as [c|] eqn:Ec; [|done].
  all: destruct (draw_classes _ _ _ _ _) as [[]  l] eqn:Ed; [done|].
  all: destruct (r_multipart r), (is_multipart (rq_headers req)) eqn:Em; [done|].
  all: apply (Hgo ltac:(by eauto) c); by try done.
Qed.

Lemma layered_agree h1 h2 r req x s :
  (forall ep x' s', access_passed r req x' s s' -> method_of (r_methods r) (rq_method req) = Some ep ->
     x_routed x' = x_routed x -> x_client x' = x_client x -> x_pattern x' = x_pattern x ->
     (r_host r <> InternalHost -> layers_passed r req x' (limiter (sv_mail s)) (limiter (sv_mail s'))) ->
     h1 ep req x' s' = h2 ep req x' s') ->
  layered e h1 r req x s = layered e h2 r req x s.
Proof.
  intros Hh. unfold layered. cbv zeta. destruct (r_host r) eqn:Er.
  { unfold cache_layer, errors_layer. rewrite (access_agree h1 h2 r req x s s); [done|done|].
    intros. by apply Hh. }
  all: unfold cache_layer, errors_layer, timeout_layer.
  all: rewrite (entry_agree (access_layers e h1 r) (access_layers e h2 r) r req x s); [done|].
  all: intros s1 Hw Hl; apply (access_agree h1 h2 r req x s); [done|].
  all: intros ep x' s' Ha Hm Hxr Hxc Hxp Hlim Ho; apply Hh; try done; intros _.
  all: destruct (Hl Ho) as [L1 L2 L3 L4]; split; rewrite ?Hxr, ?Hxc, ?Hlim; done.
Qed.

Lemma picked_routes t req x r : picked t req x r -> r ∈ routes_of t.
Proof.
  intros [(p & _ & Hp & _)|[Hf _]]; [by eapply router_routes_of|]. apply elem_of_app. right.
  rewrite Hf. by left.
Qed.

Lemma router_agree h1 h2 (t : Router) req x s :
  (forall ep x' s' r, picked t req x' r ->
     access_passed r req x' s s' -> method_of (r_methods r) (rq_method req) = Some ep ->
     x_routed x' = x_routed x -> x_client x' = x_client x ->
     (r_host r <> InternalHost -> layers_passed r req x' (limiter (sv_mail s)) (limiter (sv_mail s'))) ->
     h1 ep req x' s' = h2 ep req x' s') ->
  router_service e h1 t req x s = router_service e h2 t req x s.
Proof.
  intros Hh. unfold router_service.
  destruct (router_service_cases h1 t req x s) as [(p & r & Hp & Hin & _)|[(r & Hf & Hn & _)|[Hf _]]].
  - destruct (p' ← _; _) as [[q r']|] eqn:Eq.
    + apply layered_agree. intros ep x' s' Ha Hm Hxr Hxc Hxp Hl. eapply Hh; try done. left. exists p.
      rewrite Hp in Eq. cbn [mbind option_bind] in Eq. apply find_first_Some in Eq as [Hq Hqe]. cbn in Hqe.
      apply zlist_eqb_eq in Hqe as ->. done.
    + rewrite Hp in Eq. cbn [mbind option_bind] in Eq. apply find_first_None in Eq.
      rewrite Forall_forall in Eq. specialize (Eq _ Hin). cbn in Eq. by rewrite zlist_eqb_refl in Eq.
  - rewrite Hn. cbn [mbind option_bind]. rewrite Hf. apply layered_agree.
    intros ep x' s' Ha Hm Hxr Hxc Hxp Hl. eapply Hh; try done. by right.
  - destruct (p' ← _; _) as [[q r']|] eqn:Eq; [|by rewrite Hf].
    apply layered_agree. intros ep x' s' Ha Hm Hxr Hxc Hxp Hl. eapply Hh; try done. left.
    destruct (route_of _ _) as [p|] eqn:Ep; [|done]. cbn [mbind option_bind] in Eq.
    apply find_first_Some in Eq as [Hq Hqe]. cbn in Hqe. apply zlist_eqb_eq in Hqe as ->. eauto.
Qed.

Lemma service_agree (h1 h2 : Endpoint -> Service) (t : Routers) (req : Req)
  (s : Server) :
  (forall r, r ∈ routes_of (main t) \/ r ∈ routes_of (project t) -> r_host r <> InternalHost) ->
  (forall ep x s', called t s req ep x s' -> h1 ep req x s' = h2 ep req x s') ->
  service setup e h1 t req s = service setup e h2 t req s.
Proof.
  intros Hi Hh. unfold service, headers_layer. enough (dispatch setup e h1 t req no_exts s =
    dispatch setup e h2 t req no_exts s) as -> by done. unfold dispatch.
  destruct (existsb _ _) eqn:Ei.
  - apply existsb_exists in Ei as (p & Hp%list_elem_of_In & Heq%zlist_eqb_eq).
    apply router_agree. intros ep x s' r Hr Ha Hm _ _ _. apply Hh. eapply called_internal; try done.
    by rewrite Heq.
  - assert (Hni : rq_path req ∉ internal_paths t).
    { intros Hin. apply not_true_iff_false in Ei. apply Ei, existsb_exists. exists (rq_path req).
      split; [by apply list_elem_of_In|apply zlist_eqb_refl]. }
    destruct (routed_host setup (sv_map s) req) as [[entry o]|] eqn:Eh; [|done].
    assert (Hgo : (entry = Main -> admin_isolation_allows (rq_method req) (rq_path req) (rq_headers req) = true) ->
      host_router setup e h1 (router_for t entry) req (set_routed (entry, o) no_exts) s =
      host_router setup e h2 (router_for t entry) req (set_routed (entry, o) no_exts) s).
    { intros Hal. unfold host_router, client_address_layer. destruct (rq_peer req) as [peer|] eqn:Ep; [|done].
      destruct (resolve _ _ _) as [res|] eqn:Er; [|done]. apply router_agree.
      intros ep x s' r Hr Ha Hm Hxr Hxc Hl. apply Hh. eapply called_host; try done.
      apply Hl, Hi. destruct entry; cbn [router_for] in Hr; [left|right]; by eapply picked_routes. }
    destruct entry; [|by apply Hgo]. destruct (admin_isolation_allows _ _ _) eqn:Ea; [|done]. by apply Hgo.
Qed.

(** C10: the pipeline runs a handler only for requests that passed every check declared for
    it. Two servers whose handlers agree on the calls that [called] allows (the right host
    and router, resource isolation, origin, rate classes, multipart, size, and a live
    session, its CSRF token and the admin role where declared) answer every request the
    same and end in the same state. *)
Theorem handlers_run_behind_their_guards (h1 h2 : Endpoint -> Service) (t : Routers) (req : Req)
  (s : Server) :
  (forall r, r ∈ routes_of (main t) \/ r ∈ routes_of (project t) -> r_host r <> InternalHost) ->
  (forall ep x s', called t s req ep x s' -> h1 ep req x s' = h2 ep req x s') ->
  service setup e h1 t req s = service setup e h2 t req s.
Proof. apply service_agree. Qed.
(** ** What a request leaves *)

(** The world after the session layer. *)
Definition session_world (req : Req) (s : Server) : World :=
  (layer (rq_method req) (get_all (rq_headers req) COOKIE)
     (csrf_of req (set_cap (cap DefaultBody) no_exts)) (e_session_now e) (sv_world s)).2.

(** [s1] is left by the layers alone, or by a handler that ran in a state [K] allows. *)
Definition left_by (h : Endpoint -> Service) (req : Req) (s0 s1 : Server)
  (K : Endpoint -> Exts -> Server -> Prop) : Prop :=
  ((sv_world s1 = sv_world s0 \/ sv_world s1 = session_world req s0) /\ sv_map s1 = sv_map s0) \/
  exists ep x s', K ep x s' /\ sv_world s1 = sv_world (h ep req x s').2 /\
    sv_map s1 = sv_map (h ep req x s').2.

Lemma left_by_layers h req s0 s1 K :
  sv_world s1 = sv_world s0 -> sv_map s1 = sv_map s0 -> left_by h req s0 s1 K.
Proof. intros Hw Hm. left. split; [by left|done]. Qed.

Lemma left_by_impl h req s0 s1 s1' (K K' : Endpoint -> Exts -> Server -> Prop) :
  left_by h req s0 s1 K -> (forall ep x s', K ep x s' -> K' ep x s') ->
  sv_world s1' = sv_world s1 -> sv_map s1' = sv_map s1 -> left_by h req s0 s1' K'.
Proof.
  intros [[Hw Hm]|(ep & x & s' & Hk & Hw & Hm)] Hi Hw' Hm'; [left|right; exists ep, x, s'];
    rewrite Hw', Hm'; [done|]. split_and!; try done. by apply Hi.
Qed.

(** The access layers of [r], entered with [x] in the state [s], let it through. *)
Definition let_through (r : Route) (req : Req) (x : Exts) (s0 s : Server) (ep : Endpoint) (x' : Exts)
  (s' : Server) : Prop :=
  access_passed r req x' s0 s' /\ method_of (r_methods r) (rq_method req) = Some ep /\
  x_routed x' = x_routed x /\ x_client x' = x_client x /\ x_pattern x' = x_pattern x /\
  limiter (sv_mail s') = limiter (sv_mail s) /\ over_limit (cap (r_body r)) req = false.

Lemma session_left h r req x s0 s (n : Service) :
  sv_world s = sv_world s0 -> sv_map s = sv_map s0 ->
  (forall u w,
     layer (rq_method req) (get_all (rq_headers req) COOKIE) (csrf_of req (set_cap (cap (r_body r)) x))
       (e_session_now e) (sv_world s0) = (Proceed u, w) ->
     w = session_world req s0 ->
     left_by h req s0 (n req (set_user u (set_cap (cap (r_body r)) x)) (set_world w s)).2
       (let_through r req x s0 s)) ->
  left_by h req s0 (session_layer e n req (set_cap (cap (r_body r)) x) s).2 (let_through r req x s0 s).
Proof.
  intros Hs Hm Hn. unfold session_layer. rewrite Hs.
  assert (Hw : (layer (rq_method req) (get_all (rq_headers req) COOKIE)
    (csrf_of req (set_cap (cap (r_body r)) x)) (e_session_now e) (sv_world s0)).2 = session_world req s0).
  { unfold session_world, csrf_of. by destruct (r_body r). }
  destruct (layer _ _ _ _ (sv_world s0)) as [a w]. cbn in Hw.
  destruct a; try (left; split; [right; exact Hw|exact Hm]). by apply Hn.
Qed.

Lemma left_by_weaken h req s0 s1 (K K' : Endpoint -> Exts -> Server -> Prop) :
  left_by h req s0 s1 K -> (forall ep x s', K ep x s' -> K' ep x s') -> left_by h req s0 s1 K'.
Proof. intros Hl Hi. by eapply left_by_impl. Qed.

Lemma access_left h r req x s0 s :
  sv_world s = sv_world s0 -> sv_map s = sv_map s0 ->
  left_by h req s0 (access_layers e h r req x s).2 (let_through r req x s0 s).
Proof.
  intros Hs Hm. unfold access_layers. cbv zeta. unfold limit_layer.
  destruct (over_limit _ _) eqn:Eo; [by apply left_by_layers|].
  assert (Hmeth : forall x' s1, access_passed r req x' s0 s1 -> x_routed x' = x_routed x ->
    x_client x' = x_client x -> x_pattern x' = x_pattern x -> sv_mail s1 = sv_mail s ->
    (sv_world s1 = sv_world s0 \/ sv_world s1 = session_world req s0) -> sv_map s1 = sv_map s0 ->
    left_by h req s0 (methods_service h (r_methods r) req x' s1).2 (let_through r req x s0 s)).
  { intros x' s1 Ha Hxr Hxc Hxp Hl Hw Hmp. unfold methods_service.
    destruct (method_of _ _) as [ep|] eqn:Ep; [|by left]. right. exists ep, x', s1. split; [|done].
    unfold let_through. rewrite Hl. by split_and!. }
  unfold access_passed in Hmeth. destruct (r_access r) eqn:Ea.
  - apply Hmeth; try done. by left.
  - apply session_left; [done..|]. intros u w El Hw. apply Hmeth; try done; [|by right].
    split; [done|]. exists u. by split_and!.
  - apply session_left; [done..|]. intros u w El Hw. unfold admin_only_layer.
    cbn [set_user x_user Auth.admin_layer]. case_bool_decide as Hr; [|left; split; [by right|done]].
    apply Hmeth; try done; [|by right]. split; [done|]. exists u. by split_and!.
Qed.

(** The layers outside them. *)
Definition route_through (r : Route) (req : Req) (x : Exts) (s0 : Server) (ep : Endpoint) (x' : Exts)
  (s' : Server) : Prop :=
  access_passed r req x' s0 s' /\ method_of (r_methods r) (rq_method req) = Some ep /\
  x_routed x' = x_routed x /\ x_client x' = x_client x /\ x_pattern x' = x_pattern x /\
  (r_host r <> InternalHost -> layers_passed r req x' (limiter (sv_mail s0)) (limiter (sv_mail s'))).

Lemma entry_left h r req x s0 s :
  sv_world s = sv_world s0 -> sv_map s = sv_map s0 -> sv_mail s = sv_mail s0 ->
  left_by h req s0 (origin_layer (r_headerless r) (rate_layer e (r_rate r)
    (multipart_layer (r_multipart r) (access_layers e h r))) req x s).2 (route_through r req x s0).
Proof.
  intros Hs Hm Hl.
  assert (Hrate : (is_safe (rq_method req) = false -> exists entry o, x_routed x = Some (entry, o) /\
      origin_allowed (rq_headers req) o (r_headerless r) = true) ->
    left_by h req s0 (rate_layer e (r_rate r) (multipart_layer (r_multipart r) (access_layers e h r)) req x s).2
      (route_through r req x s0)).
  { intros Ho. unfold rate_layer. destruct (x_client x) as [c|] eqn:Ec; [|by apply left_by_layers].
    destruct (draw_classes _ _ _ _ _) as [refused l] eqn:Ed.
    destruct refused; [by apply left_by_layers|]. unfold multipart_layer.
    destruct (r_multipart r) eqn:Emp. destruct (is_multipart (rq_headers req)) eqn:Em; [by apply left_by_layers|].
    eapply left_by_weaken; [by apply access_left|].
    intros ep x' s' (Ha & Hme & Hxr & Hxc & Hxp & Hli & Hov). unfold route_through. split_and!; try done.
    intros _. split; rewrite ?Hxr, ?Hxc, ?Hli; try done. exists c. cbn. by rewrite <- Hl. }
  unfold origin_layer. destruct (is_safe (rq_method req)) eqn:Es; [by apply Hrate|].
  destruct (x_routed x) as [[entry o]|]; [|by apply left_by_layers].
  destruct (origin_allowed _ o _) eqn:Eo; [|by apply left_by_layers]. apply Hrate. eauto.
Qed.

Lemma layered_left h r req x s0 s :
  sv_world s = sv_world s0 -> sv_map s = sv_map s0 -> sv_mail s = sv_mail s0 ->
  left_by h req s0 (layered e h r req x s).2 (route_through r req x s0).
Proof.
  intros Hs Hm Hl. assert (Hout : forall n : Service,
    (cache_layer (r_cache r) (r_csp r) (errors_layer (r_errors r) n) req x s).2 = (n req x s).2).
  { intros n. unfold cache_layer, errors_layer. by destruct (n req x s). }
  pose proof (entry_left h r req x s0 s Hs Hm Hl) as Hin.
  unfold layered. cbv zeta. destruct (r_host r) eqn:Er.
  { rewrite Hout. eapply left_by_weaken; [by apply access_left|].
    intros ep x' s' (Ha & Hme & Hxr & Hxc & Hxp & _). unfold route_through. by split_and!. }
  all: rewrite Hout; unfold timeout_layer; destruct (e_late e) as [[]|]; first [exact Hin|by apply left_by_layers].
Qed.

Lemma router_left h (t : Router) req x s0 s :
  sv_world s = sv_world s0 -> sv_map s = sv_map s0 -> sv_mail s = sv_mail s0 ->
  left_by h req s0 (router_service e h t req x s).2 (fun ep x' s' => exists r, picked t req x' r /\
    access_passed r req x' s0 s' /\ method_of (r_methods r) (rq_method req) = Some ep /\
    x_routed x' = x_routed x /\ x_client x' = x_client x /\
    (r_host r <> InternalHost -> layers_passed r req x' (limiter (sv_mail s0)) (limiter (sv_mail s')))).
Proof.
  intros Hs Hm Hl.
  destruct (router_service_cases h t req x s) as [(p & r & Hp & Hin & ->)|[(r & Hf & Hn & ->)|[Hf ->]]].
  - eapply left_by_weaken; [by apply layered_left|].
    intros ep x' s' (Ha & Hme & Hxr & Hxc & Hxp & Hla). exists r. split_and!; try done. left. by exists p.
  - eapply left_by_weaken; [by apply layered_left|].
    intros ep x' s' (Ha & Hme & Hxr & Hxc & Hxp & Hla). exists r. split_and!; try done. by right.
  - by apply left_by_layers.
Qed.

(** The world and the host map after a request are those it found, those after the session
    layer, or those its handler left. *)
Lemma service_left h t req s :
  (forall r, r ∈ routes_of (main t) \/ r ∈ routes_of (project t) -> r_host r <> InternalHost) ->
  left_by h req s (service setup e h t req s).2 (called t s req).
Proof.
  intros Hi. unfold service, headers_layer.
  enough (Hd : left_by h req s (dispatch setup e h t req no_exts s).2 (called t s req)).
  { destruct (dispatch setup e h t req no_exts s) as [r s']. eapply left_by_impl; [exact Hd|done| |];
      cbn [snd]; by destruct (counted r). }
  unfold dispatch. destruct (existsb _ _) eqn:Ei.
  - apply existsb_exists in Ei as (p & Hp%list_elem_of_In & Heq%zlist_eqb_eq).
    eapply left_by_weaken; [by apply router_left|].
    intros ep x s' (r & Hr & Ha & Hm & _). eapply called_internal; try done. by rewrite Heq.
  - assert (Hni : rq_path req ∉ internal_paths t).
    { intros Hin. apply not_true_iff_false in Ei. apply Ei, existsb_exists. exists (rq_path req).
      split; [by apply list_elem_of_In|apply zlist_eqb_refl]. }
    destruct (routed_host setup (sv_map s) req) as [[entry o]|] eqn:Eh; [|by apply left_by_layers].
    assert (Hgo : (entry = Main -> admin_isolation_allows (rq_method req) (rq_path req) (rq_headers req) = true) ->
      left_by h req s (host_router setup e h (router_for t entry) req (set_routed (entry, o) no_exts) s).2
        (called t s req)).
    { intros Hal. unfold host_router, client_address_layer.
      destruct (rq_peer req) as [peer|] eqn:Ep; [|by apply left_by_layers].
      destruct (resolve _ _ _) as [res|] eqn:Er; [|by apply left_by_layers].
      eapply left_by_weaken; [by apply router_left|].
      intros ep x s' (r & Hr & Ha & Hm & Hxr & Hxc & Hl). eapply called_host; try done.
      apply Hl, Hi. destruct entry; cbn [router_for] in Hr; [left|right]; by eapply picked_routes. }
    destruct entry; [|by apply Hgo]. destruct (admin_isolation_allows _ _ _) eqn:Ea; [by apply Hgo|].
    by apply left_by_layers.
Qed.
End Calls.

(** ** Security headers *)

Section Hardening.
Context `{Crates} `{Axum} (setup : Setup) (e : Env) (h : Endpoint -> Service).

(** What a response of the dispatcher has of the two headers the outer layer completes. *)
Definition policy_headers (m : Method) (r : Resp) : Prop :=
  get_all (rs_headers r) CONTENT_SECURITY_POLICY = [] /\
  (get_all (rs_headers r) CACHE_CONTROL = [] \/
   exists c, get_all (rs_headers r) CACHE_CONTROL = [cache_value c m r]).

Lemma cache_layer_policy c csp next req x s :
  policy_headers (rq_method req) (cache_layer c csp next req x s).1.
Proof.
  unfold cache_layer. destruct (next req x s) as [r s']. cbn [fst]. destruct csp. split; cbn [rs_headers with_headers].
  - rewrite get_all_remove. by rewrite zlist_eqb_refl.
  - right. exists c. rewrite get_all_remove, get_all_insert. by rewrite zlist_eqb_refl.
Qed.

Lemma layered_policy r req x s : policy_headers (rq_method req) (layered e h r req x s).1.
Proof. unfold layered. cbv zeta. destruct (r_host r); apply cache_layer_policy. Qed.

Lemma plain_policy m r :
  get_all (rs_headers r) CONTENT_SECURITY_POLICY = [] -> get_all (rs_headers r) CACHE_CONTROL = [] ->
  policy_headers m r.
Proof. intros H1 H2. split; [done|by left]. Qed.

Lemma router_policy t req x s : policy_headers (rq_method req) (router_service e h t req x s).1.
Proof.
  unfold router_service. destruct (_ ≫= _) as [[p r]|]; [apply layered_policy|].
  destruct (fallback t); [apply layered_policy|by apply plain_policy].
Qed.

Lemma dispatch_policy t req x s : policy_headers (rq_method req) (dispatch setup e h t req x s).1.
Proof.
  assert (Hh : forall t x, policy_headers (rq_method req) (host_router setup e h t req x s).1).
  { intros t' x'. unfold host_router, client_address_layer. destruct (rq_peer req); [|by apply plain_policy].
    destruct (resolve _ _ _); [apply router_policy|by apply plain_policy]. }
  unfold dispatch. case_if; [apply router_policy|].
  destruct (routed_host _ _ _) as [[[] o]|]; [|apply Hh|by apply plain_policy].
  case_if; [by apply plain_policy|apply Hh].
Qed.

(** C35: whatever its handler did, every response carries each fixed security header, the
    build's Content-Security-Policy and one Cache-Control exactly once. The long-lived
    classes are only used where they are safe: [immutable] on a successful GET or HEAD of
    a content-hashed asset, an hour on the 308 of a custom domain. *)
Theorem every_response_is_hardened (t : Routers) (req : Req) (s : Server) :
  let r := (service setup e h t req s).1 in
  (forall n v, (n, v) ∈ fixed_headers -> get_all (rs_headers r) n = [v]) /\
  get_all (rs_headers r) CONTENT_SECURITY_POLICY = [CSP (st_dev setup)] /\
  exists v, get_all (rs_headers r) CACHE_CONTROL = [v] /\
    ((v = lit "no-store" \/ v = lit "no-cache") \/
     (v = IMMUTABLE /\ rs_hashed r = true /\ rs_status r = 200 /\ is_safe (rq_method req) = true) \/
     (v = REDIRECT_MAX_AGE /\ rs_status r = 308)).
Proof.
  cbv zeta. unfold service, headers_layer. pose proof (dispatch_policy t req no_exts s) as Hp.
  destruct (dispatch setup e h t req no_exts s) as [r s']. cbn [fst snd] in *. destruct Hp as [Hcsp Hcc].
  cbn [rs_headers with_headers rs_hashed rs_status]. split_and!.
  - intros n v Hn. rewrite get_all_apply.
    by rewrite (find_first_key fixed_headers n v fixed_names_distinct Hn).
  - rewrite get_all_apply, Hcsp. reflexivity.
  - rewrite get_all_apply. change (find_first _ fixed_headers) with (@None (str * str)).
    rewrite zlist_eqb_refl. destruct Hcc as [->|(c & ->)]; cbn [length Nat.eqb].
    { eexists. split; [reflexivity|]. by left; left. }
    eexists. split; [reflexivity|]. unfold cache_value. destruct c.
    + by left; left.
    + by left; right.
    + destruct (rs_hashed r), (Z.eqb_spec (rs_status r) 200), (is_safe (rq_method req)) eqn:Es; cbn;
        try (by left; right). right. left. done.
    + destruct (Z.eqb_spec (rs_status r) 308); [by right; right|by left; left].
Qed.
End Hardening.

(** ** The admin area *)

Definition under_admin (path : str) : Prop := path = lit "/admin" \/ starts_with (lit "/admin/") path = true.

(** Signing in, and the reset of a password. *)
Definition open_admin (path : str) : Prop :=
  path = lit "/admin/login" \/ path = lit "/admin/reset" \/ starts_with (lit "/admin/reset/") path = true.

(** Two prefixes of one text agree as far as both go. *)
Lemma common_prefix (a b s : str) :
  starts_with a s = true -> starts_with b s = true ->
  firstn (min (length a) (length b)) a = firstn (min (length a) (length b)) b.
Proof.
  intros [x Hx]%starts_with_spec [y Hy]%starts_with_spec. rewrite Hx in Hy. clear s Hx.
  revert b Hy. induction a as [|c a IH]; intros [|d b] Hy; try done. cbn in Hy. injection Hy as -> Hy.
  cbn. f_equal. by apply IH.
Qed.

Definition common (a b : str) : bool :=
  zlist_eqb (firstn (min (length a) (length b)) a) (firstn (min (length a) (length b)) b).

(** A pattern of the main router that an admin path other than the open ones can match
    declares a session. *)
Definition admin_pattern_ok (pr : str * Route) : bool :=
  let '(p, r) := pr in
  negb (bool_decide (r_access r = Public))
  || existsb (zlist_eqb p) [lit "/admin/login"; lit "/admin/reset"]
  || (bool_decide (123 ∈ p) && starts_with (lit "/admin/reset/") (literal_prefix p))
  || (bool_decide (123 ∈ p) && negb (common (literal_prefix p) (lit "/admin/")))
  || (bool_decide (123 ∉ p) && negb (zlist_eqb p (lit "/admin")) && negb (starts_with (lit "/admin/") p)).

Definition has_pattern (t : Router) (p : str) : bool := existsb (zlist_eqb p) (map fst (by_pattern t)).

Lemma has_pattern_spec t p : has_pattern t p = true -> p ∈ map fst (by_pattern t).
Proof. intros (q & Hq%list_elem_of_In & ->%zlist_eqb_eq)%existsb_exists. done. Qed.

Definition admin_router_ok (t : Routers) : bool :=
  forallb admin_pattern_ok (by_pattern (main t))
  && forallb (has_pattern (main t)) [lit "/admin"; lit "/admin/"; lit "/admin/{*rest}"]
  && forallb (fun p => negb (zlist_eqb p (lit "/admin")) && negb (starts_with (lit "/admin/") p)) (internal_paths t).

Section AdminArea.
Context `{Crates} `{Axum} `{!AxumLaws} (setup : Setup) (e : Env).

Lemma admin_routers dev css :
  match build (table css dev) with Some t => admin_router_ok t | None => false end = true.
Proof. destruct dev; vm_compute; reflexivity. Qed.

Lemma starts_with_app p s t : starts_with p s = true -> starts_with p (s ++ t) = true.
Proof. intros [x ->]%starts_with_spec. apply starts_with_spec. exists (x ++ t). by rewrite app_assoc. Qed.

Lemma under_admin_slash path : under_admin path -> starts_with (lit "/admin/") (path ++ lit "/") = true.
Proof. intros [->|Hp]; [reflexivity|by apply starts_with_app]. Qed.

(** A matched pattern of an admin path needs a session. *)
Lemma admin_pattern_guarded p r ps path :
  admin_pattern_ok (p, r) = true -> route_of ps path = Some p -> under_admin path -> ~ open_admin path ->
  r_access r <> Public.
Proof.
  intros Hok Hp Hu Ho Ha. apply route_literal in Hp as [Hlit Hst]. unfold admin_pattern_ok in Hok.
  rewrite Ha in Hok. rewrite bool_decide_eq_true_2 in Hok by done. cbn [negb orb] in Hok.
  rewrite !orb_true_iff, !andb_true_iff, !negb_true_iff, !bool_decide_eq_true in Hok.
  destruct Hok as [[[Hok|[_ Hok]]|[_ Hok]]|[[Hs Hn1] Hn2]].
  - apply Ho. apply existsb_exists in Hok as (q & Hq & ->%zlist_eqb_eq).
    assert (Hpath : path = q).
    { apply Hst. apply (bool_decide_unpack _).
      destruct Hq as [<-|[<-|[]]]; vm_compute; exact I. }
    destruct Hq as [<-|[<-|[]]]; [by left|by right; left].
  - apply Ho. right. right. apply starts_with_spec in Hok as [x Hx], Hlit as [y Hy].
    apply starts_with_spec. exists (x ++ y). by rewrite Hy, Hx, app_assoc.
  - unfold common in Hok. rewrite (common_prefix _ (lit "/admin/") (path ++ lit "/")) in Hok.
    + by rewrite zlist_eqb_refl in Hok.
    + by apply starts_with_app.
    + by apply under_admin_slash.
  - rewrite (Hst Hs) in Hu. destruct Hu as [->|Hu]; [by rewrite zlist_eqb_refl in Hn1|congruence].
Qed.

(** The fallback never serves an admin path. *)
Lemma admin_path_matches t path :
  forallb (has_pattern t) [lit "/admin"; lit "/admin/"; lit "/admin/{*rest}"] = true -> under_admin path ->
  route_of (map fst (by_pattern t)) path <> None.
Proof.
  cbn [forallb]. rewrite !andb_true_iff. intros (P1 & P2 & P3 & _) Hu Hn.
  apply has_pattern_spec in P1, P2, P3.
  assert (Hs : forall p, p ∈ map fst (by_pattern t) -> bool_decide (123 ∉ p) = true -> path <> p).
  { intros p Hp Hb ->. apply bool_decide_eq_true in Hb. by rewrite route_static in Hn. }
  destruct Hu as [->|[rest Hr]%starts_with_spec]; [by eapply Hs; [exact P1|vm_compute|]|].
  destruct (base.decide (rest = [])) as [->|Hne].
  - by eapply Hs; [exact P2|vm_compute|].
  - assert (Hc : is_Some (route_of (map fst (by_pattern t)) path)); [|by rewrite Hn in Hc; destruct Hc].
    rewrite Hr. apply (route_catch_all _ (lit "/admin/") (lit "rest")); try done;
      apply (bool_decide_unpack _); vm_compute; exact I.
Qed.

(** Layers around a service that never answers below 303 never do either. *)
Definition no_success (n : Service) : Prop := forall req x s, 303 <= rs_status (n req x s).1.

Lemma error_body_status f r : rs_status (error_body f r) = rs_status r.
Proof. unfold error_body. case_if; [done|]. by destruct (render _ _). Qed.

Lemma access_layers_status h r : (forall ep, no_success (h ep)) -> no_success (access_layers e h r).
Proof.
  intros Hh req x s. unfold access_layers. cbv zeta. unfold limit_layer. case_if; [done|].
  assert (Hm : no_success (methods_service h (r_methods r))).
  { intros req' x' s'. unfold methods_service. destruct (method_of _ _); [apply Hh|done]. }
  assert (Hs : forall n, no_success n -> no_success (session_layer e n)).
  { intros n Hn req' x' s'. unfold session_layer. destruct (layer _ _ _ _ _) as [[] w]; try done; apply Hn. }
  destruct (r_access r); [apply Hm|by apply Hs|]. apply Hs. intros req' x' s'.
  unfold admin_only_layer. destruct (Auth.admin_layer _); try done; apply Hm.
Qed.

Lemma layered_status h r : (forall ep, no_success (h ep)) -> no_success (layered e h r).
Proof.
  intros Hh req x s. pose proof (access_layers_status h r Hh) as Ha.
  assert (Hc : forall n, no_success n -> 303 <= rs_status (cache_layer (r_cache r) (r_csp r)
    (errors_layer (r_errors r) n) req x s).1).
  { intros n Hn. unfold cache_layer, errors_layer. specialize (Hn req x s). destruct (n req x s) as [r' s'].
    cbn in *. by rewrite error_body_status. }
  assert (Ht : no_success (timeout_layer e (origin_layer (r_headerless r) (rate_layer e (r_rate r)
    (multipart_layer (r_multipart r) (access_layers e h r)))))).
  { intros req' x' s'. unfold timeout_layer. destruct (e_late e) as [[]|]; try done. unfold origin_layer.
    assert (Hr : no_success (rate_layer e (r_rate r) (multipart_layer (r_multipart r) (access_layers e h r)))).
    { intros q y z. unfold rate_layer. destruct (x_client y); [|done]. destruct (draw_classes _ _ _ _ _) as [[] l]; [done|].
      unfold multipart_layer. destruct (r_multipart r). case_if; [done|apply Ha]. }
    case_if; [apply Hr|]. destruct (x_routed x') as [[]|]; [|done]. case_if; [apply Hr|done]. }
  unfold layered. cbv zeta. destruct (r_host r); by apply Hc.
Qed.

Lemma service_status h t req s : (forall ep, no_success (h ep)) -> 303 <= rs_status (service setup e h t req s).1.
Proof.
  intros Hh. assert (Hr : forall t, no_success (router_service e h t)).
  { intros t' req' x' s'. unfold router_service. destruct (_ ≫= _) as [[p r]|]; [by apply layered_status|].
    destruct (fallback t'); [by apply layered_status|done]. }
  assert (Hd : no_success (dispatch setup e h t)).
  { assert (Hc : forall t, no_success (host_router setup e h t)).
    { intros t' req' x' s'. unfold host_router, client_address_layer. destruct (rq_peer req'); [|done].
      destruct (resolve _ _ _); [apply Hr|done]. }
    intros req' x' s'. unfold dispatch. case_if; [apply Hr|].
    destruct (routed_host _ _ _) as [[[] o]|]; [|apply Hc|done]. case_if; [done|apply Hc]. }
  unfold service, headers_layer. specialize (Hd req no_exts s).
  by destruct (dispatch setup e h t req no_exts s).
Qed.

Lemma called_hosts css dev t :
  build (table css dev) = Some t ->
  forall r, r ∈ routes_of (main t) \/ r ∈ routes_of (project t) -> r_host r <> InternalHost.
Proof.
  intros Hb r Hr He. destruct (build_placed _ _ Hb) as (_ & Hm & Hp).
  destruct Hr as [Hr|Hr]; [apply Hm in Hr|apply Hp in Hr]; rewrite He in Hr; by destruct Hr.
Qed.

(** The session that the session layer finds for a request, if it lets it through. *)
Definition admitted_user (req : Req) (s : Server) : option SessionUser :=
  match layer (rq_method req) (get_all (rq_headers req) COOKIE)
          (csrf_of req (set_cap (cap DefaultBody) no_exts)) (e_session_now e) (sv_world s) with
  | (Proceed u, _) => Some u
  | _ => None
  end.

Lemma access_admitted r req x s0 s :
  access_passed e r req x s0 s -> r_access r <> Public ->
  exists u, x_user x = Some u /\ admitted_user req s0 = Some u /\ (r_access r = AdminAccess -> role u = Admin).
Proof.
  intros [Hc Ha] Hp. assert (Hcs : csrf_of req x = csrf_of req (set_cap (cap DefaultBody) no_exts)).
  { unfold csrf_of. rewrite Hc. by destruct (r_body r). }
  unfold admitted_user. rewrite <- Hcs.
  destruct (r_access r); [done|..]; destruct Ha as (u & Hu & -> & Hr); exists u; by split_and!.
Qed.

Lemma admin_call_guarded t req s ep x s' o :
  build (table (st_css setup) (st_dev setup)) = Some t ->
  routed_host setup (sv_map s) req = Some (Main, o) -> under_admin (rq_path req) -> ~ open_admin (rq_path req) ->
  called setup e t s req ep x s' -> admitted_user req s <> None.
Proof.
  intros Hb Hh Hu Ho Hc. pose proof (admin_routers (st_dev setup) (st_css setup)) as Hok. rewrite Hb in Hok.
  unfold admin_router_ok in Hok. rewrite !andb_true_iff in Hok. destruct Hok as [[Hpat Hfall] Hint].
  rewrite forallb_forall in Hpat, Hint. destruct Hc as [r ep x s' Hin|entry o' r peer res ep x s' Hin Hr Hx _ _ _ _ Hp Hl Ha _].
  { apply list_elem_of_In, Hint in Hin. apply andb_true_iff in Hin as [Hn1 Hn2].
    rewrite negb_true_iff in Hn1, Hn2. destruct Hu as [Hu|Hu]; [|congruence].
    rewrite Hu in Hn1. by rewrite zlist_eqb_refl in Hn1. }
  rewrite Hh in Hr. injection Hr as <- <-. cbn [router_for] in Hp.
  assert (Hacc : r_access r <> Public).
  { destruct Hp as [(p & Hp & Hin' & _)|[_ Hn]]; [|exact (False_ind _ (admin_path_matches (main t) _ Hfall Hu Hn))].
    apply list_elem_of_In in Hin'. exact (admin_pattern_guarded p r _ _ (Hpat (p, r) Hin') Hp Hu Ho). }
  destruct (access_admitted r req x s s' Ha Hacc) as (u & _ & -> & _). done.
Qed.

(** No path under [/admin] but the login and reset pages does anything for a request
    without a session. When the session layer finds no live session (or, for a state
    change, not its CSRF token), the answer is a redirect or an error, and the answer and
    the state left are the same whatever the handlers are. *)
Theorem admin_paths_need_a_session (h1 h2 : Endpoint -> Service) (t : Routers) (req : Req) (s : Server)
  (o : str) :
  build (table (st_css setup) (st_dev setup)) = Some t ->
  routed_host setup (sv_map s) req = Some (Main, o) ->
  under_admin (rq_path req) -> ~ open_admin (rq_path req) -> admitted_user req s = None ->
  service setup e h1 t req s = service setup e h2 t req s /\
  303 <= rs_status (service setup e h1 t req s).1.
Proof.
  intros Hb Hh Hu Ho Hn.
  assert (Heq : forall h1 h2, service setup e h1 t req s = service setup e h2 t req s).
  { intros k1 k2. apply (service_agree setup e); [exact (called_hosts _ _ t Hb)|].
    intros ep x s' Hc. destruct (admin_call_guarded t req s ep x s' o Hb Hh Hu Ho Hc Hn). }
  split; [apply Heq|]. rewrite (Heq h1 (fun _ _ _ s => (status_only 500, s))). by apply service_status.
Qed.
End AdminArea.
