(* ===== verification/System.v ===== *)
(** * The whole server as transactions

    Every request, command and job as one function on the [World], the transactions it
    may commit, and the relation of one commit. The invariants of the account tables are
    proved once, against an interface of table changes. *)

From S2P Require Import Prelude Str Codec Keys Net Rate Cli Config Urls Totp Text Time Http Db.
From S2P Require Import Outbox Auth Credentials Accounts Hosts Projects Jobs.

(** ** Requests *)

Inductive Request :=
| SessionCheck (m : Method) (headers : list bytes) (field : option str) (now : Z)
| LoginPageRequest (headers : list bytes) (now : Z)
| LoginRequest (permit : bool) (headers : list bytes) (form : LoginForm) (now : Z)
| LogoutRequest (user : SessionUser)
| ShowRequest (user : SessionUser)
| PasswordRequest (permit permit' : bool) (user : SessionUser) (headers : list bytes)
    (form : PasswordForm) (now : Z)
| StartTotpRequest (permit : bool) (user : SessionUser) (headers : list bytes) (form : Reauth) (now : Z)
| ConfirmTotpRequest (user : SessionUser) (code : str) (now : Z)
| DisableTotpRequest (permit : bool) (user : SessionUser) (headers : list bytes) (form : Reauth) (now : Z)
| CodesRequest (permit : bool) (user : SessionUser) (headers : list bytes) (form : Reauth) (now : Z)
| EndOthersRequest (user : SessionUser) (now : Z)
| ResetRequest (permit : bool) (e : str) (client : IpAddr) (tick now : Z) (l : MailLimits)
| LinkFormRequest (token : str) (now : Z)
| LinkSubmitRequest (permit : bool) (token password again : str) (now now' : Z)
| UnlockCommand (e : str) (now : Z)
| ResetPasswordCommand (e : str) (now : Z)
| ProjectListRequest (user : SessionUser) (m : HostMap)
| ProjectCreateRequest (user : SessionUser) (form : CreateForm) (now : Z) (m : HostMap)
| SettingsPageRequest (user : SessionUser) (slug : str) (m : HostMap)
| SettingsSaveRequest (user : SessionUser) (slug : str) (form : SettingsForm) (now : Z) (m : HostMap)
| ProjectDeleteRequest (user : SessionUser) (slug confirm : str) (now : Z) (m : HostMap)
| ProjectCreateCommand (args : CreateArgs) (now : Z)
| WorkerPick (unixepoch now : Z)
| WorkerRecord (unixepoch id : Z) (o : Outbox.Outcome) (ended_at : Z)
| RetentionRun (unixepoch now : Z)
| HomeRequest (user : SessionUser).

Section System.
Context `{Crates} (app : App).

(** What one of them leaves of the world; the answers are the components' theorems. *)
Definition serve (r : Request) (w : World) : World :=
  match r with
  | SessionCheck m headers field now => (layer m headers field now w).2
  | LoginPageRequest headers now => (login_form headers now w).2
  | LoginRequest permit headers form now => (login_submit app permit headers form now w).2
  | LogoutRequest user => (logout user w).2
  | ShowRequest user => (show user w).2
  | PasswordRequest permit permit' user headers form now =>
      (change_password app permit permit' user headers form now w).2
  | StartTotpRequest permit user headers form now =>
      (start_totp app permit user headers form now w).2
  | ConfirmTotpRequest user code now => (confirm_totp app user code now w).2
  | DisableTotpRequest permit user headers form now =>
      (disable_totp app permit user headers form now w).2
  | CodesRequest permit user headers form now =>
      (regenerate_codes app permit user headers form now w).2
  | EndOthersRequest user now => (end_other_sessions user now w).2
  | ResetRequest permit e client tick now l => (reset_request app permit e client tick now l w).2
  | LinkFormRequest token now => (link_form token now w).2
  | LinkSubmitRequest permit token password again now now' =>
      (link_submit app permit token password again now now' w).2
  | UnlockCommand e now => (unlock e now w).2
  | ResetPasswordCommand e now => (reset_password app e now w).2
  | ProjectListRequest user m => (list_handler user (w, m)).2.1
  | ProjectCreateRequest user form now m => (create_handler app user form now (w, m)).2.1
  | SettingsPageRequest user slug m => (settings_handler user slug (w, m)).2.1
  | SettingsSaveRequest user slug form now m => (save_handler app user slug form now (w, m)).2.1
  | ProjectDeleteRequest user slug confirm now m =>
      (delete_handler app user slug confirm now (w, m)).2.1
  | ProjectCreateCommand args now => (command_create (app_base_url app) args now w).2
  | WorkerPick ue now => (write (pick (KINDS ue) now) w).2
  | WorkerRecord ue id o ended_at => (write (record (KINDS ue) id o ended_at) w).2
  | RetentionRun ue now => retention (KINDS ue) now w
  | HomeRequest user => (home user w).2
  end.

(** The bodies of the write transactions, but retention's over the sign-in tables: those
    of the accounts, mails and logs, *)
Inductive request_tx : forall E A, Tx E A -> Prop :=
| tx_touch user now :
    request_tx AuthError unit (execute (set_sessions (update_where
      (fun s => (s_id s =? session_id user) && (s_last_seen s <? now))
      (touch_session (session_id user) now))))
| tx_login user v now device :
    request_tx AuthError _ (decide app user v now (login_success device))
| tx_change_password user v now hash :
    request_tx AuthError _ (decide app user v now
      (fun a now => store_password app (id a) (acc_role a) hash UserPasswordChange now))
| tx_start_totp user v now su : request_tx AuthError _ (decide app user v now (start_totp_tx su))
| tx_disable_totp user v now : request_tx AuthError _ (decide app user v now disable_totp_tx)
| tx_regenerate user v now : request_tx AuthError _ (decide app user v now regenerate_tx)
| tx_logout i :
    request_tx AuthError unit (execute (set_sessions (delete_where (fun s => s_id s =? i))))
| tx_confirm su code now : request_tx AuthError _ (confirm_totp_tx app su code now)
| tx_end_others su now : request_tx AuthError _ (end_others_tx su now)
| tx_queue_reset e now : request_tx AuthError _ (queue_reset app e now)
| tx_reset hash password now : request_tx AuthError _ (reset_tx app hash password now)
| tx_unlock e now : request_tx AccountCommandError _ (with_account_tx e (unlock_tx now))
| tx_reset_password e now :
    request_tx AccountCommandError _ (with_account_tx e (reset_password_tx app now))
| tx_retention_outbox ue now : request_tx SqlError _ (retention_outbox (KINDS ue) now)
| tx_retention_audit now : request_tx SqlError _ (retention_audit now).

(** the outbox worker's, *)
Inductive worker_tx : forall E A, Tx E A -> Prop :=
| tx_pick ue now : worker_tx SqlError _ (pick (KINDS ue) now)
| tx_record ue i o t : worker_tx SqlError _ (record (KINDS ue) i o t).

Inductive account_tx E A (t : Tx E A) : Prop :=
| of_request : request_tx E A t -> account_tx E A t
| of_worker : worker_tx E A t -> account_tx E A t.

(** and those that administer the projects. *)
Inductive project_tx : forall E A, Tx E A -> Prop :=
| tx_create slug s actor now : project_tx ProjectError _ (create slug s actor now)
| tx_create_command slug s now :
    project_tx ProjectError _ (_ ← create slug s CliActor now; mret tt)
| tx_update i s actor now : project_tx ProjectError _ (update i s actor now)
| tx_delete i actor now : project_tx ProjectError _ (delete i actor now).

Inductive transaction E A (t : Tx E A) : Prop :=
| account_transaction : account_tx E A t -> transaction E A t
| project_transaction : project_tx E A t -> transaction E A t.

(** One commit. *)
Inductive step (d d' : Db) : Prop :=
| step_tx E A (t : Tx E A) w a w' :
    transaction E A t -> t w = (Ok a, w') -> db w = d -> db w' = d' -> step d d'
| step_sign_in now w a w' :
    retention_sign_in now w = (Ok a, w') -> db w = d -> db w' = d' -> step d d'.
End System.

(** ** The interface of table changes

    A property kept by these changes is kept by every transaction over the accounts. *)

Class TableInvariant (P : Db -> Prop) := {
  inv_users : forall p f d,
    (forall u, u_id (f u) = u_id u /\ u_email (f u) = u_email u /\ u_role (f u) = u_role u) ->
    P d -> P (set_users (update_where p f) d);
  inv_sessions_delete : forall p d, P d -> P (set_sessions (delete_where p) d);
  inv_sessions_update : forall p f d,
    (forall s, s_id (f s) = s_id s /\ s_token_hash (f s) = s_token_hash s /\
               s_user_id (f s) = s_user_id s) ->
    P d -> P (set_sessions (update_where p f) d);
  inv_session_insert : forall hash user csrf now d x d',
    insert_session hash user csrf now d = Ok (x, d') -> P d -> P d';
  inv_devices_delete : forall p d, P d -> P (set_known_devices (delete_where p) d);
  inv_device_add : forall user v d,
    d_id v = next_rowid d_id (known_devices d) -> d_user_id v = user -> has_user d user = true ->
    Forall (fun x => d_token_hash x <> d_token_hash v) (known_devices d) ->
    P d -> P (set_known_devices (fun l => evict_devices user (l ++ [v])) d);
  inv_codes : forall f d, P d -> P (set_recovery_codes f d);
  inv_tokens_use : forall p now d, P d -> P (update_tokens p (use_token now) d);
  inv_token_issue : forall user now t s d,
    t_purpose t = ResetToken -> t_user_id t = Some user -> has_user d user = true ->
    Forall (fun x => t_token_hash x <> t_token_hash t) (tokens d) ->
    P d -> P (set_tokens (fun l => update_where (unused_reset_of (Some user)) (use_token now) l ++ [t]) s d);
  inv_outbox : forall f s d, P d -> P (set_outbox f s d);
  inv_audit_log : forall f s d, P d -> P (set_audit_log f s d) }.

(** And by the projects' own. *)
Class ProjectsInvariant (P : Db -> Prop) := {
  inv_projects : forall f s d, P d -> P (set_projects f s d) }.

#[export] Instance TableInvariant_True : TableInvariant (fun _ => True).
Proof. by split. Qed.
#[export] Instance ProjectsInvariant_True : ProjectsInvariant (fun _ => True).
Proof. by split. Qed.

Section Transactions.
Context `{Crates} (app : App) (P : Db -> Prop) `{!TableInvariant P}.

Lemma inv_audit_entry {E} `{FromSql E} a action target now :
  inv_tx P (audit (E := E) a action target now).
Proof. apply inv_audit. apply inv_audit_log. Qed.

Lemma inv_users_update {E} `{FromSql E} p f :
  (forall u, u_id (f u) = u_id u /\ u_email (f u) = u_email u /\ u_role (f u) = u_role u) ->
  inv_tx P (execute (E := E) (set_users (update_where p f))).
Proof. intros Hf. apply inv_execute. intros d. by apply inv_users. Qed.

Lemma inv_enqueue {E} `{FromSql E} `{FromRecipient E} mail now : inv_tx P (enqueue (E := E) mail now).
Proof.
  apply inv_bind.
  { destruct (n_recipient mail); [|apply inv_mret].
    destruct (validate_recipient _); [apply inv_mret|apply inv_fail]. }
  intros _. apply inv_bind.
  - apply inv_stmt. intros d i d' Hi. apply insert_mail_Ok in Hi as (_ & row & -> & _). apply inv_outbox.
  - intros i. apply inv_bind; [apply inv_wake|]. intros _. apply inv_mret.
Qed.

Lemma inv_create_session user now : inv_tx P (create_session user now).
Proof.
  apply inv_bind; [apply inv_draw|]. intros [bs text]. apply inv_bind; [apply inv_draw|]. intros csrf.
  apply inv_bind; [|intros; apply inv_mret]. apply inv_stmt. intros d x d'. apply inv_session_insert.
Qed.

Lemma inv_add_device user now : inv_tx P (add_device user now).
Proof.
  intros w. split.
  - unfold add_device. apply (inv_bind (fun _ => True)); [apply inv_draw|]. intros [bs text].
    apply inv_bind; [by apply inv_stmt|]. intros _. apply inv_bind; [by apply inv_execute|].
    intros _. apply inv_mret.
  - intros text w' Ha Hw.
    apply add_device_Ok in Ha as (v & Hid & Hu & _ & _ & Hus & Hfr & ->). by apply inv_device_add.
Qed.

Lemma inv_issue_reset_token urls user now : inv_tx P (issue_reset_token urls user now).
Proof.
  intros w. split.
  - unfold issue_reset_token. apply (inv_bind (fun _ => True)); [by apply inv_execute|]. intros _.
    apply inv_bind; [apply inv_draw|]. intros [bs text]. apply inv_bind; [by apply inv_stmt|].
    intros _. apply inv_mret.
  - intros link w' Hi Hw.
    apply issue_reset_token_Ok in Hi as (bs & t & _ & _ & _ & Hp & _ & Hu & _ & _ & Hfr & Hus & -> & _).
    by apply inv_token_issue.
Qed.

Lemma inv_replace_codes user : inv_tx P (replace_codes user).
Proof.
  apply inv_bind; [apply inv_execute; intros d; apply inv_codes|]. intros _. apply inv_bind.
  { intros w. split; [done|]. by intros a w' [= _ <-]. }
  intros n. generalize (@nil str). generalize (S n). clear n. intros fuel.
  induction fuel as [|fuel IH]; intros codes; cbn [replace_loop];
    destruct (length codes <? COUNT)%nat; try (apply inv_mret || apply inv_fail).
  apply inv_bind; [apply inv_draw|]. intros bs. apply inv_bind; [|intros; apply IH].
  apply inv_stmt. intros d i d' Hi. unfold insert_code in Hi.
  destruct (negb _); [done|]. destruct (existsb _ _); injection Hi as _ <-; [done|apply inv_codes].
Qed.

Lemma inv_store_password user r hash action now : inv_tx P (store_password app user r hash action now).
Proof.
  apply inv_bind; [by apply inv_users_update|]. intros _. apply inv_bind.
  { apply inv_bind; [apply inv_execute; intros d; apply inv_sessions_delete|]. intros _.
    apply inv_execute. intros d. apply inv_devices_delete. }
  intros _. apply inv_bind; [apply inv_execute; intros d; apply inv_tokens_use|]. intros _.
  cbv zeta. apply inv_bind; [apply inv_enqueue|]. intros _. apply inv_audit_entry.
Qed.

Lemma inv_count_failure a known now : inv_tx P (count_failure app a known now).
Proof.
  unfold count_failure. destruct known; [by apply inv_users_update|].
  apply inv_bind.
  - apply inv_stmt. intros d x d' [= _ <-]. by apply inv_users.
  - intros [[[] []]|]; try apply inv_mret. cbv zeta. apply inv_bind; [apply inv_enqueue|].
    intros _. apply inv_mret.
Qed.

Lemma inv_decide {T} user v now (success : Account -> Z -> Tx AuthError T) :
  (forall a n, inv_tx P (success a n)) -> inv_tx P (decide app user v now success).
Proof.
  intros Hs. apply inv_bind; [apply inv_query|]. intros [a|]; [|apply inv_mret].
  destruct (blocked _ _ _); [apply inv_mret|]. cbv zeta. destruct (negb (_ && _)).
  { apply inv_bind; [apply inv_count_failure|]. intros _. apply inv_mret. }
  apply inv_bind.
  { unfold second_factor. destruct (totp_nonce a); [|case_if; apply inv_mret].
    apply inv_bind; [|intros; apply inv_mret]. unfold code_accepted. cbv zeta. destruct (is_code _).
    - destruct (matching_step _ _ _); [|apply inv_mret]. apply inv_consume_one. intros d.
      by apply inv_users.
    - destruct (normalize _); [|apply inv_mret]. apply inv_consume_one. intros d. apply inv_codes. }
  intros [[]|]; [| |apply inv_mret].
  - apply inv_bind; [by apply inv_users_update|]. intros _. apply inv_bind; [apply Hs|].
    intros; apply inv_mret.
  - apply inv_bind; [apply inv_count_failure|]. intros _. apply inv_mret.
Qed.

Lemma inv_login_success device a now : inv_tx P (login_success device a now).
Proof.
  apply inv_bind; [apply inv_create_session|]. intros s. apply inv_bind.
  { destruct device; [apply inv_query|apply inv_mret]. }
  intros []; [apply inv_mret|]. apply inv_bind; [apply inv_add_device|]. intros; apply inv_mret.
Qed.

Lemma inv_confirm_totp su code now : inv_tx P (confirm_totp_tx app su code now).
Proof.
  apply inv_bind; [apply inv_query|]. intros [nonce|]; [|apply inv_mret].
  destruct (matching_step _ _ _); [|apply inv_mret].
  apply inv_bind; [by apply inv_users_update|]. intros _. apply inv_bind; [apply inv_replace_codes|].
  intros codes. apply inv_bind; [apply inv_execute; intros d; apply inv_sessions_delete|]. intros _.
  apply inv_bind; [apply inv_execute; intros d; apply inv_devices_delete|]. intros _.
  apply inv_bind; [apply inv_execute; intros d; by apply inv_sessions_update|]. intros _.
  apply inv_bind; [apply inv_audit_entry|]. intros _. apply inv_mret.
Qed.

Lemma inv_queue_reset e now : inv_tx P (queue_reset app e now).
Proof.
  apply inv_bind; [apply inv_query|]. intros acc. apply inv_bind.
  - destruct acc as [user|].
    + apply inv_bind; [apply inv_issue_reset_token|]. intros; apply inv_mret.
    + apply inv_bind; [apply inv_execute; intros d; apply inv_tokens_use|]. intros _.
      apply inv_bind; [apply inv_draw|]. intros []. apply inv_mret.
  - intros [[text r] ph]. apply inv_bind; [apply inv_enqueue|]. intros _. apply inv_mret.
Qed.

Lemma inv_with_account {T} e (work : Z -> Tx AccountCommandError T) :
  (forall u, inv_tx P (work u)) -> inv_tx P (with_account_tx e work).
Proof. intros Hw. apply inv_bind; [apply inv_query|]. intros [u|]; [apply Hw|apply inv_fail]. Qed.

Lemma inv_lift {A} (t : Tx AuthError A) : inv_tx P t -> inv_tx P (lift t).
Proof.
  intros Ht w. destruct (Ht w) as [Ho Hp]. unfold lift. destruct (t w) as [[a|e] w1]; cbn in *; [|done].
  split; [done|]. intros b w' [= <- <-]. by eapply Hp.
Qed.

Lemma inv_give_up ue i : inv_tx P (give_up_row (KINDS ue) i).
Proof.
  apply inv_bind; [apply inv_query|]. intros [m|]; [|apply inv_mret]. apply inv_bind.
  - unfold KINDS, find_kind. cbn. repeat case_if; cbn; try apply inv_mret.
    apply inv_execute. intros d. apply inv_tokens_use.
  - intros _. destruct (m_token m); apply inv_execute; intros d; apply inv_outbox.
Qed.

Lemma inv_give_up_expired ue now : inv_tx P (give_up_expired (KINDS ue) now).
Proof.
  apply inv_bind; [apply inv_query|]. intros ids. apply inv_bind; [|intros; apply inv_mret].
  induction ids as [|i ids IH]; [apply inv_mret|]. apply inv_bind; [apply inv_give_up|done].
Qed.

Lemma inv_outbox_change (f : list Mail -> list Mail) :
  inv_tx P (execute (E := SqlError) (change_outbox f)).
Proof. apply inv_execute. intros d. apply inv_outbox. Qed.

Lemma inv_pick ue now : inv_tx P (pick (KINDS ue) now).
Proof.
  apply inv_bind; [apply inv_give_up_expired|]. intros _. apply inv_bind; [apply inv_outbox_change|].
  intros _. apply inv_bind.
  - apply inv_stmt. intros d x d' Hs. unfold select_due in Hs.
    destruct (first_by _ _); [|by injection Hs as _ <-]. destruct (row_address _ _); [|done].
    by injection Hs as _ <-.
  - intros [row|]; [apply inv_mret|]. apply inv_bind; [apply inv_query|]. intros; apply inv_mret.
Qed.

Lemma inv_record ue i o t : inv_tx P (record (KINDS ue) i o t).
Proof.
  apply inv_bind; [apply inv_query|]. intros [m|]; [|apply inv_mret]. cbv zeta.
  destruct o; [destruct (m_token m); apply inv_outbox_change|].
  destruct (next_attempt _ _ _); [apply inv_outbox_change|].
  apply inv_bind; [apply inv_outbox_change|]. intros _. apply inv_give_up.
Qed.

Lemma request_tx_inv E A (t : Tx E A) : request_tx app E A t -> inv_tx P t.
Proof.
  destruct 1.
  - apply inv_execute. intros d. by apply inv_sessions_update.
  - apply inv_decide. intros. apply inv_login_success.
  - apply inv_decide. intros. apply inv_store_password.
  - apply inv_decide. intros a n. apply inv_bind; [apply inv_draw|]. intros nonce.
    apply inv_bind; [apply inv_execute; intros d; by apply inv_sessions_update|]. intros; apply inv_mret.
  - apply inv_decide. intros a n. apply inv_bind; [by apply inv_users_update|]. intros _.
    apply inv_bind; [apply inv_execute; intros d; apply inv_codes|]. intros _.
    apply inv_bind; [apply inv_execute; intros d; apply inv_devices_delete|]. intros _.
    apply inv_audit_entry.
  - apply inv_decide. intros a n. apply inv_bind; [apply inv_replace_codes|]. intros codes.
    apply inv_bind; [apply inv_audit_entry|]. intros; apply inv_mret.
  - apply inv_execute. intros d. apply inv_sessions_delete.
  - apply inv_confirm_totp.
  - apply inv_bind; [apply inv_execute; intros d; apply inv_sessions_delete|]. intros _.
    apply inv_audit_entry.
  - apply inv_queue_reset.
  - apply inv_bind; [apply inv_consume_returning; intros d; apply inv_tokens_use|].
    intros [[u r]|]; [|apply inv_mret]. apply inv_bind; [apply inv_store_password|].
    intros; apply inv_mret.
  - apply inv_with_account. intros u. apply inv_bind; [by apply inv_users_update|]. intros _.
    apply inv_audit_entry.
  - apply inv_with_account. intros u. apply inv_bind; [apply inv_lift, inv_issue_reset_token|].
    intros link. apply inv_bind; [apply inv_audit_entry|]. intros; apply inv_mret.
  - apply inv_bind; [apply inv_give_up_expired|]. intros _. apply inv_outbox_change.
  - apply inv_execute. intros d. apply inv_audit_log.
Qed.

Lemma account_tx_inv E A (t : Tx E A) : account_tx app E A t -> inv_tx P t.
Proof. destruct 1 as [Ht|[]]; [by apply request_tx_inv|apply inv_pick|apply inv_record]. Qed.

Context `{!ProjectsInvariant P}.

Lemma inv_create_project slug s a now : inv_tx P (create slug s a now).
Proof.
  apply inv_bind; [apply inv_query|]. intros []; [apply inv_fail|]. apply inv_bind.
  { unfold host_taken. destruct (public_host s); [apply inv_query|apply inv_mret]. }
  intros []; [apply inv_fail|]. apply inv_bind.
  - apply inv_stmt. intros d i d' Hi. unfold insert_project in Hi. destruct (_ || _); [done|].
    injection Hi as _ <-. apply inv_projects.
  - intros i. apply inv_bind; [apply inv_audit_entry|]. intros; apply inv_mret.
Qed.

Lemma inv_update_project i s a now : inv_tx P (update i s a now).
Proof.
  apply inv_bind; [apply inv_query|]. intros [p|]; [|apply inv_mret].
  destruct (bool_decide _); [apply inv_mret|]. apply inv_bind.
  { unfold host_taken. destruct (public_host s); [apply inv_query|apply inv_mret]. }
  intros []; [apply inv_fail|]. apply inv_bind.
  - apply inv_stmt. intros d u d' Hu. unfold update_project in Hu.
    destruct (find_first _ _); [|by injection Hu as _ <-]. destruct (_ || _); [done|].
    injection Hu as _ <-. apply inv_projects.
  - intros _. apply inv_bind; [apply inv_audit_entry|]. intros; apply inv_mret.
Qed.

Lemma project_tx_inv E A (t : Tx E A) : project_tx E A t -> inv_tx P t.
Proof.
  destruct 1.
  - apply inv_create_project.
  - apply inv_bind; [apply inv_create_project|]. intros; apply inv_mret.
  - apply inv_update_project.
  - apply inv_bind.
    + apply inv_stmt. intros d n d' [= _ <-]. apply inv_projects.
    + intros n. case_if; [apply inv_mret|]. apply inv_bind; [apply inv_audit_entry|].
      intros; apply inv_mret.
Qed.

Lemma transaction_inv E A (t : Tx E A) : transaction app E A t -> inv_tx P t.
Proof. destruct 1; [by apply account_tx_inv|by apply project_tx_inv]. Qed.
End Transactions.

(** ** Requests are made of transactions *)

(** Kept by every commit over the accounts, and by every commit over the projects. *)
Class AccountCommit `{Crates} (app : App) (P : Db -> Prop) := {
  commit_inv : forall E A (t : Tx E A), account_tx app E A t -> inv_tx P t;
  commit_sign_in : forall now, inv_tx P (retention_sign_in now) }.

Class ProjectCommit (P : Db -> Prop) := {
  commit_project : forall E A (t : Tx E A), project_tx E A t -> inv_tx P t }.

(** A handler keeps [P] whatever it answers, when the others do. *)
Definition handler_safe (P : Db -> Prop) {R} (h : Handler R) : Prop :=
  forall w, good P w -> good P (h w).2.

(** Kept by the commit that records the use of a session, the only one of a read. *)
Class TouchCommit (P : Db -> Prop) := {
  commit_touch : forall user now, inv_tx P (execute (E := AuthError) (set_sessions (update_where
    (fun s => (s_id s =? session_id user) && (s_last_seen s <? now))
    (touch_session (session_id user) now)))) }.

Section Reading.
Context `{Crates} (P : Db -> Prop) `{!TouchCommit P}.

Lemma handler_safe_result {E A R} (t : Tx E A) (bad : E -> Handler R) ok :
  safe P t -> (forall e, handler_safe P (bad e)) -> (forall a, handler_safe P (ok a)) ->
  handler_safe P (on_result t bad ok).
Proof.
  intros Ht Hb Hg w Hw. unfold on_result. specialize (Ht w Hw).
  destruct (t w) as [[a|e] w1]; [by apply Hg|by apply Hb].
Qed.

Lemma handler_safe_respond {R} (r : Response R) : handler_safe P (respond r).
Proof. by intros w Hw. Qed.

Lemma safe_current headers now : safe P (current headers now).
Proof.
  unfold current. destruct (cookie_token _ _); [|apply safe_still, still_mret].
  apply safe_bind; [apply safe_read, still_query|]. intros [[user seen]|]; [|apply safe_still, still_mret].
  apply safe_bind; [|intros; apply safe_still, still_mret].
  case_if; [|apply safe_still, still_mret]. apply safe_write, commit_touch.
Qed.

Lemma account_page_safe user error notice : handler_safe P (account_page user error notice).
Proof.
  apply handler_safe_result; [|intros; apply handler_safe_respond|intros []; apply handler_safe_respond].
  apply safe_read, still_stmt. intros d a d' Hs. unfold select_account_state in Hs.
  destruct (find_user _ _); [by injection Hs as _ <-|done].
Qed.

Lemma safe_token_valid token now : safe P (token_valid token now).
Proof.
  unfold token_valid. case_if; [apply safe_still, still_mret|apply safe_read, still_query].
Qed.

Lemma layer_good m headers field now w : good P w -> good P (layer m headers field now w).2.
Proof.
  intros Hw. unfold layer. pose proof (safe_current headers now w Hw) as Hc.
  destruct (current headers now w) as [[[u|]|] w1]; cbn in *; try done. repeat case_if; done.
Qed.

(** The requests that only read, but for that. *)
Definition reads (r : Request) : bool :=
  match r with
  | SessionCheck _ _ _ _ | LoginPageRequest _ _ | ShowRequest _ | LinkFormRequest _ _
  | ProjectListRequest _ _ | SettingsPageRequest _ _ _ | HomeRequest _ => true
  | _ => false
  end.

Lemma serve_read_good app r w : reads r = true -> good P w -> good P (serve app r w).
Proof.
  intros Hr Hw. destruct r; try done; cbn [serve]; clear Hr.
  - by apply layer_good.
  - revert w Hw. change (handler_safe P (login_form headers now)).
    apply handler_safe_result; [apply safe_current| |]; intros; apply handler_safe_respond.
  - by apply account_page_safe.
  - revert w Hw. change (handler_safe P (link_form token now)).
    apply handler_safe_result; [apply safe_token_valid| |]; intros; apply handler_safe_respond.
  - by apply site_safe_list.
  - revert w m Hw. change (site_safe P (settings_handler user slug)).
    apply site_safe_result; [apply find_by_path_safe| |]; intros; apply site_safe_respond.
  - revert w Hw. change (handler_safe P (home user)).
    apply handler_safe_result; [|intros; apply handler_safe_respond..].
    case_if; [apply safe_read, still_query|apply safe_still, still_mret].
Qed.
End Reading.

#[export] Instance account_touch `{Crates} (app : App) (P : Db -> Prop) : AccountCommit app P -> TouchCommit P.
Proof. intros HP. split. intros user now. apply commit_inv. constructor; constructor. Qed.

Section Serving.
Context `{Crates} (app : App) (P : Db -> Prop) `{!AccountCommit app P}.

Lemma safe_commit {E A} `{FromSql E} (t : Tx E A) : account_tx app E A t -> safe P (write t).
Proof. intros Ht. apply safe_write. by apply commit_inv. Qed.

Lemma safe_check {T} permit at_ now (success : Account -> Z -> Tx AuthError T) :
  (forall user v, inv_tx P (decide app user v now success)) ->
  safe P (check app permit at_ now success).
Proof.
  intros Hd. unfold check. apply safe_bind; [apply safe_read, still_look_up|].
  intros [a known]. destruct permit; cbn [negb]; [|apply safe_still, still_mret].
  cbv zeta. apply safe_bind; [apply safe_still, still_dummy_hash|]. intros dm.
  apply safe_bind; [apply safe_still; by intros w|]. intros _.
  destruct a as [a|]; [by apply safe_write|apply safe_still, still_mret].
Qed.

Lemma reauthed_safe {T} user (t : Tx AuthError (Outcome T)) done :
  safe P t -> (forall v, handler_safe P (done v)) -> handler_safe P (reauthed user t done).
Proof.
  intros Ht Hd. apply handler_safe_result; [done|intros; apply handler_safe_respond|].
  intros []; [apply Hd|apply account_page_safe..|apply handler_safe_respond].
Qed.

Lemma link_submit_safe permit token password again now now' :
  handler_safe P (link_submit app permit token password again now now').
Proof.
  apply handler_safe_result; [apply safe_token_valid|intros; apply handler_safe_respond|].
  intros valid. case_if; [apply handler_safe_respond|].
  destruct (check_password_rule password); [|apply handler_safe_respond].
  case_if; [apply handler_safe_respond|]. case_if; [apply handler_safe_respond|].
  apply handler_safe_result; [apply safe_still, still_hash_password|intros; apply handler_safe_respond|].
  intros hash. apply handler_safe_result; [apply safe_commit; constructor; constructor| |];
    intros; apply handler_safe_respond.
Qed.

Lemma change_password_safe permit permit' user headers form now :
  handler_safe P (change_password app permit permit' user headers form now).
Proof.
  unfold change_password. destruct (check_password_rule _); [|apply account_page_safe].
  case_if; [apply account_page_safe|]. case_if; [apply handler_safe_respond|].
  apply handler_safe_result; [apply safe_still, still_hash_password|intros; apply handler_safe_respond|].
  intros hash. cbv zeta. apply reauthed_safe; [|intros; apply handler_safe_respond].
  apply safe_check. intros u v. apply commit_inv. constructor; constructor.
Qed.

Lemma reset_request_good permit e client tick now l w :
  good P w -> good P (reset_request app permit e client tick now l w).2.
Proof.
  intros Hw. unfold reset_request. cbv zeta. case_if; [done|].
  destruct (take_mail l (normalize_email e) client tick) as [ok l']. case_if; [done|].
  case_if; [done|].
  assert (Hs : handler_safe P (on_result (write (queue_reset app (normalize_email e) now)) server_error
                 (fun _ => respond (Html SentPage)))).
  { apply handler_safe_result; [apply safe_commit; constructor; constructor| |]; intros; apply handler_safe_respond. }
  specialize (Hs w Hw). by destruct (on_result _ _ _ w).
Qed.

Lemma retention_good ue now w : good P w -> good P (retention (KINDS ue) now w).
Proof.
  intros Hw. unfold retention. cbv zeta.
  apply safe_write; [apply commit_sign_in|]. apply safe_commit; [constructor; constructor|].
  by apply safe_commit; [constructor; constructor|].
Qed.

(** The requests and commands that administer projects. *)
Definition administers (r : Request) : bool :=
  match r with
  | ProjectCreateRequest _ _ _ _ | SettingsSaveRequest _ _ _ _ _ | ProjectDeleteRequest _ _ _ _ _
  | ProjectCreateCommand _ _ => true
  | _ => false
  end.

Lemma serve_account_good r w : administers r = false -> good P w -> good P (serve app r w).
Proof.
  intros Hp Hw. destruct (reads r) eqn:Er; [by apply (serve_read_good P app)|].
  destruct r; try done; cbn [serve]; clear Er.
  - clear Hp. revert w Hw. change (handler_safe P (login_submit app permit headers form now)).
    unfold login_submit. cbv zeta. apply handler_safe_result; [|intros; apply handler_safe_respond..].
    apply safe_check. intros u v. apply commit_inv. constructor; constructor.
  - clear Hp. revert w Hw. change (handler_safe P (logout user)).
    apply handler_safe_result; [apply safe_commit; constructor; constructor| |]; intros; apply handler_safe_respond.
  - by apply change_password_safe.
  - clear Hp. revert w Hw. change (handler_safe P (start_totp app permit user headers form now)).
    apply reauthed_safe; [|intros; apply handler_safe_respond]. apply safe_check. intros u v.
    apply commit_inv. constructor; constructor.
  - clear Hp. revert w Hw. change (handler_safe P (confirm_totp app user code now)).
    apply handler_safe_result; [apply safe_commit; constructor; constructor|intros; apply handler_safe_respond|].
    intros []; [apply account_page_safe|apply handler_safe_respond..].
  - clear Hp. revert w Hw. change (handler_safe P (disable_totp app permit user headers form now)).
    unfold disable_totp. case_if; [apply account_page_safe|].
    apply reauthed_safe; [|intros; apply account_page_safe]. apply safe_check. intros u v.
    apply commit_inv. constructor; constructor.
  - clear Hp. revert w Hw. change (handler_safe P (regenerate_codes app permit user headers form now)).
    unfold regenerate_codes. case_if; [apply account_page_safe|].
    apply reauthed_safe; [|intros; apply handler_safe_respond]. apply safe_check. intros u v.
    apply commit_inv. constructor; constructor.
  - clear Hp. revert w Hw. change (handler_safe P (end_other_sessions user now)).
    apply handler_safe_result; [apply safe_commit; constructor; constructor| |]; intros; apply handler_safe_respond.
  - by apply reset_request_good.
  - by apply link_submit_safe.
  - by apply safe_commit; [constructor; constructor|].
  - by apply safe_commit; [constructor; constructor|].
  - by apply safe_commit; [constructor; constructor|].
  - by apply safe_commit; [constructor; constructor|].
  - by apply retention_good.
Qed.

Context `{!ProjectCommit P}.

Lemma safe_project {E A} `{FromSql E} (t : Tx E A) : project_tx E A t -> safe P (write t).
Proof. intros Ht. apply safe_write. by apply commit_project. Qed.

Lemma project_handlers_good r w :
  administers r = true -> good P w -> good P (serve app r w).
Proof.
  intros Hp Hw. destruct r; try done; cbn [serve].
  - unfold create_handler. clear Hp. revert w m Hw. change (site_safe P (create_handler app user form now)).
    unfold create_handler. destruct (_ ≫= _) as [[slug s]|]; [|apply site_safe_list].
    apply site_safe_result; [apply safe_project; constructor| |].
    + intros []; [apply site_safe_list|apply site_safe_respond].
    + intros i w m Hw. by apply publish_good.
  - clear Hp. revert w m Hw. change (site_safe P (save_handler app user slug form now)).
    apply site_safe_result; [apply find_by_path_safe|intros; apply site_safe_respond|].
    intros [p|]; [|apply site_safe_respond]. destruct (form_parse _ _); [|apply site_safe_respond].
    apply site_safe_result; [apply safe_project; constructor|intros; apply site_safe_respond|].
    intros [] w m Hw; [by apply publish_good|done].
  - clear Hp. revert w m Hw. change (site_safe P (delete_handler app user slug confirm now)).
    apply site_safe_result; [apply find_by_path_safe|intros; apply site_safe_respond|].
    intros [p|]; [|apply site_safe_respond]. case_if; [apply site_safe_respond|].
    apply site_safe_result; [apply safe_project; constructor|intros; apply site_safe_respond|].
    intros [] w m Hw; [by apply publish_good|done].
  - clear Hp. revert w Hw. change (safe P (command_create (app_base_url app) args now)). unfold command_create, command_args.
    destruct (_ ≫= _) as [[slug s]|]; [|apply safe_still, still_fail]. apply safe_project. constructor.
Qed.

Lemma serve_good r w : good P w -> good P (serve app r w).
Proof.
  intros Hw. destruct (administers r) eqn:E; [by apply project_handlers_good|by apply serve_account_good].
Qed.
End Serving.

(** ** What a request commits *)

Section Commits.
Context `{Crates} (app : App).

Lemma transaction_others E A (t : Tx E A) w : transaction app E A t -> others (t w).2 = others w.
Proof. intros Ht. apply (transaction_inv app (fun _ => True) _ _ t Ht w). Qed.

Lemma sign_in_others now w : others (retention_sign_in now w).2 = others w.
Proof.
  assert (Hi : inv_tx (fun _ => True) (retention_sign_in now)); [|apply (Hi w)].
  do 2 (apply inv_bind; [by apply inv_execute|]; intros _). by apply inv_execute.
Qed.

(** A property that one commit keeps is kept by every transaction. *)
Lemma account_commit P : (forall d d', step app d d' -> P d -> P d') -> AccountCommit app P.
Proof.
  intros HP. split.
  - intros E A t Ht%account_transaction w. split; [by apply transaction_others|].
    intros a w' Ha. apply HP. by eapply step_tx.
  - intros now w. split; [apply sign_in_others|]. intros a w' Ha. apply HP. by eapply step_sign_in.
Qed.

Lemma project_commit P : (forall d d', step app d d' -> P d -> P d') -> ProjectCommit P.
Proof.
  intros HP. split. intros E A t Ht%(project_transaction app) w. split; [by apply transaction_others|].
  intros a w' Ha. apply HP. by eapply step_tx.
Qed.

(** Every request, command and job changes the database only by committing whole
    transactions, its own or, between them, the other requests': whatever it answers and
    wherever a statement fails, the database it leaves is reached by commits. *)
Theorem requests_are_transactions (r : Request) (w : World) :
  Forall (fun f => forall d, rtc (step app) d (f d)) (others w) ->
  rtc (step app) (db w) (db (serve app r w)).
Proof.
  intros Ho. assert (forall d d', step app d d' -> rtc (step app) (db w) d -> rtc (step app) (db w) d') as HC.
  { intros d d' Hs Hr. by eapply rtc_r. }
  pose proof (account_commit _ HC). pose proof (project_commit _ HC).
  apply (serve_good app (rtc (step app) (db w)) r w). split; [done|].
  eapply Forall_impl; [exact Ho|]. intros f Hf d Hd. by etrans.
Qed.

(** Table invariants that survive the deletion of reset tokens survive every commit. *)
Lemma table_commit P `{!TableInvariant P} `{!ProjectsInvariant P} :
  (forall p d, P d -> P (set_tokens (delete_where p) (tokens_seq d) d)) ->
  forall d d', step app d d' -> P d -> P d'.
Proof.
  intros Hdel d d' [E A t w a w' Ht Hr <- <-|now w a w' Hr <- <-].
  - exact (proj2 (transaction_inv app P E A t Ht w) a w' Hr).
  - intros Hw. unfold retention_sign_in in Hr. tx_inv. cbn [db with_db].
    by apply inv_devices_delete, Hdel, inv_sessions_delete.
Qed.
End Commits.

(** ** The account tables *)

(** The constraints of the schema and the rules of the code. *)
Record accounts_wf (d : Db) : Prop := {
  wf_user_ids : NoDup (map u_id (users d));
  wf_user_emails : NoDup (map u_email (users d));
  wf_one_admin : count_where (fun u => bool_decide (u_role u = Admin)) (users d) <= 1;
  wf_session_ids : NoDup (map s_id (sessions d));
  wf_session_hashes : NoDup (map s_token_hash (sessions d));
  wf_session_owners : Forall (fun s => has_user d (s_user_id s) = true) (sessions d);
  wf_device_ids : NoDup (map d_id (known_devices d));
  wf_device_hashes : NoDup (map d_token_hash (known_devices d));
  wf_device_owners : Forall (fun v => has_user d (d_user_id v) = true) (known_devices d);
  wf_device_cap : forall u, count_where (fun v => d_user_id v =? u) (known_devices d) <= 10;
  wf_token_hashes : NoDup (map t_token_hash (tokens d));
  wf_one_reset : forall u, count_where (unused_reset_of (Some u)) (tokens d) <= 1 }.

Lemma Forall_delete_where {A} (Q : A -> Prop) p (l : list A) : Forall Q l -> Forall Q (delete_where p l).
Proof. rewrite !Forall_forall. intros Hl x [Hx _]%elem_of_delete_where. auto. Qed.

Lemma count_where_delete {A} (q p : A -> bool) (l : list A) :
  count_where q (delete_where p l) <= count_where q l.
Proof.
  unfold delete_where. induction l as [|x l IH]; [done|]. cbn [List.filter].
  destruct (negb (p x)); rewrite ?count_where_cons; destruct (q x); lia.
Qed.

Lemma count_where_update {A} (q p : A -> bool) f (l : list A) :
  (forall x, q (f x) = true -> q x = true) -> count_where q (update_where p f l) <= count_where q l.
Proof.
  intros Hq. induction l as [|x l IH]; [done|]. change (update_where p f (x :: l))
    with ((if p x then f x else x) :: update_where p f l). rewrite !count_where_cons.
  destruct (p x); [|lia]. specialize (Hq x). destruct (q (f x)), (q x); lia || (by specialize (Hq eq_refl)).
Qed.

Lemma NoDup_snoc_fresh {A B} (g : A -> B) (l : list A) x :
  NoDup (map g l) -> Forall (fun y => g y <> g x) l -> NoDup (map g (l ++ [x])).
Proof.
  intros Hd Hf. rewrite map_app. apply NoDup_app. split_and!; [done| |apply NoDup_singleton].
  intros i (y & -> & Hy)%list_elem_of_fmap Hi. apply list_elem_of_singleton in Hi.
  rewrite Forall_forall in Hf. by apply (Hf y).
Qed.

Lemma has_user_update p f d i :
  (forall u, u_id (f u) = u_id u) -> has_user (set_users (update_where p f) d) i = has_user d i.
Proof.
  intros Hf. unfold has_user. cbn [users set_users]. induction (users d) as [|u l IH]; [done|].
  unfold update_where in *. cbn. rewrite IH. by destruct (p u); rewrite ?Hf.
Qed.

Lemma use_token_unused u now t : unused_reset_of u (use_token now t) = true -> unused_reset_of u t = true.
Proof. unfold unused_reset_of. cbn. by rewrite andb_false_r. Qed.

Lemma wf_users p f d :
  (forall u, u_id (f u) = u_id u /\ u_email (f u) = u_email u /\ u_role (f u) = u_role u) ->
  accounts_wf d -> accounts_wf (set_users (update_where p f) d).
Proof.
  intros Hf [H1 H2 H0 H3 H4 H5 H6 H7 H8 H9 H10 H11]. split; try done; cbn [users sessions set_users set_sessions].
  + rewrite map_update_where; [done|]. intros u. apply Hf.
  + rewrite map_update_where; [done|]. intros u. apply Hf.
  + etrans; [|exact H0]. apply count_where_update. intros u. by destruct (Hf u) as (_ & _ & ->).
  + eapply Forall_impl; [exact H5|]. intros s. rewrite has_user_update; [done|apply Hf].
  + eapply Forall_impl; [exact H8|]. intros s. rewrite has_user_update; [done|apply Hf].
Qed.

Lemma wf_sessions_delete p d :
  accounts_wf d -> accounts_wf (set_sessions (delete_where p) d).
Proof.
  intros [H1 H2 H0 H3 H4 H5 H6 H7 H8 H9 H10 H11]. split; try done; cbn [users sessions set_users set_sessions].
  + by apply NoDup_map_filter.
  + by apply NoDup_map_filter.
  + by apply Forall_delete_where.
Qed.

Lemma wf_sessions_update p f d :
  (forall s, s_id (f s) = s_id s /\ s_token_hash (f s) = s_token_hash s /\
             s_user_id (f s) = s_user_id s) ->
  accounts_wf d -> accounts_wf (set_sessions (update_where p f) d).
Proof.
  intros Hf [H1 H2 H0 H3 H4 H5 H6 H7 H8 H9 H10 H11]. split; try done; cbn [users sessions set_users set_sessions].
  + rewrite map_update_where; [done|]. intros u. apply Hf.
  + rewrite map_update_where; [done|]. intros u. apply Hf.
  + rewrite Forall_forall in *. intros s (x & Hx & ->)%elem_of_update_where.
    destruct (p x); [|by apply H5]. destruct (Hf x) as (_ & _ & ->). by apply H5.
Qed.

Lemma wf_session_insert hash user csrf now d x d' :
  insert_session hash user csrf now d = Ok (x, d') -> accounts_wf d -> accounts_wf d'.
Proof.
  intros Hi [H1 H2 H0 H3 H4 H5 H6 H7 H8 H9 H10 H11].
  unfold insert_session in Hi. destruct (_ || _) eqn:E; [done|]. apply orb_false_iff in E as [E1 E2].
  rewrite negb_false_iff in E2. injection Hi as _ <-. split; try done; cbn [sessions set_sessions].
  + by apply next_rowid_fresh.
  + apply NoDup_snoc_fresh; [done|]. apply Forall_forall. intros s Hs He.
    apply not_true_iff_false in E1. apply E1, existsb_In. exists s. split; [done|].
    by apply zlist_eqb_eq.
  + apply Forall_app. split; [done|]. by constructor.
Qed.

Lemma wf_devices_delete p d :
  accounts_wf d -> accounts_wf (set_known_devices (delete_where p) d).
Proof.
  intros [H1 H2 H0 H3 H4 H5 H6 H7 H8 H9 H10 H11]. split; try done; cbn [known_devices set_known_devices].
  + by apply NoDup_map_filter.
  + by apply NoDup_map_filter.
  + by apply Forall_delete_where.
  + intros u. etrans; [apply count_where_delete|]. apply H9.
Qed.

Lemma wf_device_add user v d :
  d_id v = next_rowid d_id (known_devices d) -> d_user_id v = user -> has_user d user = true ->
  Forall (fun x => d_token_hash x <> d_token_hash v) (known_devices d) ->
  accounts_wf d -> accounts_wf (set_known_devices (fun l => evict_devices user (l ++ [v])) d).
Proof.
  intros Hid Hu Hus Hfr [H1 H2 H0 H3 H4 H5 H6 H7 H8 H9 H10 H11].
  assert (Hids : NoDup (map d_id (known_devices d ++ [v]))) by (by apply next_rowid_fresh).
  split; try done; cbn [known_devices set_known_devices].
  + by apply NoDup_map_filter.
  + apply NoDup_map_filter. by apply NoDup_snoc_fresh.
  + apply Forall_delete_where, Forall_app. split; [done|]. constructor; [|done]. by rewrite Hu.
  + intros u. destruct (Z.eq_dec u user) as [->|Hne]; [by apply evict_count|].
    etrans; [apply count_where_delete|]. rewrite count_where_app, count_where_cons, Hu.
    rewrite (proj2 (Z.eqb_neq user u)) by done. specialize (H9 u). unfold count_where in *. cbn. lia.
Qed.

Lemma wf_tokens_use p now d :
  accounts_wf d -> accounts_wf (update_tokens p (use_token now) d).
Proof.
  intros [H1 H2 H0 H3 H4 H5 H6 H7 H8 H9 H10 H11]. split; try done; cbn [tokens update_tokens set_tokens].
  + by rewrite map_update_where.
  + intros u. etrans; [|apply (H11 u)]. apply count_where_update. intros t. apply use_token_unused.
Qed.

Lemma wf_token_issue user now t s d :
  t_user_id t = Some user -> Forall (fun x => t_token_hash x <> t_token_hash t) (tokens d) ->
  accounts_wf d -> accounts_wf (set_tokens
    (fun l => update_where (unused_reset_of (Some user)) (use_token now) l ++ [t]) s d).
Proof.
  intros Hu Hfr [H1 H2 H0 H3 H4 H5 H6 H7 H8 H9 H10 H11].
  split; try done; cbn [tokens set_tokens].
  + apply NoDup_snoc_fresh; [by rewrite map_update_where|]. apply Forall_forall.
    intros x (y & Hy & ->)%elem_of_update_where. rewrite Forall_forall in Hfr.
    destruct (unused_reset_of _ y); exact (Hfr y Hy).
  + intros u. rewrite count_where_app, count_where_cons.
    change (count_where _ []) with 0. destruct (Z.eq_dec u user) as [->|Hne].
    * rewrite unused_after_use. destruct (unused_reset_of _ t); lia.
    * replace (unused_reset_of (Some u) t) with false.
      { etrans; [|apply (H11 u)]. rewrite !Z.add_0_r. apply count_where_update.
        intros x. apply use_token_unused. }
      unfold unused_reset_of. rewrite Hu. rewrite (bool_decide_eq_false_2 (Some user = Some u)) by congruence.
      by rewrite ?andb_false_r.
Qed.

#[export] Instance accounts_wf_tables : TableInvariant accounts_wf.
Proof.
  split; eauto using wf_users, wf_sessions_delete, wf_sessions_update, wf_session_insert,
    wf_devices_delete, wf_device_add, wf_tokens_use, wf_token_issue; by intros ? * [].
Qed.

Lemma wf_tokens_delete p d :
  accounts_wf d -> accounts_wf (set_tokens (delete_where p) (tokens_seq d) d).
Proof.
  intros [H1 H2 H0 H3 H4 H5 H6 H7 H8 H9 H10 H11]. split; try done; cbn [tokens set_tokens].
  - by apply NoDup_map_filter.
  - intros u. etrans; [apply count_where_delete|]. apply H11.
Qed.

#[export] Instance accounts_wf_projects : ProjectsInvariant accounts_wf.
Proof. split. by intros f s d []. Qed.

#[export] Instance accounts_wf_commits `{Crates} (app : App) : AccountCommit app accounts_wf.
Proof. apply account_commit, (table_commit app accounts_wf wf_tokens_delete). Qed.
#[export] Instance accounts_wf_project_commits : ProjectCommit accounts_wf.
Proof. split. intros E A t. apply (project_tx_inv accounts_wf). Qed.

(** C7: the account tables stay well formed through every request, command and job, whatever
    it answers, wherever a statement fails, and whatever the others commit between its
    transactions as long as they keep the tables well formed too: emails and token hashes
    stay unique, there is at most one admin, sessions and devices belong to accounts, and
    no account has more than ten device cookies or more than one unused reset link. *)
Theorem accounts_stay_wf `{Crates} (app : App) (r : Request) (w : World) :
  accounts_wf (db w) -> Forall (fun f => forall d, accounts_wf d -> accounts_wf (f d)) (others w) ->
  accounts_wf (db (serve app r w)).
Proof.
  intros Hw Ho. by apply (serve_good app accounts_wf r w).
Qed.

(** ** A reset link works once *)

(** The token is stored, and used. *)
Definition token_spent (hash : bytes) (d : Db) : Prop :=
  hash ∈ map t_token_hash (tokens d) /\
  Forall (fun t => t_token_hash t = hash -> t_used_at t <> None) (tokens d).

#[export] Instance token_spent_tables hash : TableInvariant (token_spent hash).
Proof.
  split; try done.
  - intros h user csrf now d x d' Hi [H1 H2]. unfold insert_session in Hi. destruct (_ || _); [done|].
    by injection Hi as _ <-.
  - intros p now d [H1 H2]. split; cbn [tokens update_tokens set_tokens]; [by rewrite map_update_where|].
    rewrite Forall_forall in *. intros t (x & Hx & ->)%elem_of_update_where.
    destruct (p x); [done|by apply H2].
  - intros user now t s d _ _ _ Hfr [H1 H2]. split; cbn [tokens set_tokens].
    + rewrite map_app, map_update_where by done. set_solver.
    + apply Forall_app. split.
      * rewrite Forall_forall in *. intros y (x & Hx & ->)%elem_of_update_where.
        destruct (unused_reset_of _ x); [done|by apply H2].
      * constructor; [|done]. intros He. apply list_elem_of_fmap in H1 as (x & Hx & Hin).
        rewrite Forall_forall in Hfr. destruct (Hfr x Hin). congruence.
Qed.

#[export] Instance token_spent_projects hash : ProjectsInvariant (token_spent hash).
Proof. by split. Qed.

(** Commits between which nobody draws the token [hash] stands for anew. *)
Definition step_no_clash `{Crates} (app : App) (hash : bytes) (d d' : Db) : Prop :=
  step app d d' /\ (hash ∈ map t_token_hash (tokens d') -> hash ∈ map t_token_hash (tokens d)).

(** Gone or used, for good. *)
Lemma spent_for_good `{Crates} (app : App) hash d d' :
  rtc (step_no_clash app hash) d d' ->
  Forall (fun t => t_token_hash t = hash -> t_used_at t <> None) (tokens d) ->
  Forall (fun t => t_token_hash t = hash -> t_used_at t <> None) (tokens d').
Proof.
  induction 1 as [|d d1 d' [Hs Hc] _ IH]; [done|]. intros Hd. apply IH.
  destruct (base.decide (hash ∈ map t_token_hash (tokens d1))) as [Hin|Hout].
  2: { apply Forall_forall. intros t Ht He. destruct Hout. apply list_elem_of_fmap. eauto. }
  specialize (Hc Hin). destruct Hs as [E A t w a w' Ht Hr <- <-|now w a w' Hr <- <-].
  - apply (proj2 (transaction_inv app (token_spent hash) E A t Ht w) a w' Hr). done.
  - unfold retention_sign_in in Hr. tx_inv. cbn. by apply Forall_delete_where.
Qed.

(** C3: a reset link works once: after it has set a password, it never sets one again,
    whatever requests, commands and jobs commit from then on, short of the random source
    repeating a token. *)
Theorem reset_link_works_once `{Crates} (app : App) (permit permit' : bool)
    (token password again password' again' : str) (now now' later later' : Z) (w w1 w2 : World) :
  link_submit app permit token password again now now' w = (Html DonePage, w1) ->
  accounts_wf (db (interfere (interfere w))) ->
  rtc (step_no_clash app (sha256 (utf8 token))) (db w1) (db (interfere (interfere w2))) ->
  (link_submit app permit' token password' again' later later' w2).1 <> Html DonePage.
Proof.
  intros Hl Hwf Hr He.
  destruct (link_submit _ _ _ password' _ _ _ w2) as [r w3] eqn:Hl2. cbn in He. subst r.
  apply link_submit_Done in Hl as (_ & _ & _ & salt & w4 & w5 & Hd4 & _ & Ht & Hd5).
  apply link_submit_Done in Hl2 as (_ & _ & _ & salt' & w6 & w7 & Hd6 & _ & Ht' & _).
  apply reset_tx_Ok in Ht' as (t' & _ & _ & Hin' & Hlive' & _).
  apply reset_token_live_spec in Hlive' as (Hh' & _ & Hun' & _). rewrite Hd6 in Hin'.
  assert (Hspent : Forall (fun t => t_token_hash t = sha256 (utf8 token) -> t_used_at t <> None)
    (tokens (db w1))).
  { apply reset_tx_Ok in Ht as (t & user & u & Hin & Hlive & _ & _ & _ & Hps).
    destruct Hps as [_ _ _ Htok _ _ _]. rewrite Hd5, Htok. apply Forall_forall.
    intros y (x & Hx & ->)%elem_of_update_where. destruct (unused_reset_of _ x); [done|].
    cbn in Hx. apply elem_of_update_where in Hx as (z & Hz & ->).
    destruct (reset_token_live _ _ _ z) eqn:Ez; [done|]. intros Hhz.
    pose proof Hlive as Hlive''. apply reset_token_live_spec in Hlive'' as (Hh & _).
    rewrite Hd4 in *. assert (z = t) as -> by (eapply NoDup_map_inj; [apply Hwf|done|done|congruence]).
    congruence. }
  apply (spent_for_good _ _ _ _ Hr) in Hspent. rewrite Forall_forall in Hspent.
  by apply (Hspent t' Hin' Hh').
Qed.
