(* ===== verification/Server.v ===== *)
(** * The server (src/src/routing, src/src/admin, src/src/pages.rs, src/src/assets.rs, src/src/dev.rs)

    The handlers behind the pipeline: their extractors, their functions on the state of the
    process, and their answers as responses. *)

From S2P Require Import Prelude Str Codec Keys Net Rate Config Urls Totp Text Time Http Db.
From S2P Require Import Outbox Auth Credentials Accounts Hosts Projects Jobs Checks Routes Pipeline System.

(** ** Answers *)

Definition HTML_TYPE : str := lit "text/html; charset=utf-8".

(** A 200 response with a body of a content type. *)
Definition ok_response (content_type : str) (body : Body) : Resp :=
  {| rs_status := 200; rs_headers := [(CONTENT_TYPE, content_type)]; rs_body := body;
     rs_rejected := None; rs_own_body := false; rs_hashed := false |}.

(** [pages::html], [projects::refused], the redirects, plain statuses and [permits::busy]. *)
Definition to_resp {P} (body : P -> Body) (r : Response P) : Resp :=
  match r with
  | Html page => ok_response HTML_TYPE (body page)
  | Refused page =>
      {| rs_status := 422; rs_headers := [(CONTENT_TYPE, HTML_TYPE)]; rs_body := body page;
         rs_rejected := None; rs_own_body := true; rs_hashed := false |}
  | SeeOther location cookies =>
      {| rs_status := 303;
         rs_headers := (LOCATION, utf8 location) :: map (fun c => (SET_COOKIE, utf8 c)) cookies;
         rs_body := NoBody; rs_rejected := None; rs_own_body := false; rs_hashed := false |}
  | PermanentRedirect location =>
      {| rs_status := 308; rs_headers := [(LOCATION, utf8 location)]; rs_body := NoBody;
         rs_rejected := None; rs_own_body := false; rs_hashed := false |}
  | Status code => status_only code
  | BusyAnswer bound => reject 503 (BusyBound bound)
  end.

(** [internal::healthz]. *)
Definition healthz : Resp :=
  ok_response (lit "application/json")
    (TextBody (lit "{" ++ [34] ++ lit "status" ++ [34; 58; 34] ++ lit "ok" ++ [34] ++ lit "}")).

Section Server.
Context `{Crates} `{Axum} (setup : Setup) (e : Env).

(** ** Extractors *)

(** [Extension<SessionUser>] and [Extension<ClientAddr>]: missing ones are axum's 500. *)
Definition with_user (x : Exts) (s : Server) (f : SessionUser -> Resp * Server) : Resp * Server :=
  match x_user x with Some u => f u | None => (status_only 500, s) end.

Definition with_client (x : Exts) (s : Server) (f : IpAddr -> Resp * Server) : Resp * Server :=
  match x_client x with Some c => f c | None => (status_only 500, s) end.

(** [Path<String>]. *)
Definition with_path (req : Req) (x : Exts) (s : Server) (f : str -> Resp * Server) : Resp * Server :=
  match path_param (x_pattern x) (rq_path req) with
  | Ok v => f v
  | Err code => (status_only code, s)
  end.

(** [Form<T>]: every text field of the forms has [#[serde(default)]]. *)
Definition with_form (req : Req) (x : Exts) (s : Server) (f : (str -> option str) -> Resp * Server)
  : Resp * Server :=
  match form_fields (x_cap x) req with
  | Ok g => f g
  | Err code => (status_only code, s)
  end.

Definition text_of (g : str -> option str) (name : String.string) : str := default [] (g (lit name)).

Definition login_form_of (g : str -> option str) : LoginForm :=
  {| lf_email := text_of g "email"; lf_password := text_of g "password"; lf_code := text_of g "code" |}.

Definition reauth_of (g : str -> option str) : Reauth :=
  {| current_password := text_of g "current_password"; reauth_code := text_of g "code" |}.

Definition password_form_of (g : str -> option str) : PasswordForm :=
  {| pf_current_password := text_of g "current_password"; pf_code := text_of g "code";
     pf_new_password := text_of g "new_password"; pf_new_password_again := text_of g "new_password_again" |}.

Definition create_form_of (g : str -> option str) : CreateForm :=
  {| cf_slug := text_of g "slug"; cf_name := text_of g "name"; cf_public_host := text_of g "public_host" |}.

Definition settings_form_of (g : str -> option str) : SettingsForm :=
  {| sf_name := text_of g "name"; sf_public_host := text_of g "public_host";
     sf_screenshots_enabled := g (lit "screenshots_enabled");
     sf_features_enabled := g (lit "features_enabled"); sf_require_email := g (lit "require_email");
     sf_plus_one_enabled := g (lit "plus_one_enabled");
     sf_privacy_notice := text_of g "privacy_notice"; sf_security_contact := text_of g "security_contact" |}.

(** ** Running a handler on the state of the process *)

Definition run_page (h : Handler Page) (s : Server) : Resp * Server :=
  let '(r, w) := h (sv_world s) in (to_resp PageBody r, set_world w s).

Definition run_site (h : SiteHandler) (s : Server) : Resp * Server :=
  let '(r, (w, m)) := h (sv_world s, sv_map s) in
  (to_resp ProjectPageBody r,
   {| sv_world := w; sv_map := m; sv_mail := sv_mail s; sv_counters := sv_counters s;
      sv_warnings := sv_warnings s |}).

(** [reset::request] also draws from the mail limits. *)
Definition run_reset (email : str) (c : IpAddr) (s : Server) : Resp * Server :=
  let '(r, l, w) := reset_request (st_app setup) (e_public_write e) email c (e_tick' e) (e_now e)
                      (sv_mail s) (sv_world s) in
  (to_resp PageBody r,
   {| sv_world := w; sv_map := sv_map s; sv_mail := l; sv_counters := sv_counters s;
      sv_warnings := sv_warnings s |}).

(** [dev::asset_bytes]: embedded, or read from [static/] in a [dev] build. *)
Definition asset_bytes (a : Asset) : option bytes :=
  if st_dev setup then e_file e (as_name a) else Some (as_bytes a).

(** [assets::serve]. *)
Definition asset_serve (file : str) : Resp :=
  match registry (st_css setup) ≫= find_first (fun h => zlist_eqb (h_file h) file) with
  | None => status_only 404
  | Some h =>
      match asset_bytes (h_asset h) with
      | None => status_only 500
      | Some content =>
          {| rs_status := 200; rs_headers := [(CONTENT_TYPE, as_content_type (h_asset h))];
             rs_body := AssetBody content; rs_rejected := None; rs_own_body := false; rs_hashed := true |}
      end
  end.

Definition asset_service (req : Req) (x : Exts) (s : Server) : Resp * Server :=
  with_path req x s (fun file => (asset_serve file, s)).

(** [dev::reload_script]. *)
Definition reload_script : Resp :=
  match e_file e (lit "dev-reload.js") with
  | Some content => ok_response (lit "text/javascript") (AssetBody content)
  | None => status_only 500
  end.

(** The handler each endpoint names. *)
Definition handle (ep : Endpoint) : Service := fun req x s =>
  let app := st_app setup in
  let cookies := get_all (rq_headers req) COOKIE in
  match ep with
  | EHealthz => (healthz, s)
  | ETlsAsk =>
      ({| rs_status := tls_ask (sv_map s) (rq_query req);
          rs_headers := [(CONTENT_TYPE, lit "text/plain; charset=utf-8")]; rs_body := TextBody [];
          rs_rejected := None; rs_own_body := false; rs_hashed := false |}, s)
  | ELanding => (ok_response HTML_TYPE LandingBody, s)
  | EAsset => asset_service req x s
  | ENotFound | EAdminNotFound => (status_only 404, s)
  | EHome => with_user x s (fun u => run_page (home u) s)
  | ELoginForm => run_page (login_form cookies (e_now e)) s
  | ELoginSubmit => with_form req x s (fun g =>
      run_page (login_submit app (e_hashing e) cookies (login_form_of g) (e_now e)) s)
  | ELogout => with_user x s (fun u => run_page (logout u) s)
  | EShow => with_user x s (fun u => run_page (show u) s)
  | EChangePassword => with_user x s (fun u => with_form req x s (fun g =>
      run_page (change_password app (e_hashing e) (e_hashing' e) u cookies (password_form_of g) (e_now e)) s))
  | EStartTotp => with_user x s (fun u => with_form req x s (fun g =>
      run_page (start_totp app (e_hashing e) u cookies (reauth_of g) (e_now e)) s))
  | EConfirmTotp => with_user x s (fun u => with_form req x s (fun g =>
      run_page (confirm_totp app u (text_of g "code") (e_now e)) s))
  | EDisableTotp => with_user x s (fun u => with_form req x s (fun g =>
      run_page (disable_totp app (e_hashing e) u cookies (reauth_of g) (e_now e)) s))
  | ERegenerateCodes => with_user x s (fun u => with_form req x s (fun g =>
      run_page (regenerate_codes app (e_hashing e) u cookies (reauth_of g) (e_now e)) s))
  | EEndOtherSessions => with_user x s (fun u => run_page (end_other_sessions u (e_now e)) s)
  | ERequestForm => (to_resp PageBody (Html RequestPage), s)
  | ERequest => with_client x s (fun c => with_form req x s (fun g => run_reset (text_of g "email") c s))
  | ELinkForm => with_path req x s (fun token => run_page (link_form token (e_now e)) s)
  | ELinkSubmit => with_path req x s (fun token => with_form req x s (fun g =>
      run_page (link_submit app (e_hashing e) token (text_of g "password") (text_of g "password_again")
                  (e_now e) (e_now' e)) s))
  | EList => with_user x s (fun u => run_site (list_handler u) s)
  | ECreate => with_user x s (fun u => with_form req x s (fun g =>
      run_site (create_handler app u (create_form_of g) (e_now e)) s))
  | ESettings => with_user x s (fun u => with_path req x s (fun slug => run_site (settings_handler u slug) s))
  | ESave => with_user x s (fun u => with_path req x s (fun slug => with_form req x s (fun g =>
      run_site (save_handler app u slug (settings_form_of g) (e_now e)) s)))
  | EDelete => with_user x s (fun u => with_path req x s (fun slug => with_form req x s (fun g =>
      run_site (delete_handler app u slug (text_of g "confirm") (e_now e)) s)))
  | ECanonical => (to_resp PageBody (canonical_redirect (sv_map s) (rq_path req) (rq_query req)), s)
  | EReloadScript => (reload_script, s)
  | EBootId => (ok_response (lit "text/plain; charset=utf-8") (TextBody (e_boot_id e)), s)
  end.

(** The whole service over the program's own table. *)
Definition server (req : Req) (s : Server) : option (Resp * Server) :=
  t ← build (table (st_css setup) (st_dev setup));
  Some (service setup e handle t req s).
End Server.

(** ** What a handler does to the world *)

(** The endpoints that administer projects. *)
Definition administering (ep : Endpoint) : bool :=
  match ep with ECreate | ESave | EDelete => true | _ => false end.

(** The endpoints that only read. *)
Definition reading (ep : Endpoint) : bool :=
  match ep with
  | EHealthz | ETlsAsk | ELanding | EAsset | ENotFound | EAdminNotFound | EHome | ELoginForm | EShow
  | ERequestForm | ELinkForm | EList | ESettings | ECanonical | EReloadScript | EBootId => true
  | _ => false
  end.

(** What kind of request of [System] an endpoint may make. *)
Definition request_of (ep : Endpoint) (r : Request) : Prop :=
  administers r = administering ep /\ (reading ep = true -> reads r = true).

(** [w'] is left by at most one request of [System], of the endpoint's kind. *)
Definition one_request `{Crates} (app : App) (ep : Endpoint) (w w' : World) : Prop :=
  w' = w \/ exists r, request_of ep r /\ w' = serve app r w.

#[local] Opaque table build.

Section Worlds.
Context `{Crates} `{Axum} (setup : Setup) (e : Env).

Lemma run_page_one h s ep r :
  request_of ep r -> (forall w, (h w).2 = serve (st_app setup) r w) ->
  one_request (st_app setup) ep (sv_world s) (sv_world (run_page h s).2).
Proof.
  intros Hr Hh. right. exists r. split; [done|]. unfold run_page. specialize (Hh (sv_world s)).
  by destruct (h (sv_world s)).
Qed.

Lemma run_site_one h s ep r :
  request_of ep r -> (h (sv_world s, sv_map s)).2.1 = serve (st_app setup) r (sv_world s) ->
  one_request (st_app setup) ep (sv_world s) (sv_world (run_site h s).2).
Proof.
  intros Hr Hh. right. exists r. split; [done|]. unfold run_site.
  by destruct (h (sv_world s, sv_map s)) as [a [w m]].
Qed.

Lemma handle_one ep req x s :
  one_request (st_app setup) ep (sv_world s) (sv_world (handle setup e ep req x s).2).
Proof.
  assert (Hn : forall a, one_request (st_app setup) a (sv_world s) (sv_world s)) by (intros; by left).
  pose (app := st_app setup). pose (cookies := get_all (rq_headers req) COOKIE).
  destruct ep; cbn [handle]; cbv zeta; try apply Hn;
    unfold asset_service, with_user, with_client, with_path, with_form;
    repeat match goal with
    | |- context [match x_user ?x with _ => _ end] => destruct (x_user x) as [u|]; [|apply Hn]
    | |- context [match x_client ?x with _ => _ end] => destruct (x_client x) as [c|]; [|apply Hn]
    | |- context [match path_param ?a ?b with _ => _ end] => destruct (path_param a b) as [v|]; [|apply Hn]
    | |- context [match form_fields ?a ?b with _ => _ end] => destruct (form_fields a b) as [g|]; [|apply Hn]
    end; try apply Hn.
  - by apply run_page_one with (r := HomeRequest u).
  - by apply run_page_one with (r := LoginPageRequest cookies (e_now e)).
  - by apply run_page_one with (r := LoginRequest (e_hashing e) cookies (login_form_of g) (e_now e)).
  - by apply run_page_one with (r := LogoutRequest u).
  - by apply run_page_one with (r := ShowRequest u).
  - by apply run_page_one with (r := PasswordRequest (e_hashing e) (e_hashing' e) u cookies (password_form_of g) (e_now e)).
  - by apply run_page_one with (r := StartTotpRequest (e_hashing e) u cookies (reauth_of g) (e_now e)).
  - by apply run_page_one with (r := ConfirmTotpRequest u (text_of g "code") (e_now e)).
  - by apply run_page_one with (r := DisableTotpRequest (e_hashing e) u cookies (reauth_of g) (e_now e)).
  - by apply run_page_one with (r := CodesRequest (e_hashing e) u cookies (reauth_of g) (e_now e)).
  - by apply run_page_one with (r := EndOthersRequest u (e_now e)).
  - right. exists (ResetRequest (e_public_write e) (text_of g "email") c (e_tick' e) (e_now e) (sv_mail s)).
    split; [done|]. unfold run_reset. cbn [serve]. by destruct (reset_request _ _ _ _ _ _ _ _) as [[r l] w].
  - by apply run_page_one with (r := LinkFormRequest v (e_now e)).
  - by apply run_page_one with (r := LinkSubmitRequest (e_hashing e) v (text_of g "password")
      (text_of g "password_again") (e_now e) (e_now' e)).
  - by apply run_site_one with (r := ProjectListRequest u (sv_map s)).
  - by apply run_site_one with (r := ProjectCreateRequest u (create_form_of g) (e_now e) (sv_map s)).
  - by apply run_site_one with (r := SettingsPageRequest u v (sv_map s)).
  - by apply run_site_one with (r := SettingsSaveRequest u v (settings_form_of g) (e_now e) (sv_map s)).
  - by apply run_site_one with (r := ProjectDeleteRequest u v (text_of g "confirm") (e_now e) (sv_map s)).
Qed.

Context `{!AxumLaws}.

Definition built (t : Routers) : Prop := build (table (st_css setup) (st_dev setup)) = Some t.

(** A called handler starts in the world the request found, or in that of the session layer. *)
Lemma access_world r req x s0 s :
  access_passed e r req x s0 s -> sv_world s = sv_world s0 \/ sv_world s = session_world e req s0.
Proof.
  intros [Hc Ha]. destruct (r_access r); [by left|..]; destruct Ha as (u & _ & Hl & _); right;
    unfold session_world; replace (csrf_of req (set_cap (cap DefaultBody) no_exts)) with (csrf_of req x)
      by (unfold csrf_of; rewrite Hc; by destruct (r_body r)); by rewrite Hl.
Qed.

Lemma called_world t s req ep x s' :
  called setup e t s req ep x s' -> sv_world s' = sv_world s \/ sv_world s' = session_world e req s.
Proof. by destruct 1; eapply access_world. Qed.

(** The requests of [System] that one HTTP request makes: the session check, then the
    handler's, in a world that the endpoint's kind allows. *)
Lemma server_requests t req s P :
  built t -> TouchCommit P ->
  (forall ep x s' r w, called setup e t s req ep x s' -> request_of ep r -> good P w ->
     good P (serve (st_app setup) r w)) ->
  good P (sv_world s) -> good P (sv_world (service setup e (handle setup e) t req s).2).
Proof.
  intros Ht HT Hcall Hg. assert (Hsess : good P (session_world e req s)) by (by apply (layer_good P)).
  destruct (service_left setup e (handle setup e) t req s (called_hosts _ _ t Ht))
    as [[[Hw|Hw] _]|(ep & x & s' & Hc & Hw & _)]; rewrite Hw; [exact Hg|exact Hsess|].
  assert (Hs' : good P (sv_world s')) by (by destruct (called_world _ _ _ _ _ _ Hc) as [-> | ->]).
  destruct (handle_one ep req x s') as [->|(r & Hr & ->)]; [done|]. by eapply Hcall.
Qed.

(** C4: the whole server works by transactions. Whatever it receives, an HTTP request
    changes the database only by commits of the program's transactions, its own or, in
    between, those of others. *)
Theorem http_requests_are_transactions (t : Routers) (req : Req) (s : Server) :
  built t -> Forall (fun f => forall d, rtc (step (st_app setup)) d (f d)) (others (sv_world s)) ->
  rtc (step (st_app setup)) (db (sv_world s)) (db (sv_world (service setup e (handle setup e) t req s).2)).
Proof.
  intros Ht Ho. pose (P := rtc (step (st_app setup)) (db (sv_world s))).
  assert (HC : forall d d', step (st_app setup) d d' -> P d -> P d') by (intros d d' Hs Hr; by eapply rtc_r).
  pose proof (account_commit _ P HC). pose proof (project_commit _ P HC).
  apply (server_requests t req s P Ht _).
  { intros ep x s' r w _ _ Hg. exact (serve_good (st_app setup) P r w Hg). }
  split; [apply rtc_refl|].
  eapply Forall_impl; [exact Ho|]. intros f Hf d Hd. unfold P in *.
  etrans; [exact Hd|apply Hf].
Qed.

(** ** Who may change the projects *)

(** The routes of the table that administer projects do so on the main host, on POST. *)
Definition admin_writes_ok (r : Route) : bool :=
  negb (existsb administering (endpoints (r_methods r)))
  || (bool_decide (r_host r = MainHost)
      && negb (existsb administering (option_list (on_get (r_methods r)) ++ option_list (otherwise (r_methods r))))).

(** The handlers of GET and HEAD only read. *)
Definition safe_reads_ok (r : Route) : bool :=
  forallb reading (option_list (on_get (r_methods r)) ++ option_list (otherwise (r_methods r))).

Lemma table_methods_ok r :
  r ∈ table (st_css setup) (st_dev setup) -> admin_writes_ok r = true /\ safe_reads_ok r = true.
Proof.
  intros Hr. assert (Hk : forallb (fun r => admin_writes_ok r && safe_reads_ok r)
    (table (st_css setup) (st_dev setup)) = true) by (destruct (st_dev setup); vm_compute; reflexivity).
  rewrite forallb_forall in Hk. apply andb_true_iff, Hk, list_elem_of_In, Hr.
Qed.

Lemma elem_of_some {A} (x : A) o : x ∈ option_list o <-> o = Some x.
Proof.
  destruct o as [y|]; cbn; [rewrite list_elem_of_singleton|rewrite elem_of_nil]; split; congruence || done.
Qed.

Lemma method_endpoint m x ep : method_of m x = Some ep -> ep ∈ endpoints m.
Proof.
  rewrite method_of_spec. unfold endpoints. intros Hm. rewrite !elem_of_app, !elem_of_some.
  destruct (is_safe x); [destruct (on_get m)|case_bool_decide; [destruct (on_post m)|]]; naive_solver.
Qed.

(** The handler of a method that is not POST is registered for reads. *)
Lemma method_not_post m x ep :
  method_of m x = Some ep -> x <> POST -> ep ∈ option_list (on_get m) ++ option_list (otherwise m).
Proof.
  rewrite method_of_spec. intros Hm Hx. rewrite elem_of_app, !elem_of_some.
  rewrite (bool_decide_eq_false_2 (x = POST)) in Hm by done.
  destruct (is_safe x); [destruct (on_get m)|]; naive_solver.
Qed.

Lemma called_route t s req ep x s' :
  built t -> called setup e t s req ep x s' ->
  exists r, r ∈ table (st_css setup) (st_dev setup) /\ access_passed e r req x s s' /\
    method_of (r_methods r) (rq_method req) = Some ep /\
    ((r_host r = InternalHost /\ rq_path req ∈ internal_paths t) \/
     exists entry o, routed_host setup (sv_map s) req = Some (entry, o) /\
       (entry = Main -> is_main (r_host r) = true) /\ (entry <> Main -> is_project (r_host r) = true) /\
       (is_safe (rq_method req) = false -> origin_allowed (rq_headers req) o NotExempt = true)).
Proof.
  intros Ht Hc. destruct (build_placed _ _ Ht) as (Hi & Hm & Hp).
  destruct Hc as [r ep x s' Hin Hpk Ha Hme|entry o r peer res ep x s' Hin Hr Hx Hal Hpe Hre Hxc Hpk Hl Ha Hme].
  - apply picked_routes in Hpk. apply Hi in Hpk as [Hpk Hh]. exists r.
    split; [exact Hpk|]. split; [exact Ha|]. split; [exact Hme|]. left. exact (conj Hh Hin).
  - apply picked_routes in Hpk. exists r.
    assert (Hin' : r ∈ table (st_css setup) (st_dev setup)).
    { destruct entry; cbn [router_for] in Hpk; [apply Hm in Hpk|apply Hp in Hpk]; by destruct Hpk. }
    split; [exact Hin'|]. split; [exact Ha|]. split; [exact Hme|]. right. exists entry, o.
    split; [exact Hr|]. split; [|split].
    + intros ->. apply (Hm r Hpk).
    + intros Hne. destruct entry; [destruct (Hne eq_refl)|]. apply (Hp r Hpk).
    + intros Hs. destruct Hl as [Ho _ _ _]. destruct (Ho Hs) as (en & o' & Hx' & Ho').
      rewrite Hx in Hx'. injection Hx' as <- <-.
      rewrite (table_not_exempt _ _ _ Hin') in Ho'. exact Ho'.
Qed.

(** The projects of a database. *)
Definition same_projects (p0 : list Project) (d : Db) : Prop := projects d = p0.

#[local] Instance same_projects_tables p0 : TableInvariant (same_projects p0).
Proof.
  split; try done. intros hash user csrf now d x d' Hi Hd. unfold insert_session in Hi.
  destruct (_ || _); [done|]. by injection Hi as _ <-.
Qed.

#[local] Instance same_projects_commits p0 : AccountCommit (st_app setup) (same_projects p0).
Proof.
  split; [intros E A t; apply (account_tx_inv (st_app setup) (same_projects p0))|].
  intros now. unfold retention_sign_in. do 2 (apply inv_bind; [by apply inv_execute|]; intros _).
  by apply inv_execute.
Qed.

(** C2: only the admin changes projects. A request (with no other request in between) after
    which the projects table differs was a POST to the main host from the site's own
    origin, and passed the session layer with the CSRF token of a live session of the admin. *)
Theorem projects_change_only_by_the_admin (t : Routers) (req : Req) (s : Server) :
  built t -> others (sv_world s) = [] ->
  projects (db (sv_world (service setup e (handle setup e) t req s).2)) <> projects (db (sv_world s)) ->
  rq_method req = POST /\
  (exists o, routed_host setup (sv_map s) req = Some (Main, o) /\
     origin_allowed (rq_headers req) o NotExempt = true) /\
  (exists u, admitted_user e req s = Some u /\ role u = Admin).
Proof.
  intros Ht Ho Hne. pose (P := same_projects (projects (db (sv_world s)))).
  assert (Hg : good P (sv_world s)) by (split; [reflexivity|by rewrite Ho]).
  assert (Hsess : good P (session_world e req s)) by exact (layer_good P _ _ _ _ _ Hg).
  destruct (service_left setup e (handle setup e) t req s (called_hosts _ _ t Ht))
    as [[Hw _]|(ep & x & s' & Hc & Hw & _)].
  { rewrite <- ?Hw in *. destruct Hne. destruct Hw as [Hw|Hw]; rewrite Hw; [reflexivity|apply Hsess]. }
  rewrite Hw in Hne. assert (Hs' : good P (sv_world s')).
  { destruct (called_world _ _ _ _ _ _ Hc) as [Hs'|Hs']; rewrite Hs'; [exact Hg|exact Hsess]. }
  destruct (administering ep) eqn:Ea.
  2:{ destruct Hne. destruct (handle_one ep req x s') as [Heq|(r & [Hr _] & Heq)]; rewrite Heq; [apply Hs'|].
      rewrite Ea in Hr. apply (serve_account_good (st_app setup) P r _ Hr Hs'). }
  destruct (called_route _ _ _ _ _ _ Ht Hc) as (r & Hin & Hacc & Hme & Hwhere).
  pose proof (method_endpoint _ _ _ Hme) as Hep. destruct (table_methods_ok r Hin) as [Hok _].
  unfold admin_writes_ok in Hok. rewrite orb_true_iff, andb_true_iff, !negb_true_iff, bool_decide_eq_true in Hok.
  assert (Hex : forall l, ep ∈ l -> existsb administering l = true).
  { intros l Hl. apply existsb_exists. exists ep. split; [by apply list_elem_of_In|exact Ea]. }
  destruct Hok as [Hok|[Hmain Hok]]; [rewrite (Hex _ Hep) in Hok; discriminate Hok|].
  assert (Hpost : rq_method req = POST).
  { destruct (base.decide (rq_method req = POST)) as [Hx|Hx]; [exact Hx|].
    rewrite (Hex _ (method_not_post _ _ _ Hme Hx)) in Hok. discriminate Hok. }
  split; [exact Hpost|]. split.
  - destruct Hwhere as [[Hi _]|(entry & o & Hr & _ & Hp & Horigin)]; [congruence|]. exists o.
    destruct entry as [|i]; [|assert (Hn : ProjectHost i <> Main) by discriminate; apply Hp in Hn;
      rewrite Hmain in Hn; discriminate Hn].
    split; [exact Hr|]. apply Horigin. rewrite Hpost. reflexivity.
  - assert (Hadm : r_access r = AdminAccess).
    { rewrite (table_access _ _ _ _ Hin Hep). destruct ep; first [discriminate Ea|reflexivity]. }
    destruct (access_admitted e r req x s s' Hacc) as (u & _ & Hu & Hr); [rewrite Hadm; discriminate|].
    exists u. exact (conj Hu (Hr Hadm)).
Qed.

(** ** Safe methods *)

(** The same database but for when sessions were last used. *)
Definition forget_seen (d : Db) : Db := set_sessions (map (touch_session 0 0)) d.

Definition same_but_seen (d0 d : Db) : Prop := forget_seen d = forget_seen d0.

#[local] Instance same_but_seen_touch d0 : TouchCommit (same_but_seen d0).
Proof.
  split. intros user now. apply inv_execute. intros d Hd. unfold same_but_seen in *. rewrite <- Hd.
  unfold forget_seen, set_sessions. cbn. f_equal. unfold update_where. rewrite map_map.
  apply map_ext. intros s. by destruct (_ && _).
Qed.


(** ** Cross-site requests *)

Lemma cross_site_layered (h : Endpoint -> Service) r req x s entry o :
  r_host r <> InternalHost -> is_safe (rq_method req) = false -> x_routed x = Some (entry, o) ->
  origin_allowed (rq_headers req) o (r_headerless r) = false ->
  (layered e h r req x s).2 = s /\ 400 <= rs_status (layered e h r req x s).1 < 500.
Proof.
  intros Hr Hs Hx Ho. assert (Hin : forall n : Service,
    origin_layer (r_headerless r) n req x s = (reject 403 CrossSite, s)).
  { intros n. unfold origin_layer. by rewrite Hs, Hx, Ho. }
  unfold layered. cbv zeta. destruct (r_host r); [done|..];
    unfold cache_layer, errors_layer, timeout_layer; rewrite Hin;
    destruct (e_late e) as [[]|]; cbn [fst snd rs_status with_headers]; rewrite error_body_status; cbn; lia || done.
Qed.

(** A state-changing request from another site does nothing. When its Origin and
    Sec-Fetch-Site do not name the origin of the host it is sent to, no database access, no
    rate token and no change of the host map follows, whatever the session it carries, and
    it is answered with an error. *)
Theorem cross_site_writes_do_nothing (h : Endpoint -> Service) (t : Routers) (req : Req) (s : Server)
  (entry : HostEntry) (o : str) :
  built t -> is_safe (rq_method req) = false -> rq_path req ∉ internal_paths t ->
  routed_host setup (sv_map s) req = Some (entry, o) ->
  origin_allowed (rq_headers req) o NotExempt = false ->
  let '(r, s') := service setup e h t req s in
  sv_world s' = sv_world s /\ sv_map s' = sv_map s /\ sv_mail s' = sv_mail s /\ 400 <= rs_status r.
Proof.
  intros Ht Hs Hni Hr Ho. unfold service, headers_layer.
  enough (Hd : let '(r, s') := dispatch setup e h t req no_exts s in
    sv_world s' = sv_world s /\ sv_map s' = sv_map s /\ sv_mail s' = sv_mail s /\ 400 <= rs_status r).
  { destruct (dispatch setup e h t req no_exts s) as [r s']. by destruct (counted r). }
  unfold dispatch. destruct (existsb _ _) eqn:Ei.
  { apply existsb_exists in Ei as (p & Hp%list_elem_of_In & Heq%zlist_eqb_eq). rewrite Heq in Hni. contradiction. }
  rewrite Hr. assert (Hgo : let '(r, s') := host_router setup e h (router_for t entry) req
      (set_routed (entry, o) no_exts) s in
    sv_world s' = sv_world s /\ sv_map s' = sv_map s /\ sv_mail s' = sv_mail s /\ 400 <= rs_status r).
  { unfold host_router, client_address_layer. destruct (rq_peer req) as [peer|]; [|by split_and!].
    destruct (resolve _ _ _) as [res|]; [|by split_and!].
    set (s1 := set_warnings _ s). set (x1 := set_client _ _).
    assert (Hl : forall r x, r ∈ routes_of (router_for t entry) -> x_routed x = Some (entry, o) ->
      let '(a, s') := layered e h r req x s1 in
      sv_world s' = sv_world s /\ sv_map s' = sv_map s /\ sv_mail s' = sv_mail s /\ 400 <= rs_status a).
    { intros r x Hin Hx. destruct (build_placed _ _ Ht) as (_ & Hm & Hp).
      assert (Hin' : r ∈ table (st_css setup) (st_dev setup) /\ r_host r <> InternalHost).
      { destruct entry; [destruct (Hm r Hin) as [H1' H2']|destruct (Hp r Hin) as [H1' H2']];
          (split; [exact H1'|]); intros He; rewrite He in H2'; discriminate H2'. }
      destruct Hin' as [Hin' Hh]. rewrite <- (table_not_exempt _ _ _ Hin') in Ho.
      destruct (cross_site_layered h r req x s1 entry o Hh Hs Hx Ho) as [H1' H2'].
      destruct (layered e h r req x s1) as [a s']. cbn [fst snd] in *. subst s'.
      split; [reflexivity|]. split; [reflexivity|]. split; [reflexivity|lia]. }
    destruct (router_service_cases e h (router_for t entry) req x1 s1)
      as [(p & r & _ & Hin & Heq)|[(r & Hf & _ & Heq)|[_ Heq]]]; rewrite Heq.
    - apply Hl; [by eapply router_routes_of|reflexivity].
    - apply Hl; [|reflexivity]. apply elem_of_app. right. rewrite Hf. by left.
    - by split_and!. }
  destruct entry; [|exact Hgo]. destruct (admin_isolation_allows _ _ _); [exact Hgo|by split_and!].
Qed.
End Worlds.
