(* ===== verification/Samples.v ===== *)
(** * The theorems on concrete runs

    Worlds that satisfy the hypotheses of the theorems over the [Crates], with the stand-in
    crates of [Demo], and one run that shows a defect. *)

From S2P Require Import Prelude Str Codec Keys Net Rate Cli Config Urls Totp Text Time Http Db.
From S2P Require Import Outbox Auth Credentials Accounts Hosts Projects Jobs System Demo.

(** Conversion leaves the requests folded. *)
#[local] Strategy 1000 [write read check Credentials.decide login_submit layer change_password reset_password
  link_submit queue_reset confirm_totp create_handler delete_handler sha256 base64url_encode].

(** ** A small instance *)

Definition the_app : App :=
  {| app_secret := replicate 32 7;
     app_base_url := {| https := true; host := lit "kohaku.example"; port := None |} |}.

Definition the_password : str := lit "correct horse battery".
Definition the_salt : bytes := replicate 16 9.

(** Random octets for a run. *)
Definition octets (n : nat) : Tape := map (fun i => Z.of_nat i mod 256) (seq 0 n).

Definition account (i : Z) (e : str) (r : Role) (nonce : option bytes) : User :=
  {| u_id := i; u_email := e; u_password_hash := Some (argon2_hash the_salt (utf8 the_password));
     u_role := r; u_disabled := false; u_totp_nonce := nonce; u_totp_last_step := None;
     u_failed_logins := 0; u_locked_until := None; u_device_failures := 0;
     u_device_window_start := None; u_lockout_mailed_at := None; u_created_at := 0 |}.

Definition mia : User := account 1 (lit "mia@kohaku.example") Maintainer None.
Definition ada : User := account 2 (lit "ada@kohaku.example") Admin (Some (replicate 16 5)).

(** The clock of the samples. *)
Definition t0 : Z := 1700000000.

Definition accounts_db : Db := set_users (fun _ => [mia; ada]) empty_db.
Definition start : World := quiet accounts_db (octets 400).

Definition cookies_of (r : Response Page) : list str :=
  match r with SeeOther _ cs => cs | _ => [] end.

Lemma answered {A B} (x : A * B) (a : A) : x.1 = a -> x = (a, x.2).
Proof. by intros <-; destruct x. Qed.

(** Runs a request whose answer is named and whose world is a definition. *)
Ltac run :=
  match goal with
  | |- ?t = (?a, ?w) => unfold w; refine (answered t a _); vm_compute; reflexivity
  end.

(** ** Signing in *)

(** Ada's code at [t0], from the seed of her nonce. *)
Definition ada_code : str := Totp.code (account_seed the_app 2 (replicate 16 5)) (t0 / 30).

Definition ada_form : LoginForm :=
  {| lf_email := lit " Ada@kohaku.example"; lf_password := the_password; lf_code := ada_code |}.

Definition ada_cookies : list str := cookies_of (login_submit the_app true [] ada_form t0 start).1.
Definition ada_in : World := (login_submit the_app true [] ada_form t0 start).2.

Lemma ada_logs_in :
  login_submit the_app true [] ada_form t0 start = (SeeOther HOME ada_cookies, ada_in).
Proof. run. Qed.

Lemma ada_session : map s_user_id (sessions (db ada_in)) = [2].
Proof. vm_compute. reflexivity. Qed.

Lemma find_ada : find (ById 2) accounts_db = Some (account_row ada).
Proof. vm_compute. reflexivity. Qed.

Lemma login_needs_every_factor_witness :
  login_submit the_app true [] ada_form t0 start = (SeeOther HOME ada_cookies, ada_in) /\
  exists d1, factor_used 2 (account_seed the_app 2 (replicate 16 5)) ada_code t0 accounts_db d1.
Proof.
  split; [exact ada_logs_in|].
  destruct (login_needs_every_factor the_app true [] ada_form t0 start _ _ _ ada_logs_in)
    as (a & h & known & d1 & _ & Hf & _ & _ & _ & _ & _ & _ & Hfac & s & Hs & Hsu).
  pose proof ada_session as Ho. rewrite Hs, map_app in Ho. injection Ho as Ho. rewrite Hsu in Ho.
  rewrite Ho in *. change (interfere (interfere start)) with start in *.
  change (db start) with accounts_db in *. rewrite find_ada in Hf. injection Hf as <-.
  exists d1. exact Hfac.
Defined.


(** ** A signed-in browser *)

Definition mia_token : str := base64url_encode (octets 32).
Definition mia_csrf : bytes := replicate 32 3.

Definition mia_session (pending : option bytes) : Session :=
  {| s_id := 1; s_token_hash := sha256 (utf8 mia_token); s_user_id := 1; s_csrf_token := mia_csrf;
     s_created_at := t0; s_last_seen := t0; s_pending_totp_nonce := pending |}.

Definition mia_user : SessionUser := session_user (mia_session None) mia.

Definition signed_in (pending : option bytes) : World :=
  quiet (set_sessions (fun _ => [mia_session pending]) accounts_db) (octets 400).

Definition mia_headers : list bytes := [lit "a=b; __Host-kohaku_session=" ++ mia_token].

Lemma mia_passes :
  layer POST mia_headers (Some (csrf_field mia_user)) (t0 + 5) (signed_in None) =
  (Proceed mia_user, (layer POST mia_headers (Some (csrf_field mia_user)) (t0 + 5) (signed_in None)).2).
Proof. apply answered. vm_compute. reflexivity. Qed.

Lemma layer_needs_live_session_witness :
  exists token s u, cookie_token mia_headers SESSION_COOKIE = Some token /\
    s_token_hash s = sha256 (utf8 token) /\ t0 + 5 < s_last_seen s + IDLE_SECONDS /\
    mia_user = session_user s u /\ base64url_decode (csrf_field mia_user) = Some (s_csrf_token s).
Proof.
  destruct (layer_needs_live_session POST mia_headers (Some (csrf_field mia_user)) (t0 + 5)
    (signed_in None) _ mia_user mia_passes)
    as (token & s & u & Ht & _ & Hh & _ & _ & _ & Hi & _ & Hu & [H|[H|(f & [= <-] & Hf)]]);
    [discriminate H|discriminate H|].
  exists token, s, u. exact (conj Ht (conj Hh (conj Hi (conj Hu Hf)))).
Defined.

(** ** New passwords *)

Definition mia_change : PasswordForm :=
  {| pf_current_password := the_password; pf_code := []; pf_new_password := lit "a new long password";
     pf_new_password_again := lit "a new long password" |}.

Definition mia_changed : World :=
  (change_password the_app true true mia_user mia_headers mia_change (t0 + 5) (signed_in None)).2.

Lemma mia_changes :
  change_password the_app true true mia_user mia_headers mia_change (t0 + 5) (signed_in None) =
  (SeeOther LOGIN_PATH [], mia_changed).
Proof. run. Qed.


(** ** Reset links *)

Definition linked : World := (reset_password the_app (lit "mia@kohaku.example") t0 start).2.
Definition link_token : str := base64url_encode (octets 32).

Definition the_link : str := lit "https://kohaku.example/admin/reset/" ++ link_token.

Lemma link_printed : reset_password the_app (lit "mia@kohaku.example") t0 start = (Ok the_link, linked).
Proof. run. Qed.

Lemma printed_link_works_witness :
  exists token user, the_link = lit "https://kohaku.example" ++ lit "/admin/reset/" ++ token /\
    count_where (unused_reset_of (Some user)) (tokens (db linked)) = 1.
Proof.
  destruct (printed_link_works the_app (lit "mia@kohaku.example") t0 start linked the_link link_printed)
    as (token & user & Hl & _ & _ & Hc & _).
  exists token, user. split; [exact Hl|exact Hc].
Defined.

Definition reset_done : World :=
  (link_submit the_app true link_token (lit "a new long password") (lit "a new long password") (t0 + 9)
     (t0 + 10) linked).2.

Lemma link_used :
  link_submit the_app true link_token (lit "a new long password") (lit "a new long password") (t0 + 9)
    (t0 + 10) linked = (Html DonePage, reset_done).
Proof. run. Qed.

Lemma reset_link_sets_password_witness :
  exists t user u, t ∈ tokens (db linked) /\ t_token_hash t = sha256 (utf8 link_token) /\
    t_user_id t = Some user /\ find_user (db linked) user = Some u /\
    Forall (fun t => unused_reset_of (Some user) t = false) (tokens (db reset_done)).
Proof.
  destruct (reset_link_sets_password the_app true link_token (lit "a new long password")
    (lit "a new long password") (t0 + 9) (t0 + 10) linked reset_done link_used)
    as (t & user & u & salt & Ht & Hh & _ & _ & _ & Hu & Hf & _ & _ & _ & _ & _ & Hun & _).
  assert (Hq : interfere (interfere linked) = linked) by (vm_compute; reflexivity).
  rewrite Hq in *. exists t, user, u. exact (conj Ht (conj Hh (conj Hu (conj Hf Hun)))).
Defined.

Lemma accounts_db_wf : accounts_wf accounts_db.
Proof.
  split; try (apply NoDup_nil_2 || apply Forall_nil_2); try (intros u; vm_compute; discriminate).
  - apply (bool_decide_unpack _). vm_compute. exact I.
  - apply (bool_decide_unpack _). vm_compute. exact I.
Qed.

Lemma start_good : good accounts_wf start.
Proof. split; [exact accounts_db_wf|apply Forall_nil_2]. Qed.

Lemma linked_wf : accounts_wf (db linked).
Proof.
  exact (proj1 (serve_good the_app accounts_wf
    (ResetPasswordCommand (lit "mia@kohaku.example") t0) start start_good)).
Qed.

Lemma alone w : others w = [] -> interfere w = w.
Proof. unfold interfere. by intros ->. Qed.

Lemma linked_alone : interfere (interfere linked) = linked.
Proof. rewrite !alone; [reflexivity| |]; vm_compute; reflexivity. Qed.

(** An unlock and then retention run after the reset. *)
Definition unlocked : World := (with_account_tx (lit "mia@kohaku.example") (unlock_tx (t0 + 50)) reset_done).2.
Definition swept : World := (retention_sign_in (t0 + 99) unlocked).2.

Lemma unlock_runs :
  with_account_tx (lit "mia@kohaku.example") (unlock_tx (t0 + 50)) reset_done = (Ok tt, unlocked).
Proof. run. Qed.

Lemma sweep_runs : retention_sign_in (t0 + 99) unlocked = (Ok tt, swept).
Proof. run. Qed.

Lemma later_history :
  rtc (step_no_clash the_app (sha256 (utf8 link_token))) (db reset_done) (db swept).
Proof.
  eapply rtc_l; [|apply rtc_once]; split.
  - eapply step_tx; [apply account_transaction, of_request, (tx_unlock the_app (lit "mia@kohaku.example") (t0 + 50))|exact unlock_runs|done|done].
  - intros _. apply (bool_decide_unpack _). vm_compute. exact I.
  - eapply step_sign_in; [exact sweep_runs|done|done].
  - intros _. apply (bool_decide_unpack _). vm_compute. exact I.
Qed.

Lemma swept_alone : interfere (interfere swept) = swept.
Proof. rewrite !alone; [reflexivity| |]; vm_compute; reflexivity. Qed.

Lemma reset_link_works_once_witness :
  link_submit the_app true link_token (lit "a new long password") (lit "a new long password") (t0 + 9)
    (t0 + 10) linked = (Html DonePage, reset_done) /\
  (link_submit the_app true link_token (lit "another long one") (lit "another long one") (t0 + 100)
    (t0 + 101) swept).1 <> Html DonePage.
Proof.
  split; [exact link_used|].
  apply (reset_link_works_once the_app true true link_token _ _ _ _ _ _ _ _ _ _ swept link_used).
  - rewrite linked_alone. exact linked_wf.
  - rewrite swept_alone. exact later_history.
Defined.

(** ** Whole histories *)

(** Between this request's transactions another one asks for a reset link. *)
Definition another (d : Db) : Db :=
  db (serve the_app (ResetPasswordCommand (lit "ada@kohaku.example") t0) (quiet d (octets 32))).

Definition disturbed : World :=
  {| db := accounts_db; tape := octets 400; faults := [false; false; false; true]; others := [another];
     statements := 0; wakes := 0; password_checks := 0; dummy := None |}.

Lemma requests_are_transactions_witness :
  rtc (step the_app) (db disturbed)
    (db (serve the_app (LoginRequest true [] ada_form t0) disturbed)).
Proof.
  apply requests_are_transactions. constructor; [|constructor].
  intros d. apply (requests_are_transactions the_app _ (quiet d (octets 32))). constructor.
Defined.

Lemma another_keeps d : accounts_wf d -> accounts_wf (another d).
Proof.
  intros Hd. apply (serve_good the_app accounts_wf). split; [exact Hd|apply Forall_nil_2].
Qed.

Lemma accounts_stay_wf_witness :
  accounts_wf (db (serve the_app (LoginRequest true [] ada_form t0) disturbed)).
Proof.
  apply accounts_stay_wf; [exact accounts_db_wf|]. constructor; [exact another_keeps|constructor].
Defined.

(** ** Second factors *)

Definition pending_nonce : bytes := replicate 16 8.

Definition enroll_code : str := Totp.code (account_seed the_app 1 pending_nonce) (t0 / 30).

Definition enrolled : World := (confirm_totp the_app mia_user enroll_code t0 (signed_in (Some pending_nonce))).2.

Definition shown_codes (r : Response Page) : list str :=
  match r with Html (CodesPage _ _ shown) => shown | _ => [] end.

Definition mia_codes : list str :=
  shown_codes (confirm_totp the_app mia_user enroll_code t0 (signed_in (Some pending_nonce))).1.

Lemma mia_enrolls :
  confirm_totp the_app mia_user enroll_code t0 (signed_in (Some pending_nonce)) =
  (Html (CodesPage (nav_of mia_user)
     (lit "Two-factor login is on. Every other session was signed out.") mia_codes), enrolled).
Proof. run. Qed.

Lemma enrollment_takes_effect_witness :
  exists nonce step codes, mia_codes = map display codes /\ length codes = COUNT /\
    matching_step (account_seed the_app 1 nonce) (trim enroll_code) t0 = Some step /\
    Forall (fun u => u_id u = 1 -> u_totp_nonce u = Some nonce /\ u_totp_last_step u = Some step)
      (users (db enrolled)).
Proof.
  destruct (enrollment_takes_effect the_app mia_user enroll_code t0 (signed_in (Some pending_nonce))
    enrolled (nav_of mia_user) (lit "Two-factor login is on. Every other session was signed out.")
    mia_codes mia_enrolls) as (nonce & step & s & codes & _ & _ & _ & Hm & Hu & Hsh & Hl & _).
  exists nonce, step, codes. exact (conj Hsh (conj Hl (conj Hm Hu))).
Defined.

Definition coded : World := (replace_codes 2 start).2.
Definition ada_codes : list str := default [] (ok (replace_codes 2 start).1).

Lemma ada_codes_made : replace_codes 2 start = (Ok ada_codes, coded).
Proof. run. Qed.

Lemma fresh_codes_work_once_witness :
  replace_codes 2 start = (Ok ada_codes, coded) /\ length ada_codes = COUNT /\ NoDup ada_codes.
Proof.
  split; [exact ada_codes_made|].
  destruct (fresh_codes_work_once 2 start coded ada_codes ada_codes_made) as (Hl & Hd & _).
  exact (conj Hl Hd).
Defined.

(** Two codes of Ada, half a minute apart. *)
Definition ada_seed : bytes := account_seed the_app 2 (replicate 16 5).
Definition first_accepted : World := (code_accepted 2 ada_seed ada_code t0 start).2.
Definition next_code : str := Totp.code ada_seed ((t0 + 30) / 30).
Definition second_accepted : World := (code_accepted 2 ada_seed next_code (t0 + 30) first_accepted).2.

Lemma first_code_accepted : code_accepted 2 ada_seed ada_code t0 start = (Ok true, first_accepted).
Proof. run. Qed.

Lemma next_code_accepted :
  code_accepted 2 ada_seed next_code (t0 + 30) first_accepted = (Ok true, second_accepted).
Proof. run. Qed.


Definition added : World := (add_device 1 t0 start).2.

Lemma device_added : add_device 1 t0 start = (Ok mia_token, added).
Proof. run. Qed.

Lemma device_cookies_capped_witness :
  count_where (fun v => d_user_id v =? 1) (known_devices (db added)) <= 10 /\
  is_known_device 1 (sha256 (utf8 mia_token)) t0 (db added) = true.
Proof.
  destruct (device_cookies_capped 1 t0 start added mia_token device_added (NoDup_nil_2))
    as (Hc & _ & _ & Hk).
  split; [exact Hc|]. apply Hk. intros v Hv. apply not_elem_of_nil in Hv. destruct Hv.
Defined.

(** ** Failed and refused sign-ins *)

Definition wrong_attempt : Attempt :=
  {| at_account := ByEmail (lit "mia@kohaku.example"); at_password := lit "guess"; at_code := [];
     at_device := None |}.

Definition nothing (a : Account) (now : Z) : Tx AuthError unit := mret tt.

Definition refused : World := (check the_app true wrong_attempt t0 nothing start).2.

Lemma guess_refused : check the_app true wrong_attempt t0 nothing start = (Ok Failure, refused).
Proof. run. Qed.

Lemma failure_changes_only_counters_witness :
  check the_app true wrong_attempt t0 nothing start = (Ok Failure, refused) /\
  map u_failed_logins (users (db refused)) = [1; 0] /\ secrets (db refused) = secrets accounts_db.
Proof.
  split; [exact guess_refused|]. split; [vm_compute; reflexivity|].
  apply (failure_changes_only_counters the_app true wrong_attempt t0 nothing start refused Failure guess_refused).
  - intros t H. discriminate H.
  - reflexivity.
Defined.

Lemma check_hashes_once_witness : password_checks refused = password_checks start + 1.
Proof.
  apply (check_hashes_once the_app true wrong_attempt t0 nothing start refused Failure).
  - intros a n. apply hashless_mret.
  - exact guess_refused.
Defined.

Definition locked : World :=
  quiet (set_users (update_where (fun u => u_id u =? 1) (set_lockout 0 (Some (t0 + 600)) 0 None None))
           accounts_db) (octets 400).

Definition right_attempt : Attempt :=
  {| at_account := ByEmail (lit "mia@kohaku.example"); at_password := the_password; at_code := [];
     at_device := None |}.

Definition held : World := (check the_app true right_attempt t0 nothing locked).2.

Lemma lock_holds : check the_app true right_attempt t0 nothing locked = (Ok Failure, held).
Proof. run. Qed.

Lemma locked_account_is_frozen_witness :
  check the_app true right_attempt t0 nothing locked = (Ok Failure, held) /\ db held = db locked.
Proof.
  split; [exact lock_holds|].
  apply (locked_account_is_frozen the_app true right_attempt t0 (t0 + 600) nothing locked held Failure
    (account_row (set_lockout 0 (Some (t0 + 600)) 0 None None mia)) lock_holds); try (vm_compute; reflexivity).
Defined.

(** Twelve wrong passwords in one minute: ten are weighed. *)
Definition burst : list Z := map (fun i => t0 + 5 * Z.of_nat i) (seq 0 12).

Lemma guess_rate_bound_witness :
  guesses the_app 1 burst accounts_db = 10 /\ 90 * guesses the_app 1 burst accounts_db <= 60 + 900.
Proof.
  split; [vm_compute; reflexivity|].
  apply (guess_rate_bound the_app 1 t0 (t0 + 60) burst accounts_db mia).
  - vm_compute. reflexivity.
  - split; [vm_compute; split; [discriminate|reflexivity]|]. intros l H. discriminate H.
  - vm_compute. repeat split; discriminate.
  - lia.
  - repeat (constructor; [vm_compute; discriminate|]). constructor.
Defined.

(** ** The outbox *)

Lemma sample_outbox_inv : outbox_inv sample_db.
Proof.
  split_and!.
  - intros m [->|[->|[]%not_elem_of_nil]%elem_of_cons]%elem_of_cons _; reflexivity.
  - intros m m' [->|[->|[]%not_elem_of_nil]%elem_of_cons]%elem_of_cons
      [->|[->|[]%not_elem_of_nil]%elem_of_cons]%elem_of_cons; (reflexivity || discriminate).
  - intros m [->|[->|[]%not_elem_of_nil]%elem_of_cons]%elem_of_cons; discriminate.
Qed.

Lemma outbox_stays_sound_witness :
  outbox_inv sample_db /\
  outbox_inv (db (write (record (KINDS 5) 1 Outbox.Sent 6) (quiet sample_db [])).2).
Proof.
  split; [exact sample_outbox_inv|].
  destruct (outbox_stays_sound 5 5 6 1 Outbox.Sent
    {| n_kind := PASSWORD_CHANGED; n_recipient := ToUser 7; n_subject := lit "s"; n_body := lit "b";
       n_placeholder := false |} (quiet sample_db []) sample_outbox_inv) as (_ & Hr & _).
  exact Hr.
Defined.

(** Mia asks for a reset link at [t0] and again half an hour later, while the mail server
    is down; at the end of the first mail's hour the worker picks the next one. *)
Definition asked_once : World := (write (queue_reset the_app (lit "mia@kohaku.example") t0) start).2.
Definition asked_twice : World :=
  (write (queue_reset the_app (lit "mia@kohaku.example") (t0 + 1800)) asked_once).2.
Definition worker_woke : World := (write (pick (KINDS (t0 + 3600)) (t0 + 3600)) asked_twice).2.
Definition second_token : str := base64url_encode (drop 32 (octets 64)).

(** Giving up the expired first mail voids the newer link, half an hour before its time,
    and the same round goes on to send the mail that carries it. *)
Theorem stale_mail_voids_newer_link :
  (link_form second_token (t0 + 3600) asked_twice).1 = Html (FormPage second_token None) /\
  (link_form second_token (t0 + 3600) worker_woke).1 = Html InvalidPage /\
  due_id <$> (match (write (pick (KINDS (t0 + 3600)) (t0 + 3600)) asked_twice).1 with
              | Ok (Due r) => Some r
              | _ => None
              end) = Some 2.
Proof. split_and!; vm_compute; reflexivity. Qed.

(** ** Projects *)

Definition the_settings : Settings := settings_new (lit "Amber") (Some (lit "amber.example.net")).

Definition the_project : Project :=
  {| p_id := 1; p_slug := lit "amber"; p_settings := the_settings; p_created_at := t0 |}.

Definition site : World := quiet (set_projects (fun _ => [the_project]) 1 accounts_db) (octets 64).
Definition site_map : HostMap := load (app_base_url the_app) (db site).

Lemma site_hosts_unique : hosts_unique (projects (db site)).
Proof. split; apply NoDup_singleton. Qed.

Lemma site_good : good (site_ok (app_base_url the_app)) site.
Proof.
  split; [split; [split|]|apply Forall_nil_2].
  - apply NoDup_singleton.
  - exact site_hosts_unique.
  - repeat constructor; discriminate.
  - discriminate.
  - repeat constructor.
  - repeat constructor. discriminate.
Qed.

Definition new_form : CreateForm :=
  {| cf_slug := lit "brass"; cf_name := lit " Brass "; cf_public_host := lit "brass.example.net" |}.

Definition clash_form : CreateForm :=
  {| cf_slug := lit "brass"; cf_name := lit "Brass"; cf_public_host := lit "AMBER.example.net" |}.

Lemma administration_keeps_sites_apart_witness :
  site_ok (app_base_url the_app) (db (create_handler the_app mia_user clash_form t0 (site, site_map)).2.1).
Proof.
  destruct (administration_keeps_sites_apart the_app mia_user (lit "amber") (lit "amber") clash_form
    (form_of the_settings) {| arg_slug := []; arg_name := []; arg_host := None |} t0 site site_map site_good)
    as (H & _).
  exact H.
Defined.

Definition made : Response ProjectPage * (World * HostMap) :=
  create_handler the_app mia_user new_form t0 (site, site_map).

Lemma project_made :
  create_handler the_app mia_user new_form t0 (site, site_map) =
  (SeeOther (lit "/admin/p/brass/settings") [], (made.2.1, made.2.2)).
Proof.
  assert (Hp : forall x : World * HostMap, x = (x.1, x.2)) by (by intros []).
  rewrite <- (Hp made.2). unfold made. refine (answered (create_handler _ _ _ _ _) _ _).
  vm_compute. reflexivity.
Qed.

Lemma create_form_creates_witness :
  create_handler the_app mia_user new_form t0 (site, site_map) =
    (SeeOther (lit "/admin/p/brass/settings") [], (made.2.1, made.2.2)) /\
  exists slug n h, parse_slug (lit "brass") = Ok slug /\ parse_name (lit " Brass ") = Ok n /\
    map p_settings (projects (db made.2.1)) = [the_settings; settings_new n h].
Proof.
  split; [exact project_made|].
  destruct (create_form_creates the_app mia_user new_form t0 site made.2.1 site_map made.2.2
    (lit "/admin/p/brass/settings") [] project_made eq_refl)
    as (slug & n & h & i & Hs & Hn & _ & _ & _ & _ & Hp & _).
  exists slug, n, h. split; [exact Hs|]. split; [exact Hn|]. rewrite Hp. reflexivity.
Defined.

Definition removed : Response ProjectPage * (World * HostMap) :=
  delete_handler the_app mia_user (lit "amber") (lit "amber") t0 (site, site_map).

Lemma project_removed :
  delete_handler the_app mia_user (lit "amber") (lit "amber") t0 (site, site_map) =
  (removed.1, (removed.2.1, removed.2.2)).
Proof. unfold removed. by destruct (delete_handler _ _ _ _ _ _) as [? [? ?]]. Qed.

Lemma projects_removed : projects (db removed.2.1) = [].
Proof. vm_compute. reflexivity. Qed.

Lemma deletion_needs_the_slug_witness :
  exists p, find_project (lit "amber") (db site) = Some p /\
    projects (db removed.2.1) = delete_where (fun q => p_id q =? p_id p) (projects (db site)).
Proof.
  destruct (deletion_needs_the_slug the_app mia_user (lit "amber") (lit "amber") t0 site removed.2.1
    site_map removed.2.2 removed.1 project_removed eq_refl) as [H|(p & Hf & _ & _ & Hp & _)].
  - apply (f_equal projects) in H. rewrite projects_removed in H. discriminate H.
  - exists p. split; [exact Hf|exact Hp].
Defined.

Lemma settings_form_roundtrip_witness :
  form_parse (form_of the_settings) (app_base_url the_app) = Ok the_settings.
Proof.
  apply (settings_form_roundtrip
    {| sf_name := lit " Amber"; sf_public_host := lit "Amber.example.net"; sf_screenshots_enabled := None;
       sf_features_enabled := None; sf_require_email := None; sf_plus_one_enabled := Some (lit "on");
       sf_privacy_notice := []; sf_security_contact := [] |}).
  vm_compute. reflexivity.
Defined.

Lemma load_routes_exactly_witness :
  get_host site_map (lit "kohaku.example") = Some Main /\
  domain site_map (lit "amber") = Some (lit "amber.example.net").
Proof.
  destruct (load_routes_exactly (app_base_url the_app) (db site) (lit "kohaku.example") (lit "amber")
    site_hosts_unique) as (Hm & _ & Hd).
  - repeat constructor. discriminate.
  - split; [by apply Hm|]. apply Hd. exists the_project. split; [apply list_elem_of_singleton|]; done.
Defined.

Lemma redirect_only_to_stored_domain_witness :
  exists slug rest h, lit "/p/amber/b" = lit "/p/" ++ slug ++ rest /\ domain site_map slug = Some h.
Proof.
  destruct (redirect_only_to_stored_domain site_map (lit "/p/amber/b") (Some (lit "q=1"))
    (lit "https://amber.example.net/b?q=1")) as (slug & rest & h & Hp & _ & _ & _ & _ & Hd & _).
  - vm_compute. reflexivity.
  - exists slug, rest, h. split; [exact Hp|exact Hd].
Defined.

(** ** Jobs *)

Lemma retention_removes_the_dead_witness :
  users (db (retention (KINDS t0) (t0 + 12 * 60 * 60) (signed_in None))) = [mia; ada] /\
  mia_session None ∉ sessions (db (retention (KINDS t0) (t0 + 12 * 60 * 60) (signed_in None))).
Proof.
  destruct (retention_removes_the_dead t0 (t0 + 12 * 60 * 60) (signed_in None) eq_refl eq_refl)
    as (Hu & Hs & _).
  split; [exact Hu|]. intros (_ & Hi & _)%Hs. vm_compute in Hi. discriminate Hi.
Defined.

Lemma jobs_keep_their_phase_witness :
  due_jobs (schedule_new 0) (150 * 1000000000) =
    ([Sweep; Retention], {| next_sweep := 180 * 1000000000; next_retention := RETENTION_EVERY |}) /\
  150 * 1000000000 < next_wake {| next_sweep := 180 * 1000000000; next_retention := RETENTION_EVERY |}.
Proof.
  assert (Hd : due_jobs (schedule_new 0) (150 * 1000000000) =
    ([Sweep; Retention], {| next_sweep := 180 * 1000000000; next_retention := RETENTION_EVERY |}))
    by (vm_compute; reflexivity).
  split; [exact Hd|]. apply (jobs_keep_their_phase _ _ _ _ Hd).
Defined.
