(* ===== verification/Web.v ===== *)
(** * A stand-in for the web framework

    An executable instance of [Axum] that satisfies its laws, so that whole requests run in
    the samples. It is no claim about the framework itself. *)

From S2P Require Import Prelude Str Net Http Checks Routes Pipeline.

Definition is_static (p : str) : bool := bool_decide (123 ∉ p).

(** [{*name}] after the literal part. *)
Definition is_catch_all (p : str) : bool :=
  starts_with (lit "{*") (drop (length (literal_prefix p)) p).

(** Segments: a literal one, or a [{name}] for any non-empty one. *)
Fixpoint segments_match (ps ss : list str) : bool :=
  match ps, ss with
  | [], [] => true
  | p :: ps, s :: ss =>
      (if starts_with (lit "{*") p then true
       else if starts_with (lit "{") p then negb (zlist_eqb s []) && segments_match ps ss
       else zlist_eqb p s && segments_match ps ss)
  | _, _ => false
  end.

Definition matches_path (p path : str) : bool :=
  starts_with (literal_prefix p) path
  && (if is_catch_all p then (length (literal_prefix p) <? length path)%nat
      else segments_match (split 47 p) (split 47 path)).

Definition stand_in_route (ps : list str) (path : str) : option str :=
  match find_first (fun p => is_static p && zlist_eqb p path) ps with
  | Some p => Some p
  | None => find_first (fun p => negb (is_static p) && matches_path p path) ps
  end.

Definition stand_in_param (pattern path : str) : result Z str :=
  ok_or 500 (snd <$> find_first (fun ps => starts_with (lit "{") ps.1)
               (zip (split 47 pattern) (split 47 path))).

(** Names and values without percent encoding. *)
Definition stand_in_form (cap : option Z) (req : Req) : result Z (str -> option str) :=
  if is_some_and (fun c => c <? Z.of_nat (length (rq_body req))) cap then Err 413
  else
    let pairs := omap (split_once 61) (split 38 (rq_body req)) in
    Ok (fun name => snd <$> find_first (fun kv => zlist_eqb kv.1 name) pairs).

#[export] Instance stand_in : Axum := {|
  route_of := stand_in_route;
  method_of := fun m x =>
    match (if is_safe x then on_get m else if bool_decide (x = POST) then on_post m else None) with
    | Some e => Some e
    | None => otherwise m
    end;
  not_allowed_headers := fun m => [(lit "allow", match on_get m with Some _ => lit "GET,HEAD" | None => lit "POST" end)];
  path_param := stand_in_param;
  form_fields := stand_in_form;
  over_limit := fun c req => c <? Z.of_nat (length (rq_body req)) |}.

(** ** The laws *)

Lemma literal_prefix_param (prefix rest : str) : 123 ∉ prefix -> literal_prefix (prefix ++ 123 :: rest) = prefix.
Proof.
  intros Hp. unfold literal_prefix. rewrite (proj2 (split_once_spec 123 _ prefix rest)); [done|by split].
Qed.

Lemma find_first_is_Some {A} (p : A -> bool) l x : x ∈ l -> p x = true -> is_Some (find_first p l).
Proof.
  intros Hx Hp. destruct (find_first p l) eqn:E; [by eexists|]. apply find_first_None in E.
  rewrite Forall_forall in E. specialize (E x Hx). congruence.
Qed.

#[export] Instance stand_in_laws : AxumLaws.
Proof.
  split; cbn [route_of method_of stand_in]; unfold stand_in_route.
  - intros ps path p. destruct (find_first _ ps) as [q|] eqn:E.
    + intros [= <-]. by apply find_first_Some in E as [Hin _].
    + intros Hf. by apply find_first_Some in Hf as [Hin _].
  - intros ps p Hin Hst.
    destruct (find_first_is_Some (fun q => is_static q && zlist_eqb q p) ps p Hin) as [q Hq].
    { unfold is_static. rewrite bool_decide_eq_true_2 by done. apply zlist_eqb_refl. }
    rewrite Hq. apply find_first_Some in Hq as [_ Hq]. apply andb_true_iff in Hq as [_ Hq].
    by apply zlist_eqb_eq in Hq as ->.
  - intros ps path p. destruct (find_first _ ps) as [q|] eqn:E.
    + intros [= <-]. apply find_first_Some in E as [_ E]. apply andb_true_iff in E as [Hs Eq].
      apply zlist_eqb_eq in Eq as ->. unfold is_static in Hs. apply bool_decide_eq_true in Hs. split; [|done].
      unfold literal_prefix. rewrite (proj2 (split_once_None 123 path) Hs). cbn. apply starts_with_spec.
      exists []. by rewrite app_nil_r.
    + intros Hf. apply find_first_Some in Hf as [_ Hf]. apply andb_true_iff in Hf as [Hs Hm].
      unfold matches_path in Hm. apply andb_true_iff in Hm as [Hm _]. split; [done|]. intros Hst.
      unfold is_static in Hs. by rewrite bool_decide_eq_true_2 in Hs.
  - intros ps prefix name rest Hpre Hname Hin Hrest.
    destruct (find_first _ ps) as [q|]; [by eexists|].
    apply (find_first_is_Some _ _ _ Hin). change (prefix ++ lit "{*" ++ name ++ lit "}")
      with (prefix ++ 123 :: (42 :: name ++ lit "}")). apply andb_true_iff. split.
    + unfold is_static. rewrite bool_decide_eq_false_2; [done|]. intros Hn. apply Hn. set_solver.
    + unfold matches_path, is_catch_all. rewrite literal_prefix_param by done. apply andb_true_iff. split.
      * apply starts_with_spec. by exists rest.
      * rewrite drop_app_length. replace (starts_with (lit "{*") _) with true.
        { apply Nat.ltb_lt. rewrite length_app. destruct rest; [done|]. cbn. lia. }
        symmetry. apply starts_with_spec. by exists (name ++ lit "}").
  - done.
Qed.
