(* ===== verification/WebSamples.v ===== *)
(** * Whole requests on concrete inputs

    Requests through the pipeline and the server with the stand-in crates and framework. *)

From S2P Require Import Prelude Str Codec Keys Net Rate Cli Config Urls Totp Text Time Http Db.
From S2P Require Import Outbox Auth Credentials Accounts Hosts Projects Jobs Checks Routes Pipeline System Server.
From S2P Require Import Demo Samples Web.

#[local] Strategy 1000 [service build table dispatch layer sha256 base64url_encode].

(** ** A running server *)

Definition web_setup : Setup :=
  {| st_app := the_app; st_trusted_proxies := TrustNone; st_css := lit "body {}"; st_dev := false |}.

Definition web_env : Env :=
  {| e_tick := seconds 5; e_session_now := t0 + 60; e_tick' := seconds 5; e_now := t0 + 60;
     e_now' := t0 + 60; e_hashing := true; e_hashing' := true; e_public_write := true;
     e_late := None; e_file := fun _ => None; e_boot_id := [] |}.

Definition ada_token : str := base64url_encode (replicate 32 77).

Definition ada_session_row : Session :=
  {| s_id := 1; s_token_hash := sha256 (utf8 ada_token); s_user_id := 2; s_csrf_token := replicate 32 4;
     s_created_at := t0; s_last_seen := t0; s_pending_totp_nonce := None |}.

Definition web_db : Db :=
  set_sessions (fun _ => [ada_session_row]) (set_projects (fun _ => [the_project]) 1 accounts_db).

Definition web : Server :=
  {| sv_world := quiet web_db (octets 64); sv_map := site_map;
     sv_mail := {| limiter := limiter_new 0; instance := mail_budget_new 100; boot_mac := fun x => x |};
     sv_counters := counters_default; sv_warnings := warnings_default |}.

Definition web_routers : Routers :=
  default routers_new (build (table (st_css web_setup) (st_dev web_setup))).

Lemma web_built : build (table (st_css web_setup) (st_dev web_setup)) = Some web_routers.
Proof. unfold web_routers. assert (Hb : is_Some (build (table (st_css web_setup) (st_dev web_setup)))).
  { apply (bool_decide_unpack _). vm_compute. exact I. }
  destruct Hb as [t Ht]. rewrite Ht. reflexivity.
Qed.

Lemma web_alone : others (sv_world web) = [].
Proof. reflexivity. Qed.

(** ** Requests *)

Definition host_header : str * bytes := (lit "host", lit "Kohaku.example:443").
Definition ada_cookie : str * bytes := (COOKIE, lit "__Host-kohaku_session=" ++ ada_token).
Definition own_origin : str * bytes := (lit "origin", lit "https://kohaku.example").

Definition web_request (m : Method) (path : str) (headers : Headers) (body : bytes) : Req :=
  {| rq_method := m; rq_path := path; rq_query := None; rq_headers := host_header :: headers;
     rq_body := body; rq_peer := Some (V4 0x0a000001) |}.

(** The admin creates a project. *)
Definition create_request : Req :=
  web_request POST (lit "/admin/projects") [ada_cookie; own_origin]
    (lit "csrf=" ++ base64url_encode (replicate 32 4) ++ lit "&slug=ruby&name=Ruby&public_host=").

Definition created : Resp * Server :=
  service web_setup web_env (handle web_setup web_env) web_routers create_request web.

Lemma project_created : length (projects (db (sv_world created.2))) = 2%nat.
Proof. vm_compute. reflexivity. Qed.

Lemma projects_change_only_by_the_admin_witness :
  length (projects (db (sv_world created.2))) = 2%nat /\
  rq_method create_request = POST /\
  exists u, admitted_user web_env create_request web = Some u /\ role u = Admin.
Proof.
  split; [exact project_created|].
  destruct (projects_change_only_by_the_admin web_setup web_env web_routers create_request web web_built web_alone)
    as (Hp & _ & Hu).
  - intros He. pose proof project_created as Hc. unfold created in Hc. rewrite He in Hc. discriminate Hc.
  - exact (conj Hp Hu).
Defined.

Lemma http_requests_are_transactions_witness :
  rtc (step the_app) web_db (db (sv_world created.2)).
Proof.
  apply (http_requests_are_transactions web_setup web_env web_routers create_request web web_built).
  rewrite web_alone. constructor.
Defined.

(** The same request without its session. *)
Definition anonymous_request : Req :=
  web_request GET (lit "/admin/projects") [] [].

Lemma anonymous_not_admitted : admitted_user web_env anonymous_request web = None.
Proof. vm_compute. reflexivity. Qed.

Definition main_origin_text : str := lit "https://kohaku.example".

Lemma anonymous_routed : routed_host web_setup (sv_map web) anonymous_request = Some (Main, main_origin_text).
Proof. vm_compute. reflexivity. Qed.

(** Handlers that would show everything. *)
Definition leaking : Endpoint -> Service := fun _ _ _ s => (ok_response HTML_TYPE LandingBody, s).

Lemma admin_paths_need_a_session_witness :
  service web_setup web_env leaking web_routers anonymous_request web =
  service web_setup web_env (handle web_setup web_env) web_routers anonymous_request web /\
  303 <= rs_status (service web_setup web_env leaking web_routers anonymous_request web).1.
Proof.
  apply (admin_paths_need_a_session web_setup web_env leaking (handle web_setup web_env) web_routers
    anonymous_request web main_origin_text web_built anonymous_routed).
  - right. vm_compute. reflexivity.
  - intros [He|[He|He]]; vm_compute in He; discriminate He.
  - exact anonymous_not_admitted.
Defined.

(** The landing page, read without a session. *)
Definition landing_request : Req := web_request GET (lit "/") [] [].


(** The create request, sent by another site in the admin's browser. *)
Definition forged_request : Req :=
  web_request POST (lit "/admin/projects") [ada_cookie; (lit "origin", lit "https://evil.example")]
    (rq_body create_request).

Lemma forged_routed : routed_host web_setup (sv_map web) forged_request = Some (Main, main_origin_text).
Proof. vm_compute. reflexivity. Qed.

Lemma cross_site_writes_do_nothing_witness :
  sv_world (service web_setup web_env (handle web_setup web_env) web_routers forged_request web).2 = sv_world web.
Proof.
  pose proof (cross_site_writes_do_nothing web_setup web_env (handle web_setup web_env) web_routers forged_request
    web Main main_origin_text web_built eq_refl) as Hc.
  destruct (service web_setup web_env (handle web_setup web_env) web_routers forged_request web) as [r s'].
  apply Hc.
  - apply (bool_decide_unpack _). vm_compute. exact I.
  - exact forged_routed.
  - vm_compute. reflexivity.
Defined.

(** A handler that no request reaches may do anything. *)
Definition tampered (ep : Endpoint) : Service :=
  if bool_decide (ep = EHome) then leaking ep else handle web_setup web_env ep.

Lemma home_needs_admission x s' :
  ~ called web_setup web_env web_routers web landing_request EHome x s'.
Proof.
  intros Hc. destruct (called_route web_setup web_env _ _ _ _ _ _ web_built Hc) as (r & Hin & Ha & Hm & _).
  apply method_endpoint in Hm. apply (table_access _ _ _ _ Hin) in Hm.
  destruct (access_admitted web_env r landing_request x web s' Ha) as (u & _ & Hu & _); [rewrite Hm; discriminate|].
  assert (Hn : admitted_user web_env landing_request web = None) by (vm_compute; reflexivity). congruence.
Qed.

Lemma handlers_run_behind_their_guards_witness :
  service web_setup web_env tampered web_routers landing_request web =
  service web_setup web_env (handle web_setup web_env) web_routers landing_request web.
Proof.
  apply (handlers_run_behind_their_guards web_setup web_env tampered (handle web_setup web_env) web_routers
    landing_request web).
  - exact (called_hosts _ _ web_routers web_built).
  - intros ep x s' Hc. unfold tampered. destruct (bool_decide (ep = EHome)) eqn:E; [|reflexivity].
    apply bool_decide_eq_true in E. rewrite E in Hc. destruct (home_needs_admission x s' Hc).
Defined.

(** ** The TLS ask and the counters *)

Lemma tls_ask_grants_project_domains_witness :
  tls_ask site_map (Some (lit "domain=" ++ percent_encode (utf8 (lit "Amber.example.net")))) = 200.
Proof.
  apply (tls_ask_grants_project_domains (app_base_url the_app) (db site) (lit "Amber.example.net")).
  - exact site_hosts_unique.
  - vm_compute. reflexivity.
  - discriminate.
  - exists the_project. split; [left|vm_compute; reflexivity].
Defined.

Lemma rejections_are_counted_witness :
  exists c, count_all [CrossSite; BodyTooLarge; CrossSite] counters_default = Some c /\
    (CrossSite, 2) ∈ (take_counts c).1.
Proof.
  destruct (rejections_are_counted [CrossSite; BodyTooLarge; CrossSite]) as (c & Hc & Hin & _); [cbn; lia|].
  exists c. split; [exact Hc|]. apply Hin. split; [lia|vm_compute; reflexivity].
Defined.
