(* ===== verification/Files.v ===== *)
(** * Files (src/src/db/{paths,lock}.rs, src/src/jobs.rs)

    The part of the file system Kohaku touches: regular files by directory and name, other
    entries that must not be followed, the directories that exist, and the instance lock.
    Every operation may fail, as a tape of faults says; a failed write leaves a prefix. *)

From stdpp Require Import gmap.
From S2P Require Import Prelude Str Keys.

(** ** The disk *)

Definition Path : Type := str * str.

(** Anything but a regular file is left alone: a directory, a link, a socket. *)
Inductive Entry := Regular (content : bytes) (mode : Z) (mtime : Z) | NotRegular.

Record Disk := {
  files : gmap Path Entry;
  dirs : gset str;
  (** Another process holds the lock. *)
  lock_taken : bool;
  disk_tape : Tape;
  (** The time a change of a file is stamped with. *)
  disk_time : Z;
  (** Whether each further operation fails, and after how many bytes; past the end none does. *)
  disk_faults : list (option nat) }.

Inductive IoError := AlreadyExists | NotFound | OtherIo.

#[global] Instance IoError_eq_dec : EqDecision IoError.
Proof. solve_decision. Defined.

(** ** Operations that read and change the disk and may fail *)

Definition Io (E A : Type) : Type := Disk -> result E A * Disk.

#[global] Instance Io_ret {E} : MRet (Io E) := fun A a k => (Ok a, k).

#[global] Instance Io_bind {E} : MBind (Io E) := fun A B f m k =>
  match m k with
  | (Ok a, k) => f a k
  | (Err e, k) => (Err e, k)
  end.

Definition io_fail {E A} (e : E) : Io E A := fun k => (Err e, k).

(** [Result::map_err]. *)
Definition with_err {E E' A} (f : E -> E') (m : Io E A) : Io E' A := fun k =>
  match m k with (Ok a, k) => (Ok a, k) | (Err e, k) => (Err (f e), k) end.

(** Keeps the outcome as a value. *)
Definition attempt {E E' A} (m : Io E A) : Io E' (result E A) := fun k =>
  let '(r, k) := m k in (Ok r, k).

Definition of_result {E A} (r : result E A) : Io E A := fun k => (r, k).

Definition set_files (f : gmap Path Entry -> gmap Path Entry) (k : Disk) : Disk :=
  {| files := f (files k); dirs := dirs k; lock_taken := lock_taken k; disk_tape := disk_tape k;
     disk_time := disk_time k; disk_faults := disk_faults k |}.
Definition set_dirs (f : gset str -> gset str) (k : Disk) : Disk :=
  {| files := files k; dirs := f (dirs k); lock_taken := lock_taken k; disk_tape := disk_tape k;
     disk_time := disk_time k; disk_faults := disk_faults k |}.
Definition set_disk_tape (t : Tape) (k : Disk) : Disk :=
  {| files := files k; dirs := dirs k; lock_taken := lock_taken k; disk_tape := t;
     disk_time := disk_time k; disk_faults := disk_faults k |}.
Definition next_fault (k : Disk) : Disk :=
  {| files := files k; dirs := dirs k; lock_taken := lock_taken k; disk_tape := disk_tape k;
     disk_time := disk_time k; disk_faults := tail (disk_faults k) |}.

Definition fault (k : Disk) : option nat := default None (head (disk_faults k)).

(** One system call: it fails, or does what [f] says. *)
Definition syscall {A} (f : Disk -> result IoError (A * Disk)) : Io IoError A := fun k =>
  match fault k with
  | Some _ => (Err OtherIo, next_fault k)
  | None =>
      match f (next_fault k) with
      | Ok (a, k) => (Ok a, k)
      | Err e => (Err e, next_fault k)
      end
  end.

Definition lookup_file (p : Path) (k : Disk) : option Entry := files k !! p.

Definition content_of (p : Path) (k : Disk) : option bytes :=
  match lookup_file p k with Some (Regular c _ _) => Some c | _ => None end.

(** [OpenOptions::create_new]. *)
Definition create_new (p : Path) (mode : Z) : Io IoError unit := syscall (fun k =>
  if bool_decide (p.1 ∉ dirs k) then Err NotFound
  else match lookup_file p k with
       | Some _ => Err AlreadyExists
       | None => Ok (tt, set_files <[p := Regular [] mode (disk_time k)]> k)
       end).

(** [OpenOptions::create] without truncation. *)
Definition open_or_create (p : Path) (mode : Z) : Io IoError unit := syscall (fun k =>
  if bool_decide (p.1 ∉ dirs k) then Err NotFound
  else match lookup_file p k with
       | Some (Regular _ _ _) => Ok (tt, k)
       | Some NotRegular => Err OtherIo
       | None => Ok (tt, set_files <[p := Regular [] mode (disk_time k)]> k)
       end).

(** [File::open] and reading to the end. *)
Definition read_file (p : Path) : Io IoError bytes := syscall (fun k =>
  match lookup_file p k with
  | Some (Regular c _ _) => Ok (c, k)
  | Some NotRegular => Err OtherIo
  | None => Err NotFound
  end).

Definition put_content (c : bytes) (p : Path) (k : Disk) : Disk :=
  match lookup_file p k with
  | Some (Regular _ mode _) => set_files <[p := Regular c mode (disk_time k)]> k
  | _ => k
  end.

(** [io::copy] into an open file: a failure leaves what was written. *)
Definition write_file (p : Path) (c : bytes) : Io IoError unit := fun k =>
  match fault k with
  | Some n => (Err OtherIo, put_content (firstn n c) p (next_fault k))
  | None => (Ok tt, put_content c p (next_fault k))
  end.

(** [File::sync_all], and [sync_dir] for a directory. *)
Definition sync_file (p : Path) : Io IoError unit := syscall (fun k =>
  match lookup_file p k with Some _ => Ok (tt, k) | None => Err NotFound end).

Definition sync_dir (dir : str) : Io IoError unit := syscall (fun k =>
  if bool_decide (dir ∈ dirs k) then Ok (tt, k) else Err NotFound).

(** [fs::rename]: replaces a regular file. *)
Definition rename (a b : Path) : Io IoError unit := syscall (fun k =>
  match lookup_file a k, lookup_file b k with
  | None, _ => Err NotFound
  | Some _, Some NotRegular => Err OtherIo
  | Some x, _ =>
      if bool_decide (b.1 ∉ dirs k) then Err NotFound
      else Ok (tt, set_files (fun m => <[b := x]> (delete a m)) k)
  end).

(** [fs::hard_link]: fails on any entry. *)
Definition hard_link (a b : Path) : Io IoError unit := syscall (fun k =>
  match lookup_file a k, lookup_file b k with
  | None, _ => Err NotFound
  | Some _, Some _ => Err AlreadyExists
  | Some x, None =>
      if bool_decide (b.1 ∉ dirs k) then Err NotFound else Ok (tt, set_files <[b := x]> k)
  end).

(** [fs::remove_file]. *)
Definition remove_file (p : Path) : Io IoError unit := syscall (fun k =>
  match lookup_file p k with
  | Some _ => Ok (tt, set_files (delete p) k)
  | None => Err NotFound
  end).

(** [fs::read_dir]: the entries of a directory. *)
Definition entries_of (dir : str) (k : Disk) : list (str * Entry) :=
  omap (fun pe => if zlist_eqb pe.1.1 dir then Some (pe.1.2, pe.2) else None) (map_to_list (files k)).

Definition read_dir (dir : str) : Io IoError (list (str * Entry)) := syscall (fun k =>
  if bool_decide (dir ∈ dirs k) then Ok (entries_of dir k, k) else Err NotFound).

(** ** The data directory (paths.rs) *)

(** Mode [0o600]. *)
Definition PRIVATE : Z := 6 * 64.

Record DataDir := { root : str }.

Definition database (d : DataDir) : Path := (root d, lit "kohaku.db").
Definition wal (d : DataDir) : Path := (root d, lit "kohaku.db-wal").
Definition shm (d : DataDir) : Path := (root d, lit "kohaku.db-shm").
Definition lock_path (d : DataDir) : Path := (root d, lit "kohaku.lock").
Definition backups (d : DataDir) : str := root d ++ lit "/backups".

Definition make_dir (dir : str) : Io IoError unit := syscall (fun k =>
  if bool_decide (dir ∈ dirs k) then Err AlreadyExists else Ok (tt, set_dirs (union {[ dir ]}) k)).

(** [DataDir::ensure_backups]. *)
Definition ensure_backups (d : DataDir) : Io IoError str :=
  let dir := backups d in
  r ← attempt (make_dir dir);
  match r with
  | Ok _ => _ ← sync_dir (root d); mret dir
  | Err AlreadyExists => mret dir
  | Err e => io_fail e
  end.

Definition draw_disk {A} (f : Tape -> result unit A * Tape) : Io IoError A := fun k =>
  match f (disk_tape k) with
  | (Ok a, t) => (Ok a, set_disk_tape t k)
  | (Err _, t) => (Err OtherIo, set_disk_tape t k)
  end.

(** [{b:02x}] of each byte. *)
Definition hex_text (bs : bytes) : str :=
  concat (map (fun b => let digit d := if d <? 10 then 48 + d else 87 + d in
                        [digit (b / 16); digit (b mod 16)]) bs).

Definition tmp_name (stem : str) (nonce : bytes) : str :=
  lit "." ++ stem ++ lit "." ++ hex_text nonce ++ lit ".tmp".

(** [create_tmp]: a new name each round until one is free. *)
Fixpoint create_tmp_loop (fuel : nat) (dir stem : str) : Io IoError Path :=
  match fuel with
  | 0%nat => io_fail OtherIo
  | S fuel =>
      nonce ← draw_disk (random_bytes 8);
      let path := (dir, tmp_name stem nonce) in
      r ← attempt (create_new path PRIVATE);
      match r with
      | Ok _ => mret path
      | Err AlreadyExists => create_tmp_loop fuel dir stem
      | Err e => io_fail e
      end
  end.

(** Each round draws, so the octets left bound the rounds. *)
Definition create_tmp (dir stem : str) : Io IoError Path := fun k =>
  create_tmp_loop (S (length (disk_tape k))) dir stem k.

(** [remove_if_present]. *)
Definition remove_if_present (p : Path) : Io IoError unit :=
  r ← attempt (remove_file p);
  match r with Err NotFound => mret tt | other => of_result other end.

(** ** The instance lock (lock.rs) *)

Inductive LockError := Held | LockIo (e : IoError).

(** [File::try_lock]. *)
Definition try_lock : Io LockError unit := fun k =>
  if lock_taken k then (Err Held, k) else (Ok tt, k).

(** [InstanceLock::acquire]; the lock is held until the process ends. *)
Definition acquire (d : DataDir) : Io LockError unit :=
  _ ← with_err LockIo (open_or_create (lock_path d) PRIVATE);
  try_lock.

(** ** Stale temporary files (jobs.rs) *)

Definition TMP_MAX_AGE : Z := 24 * 60 * 60.

Definition ends_with (p s : str) : bool := bool_decide (is_Some (strip_suffix p s)).

(** The age test: a file from the future is not stale. *)
Definition is_stale (now : Z) (x : Entry) : bool :=
  match x with
  | Regular _ _ mtime => (mtime <=? now) && (TMP_MAX_AGE <? now - mtime)
  | NotRegular => false
  end.

(** The loop of [remove_stale_tmp]. *)
Fixpoint remove_stale (dir : str) (now : Z) (l : list (str * Entry)) : Io IoError unit :=
  match l with
  | [] => mret tt
  | (name, _) :: l =>
      if negb (ends_with (lit ".tmp") name) then remove_stale dir now l
      else
        meta ← syscall (fun k => match lookup_file (dir, name) k with
                                 | Some x => Ok (x, k)
                                 | None => Err NotFound
                                 end);
        _ ← (if is_stale now meta then remove_file (dir, name) else mret tt);
        remove_stale dir now l
  end.

(** [remove_stale_tmp]. *)
Definition remove_stale_tmp (dir : str) (now : Z) : Io IoError unit :=
  r ← attempt (read_dir dir);
  match r with
  | Ok entries => remove_stale dir now entries
  | Err NotFound => mret tt
  | Err e => io_fail e
  end.

(** ** Lemmas *)

(** [m] leaves every path outside [S] alone. *)
Definition frame {E A} (S : Path -> Prop) (m : Io E A) : Prop :=
  forall k p, ~ S p -> files (m k).2 !! p = files k !! p.

Create HintDb files.

Lemma frame_ret {E A} S (a : A) : frame (E := E) S (mret a).
Proof. by intros k p _. Qed.

Lemma frame_fail {E A} S (e : E) : frame (A := A) S (io_fail e).
Proof. by intros k p _. Qed.

Lemma frame_bind {E A B} S (m : Io E A) (f : A -> Io E B) :
  frame S m -> (forall a, frame S (f a)) -> frame S (m ≫= f).
Proof.
  intros Hm Hf k p Hp. unfold mbind, Io_bind. specialize (Hm k p Hp).
  destruct (m k) as [[a|e] k1]; cbn in *; [|done]. by rewrite Hf, Hm.
Qed.

(** The rest may rely on what [m] returns. *)
Lemma frame_bind_post {E A B} S (m : Io E A) (f : A -> Io E B) :
  frame S m -> (forall a k k', m k = (Ok a, k') -> frame S (f a)) -> frame S (m ≫= f).
Proof.
  intros Hm Hf k p Hp. unfold mbind, Io_bind. specialize (Hm k p Hp).
  destruct (m k) as [[a|e] k1] eqn:E1; cbn in *; [|done]. by rewrite (Hf a k k1 E1), Hm.
Qed.

Lemma frame_with_err {E E' A} S (f : E -> E') (m : Io E A) : frame S m -> frame S (with_err f m).
Proof. intros Hm k p Hp. specialize (Hm k p Hp). unfold with_err. by destruct (m k) as [[a|e] k1]. Qed.

Lemma frame_attempt {E E' A} S (m : Io E A) : frame S m -> frame S (attempt (E' := E') m).
Proof. intros Hm k p Hp. specialize (Hm k p Hp). unfold attempt. by destruct (m k). Qed.

Lemma frame_of_result {E A} S (r : result E A) : frame S (of_result r).
Proof. by intros k p _. Qed.

Lemma frame_syscall {A} S (f : Disk -> result IoError (A * Disk)) :
  (forall k a k', f k = Ok (a, k') -> forall p, ~ S p -> files k' !! p = files k !! p) -> frame S (syscall f).
Proof.
  intros Hf k p Hp. unfold syscall. destruct (fault k); [done|].
  destruct (f (next_fault k)) as [[a k']|] eqn:E; [|done]. by apply (Hf _ _ _ E).
Qed.

Lemma frame_weaken {E A} (S S' : Path -> Prop) (m : Io E A) :
  (forall p, S p -> S' p) -> frame S m -> frame S' m.
Proof. intros Hs Hm k p Hp. apply Hm. auto. Qed.

Lemma frame_create_new (S : Path -> Prop) p mode : S p -> frame S (create_new p mode).
Proof.
  intros Hs. apply frame_syscall. intros k a k' Hk q Hq. destruct (bool_decide _); [done|].
  destruct (lookup_file p k); [done|]. injection Hk as _ <-. cbn. apply lookup_insert_ne. by intros ->.
Qed.

Lemma frame_open_or_create (S : Path -> Prop) p mode : S p -> frame S (open_or_create p mode).
Proof.
  intros Hs. apply frame_syscall. intros k a k' Hk q Hq. destruct (bool_decide _); [done|].
  destruct (lookup_file p k) as [[]|]; simplify_eq/=; try done. apply lookup_insert_ne. by intros ->.
Qed.

Lemma frame_read S p : frame S (read_file p).
Proof. apply frame_syscall. intros k a k' Hk q Hq. destruct (lookup_file p k) as [[]|]; by simplify_eq/=. Qed.

Lemma frame_sync_file S p : frame S (sync_file p).
Proof. apply frame_syscall. intros k a k' Hk q Hq. destruct (lookup_file p k); by simplify_eq/=. Qed.

Lemma frame_sync_dir S dir : frame S (sync_dir dir).
Proof. apply frame_syscall. intros k a k' Hk q Hq. destruct (bool_decide _); by simplify_eq/=. Qed.

Lemma frame_read_dir S dir : frame S (read_dir dir).
Proof. apply frame_syscall. intros k a k' Hk q Hq. destruct (bool_decide _); by simplify_eq/=. Qed.

Lemma frame_make_dir S dir : frame S (make_dir dir).
Proof. apply frame_syscall. intros k a k' Hk q Hq. destruct (bool_decide _); by simplify_eq/=. Qed.

Lemma put_content_other c p q k : q <> p -> files (put_content c p k) !! q = files k !! q.
Proof.
  intros Hq. unfold put_content. destruct (lookup_file p k) as [[]|]; [|done|done]. cbn.
  by apply lookup_insert_ne.
Qed.

Lemma frame_write (S : Path -> Prop) p c : S p -> frame S (write_file p c).
Proof.
  intros Hs k q Hq. unfold write_file. assert (q <> p) by (by intros ->).
  destruct (fault k); cbn [snd]; by rewrite put_content_other.
Qed.

Lemma frame_rename (S : Path -> Prop) a b : S a -> S b -> frame S (rename a b).
Proof.
  intros Ha Hb. apply frame_syscall. intros k x k' Hk q Hq.
  destruct (lookup_file a k) as [y|] eqn:E; [|done].
  assert (Hgo : @Ok IoError _ (tt, set_files (fun m => <[b := y]> (delete a m)) k) = Ok (x, k') -> files k' !! q = files k !! q).
  { intros [= _ <-]. cbn. rewrite lookup_insert_ne by (by intros ->). apply lookup_delete_ne. by intros ->. }
  destruct (lookup_file b k) as [[]|]; try done; destruct (bool_decide _); try done; by apply Hgo.
Qed.

Lemma frame_hard_link (S : Path -> Prop) a b : S b -> frame S (hard_link a b).
Proof.
  intros Hb. apply frame_syscall. intros k x k' Hk q Hq. destruct (lookup_file a k) as [y|]; [|done].
  destruct (lookup_file b k); [done|]. destruct (bool_decide _); [done|]. injection Hk as _ <-. cbn.
  apply lookup_insert_ne. by intros ->.
Qed.

Lemma frame_remove (S : Path -> Prop) p : S p -> frame S (remove_file p).
Proof.
  intros Hs. apply frame_syscall. intros k a k' Hk q Hq. destruct (lookup_file p k); [|done].
  injection Hk as _ <-. cbn. apply lookup_delete_ne. by intros ->.
Qed.

#[export] Hint Resolve frame_ret frame_fail frame_of_result frame_read frame_sync_file frame_sync_dir
  frame_read_dir frame_make_dir frame_attempt frame_with_err : files.

Lemma frame_remove_if_present (S : Path -> Prop) p : S p -> frame S (remove_if_present p).
Proof.
  intros Hs. apply frame_bind; [by apply frame_attempt, frame_remove|]. intros [|[]]; auto with files.
Qed.

Lemma frame_draw {A} S (f : Tape -> result unit A * Tape) : frame S (draw_disk f).
Proof. intros k p _. unfold draw_disk. by destruct (f (disk_tape k)) as [[]]. Qed.

Lemma frame_ensure_backups S d : frame S (ensure_backups d).
Proof.
  apply frame_bind; [auto with files|]. intros [|[]]; auto with files.
  apply frame_bind; auto with files.
Qed.

Lemma ensure_backups_Ok d k dir k' : ensure_backups d k = (Ok dir, k') -> dir = backups d.
Proof.
  unfold ensure_backups, mbind, Io_bind, attempt, sync_dir. destruct (make_dir _ k) as [[[]|[]] k1]; try done.
  - destruct (syscall _ k1) as [[] k2]; [|done]. by intros [= <- <-].
  - by intros [= <- <-].
Qed.

(** ** Temporary files *)

Lemma ends_with_spec p s : ends_with p s = true <-> exists t, s = t ++ p.
Proof.
  unfold ends_with. rewrite bool_decide_eq_true. split.
  - intros [t Ht]. apply strip_suffix_spec in Ht. eauto.
  - intros [t Ht]. exists t. by apply strip_suffix_spec.
Qed.

Definition is_tmp (p : Path) : Prop := ends_with (lit ".tmp") p.2 = true.

Lemma tmp_name_is_tmp dir stem nonce : is_tmp (dir, tmp_name stem nonce).
Proof.
  apply ends_with_spec. exists (lit "." ++ stem ++ lit "." ++ hex_text nonce). unfold tmp_name. cbn [snd].
  by rewrite <- !app_assoc.
Qed.

(** What [create_tmp] gives: a new, private, empty file. *)
Lemma create_new_Ok p mode k x k' :
  create_new p mode k = (Ok x, k') -> files k !! p = None /\ files k' = <[p := Regular [] mode (disk_time k)]> (files k) /\
  dirs k' = dirs k.
Proof.
  unfold create_new, syscall. destruct (fault k); [done|]. destruct (bool_decide _); [done|].
  unfold lookup_file. cbn. destruct (files k !! p) eqn:E; [done|]. by intros [= _ <-].
Qed.

Lemma create_tmp_Ok dir stem k p k' :
  create_tmp dir stem k = (Ok p, k') ->
  is_tmp p /\ p.1 = dir /\ files k !! p = None /\ (exists t, files k' = <[p := Regular [] PRIVATE t]> (files k)) /\
  dirs k' = dirs k.
Proof.
  unfold create_tmp. generalize (S (length (disk_tape k))). intros fuel. revert k.
  induction fuel as [|fuel IH]; intros k; cbn [create_tmp_loop]; [done|].
  unfold mbind, Io_bind, draw_disk. destruct (random_bytes 8 (disk_tape k)) as [[nonce|] t]; [|done].
  unfold attempt. destruct (create_new _ _ _) as [[x|err] k1] eqn:E.
  - intros [= <- <-]. apply create_new_Ok in E as (Hn & Hf & Hd). cbn in *.
    split_and!; try done; [apply tmp_name_is_tmp|eauto].
  - assert (Hsame : files k1 = files k /\ dirs k1 = dirs k).
    { unfold create_new, syscall in E. destruct (fault _); [by injection E as _ <-|].
      destruct (bool_decide _); [by injection E as _ <-|].
      destruct (lookup_file _ _); [by injection E as _ <-|done]. }
    destruct Hsame as [Hf Hd]. destruct err; try done. intros Hl. apply IH in Hl. rewrite Hf, Hd in Hl. exact Hl.
Qed.

(** The bound on the rounds is never what ends them. *)
Lemma create_tmp_total dir stem k fuel :
  (length (disk_tape k) < fuel)%nat -> create_tmp_loop fuel dir stem k = create_tmp dir stem k.
Proof.
  unfold create_tmp. intros Hf. remember (S (length (disk_tape k))) as g eqn:Eg.
  assert (Hg : (length (disk_tape k) < g)%nat) by lia. clear Eg. revert g k Hf Hg.
  induction fuel as [|fuel IH]; intros g k Hf Hg; [lia|]. destruct g as [|g]; [lia|]. cbn [create_tmp_loop].
  unfold mbind, Io_bind, draw_disk. unfold random_bytes. destruct (Nat.ltb_spec (length (disk_tape k)) 8); [done|].
  unfold attempt. destruct (create_new _ _ _) as [[x|[]] k1] eqn:E; try done. apply IH.
  all: assert (Ht : disk_tape k1 = drop 8 (disk_tape k))
    by (unfold create_new, syscall in E; destruct (fault _); [done|]; destruct (bool_decide _); [done|];
        destruct (lookup_file _ _); [by injection E as <-|done]).
  all: rewrite Ht, length_drop; lia.
Qed.

Lemma frame_create_tmp_loop fuel dir stem :
  frame (fun p => p.1 = dir /\ is_tmp p) (create_tmp_loop fuel dir stem).
Proof.
  induction fuel as [|fuel IH]; cbn [create_tmp_loop]; auto with files.
  apply frame_bind; [apply frame_draw|]. intros nonce. apply frame_bind.
  - apply frame_attempt, frame_create_new. split; [done|apply tmp_name_is_tmp].
  - intros [|[]]; auto with files.
Qed.

(** Nothing else changes. *)
Lemma frame_create_tmp dir stem : frame (fun p => p.1 = dir /\ is_tmp p) (create_tmp dir stem).
Proof. intros k. apply frame_create_tmp_loop. Qed.

(** ** Stale files *)

Lemma frame_remove_stale dir now l :
  frame (fun p => p.1 = dir /\ is_tmp p) (remove_stale dir now l).
Proof.
  induction l as [|[name x] l IH]; cbn [remove_stale]; auto with files.
  destruct (ends_with _ name) eqn:E; cbn [negb]; [|done]. apply frame_bind.
  - apply frame_syscall. intros k a k' Hk p Hp. destruct (lookup_file _ k); by simplify_eq/=.
  - intros meta. apply frame_bind; [|done]. destruct (is_stale now meta); [by apply frame_remove|auto with files].
Qed.

Lemma syscall_Ok {A} (f : Disk -> result IoError (A * Disk)) k a k' :
  syscall f k = (Ok a, k') -> f (next_fault k) = Ok (a, k').
Proof.
  unfold syscall. destruct (fault k); [done|]. destruct (f (next_fault k)) as [[]|]; [|done]. by intros [= -> ->].
Qed.

Lemma Io_bind_Ok {E A B} (m : Io E A) (f : A -> Io E B) k b k' :
  (m ≫= f) k = (Ok b, k') -> exists a k1, m k = (Ok a, k1) /\ f a k1 = (Ok b, k').
Proof. unfold mbind, Io_bind. destruct (m k) as [[a|e] k1]; [eauto|done]. Qed.

Lemma attempt_bind {E E' A B} (m : Io E A) (f : result E A -> Io E' B) k :
  (attempt m ≫= f) k = let '(r, k1) := m k in f r k1.
Proof. unfold mbind, Io_bind, attempt. by destruct (m k). Qed.

Lemma with_err_Ok {E E' A} (g : E -> E') (m : Io E A) k a k' : with_err g m k = (Ok a, k') -> m k = (Ok a, k').
Proof. unfold with_err. destruct (m k) as [[]]; [by intros [= -> ->]|done]. Qed.

Lemma sync_file_Ok p k x k' : sync_file p k = (Ok x, k') -> files k' = files k.
Proof. intros Hs%syscall_Ok. destruct (lookup_file _ _); [|done]. by injection Hs as _ <-. Qed.

Lemma sync_dir_Ok p k x k' : sync_dir p k = (Ok x, k') -> files k' = files k.
Proof. intros Hs%syscall_Ok. destruct (bool_decide _); [|done]. by injection Hs as _ <-. Qed.

Lemma remove_file_Ok p k x k' : remove_file p k = (Ok x, k') -> files k' = delete p (files k) /\ dirs k' = dirs k.
Proof.
  intros Hr%syscall_Ok. unfold lookup_file in Hr. cbn in Hr. destruct (files k !! p); [|done].
  injection Hr as _ <-. done.
Qed.

Lemma rename_Ok a b k x k' :
  rename a b k = (Ok x, k') ->
  exists y, files k !! a = Some y /\ files k' = <[b := y]> (delete a (files k)) /\ dirs k' = dirs k.
Proof.
  intros Hr%syscall_Ok. unfold lookup_file in Hr. cbn in Hr.
  match type of Hr with match ?o with _ => _ end = _ => destruct o as [y|] eqn:Ey end; [|done].
  exists y. match type of Hr with match ?o with _ => _ end = _ => destruct o as [[]|] end; try done;
    destruct (bool_decide _); try done; by injection Hr as _ <-.
Qed.

Lemma write_file_Ok p c k x k' :
  write_file p c k = (Ok x, k') -> forall c0 mode t, files k !! p = Some (Regular c0 mode t) ->
  exists t', files k' = <[p := Regular c mode t']> (files k).
Proof.
  unfold write_file. destruct (fault k); [done|]. intros [= _ <-] c0 mode t Hp. unfold put_content, lookup_file.
  cbn. rewrite Hp. eauto.
Qed.

(** A path the job removes: a regular [*.tmp] file directly in [dir], last modified over a
    day ago. *)
Definition goes (dir : str) (now : Z) (k : Disk) (p : Path) : bool :=
  zlist_eqb p.1 dir && ends_with (lit ".tmp") p.2 && is_some_and (is_stale now) (files k !! p).

Lemma other_name (a b : str) l : a <> b -> bool_decide (a ∈ b :: l) = bool_decide (a ∈ l).
Proof. intros Hab. apply bool_decide_ext. set_solver. Qed.

(** What the loop leaves of one path, when it ends well. *)
Lemma remove_stale_Ok dir now l k x k' :
  remove_stale dir now l k = (Ok x, k') -> NoDup (map fst l) ->
  forall p : Path, files k' !! p = if bool_decide (p.2 ∈ map fst l) && goes dir now k p then None else files k !! p.
Proof.
  revert k. induction l as [|[name y] l IH]; intros k; cbn [remove_stale map fst].
  { intros [= <- <-] _ p. by rewrite bool_decide_eq_false_2 by apply not_elem_of_nil. }
  intros Hr [Hn Hd]%NoDup_cons p. destruct (ends_with (lit ".tmp") name) eqn:Et; cbn [negb] in Hr.
  2:{ rewrite (IH k Hr Hd p). destruct (base.decide (p.2 = name)) as [He|Hne].
      - unfold goes. rewrite He, Et, andb_false_r. by rewrite !andb_false_r.
      - by rewrite other_name. }
  apply Io_bind_Ok in Hr as (meta & k1 & Hm%syscall_Ok & Hr). unfold lookup_file in Hm. cbn in Hm.
  match type of Hm with match ?o with _ => _ end = _ => destruct o as [z|] eqn:Ez end; [|done].
  injection Hm as -> <-.
  apply Io_bind_Ok in Hr as (u & k2 & Hst & Hr).
  assert (Hk2 : forall q, files k2 !! q = if bool_decide (q = (dir, name)) && is_stale now meta
    then None else files k !! q).
  { intros q. destruct (is_stale now meta); [|injection Hst as _ <-; by rewrite andb_false_r].
    apply remove_file_Ok in Hst as [-> _]. rewrite andb_true_r. case_bool_decide as Hq.
    - subst q. apply lookup_delete_eq.
    - by apply lookup_delete_ne. }
  rewrite (IH k2 Hr Hd p), Hk2. destruct p as [pd pn]. destruct (base.decide ((pd, pn) = (dir, name))) as [He|Hne].
  - injection He as -> ->. rewrite (bool_decide_eq_true_2 ((dir, name) = _)) by done. cbn [fst snd].
    rewrite (bool_decide_eq_false_2 (name ∈ map fst l)) by done. cbn [andb].
    rewrite bool_decide_eq_true_2 by set_solver. unfold goes. cbn [fst snd]. rewrite zlist_eqb_refl, Et, Ez.
    cbn [andb is_some_and]. destruct (is_stale now meta); [done|exact Ez].
  - rewrite (bool_decide_eq_false_2 ((pd, pn) = _)) by done. cbn [andb]. unfold goes. cbn [fst snd].
    rewrite Hk2, (bool_decide_eq_false_2 ((pd, pn) = _)) by done. cbn [andb].
    destruct (zlist_eqb pd dir) eqn:Ed; [|by rewrite !andb_false_r]. apply zlist_eqb_eq in Ed as ->.
    assert (pn <> name) by congruence.
    by rewrite other_name.
Qed.

Lemma elem_of_entries dir k name x : (name, x) ∈ entries_of dir k <-> files k !! (dir, name) = Some x.
Proof.
  unfold entries_of. rewrite list_elem_of_omap. split.
  - intros ([[pd pn] y] & Hin & Hs). cbn in Hs. destruct (zlist_eqb pd dir) eqn:Ed; [|done].
    injection Hs as <- <-. apply zlist_eqb_eq in Ed as ->. by apply elem_of_map_to_list.
  - intros Hf. exists ((dir, name), x). split; [by apply elem_of_map_to_list|]. cbn. by rewrite zlist_eqb_refl.
Qed.

Lemma entries_nodup dir k : NoDup (map fst (entries_of dir k)).
Proof.
  unfold entries_of. pose proof (NoDup_fst_map_to_list (files k)) as Hd.
  induction (map_to_list (files k)) as [|[[pd pn] y] l IH]; [constructor|].
  cbn in Hd. apply NoDup_cons in Hd as [Hn Hd]. cbn. destruct (zlist_eqb pd dir) eqn:Ed; cbn; [|by apply IH].
  apply NoDup_cons. split; [|by apply IH]. intros Hin. apply Hn.
  apply list_elem_of_fmap in Hin as ([n z] & -> & Hz). apply list_elem_of_omap in Hz as ([[qd qn] w] & Hq & Hs).
  cbn in Hs. destruct (zlist_eqb qd dir) eqn:Eq; [|done]. injection Hs as <- <-.
  apply zlist_eqb_eq in Ed as ->, Eq as ->. apply list_elem_of_fmap. by exists ((dir, qn), w).
Qed.

(** The clean-up of temporary files removes exactly the stale ones. When it ends well,
    what is gone of the whole disk is the regular [*.tmp] files directly in the directory
    that were last modified over a day ago; links, directories, newer files, other names
    and other directories are untouched. *)
Theorem stale_tmp_removed (dir : str) (now : Z) (k k' : Disk) :
  remove_stale_tmp dir now k = (Ok tt, k') -> dir ∈ dirs k ->
  forall p : Path, files k' !! p = if goes dir now k p then None else files k !! p.
Proof.
  unfold remove_stale_tmp. intros Hr Hdir p. unfold attempt, read_dir in Hr. cbn in Hr.
  unfold mbind, Io_bind in Hr. destruct (syscall _ k) as [[l|[]] k1] eqn:E; try done.
  - apply syscall_Ok in E. destruct (bool_decide _); [|done]. injection E as <- <-.
    rewrite (remove_stale_Ok _ _ _ _ _ _ Hr (entries_nodup _ _) p). cbn [files next_fault].
    change (goes dir now (next_fault k) p) with (goes dir now k p). unfold goes.
    destruct (zlist_eqb p.1 dir) eqn:Ed; [|by rewrite !andb_false_r].
    destruct (files k !! p) as [x|] eqn:Ex; [|by rewrite !andb_false_r].
    rewrite bool_decide_eq_true_2; [done|]. apply zlist_eqb_eq in Ed. apply list_elem_of_fmap. exists (p.2, x).
    split; [done|]. apply elem_of_entries. cbn. rewrite <- Ed. by destruct p.
  - unfold syscall in E. destruct (fault k); [done|]. cbn in E. rewrite bool_decide_eq_true_2 in E by done. done.
Qed.
