(* ===== verification/Migrate.v ===== *)
(** * Migrations (src/src/db/{migrate,current}.rs)

    The database file as SQLite sees it is an [Image]; what SQLite does with images, files
    and journals is the class [Sqlite]. A transaction on the live database commits by
    writing the journal (WAL), so the database is the main file together with it. *)

From stdpp Require Import gmap.
From S2P Require Import Prelude Str Keys Files.

(** ** SQLite *)

Class Sqlite := {
  Image : Type;
  (** The committed contents of a database file with its WAL; none when it is damaged. *)
  load_image : bytes -> option bytes -> option Image;
  (** The WAL after a commit of an image over a file and its WAL. *)
  journal : bytes -> option bytes -> Image -> bytes;
  (** [VACUUM INTO]: a self-contained file. *)
  vacuum : Image -> bytes;
  (** A self-contained file changed in place. *)
  update_file : bytes -> Image -> bytes;
  version_of : Image -> Z;                       (** [PRAGMA user_version] *)
  with_version : Z -> Image -> Image;
  has_schema : Image -> bool;
  meta_exists : Image -> bool;
  keycheck_row : Image -> option bytes;          (** of a [meta] that exists *)
  insert_keycheck : bytes -> Z -> Image -> option Image;
  execute_batch : str -> Image -> option Image;  (** the statements of a migration *)
  fk_violation : Image -> bool;                  (** [PRAGMA foreign_key_check] *)
  integrity_check : bytes -> bool;
  (** The restore entry in the audit log. *)
  audit_restore : Z -> Image -> option Image }.

(** What SQLite documents and the schema says. *)
Class SqliteLaws `{Sqlite} := {
  (** [user_version] is read as a [u32]. *)
  version_range : forall i, 0 <= version_of i < 2 ^ 32;
  load_journal : forall main w i, load_image main (Some (journal main w i)) = Some i;
  load_vacuum : forall i, load_image (vacuum i) None = Some i;
  load_update : forall c i, load_image (update_file c i) None = Some i;
  version_with : forall v i, 0 <= v < 2 ^ 32 -> version_of (with_version v i) = v;
  keycheck_with : forall v i, keycheck_row (with_version v i) = keycheck_row i;
  meta_with : forall v i, meta_exists (with_version v i) = meta_exists i;
  (** [id] is the primary key of [meta], so its one row is inserted once. *)
  insert_keycheck_row : forall k now i j, insert_keycheck k now i = Some j ->
    keycheck_row i = None /\ keycheck_row j = Some k /\ version_of j = version_of i /\ meta_exists j = true;
  audit_restore_keeps : forall now i j, audit_restore now i = Some j -> version_of j = version_of i }.

Record Migration := { m_version : Z; m_name : str; m_sql : str }.

Inductive MigrateError :=
| OpenError (e : IoError)
| Downgrade (database binary : Z)
| NotKohaku
| KeycheckMismatch
| KeycheckMissing
| PreMigrationCopy (e : IoError)
| ForeignKeyViolation (migration : str)
| Statement (migration : str)
| DatabaseError.

Section Migrate.
Context `{Crates} `{Sqlite}.

Definition PRE_MIGRATE_KEPT : nat := 2.

(** [MIGRATIONS], over the texts of the files under [migrations/]. *)
Definition MIGRATIONS (foundation admin_auth projects : str) : list Migration :=
  [{| m_version := 1; m_name := lit "0001_foundation"; m_sql := foundation |};
   {| m_version := 2; m_name := lit "0002_admin_auth"; m_sql := admin_auth |};
   {| m_version := 3; m_name := lit "0003_projects"; m_sql := projects |}].

Definition newest (migrations : list Migration) : Z :=
  match last migrations with Some m => m_version m | None => 0 end.

(** ** The live database *)

(** The contents a connection sees. *)
Definition live_image (d : DataDir) (k : Disk) : option Image :=
  c ← content_of (database d) k; load_image c (content_of (wal d) k).

(** A statement that reads: it may fail. *)
Definition query_live {A} (d : DataDir) (f : Image -> A) : Io MigrateError A :=
  with_err (fun _ => DatabaseError)
    (syscall (fun k => match live_image d k with Some i => Ok (f i, k) | None => Err OtherIo end)).

(** The commit of a transaction that [f] turns the contents with; a failed statement or
    commit changes nothing. *)
Definition commit_live (d : DataDir) (f : Image -> result MigrateError Image) : Io MigrateError unit := fun k =>
  match fault k with
  | Some _ => (Err DatabaseError, next_fault k)
  | None =>
      let k := next_fault k in
      match content_of (database d) k, live_image d k with
      | Some c, Some i =>
          match f i with
          | Ok j => (Ok tt, set_files <[wal d := Regular (journal c (content_of (wal d) k) j) PRIVATE (disk_time k)]> k)
          | Err e => (Err e, k)
          end
      | _, _ => (Err DatabaseError, k)
      end
  end.

(** ** The keycheck *)

Definition stored_keycheck (i : Image) : option bytes := if meta_exists i then keycheck_row i else None.

(** [check_keycheck]; a key that cannot be computed never matches. *)
Definition check_keycheck (d : DataDir) (secret : bytes) (complete_missing : option Z) : Io MigrateError unit :=
  stored ← query_live d stored_keycheck;
  match stored with
  | Some stored =>
      if bool_decide (matches_keycheck secret stored = Some true) then mret tt
      else io_fail KeycheckMismatch
  | None =>
      match complete_missing with
      | Some now =>
          meta ← query_live d meta_exists;
          if (meta : bool) then
            commit_live d (fun i => k ← ok_or DatabaseError (keycheck secret);
                                    ok_or DatabaseError (insert_keycheck k now i))
          else io_fail KeycheckMissing
      | None => io_fail KeycheckMissing
      end
  end.

(** ** Pre-migration copies *)

(** [vacuum_into]: a failure leaves what was written. *)
Definition vacuum_into (d : DataDir) (p : Path) : Io IoError unit := fun k =>
  match live_image d k with
  | Some i => write_file p (vacuum i) k
  | None => (Err OtherIo, next_fault k)
  end.

Definition copy_name (old now : Z) : str :=
  lit "pre-migrate-v" ++ show_unsigned old ++ lit "-" ++ show_signed now ++ lit ".db".

(** [str::parse::<u64>] of digits. *)
Definition parse_u64 (digits : str) : option Z :=
  let n := digits_value digits in then_some (n <? 2 ^ 64) n.

(** [pre_migration_time]: the time of a copy's name, as a [u64]. *)
Definition pre_migration_time (name : str) : option Z :=
  rest ← strip_prefix (lit "pre-migrate-v") name;
  rest ← strip_suffix (lit ".db") rest;
  '(version, time) ← split_once 45 rest;
  let digits s := negb (zlist_eqb s []) && forallb is_ascii_digit (utf8 s) in
  if negb (digits version) || negb (digits time) then None else parse_u64 time.

(** [copies.sort()]: by time, then by the bytes of the name. *)
Definition copy_le (a b : Z * str) : bool :=
  (a.1 <? b.1) || ((a.1 =? b.1) && lex_le (utf8 a.2) (utf8 b.2)).

Definition sort_copies (l : list (Z * str)) : list (Z * str) := sort_by copy_le l.

(** The copies among the entries of a directory: regular files with a copy's name. *)
Definition copies_of (l : list (str * Entry)) : list (Z * str) :=
  omap (fun ne => match ne.2 with
                  | Regular _ _ _ => (fun t => (t, ne.1)) <$> pre_migration_time ne.1
                  | NotRegular => None
                  end) l.

Fixpoint remove_all (dir : str) (l : list (Z * str)) : Io IoError unit :=
  match l with
  | [] => mret tt
  | (_, name) :: l => _ ← remove_if_present (dir, name); remove_all dir l
  end.

(** [prune_pre_migration_copies]. *)
Definition prune_pre_migration_copies (dir : str) : Io IoError unit :=
  entries ← read_dir dir;
  let copies := sort_copies (copies_of entries) in
  let excess := (length copies - PRE_MIGRATE_KEPT)%nat in
  _ ← remove_all dir (firstn excess copies);
  if (0 <? excess)%nat then sync_dir dir else mret tt.

(** [pre_migration_copy]. *)
Definition pre_migration_copy (d : DataDir) (old now : Z) : Io IoError unit :=
  dir ← ensure_backups d;
  tmp ← create_tmp dir (lit "pre-migrate");
  written ← attempt (_ ← vacuum_into d tmp;
                     _ ← sync_file tmp;
                     _ ← rename tmp (dir, copy_name old now);
                     sync_dir dir);
  match written with
  | Err e => _ ← attempt (E' := IoError) (remove_if_present tmp); io_fail e
  | Ok _ => prune_pre_migration_copies dir
  end.

(** ** Applying migrations *)

(** The contents [apply_in_transaction] commits. *)
Definition migrate_image (m : Migration) (secret : bytes) (now : Z) (i : Image) : result MigrateError Image :=
  i ← ok_or (Statement (m_name m)) (execute_batch (m_sql m) i);
  i ← (if m_version m =? 1 then
         k ← ok_or DatabaseError (keycheck secret);
         ok_or (Statement (m_name m)) (insert_keycheck k now i)
       else Ok i);
  let i := with_version (m_version m) i in
  if fk_violation i then Err (ForeignKeyViolation (m_name m)) else Ok i.

(** A connection pragma: it may fail. *)
Definition pragma : Io MigrateError unit :=
  with_err (fun _ => DatabaseError) (syscall (fun k => Ok (tt, k))).

(** [apply]. *)
Definition apply (d : DataDir) (m : Migration) (secret : bytes) (now : Z) : Io MigrateError unit :=
  _ ← pragma;
  r ← attempt (commit_live d (migrate_image m secret now));
  _ ← pragma;
  of_result r.

Fixpoint apply_all (d : DataDir) (ms : list Migration) (secret : bytes) (now : Z) : Io MigrateError unit :=
  match ms with
  | [] => mret tt
  | m :: ms => _ ← apply d m secret now; apply_all d ms secret now
  end.

(** The debug assertion of [prepare]: versions 1, 2, 3, ... without gaps. *)
Fixpoint numbered_from (v : Z) (ms : list Migration) : bool :=
  match ms with [] => true | m :: ms => (m_version m =? v) && numbered_from (v + 1) ms end.

Definition numbered (ms : list Migration) : bool := numbered_from 1 ms.

Definition pending (version : Z) (ms : list Migration) : list Migration :=
  List.filter (fun m => version <? m_version m) ms.

(** [prepare]. *)
Definition prepare (d : DataDir) (secret : bytes) (migrations : list Migration) (now : Z)
  : Io MigrateError unit :=
  version ← query_live d version_of;
  let binary := newest migrations in
  if binary <? version then io_fail (Downgrade version binary)
  else
    _ ← (if version =? 0 then
           schema ← query_live d has_schema;
           if (schema : bool) then io_fail NotKohaku else mret tt
         else
           _ ← check_keycheck d secret (Some now);
           if version <? binary then with_err PreMigrationCopy (pre_migration_copy d version now)
           else mret tt);
    apply_all d (pending version migrations) secret now.

(** [open]: the journal mode and the other pragmas. *)
Definition open_live (d : DataDir) : Io MigrateError unit := query_live d (fun _ => tt).

(** [open_and_prepare]. *)
Definition open_and_prepare (d : DataDir) (secret : bytes) (migrations : list Migration) (now : Z)
  : Io MigrateError unit :=
  _ ← with_err OpenError (open_or_create (database d) PRIVATE);
  _ ← open_live d;
  prepare d secret migrations now.

(** ** Commands beside the server (current.rs) *)

Inductive OpenCurrentError :=
| NoDatabase
| SchemaMismatch (database binary : Z)
| CurrentKeycheck (e : MigrateError)
| CurrentDatabase.

Definition is_file (p : Path) (k : Disk) : bool :=
  match lookup_file p k with Some (Regular _ _ _) => true | _ => false end.

(** [open_current]. *)
Definition open_current (d : DataDir) (secret : bytes) (migrations : list Migration) : Io OpenCurrentError unit := fun k =>
  if negb (is_file (database d) k) then (Err NoDatabase, k)
  else
    (_ ← with_err (fun _ => CurrentDatabase) (open_live d);
     version ← with_err (fun _ => CurrentDatabase) (query_live d version_of);
     let binary := newest migrations in
     if negb (version =? binary) then io_fail (SchemaMismatch version binary)
     else with_err CurrentKeycheck (check_keycheck d secret None)) k.
End Migrate.

Arguments pre_migration_time : simpl never.
#[local] Arguments keycheck : simpl never.
#[local] Arguments matches_keycheck : simpl never.

(** ** Lemmas: copies *)

Lemma copy_le_total a b : copy_le a b = false -> copy_le b a = true.
Proof.
  unfold copy_le. intros Hf. apply orb_false_iff in Hf as [Hl Hf]. apply Z.ltb_ge in Hl.
  apply orb_true_iff. destruct (Z.eqb_spec a.1 b.1) as [He|Hne].
  - right. rewrite He, Z.eqb_refl. cbn in *. by apply lex_le_total.
  - left. apply Z.ltb_lt. lia.
Qed.

Lemma copy_le_trans a b c : copy_le a b = true -> copy_le b c = true -> copy_le a c = true.
Proof.
  unfold copy_le. rewrite !orb_true_iff, !andb_true_iff, !Z.ltb_lt, !Z.eqb_eq.
  intros [Hab|[Hab Hab']] [Hbc|[Hbc Hbc']]; try (left; lia). right. split; [lia|]. by eapply lex_le_trans.
Qed.

Lemma copy_le_time a b : copy_le a b = true -> a.1 <= b.1.
Proof. unfold copy_le. rewrite orb_true_iff, andb_true_iff, Z.ltb_lt, Z.eqb_eq. lia. Qed.

Lemma remove_if_present_Ok p k x k' :
  remove_if_present p k = (Ok x, k') -> files k' = delete p (files k) /\ dirs k' = dirs k.
Proof.
  unfold remove_if_present, attempt, mbind, Io_bind. destruct (remove_file p k) as [[y|[]] k1] eqn:E.
  - intros [= <- <-]. by apply remove_file_Ok in E.
  - done.
  - intros [= <- <-]. unfold remove_file, syscall in E. destruct (fault k); [done|].
    unfold lookup_file in E. cbn in E. destruct (files k !! p) eqn:Ef; [done|]. injection E as <-.
    split; [|done]. cbn. symmetry. by apply delete_id.
  - done.
Qed.

Lemma remove_all_Ok dir l k x k' :
  remove_all dir l k = (Ok x, k') ->
  dirs k' = dirs k /\ forall p : Path, files k' !! p =
    if bool_decide (p.1 = dir /\ p.2 ∈ map snd l) then None else files k !! p.
Proof.
  revert k. induction l as [|[t name] l IH]; intros k; cbn [remove_all].
  { intros [= _ <-]. split; [done|]. intros p. rewrite bool_decide_eq_false_2; [done|].
    intros [_ Hp]. by apply not_elem_of_nil in Hp. }
  intros (y & k1 & Hr & Hl)%Io_bind_Ok. apply remove_if_present_Ok in Hr as [Hf Hd].
  destruct (IH k1 Hl) as [Hd' Hf']. split; [congruence|]. intros p. rewrite Hf', Hf. cbn [map snd].
  destruct (base.decide (p = (dir, name))) as [->|Hne].
  - rewrite lookup_delete_eq. cbn [fst snd]. rewrite (bool_decide_eq_true_2 (dir = dir /\ name ∈ name :: map snd l)) by (split; [done|left]).
    by destruct (bool_decide _).
  - rewrite lookup_delete_ne by done.
    replace (bool_decide (p.1 = dir /\ p.2 ∈ name :: map snd l))
      with (bool_decide (p.1 = dir /\ p.2 ∈ map snd l)); [done|].
    apply bool_decide_ext. rewrite elem_of_cons. destruct p as [pd pn]. cbn. naive_solver.
Qed.

Lemma elem_of_copies dir k t name :
  (t, name) ∈ copies_of (entries_of dir k) <->
  (exists c mode mtime, files k !! (dir, name) = Some (Regular c mode mtime)) /\ pre_migration_time name = Some t.
Proof.
  unfold copies_of. rewrite list_elem_of_omap. split.
  - intros ([n x] & Hin%elem_of_entries & Hs). cbn in Hs. destruct x as [c mode mtime|]; [|done].
    apply fmap_Some in Hs as (t' & Ht & [= -> ->]). eauto.
  - intros [(c & mode & mtime & Hf) Ht]. exists (name, Regular c mode mtime).
    split; [by apply elem_of_entries|]. cbn [fst snd]. by rewrite Ht.
Qed.

Lemma copies_nodup dir k : NoDup (map snd (copies_of (entries_of dir k))).
Proof.
  pose proof (entries_nodup dir k) as Hd. unfold copies_of.
  induction (entries_of dir k) as [|[n x] l IH]; [constructor|]. cbn [map fst] in Hd.
  apply NoDup_cons in Hd as [Hn Hd]. cbn [omap list_omap fst snd].
  destruct x as [c mode mtime|]; cbn; [|by apply IH]. destruct (pre_migration_time n) as [t|]; cbn; [|by apply IH].
  apply NoDup_cons. split; [|by apply IH]. intros Hin. apply Hn.
  apply list_elem_of_fmap in Hin as ([t' n'] & -> & Hin). apply list_elem_of_omap in Hin as ([m y] & Hm & Hs).
  cbn in Hs. destruct y as [c' mo mt|]; [|done]. apply fmap_Some in Hs as (t2 & _ & [= -> ->]). cbn.
  apply list_elem_of_fmap. by exists (m, Regular c' mo mt).
Qed.

(** A copy of the directory, with the time of its name. *)
Definition is_copy (dir : str) (k : Disk) (name : str) (t : Z) : Prop :=
  (exists c mode mtime, files k !! (dir, name) = Some (Regular c mode mtime)) /\ pre_migration_time name = Some t.

Lemma prune_Ok (dir : str) (k k' : Disk) x :
  prune_pre_migration_copies dir k = (Ok x, k') ->
  exists gone kept, (length kept <= 2)%nat /\ (gone <> [] -> length kept = 2%nat) /\
    NoDup (map snd (gone ++ kept)) /\
    (forall name t, is_copy dir k name t <-> (t, name) ∈ gone ++ kept) /\
    (forall a b, a ∈ gone -> b ∈ kept -> a.1 <= b.1) /\
    forall p : Path, files k' !! p =
      if bool_decide (p.1 = dir /\ p.2 ∈ map snd gone) then None else files k !! p.
Proof.
  unfold prune_pre_migration_copies. intros (l & k1 & Hr%syscall_Ok & Hp)%Io_bind_Ok.
  destruct (bool_decide _); [|done]. injection Hr as <- <-. cbv zeta in Hp.
  change (entries_of dir (next_fault k)) with (entries_of dir k) in Hp.
  set (copies := sort_copies (copies_of (entries_of dir k))) in *.
  set (excess := (length copies - PRE_MIGRATE_KEPT)%nat) in *.
  apply Io_bind_Ok in Hp as (u & k2 & Hrm & Hend). apply remove_all_Ok in Hrm as [_ Hf].
  assert (Hk' : files k' = files k2).
  { destruct (0 <? excess)%nat; [|by injection Hend as _ <-]. by apply sync_dir_Ok in Hend. }
  exists (firstn excess copies), (skipn excess copies). rewrite take_drop. split_and!.
  - rewrite length_skipn. unfold excess, PRE_MIGRATE_KEPT. lia.
  - intros Hg. rewrite length_skipn. assert (excess <> 0%nat) by (intros He; by rewrite He in Hg).
    unfold excess, PRE_MIGRATE_KEPT in *. lia.
  - unfold copies, sort_copies. rewrite (Permutation_map snd (sort_by_perm copy_le _)). apply copies_nodup.
  - intros name t. unfold copies, sort_copies. rewrite sort_by_perm. symmetry. apply elem_of_copies.
  - intros a b Ha Hb. apply copy_le_time. apply (sorted_take_drop copy_le excess copies); [|done|done].
    apply sort_by_sorted; [apply copy_le_total|apply copy_le_trans].
  - intros p. by rewrite Hk', Hf.
Qed.

(** Pruning keeps the two newest copies. When it ends well at most two pre-migration
    copies are left, each at least as new (by the time in its name) as every one removed;
    nothing else on the disk is touched. *)
Theorem pruning_keeps_the_newest (dir : str) (k k' : Disk) :
  prune_pre_migration_copies dir k = (Ok tt, k') ->
  (exists kept, (length kept <= 2)%nat /\ forall name t, is_copy dir k' name t <-> (t, name) ∈ kept) /\
  (forall name t name' t', is_copy dir k name t -> files k' !! (dir, name) = None ->
     is_copy dir k' name' t' -> t <= t') /\
  (forall p : Path, (forall t, p.1 = dir -> ~ is_copy dir k p.2 t) -> files k' !! p = files k !! p).
Proof.
  intros (gone & kept & Hlen & _ & Hnd & Hin & Hle & Hlook)%prune_Ok.
  rewrite map_app in Hnd. apply NoDup_app in Hnd as (_ & Hdis & _).
  assert (Hkept : forall name t, is_copy dir k' name t <-> (t, name) ∈ kept).
  { intros name t. pose proof (Hin name t) as Hi. unfold is_copy in *. rewrite Hlook. cbn [fst snd].
    destruct (bool_decide_reflect (dir = dir /\ name ∈ map snd gone)) as [[_ Hn]|Hn].
    - split; [by intros [(c & mo & mt & Hc) _]|]. intros Hs. destruct (Hdis name Hn).
      apply list_elem_of_fmap. by exists (t, name).
    - rewrite Hi, elem_of_app. split; [|by right]. intros [Hg|Hs]; [|done]. destruct Hn. split; [done|].
      apply list_elem_of_fmap. by exists (t, name). }
  split; [|split].
  - by exists kept.
  - intros name t name' t' Hc Hgone Hc'%Hkept. rewrite Hlook in Hgone. cbn [fst snd] in Hgone.
    destruct (bool_decide_reflect (dir = dir /\ name ∈ map snd gone)) as [[_ Hn]|Hn].
    + apply list_elem_of_fmap in Hn as ([t2 n2] & -> & Hg). cbn in *.
      assert (t2 = t) as ->.
      { assert (is_copy dir k n2 t2) as [_ Ht2] by (apply Hin, elem_of_app; by left).
        destruct Hc as [_ Ht]. congruence. }
      exact (Hle _ _ Hg Hc').
    + destruct Hc as [(c & mo & mt & Hc) _]. discriminate (eq_trans (eq_sym Hgone) Hc).
  - intros p Hp. rewrite Hlook. rewrite bool_decide_eq_false_2; [done|]. intros [Hd Hn].
    apply list_elem_of_fmap in Hn as ([t n] & Hn & Hg). apply (Hp t Hd). rewrite Hn. apply Hin, elem_of_app. by left.
Qed.

(** ** Lemmas: numbering *)

Fixpoint newest_from (v : Z) (ms : list Migration) : Z :=
  match ms with [] => v | m :: ms => newest_from (m_version m) ms end.

Lemma newest_is (ms : list Migration) : newest ms = newest_from 0 ms.
Proof.
  unfold newest. generalize 0. induction ms as [|m ms IH]; intros v; [done|]. cbn [newest_from].
  rewrite <- IH, last_cons. by destruct (last ms).
Qed.

Lemma pending_all v s ms : numbered_from s ms = true -> v < s -> pending v ms = ms.
Proof.
  revert s. induction ms as [|m ms IH]; intros s; [done|]. cbn [numbered_from pending List.filter].
  intros [Hm Hn]%andb_true_iff Hv. apply Z.eqb_eq in Hm. rewrite (proj2 (Z.ltb_lt v (m_version m))) by lia.
  f_equal. apply (IH (s + 1)); [done|lia].
Qed.

Lemma newest_length s ms : numbered_from s ms = true -> newest_from (s - 1) ms = s - 1 + Z.of_nat (length ms).
Proof.
  revert s. induction ms as [|m ms IH]; intros s; cbn [numbered_from newest_from length]; [lia|].
  intros [Hm Hn]%andb_true_iff. apply Z.eqb_eq in Hm. specialize (IH (s + 1) Hn).
  replace (s + 1 - 1) with (m_version m) in IH by lia. rewrite IH. lia.
Qed.

(** From version [v] the pending migrations go on without a gap, up to the newest. *)
Lemma pending_numbered v s ms :
  numbered_from s ms = true -> s <= v + 1 -> v <= newest_from (s - 1) ms ->
  numbered_from (v + 1) (pending v ms) = true /\ newest_from v (pending v ms) = newest_from (s - 1) ms.
Proof.
  revert s. induction ms as [|m ms IH]; intros s; cbn [numbered_from newest_from].
  { intros _ Hs Hv. cbn. split; [done|lia]. }
  intros [Hm Hn]%andb_true_iff Hs Hv. apply Z.eqb_eq in Hm. destruct (Z.ltb_spec v s) as [Hlt|Hge].
  - assert (v + 1 = s) as He by lia. rewrite (pending_all v s); [|cbn; by rewrite Hm, Z.eqb_refl|done].
    cbn [numbered_from newest_from]. by rewrite He, Hm, Z.eqb_refl.
  - unfold pending. cbn [List.filter]. rewrite (proj2 (Z.ltb_ge v (m_version m))) by lia.
    replace (m_version m) with (s + 1 - 1) by lia. apply IH; [done|lia|].
    replace (s + 1 - 1) with (m_version m) by lia. done.
Qed.

(** ** Lemmas: the live database *)

Lemma content_insert_eq p c mode t k : content_of p (set_files <[p := Regular c mode t]> k) = Some c.
Proof. unfold content_of, lookup_file. cbn [files set_files]. by rewrite lookup_insert_eq. Qed.

Lemma content_insert_ne p q x k : p <> q -> content_of p (set_files <[q := x]> k) = content_of p k.
Proof. intros Hpq. unfold content_of, lookup_file. cbn [files set_files]. by rewrite lookup_insert_ne. Qed.

Section Live.
Context `{Crates} `{Sqlite} `{!SqliteLaws} (d : DataDir) (secret : bytes) (now : Z).

(** The database carries the keycheck of the secret. *)
Definition key_ok (i : Image) : Prop :=
  exists kc, stored_keycheck i = Some kc /\ matches_keycheck secret kc = Some true.

(** What start-up may commit: a missing keycheck, or one whole migration to the next version. *)
Inductive upgrade (ms : list Migration) (i j : Image) : Prop :=
| upgrade_keycheck kc :
    stored_keycheck i = None -> keycheck secret = Some kc -> insert_keycheck kc now i = Some j -> upgrade ms i j
| upgrade_migration m :
    m ∈ ms -> m_version m = version_of i + 1 -> migrate_image m secret now i = Ok j -> upgrade ms i j.

Lemma keycheck_matches kc : keycheck secret = Some kc -> matches_keycheck secret kc = Some true.
Proof.
  unfold keycheck, matches_keycheck, verify. intros Hk. rewrite Hk. cbn. f_equal. apply zlist_eqb_refl.
Qed.

Lemma content_same k k' p : files k' !! p = files k !! p -> content_of p k' = content_of p k.
Proof. unfold content_of, lookup_file. by intros ->. Qed.

Lemma live_same k k' :
  files k' !! database d = files k !! database d -> files k' !! wal d = files k !! wal d ->
  live_image d k' = live_image d k.
Proof. intros Hd Hw. unfold live_image. by rewrite (content_same k k' _ Hd), (content_same k k' _ Hw). Qed.

(** From a database that satisfies [P], [m] leaves one that upgrades reach, satisfying [Q]
    when it succeeds. *)
Definition triple {E A} (ms : list Migration) (P : Image -> Prop) (m : Io E A) (Q : A -> Image -> Prop) : Prop :=
  forall k i, live_image d k = Some i -> P i ->
  let '(r, k') := m k in
  exists j, live_image d k' = Some j /\ rtc (upgrade ms) i j /\ match r with Ok a => Q a j | Err _ => True end.

Lemma triple_bind {E A B} ms P (m : Io E A) Q (f : A -> Io E B) R :
  triple ms P m Q -> (forall a, triple ms (Q a) (f a) R) -> triple ms P (m ≫= f) R.
Proof.
  intros Hm Hf k i Hl Hp. unfold mbind, Io_bind. specialize (Hm k i Hl Hp). destruct (m k) as [[a|e] k1].
  - destruct Hm as (j & Hl1 & Hr & Hq). specialize (Hf a k1 j Hl1 Hq). destruct (f a k1) as [r k2].
    destruct Hf as (j2 & Hl2 & Hr2 & Hq2). exists j2. split_and!; [done| |done]. by etrans.
  - destruct Hm as (j & Hl1 & Hr & _). by exists j.
Qed.

Lemma triple_ret {E A} ms P (a : A) (Q : A -> Image -> Prop) :
  (forall i, P i -> Q a i) -> triple (E := E) ms P (mret a) Q.
Proof. intros HQ k i Hl Hp. exists i. split_and!; [done|done|by apply HQ]. Qed.

Lemma triple_fail {E A} ms P (e : E) (Q : A -> Image -> Prop) : triple ms P (io_fail e) Q.
Proof. intros k i Hl Hp. by exists i. Qed.

Lemma triple_with_err {E E' A} ms P (g : E -> E') (m : Io E A) Q : triple ms P m Q -> triple ms P (with_err g m) Q.
Proof.
  intros Hm k i Hl Hp. specialize (Hm k i Hl Hp). unfold with_err.
  destruct (m k) as [[a|e] k1]; destruct Hm as (j & ? & ? & ?); by exists j.
Qed.

Lemma triple_pre {E A} ms (P P' : Image -> Prop) (m : Io E A) Q :
  (forall i, P' i -> P i) -> triple ms P m Q -> triple ms P' m Q.
Proof. intros Hi Hm k i Hl Hp. apply Hm; auto. Qed.

(** Work outside the database. *)
Lemma triple_frame {E A} ms P (m : Io E A) S :
  frame S m -> ~ S (database d) -> ~ S (wal d) -> triple ms P m (fun _ => P).
Proof.
  intros Hf Hd Hw k i Hl Hp. pose proof (live_same k (m k).2 (Hf k _ Hd) (Hf k _ Hw)) as Hs.
  destruct (m k) as [r k']. cbn in Hs. exists i. rewrite Hs. split_and!; [done|done|by destruct r].
Qed.

Lemma triple_query {A} ms P (f : Image -> A) : triple ms P (query_live d f) (fun a i => a = f i /\ P i).
Proof.
  intros k i Hl Hp. unfold query_live, with_err, syscall. destruct (fault k); [by exists i|].
  change (live_image d (next_fault k)) with (live_image d k). rewrite Hl. by exists i.
Qed.

Lemma triple_commit ms P (f : Image -> result MigrateError Image) Q :
  (forall i j, P i -> f i = Ok j -> upgrade ms i j /\ Q j) -> triple ms P (commit_live d f) (fun _ => Q).
Proof.
  intros HQ k i Hl Hp. unfold commit_live. destruct (fault k); [by exists i|].
  change (live_image d (next_fault k)) with (live_image d k).
  change (content_of (database d) (next_fault k)) with (content_of (database d) k).
  change (content_of (wal d) (next_fault k)) with (content_of (wal d) k).
  pose proof Hl as Hl'. unfold live_image in Hl'. destruct (content_of (database d) k) as [c|] eqn:Ec; [|done].
  rewrite Hl. destruct (f i) as [j|e] eqn:Ef; [|by exists i]. exists j.
  destruct (HQ i j Hp Ef) as [Hu Hq]. split_and!; [|by apply rtc_once|done].
  unfold live_image. rewrite content_insert_eq, content_insert_ne by (intros He; injection He; discriminate).
  change (content_of (database d) (next_fault k)) with (content_of (database d) k). rewrite Ec. apply load_journal.
Qed.

Lemma triple_pragma ms P : triple ms P pragma (fun _ => P).
Proof.
  intros k i Hl Hp. unfold pragma, with_err, syscall. destruct (fault k); by exists i.
Qed.

Lemma triple_attempt {E E' A} ms P (m : Io E A) Q :
  triple ms P m Q -> triple (E := E') ms P (attempt m) (fun r i => match r with Ok a => Q a i | Err _ => True end).
Proof.
  intros Hm k i Hl Hp. specialize (Hm k i Hl Hp). unfold attempt. destruct (m k) as [r k1]. exact Hm.
Qed.

Lemma triple_of_result {E A} ms (r : result E A) (Q : A -> Image -> Prop) :
  triple ms (fun i => match r with Ok a => Q a i | Err _ => True end) (of_result r) Q.
Proof. intros k i Hl Hp. exists i. by split_and!. Qed.

(** ** Start-up as a whole *)

(** The statements of the migrations leave an existing [meta] row alone. *)
Definition keeps_meta (m : Migration) : Prop :=
  forall i j k, execute_batch (m_sql m) i = Some j -> meta_exists i = true ->
  keycheck_row i = Some k -> meta_exists j = true /\ keycheck_row j = Some k.

(** What holds of every migration Kohaku ships: a [u32] version, and [keeps_meta]. *)
Definition shipped (m : Migration) : Prop := 0 < m_version m < 2 ^ 32 /\ keeps_meta m.

Lemma stored_Some i k : stored_keycheck i = Some k <-> meta_exists i = true /\ keycheck_row i = Some k.
Proof. unfold stored_keycheck. destruct (meta_exists i); naive_solver. Qed.

Lemma migrate_image_Ok m i j :
  shipped m -> (m_version m = 1 \/ key_ok i) -> migrate_image m secret now i = Ok j ->
  version_of j = m_version m /\ key_ok j.
Proof.
  intros [Hv Hm] Hk. unfold migrate_image. destruct (execute_batch (m_sql m) i) as [i1|] eqn:Eb; [|done]. cbn.
  assert (Hend : forall i2, key_ok i2 ->
    (if fk_violation (with_version (m_version m) i2) then Err (ForeignKeyViolation (m_name m))
     else Ok (with_version (m_version m) i2)) = Ok j -> version_of j = m_version m /\ key_ok j).
  { intros i2 (kc & [Hme Hr]%stored_Some & Hok). destruct (fk_violation _); [done|]. intros [= <-].
    split; [apply version_with; lia|]. exists kc. split; [|done]. apply stored_Some. by rewrite meta_with, keycheck_with. }
  destruct (Z.eqb_spec (m_version m) 1) as [He|Hne].
  - destruct (keycheck secret) as [kc|] eqn:Ek; [|done]. cbn.
    destruct (insert_keycheck kc now i1) as [i2|] eqn:Ei; [|done]. cbn. apply Hend.
    apply insert_keycheck_row in Ei as (_ & Hr & _ & Hme). exists kc. split; [by apply stored_Some|].
    by apply keycheck_matches.
  - cbn. apply Hend. destruct Hk as [|(kc & [Hme Hr]%stored_Some & Hok)]; [done|].
    exists kc. split; [|done]. apply stored_Some. by apply (Hm i i1).
Qed.

Lemma triple_apply ms m :
  m ∈ ms -> shipped m ->
  triple ms (fun i => m_version m = version_of i + 1 /\ (m_version m = 1 \/ key_ok i)) (apply d m secret now)
    (fun _ i => version_of i = m_version m /\ key_ok i).
Proof.
  intros Hin Hs. unfold apply. eapply triple_bind; [apply triple_pragma|]. intros [].
  eapply triple_bind.
  { apply triple_attempt, (triple_commit ms _ _ (fun i => version_of i = m_version m /\ key_ok i)).
    intros i j [Hv Hk] Hj. split; [by eapply upgrade_migration|]. by apply (migrate_image_Ok m i). }
  intros r. eapply triple_bind; [apply triple_pragma|]. intros [].
  eapply triple_pre; [|apply triple_of_result]. by intros i; destruct r.
Qed.

Lemma triple_apply_all ms l v :
  numbered_from (v + 1) l = true -> (forall m, m ∈ l -> m ∈ ms /\ shipped m) ->
  triple ms (fun i => version_of i = v /\ (v = 0 \/ key_ok i)) (apply_all d l secret now)
    (fun _ i => version_of i = newest_from v l /\ (newest_from v l = 0 \/ key_ok i)).
Proof.
  revert v. induction l as [|m l IH]; intros v Hn Hl; cbn [apply_all newest_from]; [by apply triple_ret|].
  cbn [numbered_from] in Hn. apply andb_true_iff in Hn as [Hm Hn]. apply Z.eqb_eq in Hm.
  destruct (Hl m) as [Hin Hs]; [left|]. eapply triple_bind.
  { eapply triple_pre; [|by apply triple_apply]. intros i [Hv Hk]. split; [lia|].
    destruct Hk as [->|]; [left; lia|by right]. }
  intros []. eapply triple_pre; [|apply (IH (m_version m))].
  - intros i [Hv Hk]. by split; [|right].
  - by rewrite Hm.
  - intros m' Hm'. apply Hl. by right.
Qed.

Lemma triple_check_keycheck ms v :
  triple ms (fun i => version_of i = v) (check_keycheck d secret (Some now))
    (fun _ i => version_of i = v /\ key_ok i).
Proof.
  unfold check_keycheck. eapply triple_bind; [apply triple_query|]. intros [kc|].
  - case_bool_decide as Hm; [|apply triple_fail]. apply triple_ret. intros i [Hk Hv]. split; [done|]. by exists kc.
  - eapply triple_bind; [apply triple_query|]. intros [|]; [|apply triple_fail].
    apply (triple_commit ms _ _ (fun i => version_of i = v /\ key_ok i)). intros i j (Hme & Hk & Hv) Hj.
    destruct (keycheck secret) as [kc|] eqn:Ek; [|done]. cbn in Hj.
    destruct (insert_keycheck kc now i) as [j'|] eqn:Ei; [|done]. injection Hj as ->.
    split; [by eapply upgrade_keycheck|]. apply insert_keycheck_row in Ei as (_ & Hr & Hve & Hme').
    split; [congruence|]. exists kc. split; [by apply stored_Some|]. by apply keycheck_matches.
Qed.

Lemma backups_apart : backups d <> root d.
Proof. unfold backups. intros He. apply (f_equal length) in He. rewrite length_app in He. cbn in He. lia. Qed.

Lemma frame_vacuum_into (S : Path -> Prop) p : S p -> frame S (vacuum_into d p).
Proof. intros Hs k q Hq. unfold vacuum_into. destruct (live_image d k); [|done]. by apply (frame_write S). Qed.

Lemma frame_remove_all dir l : frame (fun p => p.1 = dir) (remove_all dir l).
Proof.
  induction l as [|[t name] l IH]; cbn [remove_all]; auto with files.
  apply frame_bind; [by apply frame_remove_if_present|done].
Qed.

Lemma frame_prune dir : frame (fun p => p.1 = dir) (prune_pre_migration_copies dir).
Proof.
  apply frame_bind; [auto with files|]. intros entries. cbv zeta. apply frame_bind; [apply frame_remove_all|].
  intros _. destruct (0 <? _)%nat; auto with files.
Qed.

(** Copying touches nothing outside [backups/]. *)
Lemma frame_pre_migration_copy old : frame (fun p => p.1 = backups d) (pre_migration_copy d old now).
Proof.
  apply frame_bind_post; [apply frame_ensure_backups|]. intros dir k k' ->%ensure_backups_Ok. apply frame_bind_post.
  { eapply frame_weaken; [|apply frame_create_tmp]. by intros p []. }
  intros tmp k1 k2 (_ & Hd & _)%create_tmp_Ok. apply frame_bind.
  - apply frame_attempt. repeat (apply frame_bind; [|intros ?]); auto with files.
    + by apply frame_vacuum_into.
    + by apply frame_rename.
  - intros [|e]; [apply frame_prune|]. apply frame_bind; [|auto with files].
    by apply frame_attempt, frame_remove_if_present.
Qed.

Lemma live_root (k k' : Disk) :
  (forall p : Path, p.1 = root d -> files k' !! p = files k !! p) -> live_image d k' = live_image d k.
Proof. intros Hf. by apply live_same; apply Hf. Qed.

Lemma triple_copy ms P old : triple ms P (pre_migration_copy d old now) (fun _ => P).
Proof.
  eapply triple_frame; [apply frame_pre_migration_copy|..]; intros He; by destruct backups_apart.
Qed.

Lemma triple_prepare ms :
  numbered ms = true -> Forall shipped ms ->
  triple ms (fun _ => True) (prepare d secret ms now)
    (fun _ i => version_of i = newest ms /\ (newest ms = 0 \/ key_ok i)).
Proof.
  intros Hn Hs. unfold prepare. eapply triple_bind; [apply triple_query|]. intros v. cbv zeta beta.
  destruct (Z.ltb_spec (newest ms) v) as [|Hle]; [apply triple_fail|].
  eapply (triple_bind _ _ _ (fun _ i => version_of i = v /\ (v = 0 \/ key_ok i))).
  - destruct (Z.eqb_spec v 0) as [->|Hv].
    + eapply triple_bind; [apply triple_query|]. intros [|]; [apply triple_fail|]. apply triple_ret.
      intros i (_ & Hv & _). split; [done|by left].
    + eapply triple_bind.
      { eapply triple_pre; [|apply (triple_check_keycheck ms v)]. by intros i [-> _]. }
      intros []. eapply (triple_pre _ (fun i => version_of i = v /\ (v = 0 \/ key_ok i))).
      { intros i [Hvi Hk]. by split; [|right]. }
      destruct (v <? newest ms); [apply triple_with_err, triple_copy|by apply triple_ret].
  - intros []. intros k i Hl [Hv Hk]. pose proof (version_range i) as Hr.
    rewrite newest_is in Hle |- *. destruct (pending_numbered v 1 ms) as [Hpn Hnew]; [done|lia|done|].
    change (1 - 1) with 0 in Hnew. rewrite <- Hnew.
    eapply (triple_apply_all ms (pending v ms) v); [done| |exact Hl|done].
    intros m Hm. apply list_elem_of_In, filter_In in Hm as [Hm%list_elem_of_In _]. split; [done|].
    rewrite Forall_forall in Hs. by apply Hs.
Qed.
End Live.

(** C12: what start-up leaves behind. Whatever fails on the way, the database start-up
    leaves is one that whole migrations reached from the database it found, in order and
    without a gap (after at most completing a missing keycheck); and when start-up succeeds
    its version is the newest migration's and it carries the keycheck of the configured
    secret. *)
Theorem startup_migrates_in_whole_steps `{Crates} `{Sqlite} `{!SqliteLaws}
    (d : DataDir) (secret : bytes) (ms : list Migration) (now : Z) (k k' : Disk) (i : Image) r :
  numbered ms = true -> ms <> [] -> Forall shipped ms -> live_image d k = Some i ->
  prepare d secret ms now k = (r, k') ->
  exists j, live_image d k' = Some j /\ rtc (upgrade secret now ms) i j /\
    (r = Ok tt -> version_of j = newest ms /\ key_ok secret j).
Proof.
  intros Hn Hne Hs Hl Hp. pose proof (triple_prepare d secret now ms Hn Hs k i Hl I) as Ht. rewrite Hp in Ht.
  destruct Ht as (j & Hj & Hr & HQ). exists j. split_and!; [done|done|]. intros ->. destruct HQ as [Hv HQ].
  split; [done|]. destruct HQ as [Hz|]; [|done]. unfold newest in Hz. destruct (last ms) as [m|] eqn:El.
  - apply last_Some_elem_of in El. rewrite Forall_forall in Hs. destruct (Hs m El) as [Hm _]. lia.
  - by apply last_None in El.
Qed.

(** The databases start-up must not touch: newer than the binary, not Kohaku's, of another
    secret, or without a [meta] table. *)
Definition foreign `{Crates} `{Sqlite} (secret : bytes) (ms : list Migration) (i : Image) : Prop :=
  newest ms < version_of i \/
  (version_of i = 0 /\ has_schema i = true) \/
  (version_of i <> 0 /\ exists kc, stored_keycheck i = Some kc /\ matches_keycheck secret kc <> Some true) \/
  (version_of i <> 0 /\ meta_exists i = false).

Lemma query_live_cases {A} `{Crates} `{Sqlite} d (f : Image -> A) k i :
  live_image d k = Some i -> exists k', files k' = files k /\ live_image d k' = Some i /\
    (query_live d f k = (Ok (f i), k') \/ query_live d f k = (Err DatabaseError, k')).
Proof.
  intros Hl. unfold query_live, with_err, syscall. exists (next_fault k). split_and!; [done|done|].
  destruct (fault k); [by right|]. change (live_image d (next_fault k)) with (live_image d k). rewrite Hl. by left.
Qed.

(** A connection that opened sees a database. *)
Lemma open_live_spec `{Crates} `{Sqlite} d k r k' :
  open_live d k = (r, k') ->
  files k' = files k /\ live_image d k' = live_image d k /\ (r = Ok tt -> exists i, live_image d k = Some i).
Proof.
  unfold open_live, query_live, with_err, syscall. destruct (fault k); [by intros [= <- <-]|].
  change (live_image d (next_fault k)) with (live_image d k).
  destruct (live_image d k) as [i|] eqn:Hl; intros [= <- <-]; (split_and!; [done|by rewrite <- Hl|]); [eauto|done].
Qed.

(** Without completing it, the keycheck only reads. *)
Lemma check_keycheck_reads `{Crates} `{Sqlite} d secret k r k' i :
  live_image d k = Some i -> check_keycheck d secret None k = (r, k') ->
  files k' = files k /\ (r = Ok tt -> key_ok secret i).
Proof.
  intros Hl. unfold check_keycheck, mbind, Io_bind.
  destruct (query_live_cases d stored_keycheck k i Hl) as (k1 & Hf1 & _ & [-> | ->]); [|by intros [= <- <-]].
  destruct (stored_keycheck i) as [kc|] eqn:Ek; [|by intros [= <- <-]].
  case_bool_decide as Hm; intros [= <- <-]; (split; [congruence|]); [|done]. intros _. by exists kc.
Qed.

(** Runs a query that may fail with [DatabaseError]. *)
Ltac run_query d f k i Hl k1 Hf1 Hl1 :=
  destruct (query_live_cases d f k i Hl) as (k1 & Hf1 & Hl1 & [-> | ->]);
  [cbv beta iota|exists DatabaseError, k1; split_and!; [reflexivity|congruence|tauto]].

Lemma check_keycheck_foreign `{Crates} `{Sqlite} d secret now k i :
  live_image d k = Some i ->
  (exists kc, stored_keycheck i = Some kc /\ matches_keycheck secret kc <> Some true) \/ meta_exists i = false ->
  exists e k', check_keycheck d secret (Some now) k = (Err e, k') /\ files k' = files k /\
    (e = KeycheckMismatch \/ e = KeycheckMissing \/ e = DatabaseError).
Proof.
  intros Hl Hf. unfold check_keycheck, mbind, Io_bind. run_query d stored_keycheck k i Hl k1 Hf1 Hl1.
  destruct Hf as [(kc & -> & Hm)|Hm].
  - rewrite bool_decide_eq_false_2 by done. exists KeycheckMismatch, k1. by auto.
  - unfold stored_keycheck. rewrite Hm. run_query d meta_exists k1 i Hl1 k2 Hf2 Hl2.
    rewrite Hm. exists KeycheckMissing, k2. split_and!; [done|congruence|by auto].
Qed.


(** ** Lemmas: the copy before an upgrade *)

(** A copy's name carries its time. *)
Lemma copy_name_time old now : 0 <= old -> 0 <= now < 2 ^ 64 -> pre_migration_time (copy_name old now) = Some now.
Proof.
  intros Ho Hn. destruct (show_unsigned_spec old Ho) as [Hco _].
  destruct (show_unsigned_spec now) as [Hcn Hvn]; [lia|].
  assert (Hd : forall s, canonical_digits s = true -> negb (zlist_eqb s []) && forallb is_ascii_digit (utf8 s) = true).
  { intros s Hs. pose proof (canonical_digits_all s Hs) as Ha. rewrite utf8_digits_id by done. rewrite Ha. by destruct s. }
  unfold pre_migration_time, copy_name, show_signed. rewrite (proj2 (Z.ltb_ge now 0)) by lia.
  rewrite (proj2 (strip_prefix_spec _ _ _) eq_refl). cbn [mbind option_bind].
  rewrite (proj2 (strip_suffix_spec (lit ".db") _ (show_unsigned old ++ lit "-" ++ show_unsigned now)))
    by (by rewrite <- !app_assoc).
  cbn [mbind option_bind]. rewrite (proj2 (split_once_spec 45 _ (show_unsigned old) (show_unsigned now))).
  - cbn [mbind option_bind]. rewrite !Hd by done. cbn [negb orb]. unfold parse_u64. rewrite Hvn.
    by rewrite (proj2 (Z.ltb_lt now (2 ^ 64))) by lia.
  - split; [done|]. intros Hin. apply canonical_digits_all in Hco. rewrite forallb_forall in Hco.
    apply list_elem_of_In, Hco, is_ascii_digit_spec in Hin. lia.
Qed.

Section Copy.
Context `{Crates} `{Sqlite} `{!SqliteLaws} (d : DataDir) (secret : bytes) (now : Z).

Lemma frame_query {A} (S : Path -> Prop) (f : Image -> A) : frame S (query_live d f).
Proof.
  apply frame_with_err, frame_syscall. intros k a k' Hk p _. destruct (live_image d k); by simplify_eq/=.
Qed.

Lemma frame_commit_live f : frame (fun p => p = wal d) (commit_live d f).
Proof.
  intros k p Hp. unfold commit_live. destruct (fault k); [done|]. destruct (content_of _ _); [|done].
  destruct (live_image _ _) as [i|]; [|done]. destruct (f i); [|done]. cbn. by apply lookup_insert_ne.
Qed.

Hint Resolve frame_query frame_commit_live : files.

Lemma frame_check_keycheck c : frame (fun p => p = wal d) (check_keycheck d secret c).
Proof.
  unfold check_keycheck. apply frame_bind; [auto with files|]. intros [kc|].
  - case_bool_decide; auto with files.
  - destruct c; [|auto with files]. apply frame_bind; [auto with files|]. intros [|]; auto with files.
Qed.

Lemma frame_apply_all l : frame (fun p => p = wal d) (apply_all d l secret now).
Proof.
  induction l as [|m l IH]; cbn [apply_all]; auto with files. apply frame_bind; [|done].
  assert (Hp : frame (fun p => p = wal d) pragma).
  { apply frame_with_err, frame_syscall. by intros k a k' [= _ <-] p _. }
  unfold apply. repeat (apply frame_bind; [|intros ?]); auto with files.
Qed.

(** The copy that was renamed into place is [vacuum] of the live database, and no other
    file changed. *)
Lemma copy_written old k i k' tmp t r :
  live_image d k = Some i -> files k !! tmp = Some (Regular [] PRIVATE t) -> tmp.1 = backups d ->
  tmp <> (backups d, copy_name old now) ->
  (_ ← vacuum_into d tmp; _ ← sync_file tmp; _ ← rename tmp (backups d, copy_name old now);
   sync_dir (backups d)) k = (Ok r, k') ->
  exists t', files k' = <[(backups d, copy_name old now) := Regular (vacuum i) PRIVATE t']> (delete tmp (files k)).
Proof.
  intros Hl Ht Hd Hne (u & k1 & Hv & Hk)%Io_bind_Ok. unfold vacuum_into in Hv. rewrite Hl in Hv.
  destruct (write_file_Ok _ _ _ _ _ Hv _ _ _ Ht) as [t' Hf1]. exists t'. apply Io_bind_Ok in Hk as (u2 & k2 & Hs & Hk).
  apply sync_file_Ok in Hs as Hf2.
  apply Io_bind_Ok in Hk as (u3 & k3 & Hr & Hk).
  apply sync_dir_Ok in Hk as Hf3.
  apply rename_Ok in Hr as (y & Hy & Hf & _). rewrite Hf3, Hf. rewrite Hf2, Hf1 in Hy |- *.
  rewrite lookup_insert_eq in Hy. injection Hy as <-. by rewrite delete_insert_eq.
Qed.

Lemma pre_migration_copy_Ok old k i k' r :
  live_image d k = Some i -> 0 <= old -> 0 <= now < 2 ^ 64 ->
  (forall name t, is_copy (backups d) k name t -> t < now) ->
  pre_migration_copy d old now k = (Ok r, k') ->
  content_of (backups d, copy_name old now) k' = Some (vacuum i).
Proof.
  intros Hl Ho Hn Hold (dir & k1 & He & Hp)%Io_bind_Ok. pose proof (ensure_backups_Ok _ _ _ _ He) as ->.
  assert (Hf1 : forall p, files k1 !! p = files k !! p).
  { intros p. pose proof (frame_ensure_backups (fun _ => False) d k p (fun x => x)) as Hf. by rewrite He in Hf. }
  apply Io_bind_Ok in Hp as (tmp & k2 & Ht & Hp). apply create_tmp_Ok in Ht as (Htmp & Hd & Hnone & [tc Hf2] & _).
  assert (Hne : tmp <> (backups d, copy_name old now)).
  { intros ->. unfold is_tmp in Htmp. cbn [snd] in Htmp.
    assert (Hdb : ends_with (lit ".db") (copy_name old now) = true).
    { apply ends_with_spec. eexists. unfold copy_name. by rewrite !app_assoc. }
    apply ends_with_spec in Htmp as [t Ht]. apply ends_with_spec in Hdb as [t' Ht']. rewrite Ht in Ht'.
    apply (f_equal last) in Ht'. by rewrite !last_app in Ht'. }
  assert (Hl2 : live_image d k2 = Some i).
  { rewrite <- Hl. apply live_root. intros p Hp'. rewrite Hf2, lookup_insert_ne; [apply Hf1|].
    intros ->. apply (backups_apart d). congruence. }
  apply Io_bind_Ok in Hp as (w & k3 & Ha & Hp). unfold attempt in Ha.
  match type of Ha with context [let '(_, _) := ?m in _] => destruct m as [r0 k3'] eqn:Ew end. injection Ha as <- ->.
  destruct r0 as [u|e]; [|by apply Io_bind_Ok in Hp as (? & ? & _ & ?)].
  destruct (copy_written old k2 i k3 tmp tc u Hl2 ltac:(rewrite Hf2; apply lookup_insert_eq) Hd Hne Ew) as [t3 Hf3].
  set (target := (backups d, copy_name old now)) in *.
  assert (Htarget : content_of target k3 = Some (vacuum i)).
  { unfold content_of, lookup_file. rewrite Hf3. by rewrite lookup_insert_eq. }
  apply prune_Ok in Hp as (gone & kept & Hlen & Hfull & Hnd & Hin & Hle & Hk').
  rewrite <- Htarget. apply content_same. etrans; [apply Hk'|]. rewrite bool_decide_eq_false_2; [done|].
  intros [_ Hg]. apply list_elem_of_fmap in Hg as ([t n] & Hn' & Hg). cbn in Hn'. subst n.
  assert (Ht : t = now).
  { assert (is_copy (backups d) k3 (copy_name old now) t) as [_ Htime] by (apply Hin, elem_of_app; by left).
    rewrite copy_name_time in Htime by lia. by injection Htime. }
  assert (Hgone : gone <> []) by (intros ->; by apply not_elem_of_nil in Hg).
  destruct kept as [|[t' n'] kept]; [by specialize (Hfull Hgone)|].
  assert (Hn' : n' <> copy_name old now).
  { intros ->. rewrite map_app in Hnd. apply NoDup_app in Hnd as (_ & Hdis & _). apply (Hdis (copy_name old now)); [|left].
    apply list_elem_of_fmap. by exists (t, copy_name old now). }
  assert (Hc : is_copy (backups d) k3 n' t') by (apply Hin, elem_of_app; right; left).
  assert (t' < now); [|specialize (Hle (t, copy_name old now) (t', n') Hg ltac:(left)); cbn in Hle; lia].
  apply (Hold n'). destruct Hc as [(c & mo & mt & Hc) Htime]. split; [|done]. exists c, mo, mt.
  rewrite Hf3 in Hc. unfold target in Hc. rewrite lookup_insert_ne in Hc by congruence.
  apply lookup_delete_Some in Hc as [Hnt Hc]. rewrite Hf2, lookup_insert_ne in Hc by done. by rewrite <- Hf1.
Qed.

Lemma keycheck_steps i j : rtc (upgrade secret now []) i j -> version_of j = version_of i.
Proof.
  induction 1 as [|i j l Hu _ IH]; [done|]. rewrite IH. destruct Hu as [kc _ _ Hi|m Hm _ _].
  - by apply insert_keycheck_row in Hi as (_ & _ & Hv & _).
  - by apply not_elem_of_nil in Hm.
Qed.

Lemma no_pending ms v : numbered ms = true -> 0 <= v -> newest ms = v -> pending v ms = [].
Proof.
  intros Hn Hv He. rewrite newest_is in He. destruct (pending_numbered v 1 ms) as [Hpn Hnew]; [done|lia|change (1 - 1) with 0; lia|].
  change (1 - 1) with 0 in Hnew. apply newest_length in Hpn. replace (v + 1 - 1) with v in Hpn by lia.
  apply nil_length_inv. lia.
Qed.

(** After the guards: the copy, then the migrations. *)
Lemma migrations_after_copy ms k i v k' r :
  numbered ms = true -> live_image d k = Some i -> version_of i = v -> v <= newest ms -> 0 <= now < 2 ^ 64 ->
  (forall name t, is_copy (backups d) k name t -> t < now) ->
  (_ ← (if v <? newest ms then with_err PreMigrationCopy (pre_migration_copy d v now) else mret tt);
   apply_all d (pending v ms) secret now) k = (r, k') ->
  live_image d k' = live_image d k \/ content_of (backups d, copy_name v now) k' = Some (vacuum i).
Proof.
  intros Hn Hl Hv Hle Hnow Hold Hp. pose proof (version_range i) as Hr. unfold mbind, Io_bind in Hp.
  destruct (Z.ltb_spec v (newest ms)) as [Hlt|Hge].
  - unfold with_err in Hp. pose proof (frame_pre_migration_copy d now v k) as Hf.
    destruct (pre_migration_copy d v now k) as [[u|e] k1] eqn:Ec.
    + right. apply (pre_migration_copy_Ok v k i) in Ec; [|done|lia|done|done]. rewrite <- Ec. apply content_same.
      pose proof (frame_apply_all (pending v ms) k1 (backups d, copy_name v now)) as Hfr. rewrite Hp in Hfr.
      apply Hfr. intros He. apply (backups_apart d). by injection He.
    + left. injection Hp as _ <-. apply live_root. intros p Hp. apply Hf. intros He. apply (backups_apart d). congruence.
  - left. cbn in Hp. rewrite no_pending in Hp by (done || lia). by injection Hp as _ <-.
Qed.
End Copy.

(** No migration without a copy. When start-up leaves a database of another version than
    it found (above 0), [backups/] holds a file named for the old version and the time whose
    contents are the database as it was before the first migration, keycheck included;
    provided no copy there already carries this or a later time. *)
Theorem upgrades_leave_a_copy `{Crates} `{Sqlite} `{!SqliteLaws}
    (d : DataDir) (secret : bytes) (ms : list Migration) (now : Z) (k k' : Disk) (i j : Image) r :
  numbered ms = true -> live_image d k = Some i -> version_of i <> 0 -> 0 <= now < 2 ^ 64 ->
  (forall name t, is_copy (backups d) k name t -> t < now) ->
  prepare d secret ms now k = (r, k') -> live_image d k' = Some j -> version_of j <> version_of i ->
  exists i0 c, rtc (upgrade secret now []) i i0 /\ key_ok secret i0 /\
    content_of (backups d, copy_name (version_of i) now) k' = Some c /\ load_image c None = Some i0.
Proof.
  intros Hn Hl Hv0 Hnow Hold Hp Hj Hne. unfold prepare, mbind at 1, Io_bind at 1 in Hp.
  destruct (query_live_cases d version_of k i Hl) as (k1 & Hf1 & Hl1 & [He|He]); rewrite He in Hp.
  2:{ injection Hp as _ <-. congruence. }
  cbv zeta in Hp. destruct (Z.ltb_spec (newest ms) (version_of i)) as [|Hle]; [injection Hp as _ <-; congruence|].
  destruct (Z.eqb_spec (version_of i) 0) as [|_]; [done|].
  pose proof (triple_check_keycheck d secret now [] (version_of i) k1 i Hl1 eq_refl) as Hc.
  pose proof (frame_check_keycheck d secret (Some now) k1) as Hf.
  unfold mbind at 1, Io_bind at 1, mbind at 1, Io_bind at 1 in Hp.
  destruct (check_keycheck d secret (Some now) k1) as [[u|e] k2]; destruct Hc as (i0 & Hl2 & Hr & HQ).
  2:{ injection Hp as _ <-. apply keycheck_steps in Hr. congruence. }
  destruct HQ as [Hv Hk]. exists i0, (vacuum i0). split_and!; [done|done| |apply load_vacuum].
  destruct (migrations_after_copy d secret now ms k2 i0 (version_of i) k' r) as [Hsame|]; try done.
  - intros name t [(c & mo & mt & Hc) Ht]. apply (Hold name). split; [|done]. exists c, mo, mt. rewrite <- Hc, <- Hf1.
    symmetry. apply Hf. intros He'. apply (backups_apart d). by injection He'.
  - congruence.
Qed.
