(* ===== verification/Backup.v ===== *)
(** * Backup and restore (src/src/db/backup.rs)

    [kohaku backup], [kohaku restore] and [kohaku restore --list], on the disk of [Files]
    and the database of [Migrate]. *)

From stdpp Require Import gmap.
From S2P Require Import Prelude Str Keys Files Migrate.

Inductive BackupError :=
| BackupNoDatabase
| BackupKeycheck (e : MigrateError)
| TargetExists
| WriteError (e : IoError)
| OutputError.

Inductive RestoreError :=
| LockError_ (e : LockError)
| RestoreIo (e : IoError)
| NotABackup
| RecordError.

(** An [io::Write]: what reaches it of the bytes it is given, and whether it took them all
    and was flushed. *)
Definition Writer : Type := bytes -> bytes * bool.

(** An [io::Read]: the bytes it yields, and whether it ends without an error. *)
Definition Reader : Type := bytes * bool.

Section Backup.
Context `{Crates} `{Sqlite}.

(** ** Backup *)

(** [open_checked]. *)
Definition open_checked (d : DataDir) (secret : bytes) : Io BackupError unit := fun k =>
  if negb (is_file (database d) k) then (Err BackupNoDatabase, k)
  else
    (_ ← with_err (fun _ => BackupNoDatabase) (open_live d);
     with_err BackupKeycheck (check_keycheck d secret None)) k.

(** [snapshot]. *)
Definition snapshot (d : DataDir) (dir : str) : Io IoError Path :=
  tmp ← create_tmp dir (lit "backup");
  written ← attempt (_ ← vacuum_into d tmp; sync_file tmp);
  match written with
  | Ok _ => mret tmp
  | Err e => _ ← attempt (E' := IoError) (remove_if_present tmp); io_fail e
  end.

(** [fs::symlink_metadata]. *)
Definition symlink_metadata (p : Path) : Io IoError unit := syscall (fun k =>
  match lookup_file p k with Some _ => Ok (tt, k) | None => Err NotFound end).

(** What [backup_to_file] does once the snapshot is complete. *)
Definition publish (tmp target : Path) : Io BackupError unit :=
  published ← attempt (hard_link tmp target);
  removed ← attempt (remove_if_present tmp);
  match published with
  | Err AlreadyExists => io_fail TargetExists
  | Err e => io_fail (WriteError e)
  | Ok _ => with_err WriteError (_ ← of_result removed; sync_dir target.1)
  end.

(** [backup_to_file]. *)
Definition backup_to_file (d : DataDir) (secret : bytes) (target : Path) : Io BackupError unit :=
  meta ← attempt (symlink_metadata target);
  match meta with
  | Ok _ => io_fail TargetExists
  | Err _ =>
      _ ← open_checked d secret;
      tmp ← with_err WriteError (snapshot d target.1);
      publish tmp target
  end.

(** [backup_to_writer], with what reached the output. *)
Definition backup_to_writer (d : DataDir) (secret : bytes) (out : Writer) (k : Disk)
  : result BackupError unit * bytes * Disk :=
  match (_ ← open_checked d secret;
         dir ← with_err WriteError (ensure_backups d);
         with_err WriteError (snapshot d dir)) k with
  | (Err e, k) => (Err e, [], k)
  | (Ok tmp, k) =>
      let '(opened, k) := read_file tmp k in
      let '(copied, sent) :=
        match opened with
        | Err e => (Err (WriteError e), [])
        | Ok c => let '(sent, all) := out c in (if (all : bool) then Ok tt else Err OutputError, sent)
        end in
      let '(removed, k) := with_err WriteError (remove_if_present tmp) k in
      (match copied with Ok _ => removed | Err e => Err e end, sent, k)
  end.

(** [list_backups]: the names of the regular files, in byte order. *)
Definition list_backups (d : DataDir) : Io IoError (list str) :=
  r ← attempt (read_dir (backups d));
  match r with
  | Ok entries =>
      mret (sort_by (fun a b => lex_le (utf8 a) (utf8 b))
        (omap (fun ne => match ne.2 with Regular _ _ _ => Some ne.1 | NotRegular => None end) entries))
  | Err NotFound => mret []
  | Err e => io_fail e
  end.

(** ** Restore *)

(** [io::copy] from the source into the candidate. *)
Definition copy_from (source : Reader) (p : Path) : Io IoError unit :=
  _ ← write_file p source.1;
  if source.2 then mret tt else io_fail OtherIo.

(** The checks of [check_and_record]. *)
Definition check_candidate (p : Path) : Io IoError bool := syscall (fun k =>
  match content_of p k with
  | Some c =>
      match load_image c None with
      | Some i => Ok (integrity_check c && (1 <=? version_of i), k)
      | None => Err OtherIo
      end
  | None => Err NotFound
  end).

(** Its transaction: the restore entry, in place. *)
Definition record_restore (p : Path) (now : Z) : Io IoError unit := syscall (fun k =>
  match content_of p k with
  | Some c =>
      match (i ← load_image c None; audit_restore now i) with
      | Some j => Ok (tt, put_content (update_file c j) p k)
      | None => Err OtherIo
      end
  | None => Err NotFound
  end).

(** [Connection::open_with_flags] without [CREATE]. *)
Definition open_candidate (p : Path) : Io IoError unit := syscall (fun k =>
  match lookup_file p k with Some (Regular _ _ _) => Ok (tt, k) | _ => Err OtherIo end).

(** [check_and_record]: open, check, record, close. *)
Definition check_and_record (p : Path) (now : Z) : Io RestoreError unit :=
  _ ← with_err (fun _ => NotABackup) (open_candidate p);
  checked ← attempt (check_candidate p);
  match checked with
  | Ok true =>
      _ ← with_err (fun _ => RecordError) (record_restore p now);
      with_err (fun _ => RecordError) (syscall (fun k => Ok (tt, k)))
  | _ => io_fail NotABackup
  end.

(** The closure of [restore], up to the candidate being complete and durable. *)
Definition make_candidate (source : Reader) (tmp : Path) (now : Z) : Io RestoreError unit :=
  _ ← with_err RestoreIo (copy_from source tmp);
  _ ← with_err RestoreIo (sync_file tmp);
  _ ← check_and_record tmp now;
  with_err RestoreIo (sync_file tmp).

(** The rest of it: the candidate takes the database's place. *)
Definition swap_in (d : DataDir) (tmp : Path) : Io IoError unit :=
  _ ← remove_if_present (wal d);
  _ ← remove_if_present (shm d);
  _ ← rename tmp (database d);
  sync_dir (root d).

Definition replace_database (d : DataDir) (source : Reader) (tmp : Path) (now : Z) : Io RestoreError unit :=
  _ ← make_candidate source tmp now;
  with_err RestoreIo (swap_in d tmp).

(** [restore]. *)
Definition restore (d : DataDir) (source : Reader) (now : Z) : Io RestoreError unit :=
  _ ← with_err LockError_ (acquire d);
  tmp ← with_err RestoreIo (create_tmp (root d) (lit "restore"));
  result ← attempt (replace_database d source tmp now);
  match result with
  | Ok _ => mret tt
  | Err e => _ ← attempt (E' := RestoreError) (remove_if_present tmp); io_fail e
  end.
End Backup.

(** ** Lemmas: the snapshot *)

Lemma create_tmp_Err dir stem k e k' : create_tmp dir stem k = (Err e, k') -> files k' = files k.
Proof.
  unfold create_tmp. generalize (S (length (disk_tape k))). intros fuel. revert k.
  induction fuel as [|fuel IH]; intros k; cbn [create_tmp_loop]; [by intros [= _ <-]|].
  unfold mbind, Io_bind, draw_disk. destruct (random_bytes 8 (disk_tape k)) as [[nonce|] t]; [|by intros [= _ <-]].
  unfold attempt. destruct (create_new _ _ _) as [[x|err] k1] eqn:E; [done|].
  assert (Hf : files k1 = files k).
  { unfold create_new, syscall in E. destruct (fault _); [by injection E as _ <-|].
    destruct (bool_decide _); [by injection E as _ <-|]. destruct (lookup_file _ _); [by injection E as _ <-|done]. }
  rewrite <- Hf. destruct err; [apply IH|by intros [= _ <-]|by intros [= _ <-]].
Qed.

Lemma not_tmp (d : DataDir) (p : Path) : is_tmp p -> p <> database d /\ p <> wal d /\ p <> shm d /\ p <> lock_path d.
Proof. intros Ht. split_and!; intros ->; by vm_compute in Ht. Qed.

Lemma frame_metadata (S : Path -> Prop) p : frame S (symlink_metadata p).
Proof. apply frame_syscall. intros k a k' Hk q _. destruct (lookup_file p k); by simplify_eq/=. Qed.

Section Lemmas.
Context `{Crates} `{Sqlite} `{!SqliteLaws} (d : DataDir) (secret : bytes).

(** Whatever happens, only a file that was not there is touched; and a snapshot that is
    complete holds the live database. *)
Lemma snapshot_spec dir k r k' :
  snapshot d dir k = (r, k') ->
  (forall p, files k !! p <> None -> files k' !! p = files k !! p) /\
  forall tmp, r = Ok tmp -> is_tmp tmp /\ files k !! tmp = None /\
    forall i, live_image d k = Some i -> exists t, files k' = <[tmp := Regular (vacuum i) PRIVATE t]> (files k).
Proof.
  unfold snapshot, mbind at 1, Io_bind at 1. destruct (create_tmp dir (lit "backup") k) as [[tmp|e] k1] eqn:Et.
  2:{ apply create_tmp_Err in Et. intros [= <- <-]. rewrite Et. split; [done|]. intros tmp. discriminate. }
  apply create_tmp_Ok in Et as (Ht & _ & Hnone & [t Hf1] & _).
  assert (Hl1 : live_image d k1 = live_image d k).
  { destruct (not_tmp d tmp Ht) as (Hd & Hw & _). apply live_same; rewrite Hf1; by apply lookup_insert_ne. }
  rewrite attempt_bind.
  assert (Hfr : frame (fun p => p = tmp) (_ ← vacuum_into d tmp; sync_file tmp)).
  { apply frame_bind; [by apply frame_vacuum_into|auto with files]. }
  specialize (Hfr k1). match goal with |- context [let '(_, _) := ?m in _] => destruct m as [[u|e] k2] eqn:Ew end.
  - intros [= <- <-]. split.
    + intros p Hp. assert (Hne : p <> tmp) by congruence. cbn [snd] in Hfr. rewrite (Hfr p Hne), Hf1.
      by apply lookup_insert_ne.
    + intros tmp' [= <-]. split_and!; [done|done|]. intros i Hi. rewrite <- Hl1 in Hi.
      apply Io_bind_Ok in Ew as (v & k3 & Hv & Hs). unfold vacuum_into in Hv. rewrite Hi in Hv.
      destruct (write_file_Ok _ _ _ _ _ Hv [] PRIVATE t) as [t' Hf3]; [rewrite Hf1; apply lookup_insert_eq|].
      exists t'. apply sync_file_Ok in Hs as ->. by rewrite Hf3, Hf1, insert_insert_eq.
  - intros Hr. split.
    + intros p Hp. assert (Hne : p <> tmp) by congruence. cbn [snd] in Hfr.
      pose proof (frame_remove_if_present (fun p => p = tmp) tmp eq_refl k2 p Hne) as Hrm.
      rewrite attempt_bind in Hr. destruct (remove_if_present tmp k2) as [u k3]. injection Hr as _ <-.
      cbn [snd] in Hrm. rewrite Hrm, (Hfr p Hne), Hf1. by apply lookup_insert_ne.
    + intros tmp' ->. rewrite attempt_bind in Hr. by destruct (remove_if_present tmp k2).
Qed.

Lemma open_checked_spec k r k' :
  open_checked d secret k = (r, k') ->
  files k' = files k /\ (r = Ok tt -> exists i, live_image d k = Some i /\ key_ok secret i).
Proof.
  unfold open_checked. destruct (is_file (database d) k); cbn [negb]; [|by intros [= <- <-]].
  unfold mbind, Io_bind, with_err at 1. destruct (open_live d k) as [r1 k1] eqn:Eo.
  apply open_live_spec in Eo as (Hf1 & Hl1 & Ho). destruct r1 as [[]|e]; [|by intros [= <- <-]].
  destruct (Ho eq_refl) as [i Hl]. rewrite Hl in Hl1. unfold with_err.
  destruct (check_keycheck d secret None k1) as [r2 k2] eqn:Ec.
  apply (check_keycheck_reads d secret k1 r2 k2 i Hl1) in Ec as [Hf2 Hk]. destruct r2 as [[]|e]; intros [= <- <-].
  - split; [congruence|]. intros _. exists i. split; [done|by apply Hk].
  - split; [congruence|done].
Qed.

Lemma hard_link_spec a b k r k' :
  hard_link a b k = (r, k') ->
  (forall p, files k !! p <> None -> files k' !! p = files k !! p) /\
  (r = Ok tt -> files k !! b = None /\ exists x, files k !! a = Some x /\ files k' = <[b := x]> (files k)).
Proof.
  unfold hard_link, syscall, lookup_file. destruct (fault k); [by intros [= <- <-]|].
  change (files (next_fault k)) with (files k).
  destruct (files k !! a) as [x|] eqn:Ea; [|by intros [= <- <-]].
  destruct (files k !! b) eqn:Eb; [by intros [= <- <-]|].
  destruct (bool_decide _); [by intros [= <- <-]|]. intros [= <- <-]. cbn. split.
  - intros p Hp. apply lookup_insert_ne. intros ->. exact (Hp Eb).
  - intros _. split; [done|]. by exists x.
Qed.

Lemma publish_spec tmp target k r k' :
  publish tmp target k = (r, k') ->
  (forall p, p <> tmp -> files k !! p <> None -> files k' !! p = files k !! p) /\
  (r = Ok tt -> files k !! target = None /\ exists x, files k !! tmp = Some x /\
     files k' = delete tmp (<[target := x]> (files k))).
Proof.
  unfold publish. rewrite attempt_bind. destruct (hard_link tmp target k) as [r1 k1] eqn:El.
  apply hard_link_spec in El as [Hkeep Hlink]. rewrite attempt_bind.
  pose proof (frame_remove_if_present (fun p => p = tmp) tmp eq_refl k1) as Hfr.
  destruct (remove_if_present tmp k1) as [r2 k2] eqn:Er. cbn [snd] in Hfr.
  assert (Hk2 : forall p, p <> tmp -> files k !! p <> None -> files k2 !! p = files k !! p).
  { intros p Hp Hs. by rewrite (Hfr p Hp), (Hkeep p Hs). }
  destruct r1 as [[]|[]]; [|by intros [= <- <-]..]. destruct (Hlink eq_refl) as [Hnone (x & Hx & Hk1)].
  destruct r2 as [[]|e]; [|by intros [= <- <-]]. apply remove_if_present_Ok in Er as [Hf2 _].
  unfold mbind, Io_bind, of_result, with_err, sync_dir, syscall.
  destruct (fault k2); [by intros [= <- <-]|]. destruct (bool_decide _); intros [= <- <-]; (split; [done|]); [|done].
  intros _. split; [done|]. exists x. cbn. by rewrite Hf2, Hk1.
Qed.
End Lemmas.


(** A backup to standard output. Nothing is sent before the snapshot is complete: what
    reaches the output is what it took of a file that holds exactly the committed contents
    of this instance's database, all of it when the backup succeeds; no existing file
    changes, and after a success no file at all. *)
Theorem backup_streams_the_database `{Crates} `{Sqlite} `{!SqliteLaws}
    (d : DataDir) (secret : bytes) (out : Writer) (k k' : Disk) r sent :
  backup_to_writer d secret out k = (r, sent, k') ->
  (forall p, files k !! p <> None -> files k' !! p = files k !! p) /\
  (sent <> [] \/ r = Ok tt ->
     exists i c all, live_image d k = Some i /\ key_ok secret i /\ load_image c None = Some i /\
       out c = (sent, all) /\ (r = Ok tt -> all = true /\ files k' = files k)).
Proof.
  unfold backup_to_writer, mbind, Io_bind. destruct (open_checked d secret k) as [r1 k1] eqn:Eo.
  apply open_checked_spec in Eo as [Hf1 Hlive].
  destruct r1 as [[]|e]; cbv beta iota; [|intros [= <- <- <-]; rewrite Hf1; naive_solver]. destruct (Hlive eq_refl) as (i & Hl & Hk).
  unfold with_err. pose proof (frame_ensure_backups (fun _ => False) d k1) as Hfe.
  destruct (ensure_backups d k1) as [r2 k2]. cbn [snd] in Hfe.
  assert (Hf2 : files k2 = files k) by (rewrite <- Hf1; apply map_eq; intros p; apply Hfe; by intros []).
  destruct r2 as [dir|e]; cbv beta iota; [|intros [= <- <- <-]; rewrite Hf2; naive_solver].
  assert (Hl2 : live_image d k2 = Some i) by (rewrite <- Hl; apply live_same; by rewrite Hf2).
  destruct (snapshot d dir k2) as [r3 k3] eqn:Es. apply snapshot_spec in Es as [Hkeep Hsnap].
  rewrite <- Hf2. destruct r3 as [tmp|e]; cbv beta iota; [|intros [= <- <- <-]; naive_solver].
  destruct (Hsnap tmp eq_refl) as (Ht & Hnone & Hs). destruct (Hs i Hl2) as [t Hf3]. clear Hs Hsnap.
  assert (Hread : exists k4, files k4 = files k3 /\ (read_file tmp k3 = (Ok (vacuum i), k4) \/ exists e, read_file tmp k3 = (Err e, k4))).
  { exists (next_fault k3). split; [done|]. unfold read_file, syscall, lookup_file. destruct (fault k3); [eauto|].
    cbn [files next_fault]. rewrite Hf3, lookup_insert_eq. by left. }
  destruct Hread as (k4 & Hf4 & Hr).
  pose proof (frame_remove_if_present (fun p => p = tmp) tmp eq_refl k4) as Hfr.
  assert (Hend : forall r5 k5, remove_if_present tmp k4 = (r5, k5) ->
    (forall p, files k2 !! p <> None -> files k5 !! p = files k2 !! p) /\ (r5 = Ok tt -> files k5 = files k2)).
  { intros r5 k5 E5. rewrite E5 in Hfr. cbn [snd] in Hfr. split.
    - intros p Hp. rewrite (Hfr p) by congruence. rewrite Hf4. by apply Hkeep.
    - intros ->. apply remove_if_present_Ok in E5 as [-> _]. rewrite Hf4, Hf3. by apply delete_insert_id. }
  destruct Hr as [-> | [e ->]]; destruct (remove_if_present tmp k4) as [r5 k5];
    destruct (Hend r5 k5 eq_refl) as [Hall Hok].
  - destruct (out (vacuum i)) as [sent' all] eqn:Eo. intros Hend'. split.
    + destruct all, r5; injection Hend' as _ _ <-; exact Hall.
    + intros _. exists i, (vacuum i), all. split_and!; [done|done|apply load_vacuum|..].
      * destruct all, r5; by injection Hend' as _ <- _.
      * destruct all, r5 as [[]|]; injection Hend' as <- _ <-; intros; try done. by split; [|apply Hok].
  - destruct r5; intros [= <- <- <-]; (split; [exact Hall|]); naive_solver.
Qed.

(** ** Lemmas: restore *)

Lemma frame_copy_from (S : Path -> Prop) source p : S p -> frame S (copy_from source p).
Proof. intros Hs. apply frame_bind; [by apply frame_write|]. intros _. destruct source.2; auto with files. Qed.

Section Restore.
Context `{Crates} `{Sqlite} `{!SqliteLaws} (d : DataDir) (source : Reader) (now : Z).

Lemma frame_check_and_record (S : Path -> Prop) p : S p -> frame S (check_and_record p now).
Proof.
  intros Hs. unfold check_and_record. apply frame_bind.
  { apply frame_with_err, frame_syscall. intros k a k' Hk q _. destruct (lookup_file p k) as [[]|]; by simplify_eq/=. }
  intros _. apply frame_bind.
  { apply frame_attempt, frame_syscall. intros k a k' Hk q _. destruct (content_of p k); [|done].
    destruct (load_image _ _); by simplify_eq/=. }
  intros [[]|]; auto with files. apply frame_bind.
  - apply frame_with_err, frame_syscall. intros k a k' Hk q Hq. destruct (content_of p k); [|done].
    destruct (_ ≫= _); [|done]. injection Hk as _ <-. apply put_content_other. by intros ->.
  - intros _. apply frame_with_err, frame_syscall. by intros k a k' [= _ <-] q _.
Qed.

(** The candidate is made on the side, whatever happens. *)
Lemma frame_make_candidate p : frame (fun q => q = p) (make_candidate source p now).
Proof.
  unfold make_candidate. apply frame_bind; [by apply frame_with_err, frame_copy_from|]. intros _.
  apply frame_bind; [auto with files|]. intros _. apply frame_bind; [by apply frame_check_and_record|]. auto with files.
Qed.

(** What a source must be for a restore to go through, and what it becomes. *)
Definition restores (j : Image) : Prop :=
  source.2 = true /\ exists i, load_image source.1 None = Some i /\ integrity_check source.1 = true /\
  1 <= version_of i /\ audit_restore now i = Some j.

Lemma record_restore_Ok p k x k' c :
  record_restore p now k = (Ok x, k') -> content_of p k = Some c ->
  exists i j, load_image c None = Some i /\ audit_restore now i = Some j /\ content_of p k' = Some (update_file c j).
Proof.
  intros Hr%syscall_Ok Hc. change (content_of p (next_fault k)) with (content_of p k) in Hr. rewrite Hc in Hr.
  destruct (load_image c None) as [i|]; [|done]. cbn in Hr. destruct (audit_restore now i) as [j|] eqn:Ej; [|done].
  injection Hr as _ <-. exists i, j. split_and!; [done|done|]. unfold content_of, put_content, lookup_file in *.
  cbn [files next_fault]. destruct (files k !! p) as [[]|] eqn:Ef; try done. cbn. by rewrite lookup_insert_eq.
Qed.

Lemma make_candidate_Ok p k x k' t :
  files k !! p = Some (Regular [] PRIVATE t) -> make_candidate source p now k = (Ok x, k') ->
  exists j c, restores j /\ content_of p k' = Some c /\ load_image c None = Some j.
Proof.
  intros Hp (u1 & k1 & Hc%with_err_Ok & Hk)%Io_bind_Ok. apply Io_bind_Ok in Hc as (u0 & k0 & Hw & Hc).
  destruct (write_file_Ok _ _ _ _ _ Hw _ _ _ Hp) as [t' Hf0]. destruct source.2 eqn:Es; [|done]. injection Hc as _ <-.
  apply Io_bind_Ok in Hk as (u2 & k2 & Hs%with_err_Ok%sync_file_Ok & Hk).
  apply Io_bind_Ok in Hk as (u3 & k3 & Hch & Hk). apply with_err_Ok, sync_file_Ok in Hk.
  unfold check_and_record in Hch. apply Io_bind_Ok in Hch as (u4 & k4 & Ho%with_err_Ok%syscall_Ok & Hch).
  assert (Hf4 : files k4 = files k2) by (destruct (lookup_file _ _) as [[]|]; by simplify_eq/=).
  rewrite attempt_bind in Hch. destruct (check_candidate p k4) as [[[]|e] k5] eqn:Ec; [|done..].
  assert (Hc4 : content_of p k4 = Some source.1).
  { unfold content_of, lookup_file. rewrite Hf4, Hs, Hf0. by rewrite lookup_insert_eq. }
  apply syscall_Ok in Ec. change (content_of p (next_fault k4)) with (content_of p k4) in Ec. rewrite Hc4 in Ec.
  destruct (load_image source.1 None) as [i|] eqn:El; [|done]. injection Ec as Hi <-.
  apply andb_true_iff in Hi as [Hi Hv]. apply Z.leb_le in Hv.
  apply Io_bind_Ok in Hch as (u6 & k6 & Hr%with_err_Ok & Hcl%with_err_Ok%syscall_Ok).
  injection Hcl as _ <-. apply (record_restore_Ok p _ _ _ source.1) in Hr as (i' & j & Hi' & Hj & Hc6); [|done].
  assert (i' = i) as -> by congruence. exists j, (update_file source.1 j). split_and!.
  - split; [done|]. by exists i.
  - rewrite <- Hc6. apply content_same. by rewrite Hk.
  - apply load_update.
Qed.

Lemma remove_if_present_Err p k e k' : remove_if_present p k = (Err e, k') -> files k' = files k.
Proof.
  unfold remove_if_present. rewrite attempt_bind. unfold remove_file, syscall. destruct (fault k); [by intros [= _ <-]|].
  unfold lookup_file. destruct (files (next_fault k) !! p); [done|]. by intros [= _ <-].
Qed.

(** The four states the swap can end in; only the last has replaced the database. *)
Lemma swap_in_spec tmp k r k' x :
  tmp <> wal d -> tmp <> shm d -> files k !! tmp = Some x -> swap_in d tmp k = (r, k') ->
  (r <> Ok tt /\ (files k' = files k \/ files k' = delete (wal d) (files k) \/
                  files k' = delete (shm d) (delete (wal d) (files k)))) \/
  files k' = <[database d := x]> (delete tmp (delete (shm d) (delete (wal d) (files k)))).
Proof.
  intros Hw Hs Hx. unfold swap_in, mbind, Io_bind. destruct (remove_if_present (wal d) k) as [[u1|e] k1] eqn:E1.
  2:{ apply remove_if_present_Err in E1. intros [= <- <-]. left. auto. }
  apply remove_if_present_Ok in E1 as [Hf1 _]. destruct (remove_if_present (shm d) k1) as [[u2|e] k2] eqn:E2.
  2:{ apply remove_if_present_Err in E2. intros [= <- <-]. left. rewrite E2, Hf1. auto. }
  apply remove_if_present_Ok in E2 as [Hf2 _]. rewrite <- Hf1, <- Hf2.
  destruct (rename tmp (database d) k2) as [[u3|e] k3] eqn:E3.
  - apply rename_Ok in E3 as (y & Hy & Hf3 & _). rewrite Hf2, lookup_delete_ne, Hf1, lookup_delete_ne in Hy by done.
    assert (y = x) as -> by congruence. intros Hd. right. rewrite <- Hf3.
    pose proof (frame_sync_dir (fun _ => False) (root d) k3) as Hfr. rewrite Hd in Hfr.
    apply map_eq. intros q. apply Hfr. by intros [].
  - intros [= <- <-]. left. split; [done|]. right. right.
    unfold rename, syscall in E3. destruct (fault k2); [by injection E3 as _ <-|].
    destruct (lookup_file tmp _); [|by injection E3 as _ <-].
    destruct (lookup_file (database d) _) as [[]|]; try (by injection E3 as _ <-);
      (destruct (bool_decide _); [by injection E3 as _ <-|done]).
Qed.

(** A path a restore must not touch before it has a valid candidate. *)
Definition settled (p : Path) : Prop := ~ is_tmp p /\ p <> lock_path d.

(** What holds after a restore that ended with [r]. *)
Definition restored (k : Disk) (r : result RestoreError unit) (k' : Disk) : Prop :=
  (r = Ok tt -> exists j, restores j /\ live_image d k' = Some j /\ files k' !! wal d = None /\ files k' !! shm d = None) /\
  (forall p, settled p -> p <> database d -> p <> wal d -> p <> shm d -> files k' !! p = files k !! p) /\
  ((forall e, r <> Err (RestoreIo e)) -> r <> Ok tt -> forall p, settled p -> files k' !! p = files k !! p) /\
  (files k' !! database d = files k !! database d \/ exists j, restores j /\ live_image d k' = Some j).

Lemma settled_live : settled (database d) /\ settled (wal d) /\ settled (shm d).
Proof. split_and!; (split; [by vm_compute|intros He; by injection He]). Qed.

Lemma unchanged_restored k r k' :
  r <> Ok tt -> (forall p, settled p -> files k' !! p = files k !! p) -> restored k r k'.
Proof.
  intros Hr Hp. destruct settled_live as (Hd & _). split_and!; [done|auto|auto|]. left. by apply Hp.
Qed.

Lemma restored_trans k k1 r k' :
  (forall p, settled p -> files k1 !! p = files k !! p) -> restored k1 r k' -> restored k r k'.
Proof.
  intros Hs (Ho & Hp & Hn & Hd). destruct settled_live as (Hdb & _). split_and!; [done|..].
  - intros p H1' H2' H3' H4'. rewrite Hp, Hs; done.
  - intros Hr Hr' p H1'. rewrite Hn, Hs; done.
  - destruct Hd as [Hd|Hd]; [left; by rewrite Hd, Hs|by right].
Qed.

(** Settled paths do not notice what happens to temporary files. *)
Lemma restored_after k r k1 k' :
  restored k r k1 -> (forall p, ~ is_tmp p -> files k' !! p = files k1 !! p) -> restored k r k'.
Proof.
  intros (Ho & Hp & Hn & Hd) Hs. destruct settled_live as ([Hdb _] & [Hw _] & [Hsh _]).
  assert (Hl : live_image d k' = live_image d k1) by (apply live_same; by apply Hs).
  split_and!.
  - intros Hr. destruct (Ho Hr) as (j & Hj & Hlj & Hwj & Hsj). exists j. by rewrite Hl, !Hs.
  - intros p [Ht Hlk] H2' H3' H4'. rewrite Hs by done. by apply Hp.
  - intros Hr Hr' p [Ht Hlk]. rewrite Hs by done. by apply Hn.
  - rewrite Hl, Hs by done. done.
Qed.

(** Once the candidate is in a file of its own, only the swap changes anything. *)
Lemma replace_database_restored tmp k r k' t :
  is_tmp tmp -> files k !! tmp = Some (Regular [] PRIVATE t) ->
  replace_database d source tmp now k = (r, k') -> restored k r k'.
Proof.
  intros Ht Hf. destruct (not_tmp d tmp Ht) as (Hndb & Hnw & Hns & _).
  unfold replace_database, mbind, Io_bind. pose proof (frame_make_candidate tmp k) as Hfr.
  destruct (make_candidate source tmp now k) as [[u|e] k1] eqn:Ec; cbn [snd] in Hfr.
  2:{ intros [= <- <-]. apply unchanged_restored; [done|]. intros p [Hp _]. apply Hfr. by intros ->. }
  apply (make_candidate_Ok _ _ _ _ t) in Ec as (j & c & Hj & Hc & Hload); [|done].
  assert (Hs1 : forall p, settled p -> files k1 !! p = files k !! p) by (intros p [Hp _]; apply Hfr; by intros ->).
  intros Hend. apply (restored_trans k k1 r k' Hs1). clear Hs1 Hfr Hf.
  unfold content_of, lookup_file in Hc. destruct (files k1 !! tmp) as [[c' mode mt|]|] eqn:Ex; try done. injection Hc as ->.
  unfold with_err in Hend. destruct (swap_in d tmp k1) as [r2 k2] eqn:Es.
  apply (swap_in_spec tmp k1 r2 k2 _ Hnw Hns Ex) in Es.
  assert (k2 = k') as -> by (destruct r2; by injection Hend).
  assert (Hr : forall e, r = Err e -> exists e', r = Err (RestoreIo e')).
  { intros e He. destruct r2; injection Hend as <-; [done|eauto]. }
  assert (Hneq : database d <> wal d /\ database d <> shm d /\ wal d <> shm d)
    by (split_and!; intros He; by injection He). destruct Hneq as (Hdw & Hds & Hws).
  assert (Hnok : (forall e, r <> Err (RestoreIo e)) -> r <> Ok tt -> False).
  { intros H1' H2'. destruct r as [[]|e]; [done|]. destruct (Hr e eq_refl) as [e' He']. by destruct (H1' e'). }
  destruct Es as [[Hr2 Hfs]|Hfs].
  - assert (r <> Ok tt) by (destruct r2; [by destruct (Hr2 ltac:(f_equal; by destruct a))|by injection Hend as <-]).
    assert (Hoth : forall p, p <> wal d -> p <> shm d -> files k' !! p = files k1 !! p).
    { intros p Hp Hp'. destruct Hfs as [->|[->| ->]]; [done|by rewrite lookup_delete_ne|].
      by rewrite !lookup_delete_ne. }
    split_and!; [done|auto|intros H1' H2'; by destruct (Hnok H1' H2')|left; by apply Hoth].
  - assert (Hlive : live_image d k' = Some j).
    { unfold live_image, content_of, lookup_file. rewrite Hfs, lookup_insert_eq. cbn.
      rewrite lookup_insert_ne, lookup_delete_ne, lookup_delete_ne, lookup_delete_eq by done. done. }
    split_and!.
    + intros _. exists j. split_and!; [done|done|..]; rewrite Hfs, lookup_insert_ne, lookup_delete_ne by done.
      * rewrite lookup_delete_ne by done. apply lookup_delete_eq.
      * apply lookup_delete_eq.
    + intros p [Hp _] H2' H3' H4'. rewrite Hfs, lookup_insert_ne, !lookup_delete_ne by (done || (by intros ->)). done.
    + intros H1' H2'. by destruct (Hnok H1' H2').
    + right. eauto.
Qed.
End Restore.

Lemma acquire_spec d k r k' :
  acquire d k = (r, k') ->
  (forall p, p <> lock_path d -> files k' !! p = files k !! p) /\ (r = Ok tt -> lock_taken k = false).
Proof.
  unfold acquire, mbind, Io_bind. pose proof (frame_open_or_create (fun p => p = lock_path d) (lock_path d) PRIVATE eq_refl k) as Hf.
  assert (Hl : lock_taken (open_or_create (lock_path d) PRIVATE k).2 = lock_taken k).
  { unfold open_or_create, syscall. destruct (fault k); [done|]. destruct (bool_decide _); [done|].
    by destruct (lookup_file _ _) as [[]|]. }
  unfold with_err. destruct (open_or_create _ _ k) as [[u|e] k1]; cbn [snd] in *; [|by intros [= <- <-]].
  unfold try_lock. destruct (lock_taken k1) eqn:E; by intros [= <- <-].
Qed.

(** C13: a restore replaces the database or leaves it. When it succeeds the instance was not
    running, the source was a sound database of version 1 or later, and the live database is
    that source with the restore recorded in its audit log, without journal files. When it
    refuses the source, or another process holds the lock, every file but the lock file and
    temporary files is as it was. Whatever else fails, the database file is the old one or
    the complete new one. *)
Theorem restore_replaces_or_keeps `{Crates} `{Sqlite} `{!SqliteLaws}
    (d : DataDir) (source : Reader) (now : Z) (k k' : Disk) r :
  restore d source now k = (r, k') ->
  restored d source now k r k' /\ (r = Ok tt -> lock_taken k = false).
Proof.
  unfold restore, mbind at 1, Io_bind at 1, with_err at 1. destruct (acquire d k) as [r1 k1] eqn:Ea.
  apply acquire_spec in Ea as [Hf1 Hl].
  assert (Hs1 : forall p, settled d p -> files k1 !! p = files k !! p) by (intros p [_ Hp]; by apply Hf1).
  destruct r1 as [[]|e]; [|intros [= <- <-]; split; [by apply unchanged_restored|done]].
  intros Hend. split; [|intros _; by apply Hl]. apply (restored_trans d source now k k1 r k' Hs1). clear Hl Hs1 Hf1 k.
  unfold mbind at 1, Io_bind at 1, with_err at 1 in Hend.
  destruct (create_tmp (root d) (lit "restore") k1) as [[tmp|e] k2] eqn:Et.
  2:{ apply create_tmp_Err in Et. injection Hend as <- <-. apply unchanged_restored; [done|]. intros p _. by rewrite Et. }
  apply create_tmp_Ok in Et as (Ht & _ & Hnone & [t Hf2] & _).
  assert (Hs2 : forall p, settled d p -> files k2 !! p = files k1 !! p).
  { intros p [Hp _]. rewrite Hf2. apply lookup_insert_ne. by intros ->. }
  apply (restored_trans d source now k1 k2 r k' Hs2). rewrite attempt_bind in Hend.
  destruct (replace_database d source tmp now k2) as [r3 k3] eqn:Er.
  apply (replace_database_restored d source now tmp k2 r3 k3 t) in Er; [|done|by rewrite Hf2, lookup_insert_eq].
  destruct r3 as [[]|e]; [by injection Hend as <- <-|]. rewrite attempt_bind in Hend.
  pose proof (frame_remove_if_present (fun p => p = tmp) tmp eq_refl k3) as Hfr.
  destruct (remove_if_present tmp k3) as [r4 k4]. injection Hend as <- <-. cbn [snd] in Hfr.
  apply (restored_after d source now k2 _ k3); [done|]. intros p Hp. apply Hfr. by intros ->.
Qed.

(** [restore --list] names the regular files of [backups/], each once, in ascending
    byte order, and none when there is no such directory. *)
Theorem list_backups_correct (d : DataDir) (k k' : Disk) (names : list str) :
  list_backups d k = (Ok names, k') ->
  sorted (fun a b => lex_le (utf8 a) (utf8 b)) names /\ NoDup names /\
  (forall n, n ∈ names <-> backups d ∈ dirs k /\ exists c mode t, files k !! (backups d, n) = Some (Regular c mode t)).
Proof.
  unfold list_backups. rewrite attempt_bind. unfold read_dir, syscall. destruct (fault k); [done|].
  change (dirs (next_fault k)) with (dirs k). case_bool_decide as Hd; [|intros [= <- _]; split_and!; [constructor|constructor|set_solver]].
  change (entries_of (backups d) (next_fault k)) with (entries_of (backups d) k). intros [= <- _]. split_and!.
  - apply sort_by_sorted; [intros a b; apply lex_le_total|intros a b c; apply lex_le_trans].
  - rewrite sort_by_perm. pose proof (entries_nodup (backups d) k) as Hn.
    induction (entries_of (backups d) k) as [|[n x] l IH]; [constructor|]. cbn [map fst] in Hn.
    apply NoDup_cons in Hn as [Hn Hl]. cbn. destruct x; [|by apply IH]. apply NoDup_cons. split; [|by apply IH].
    intros Hin. apply Hn. apply list_elem_of_omap in Hin as ([m y] & Hm & Hy). apply list_elem_of_fmap.
    exists (m, y). by destruct y; simplify_eq/=.
  - intros n. rewrite sort_by_perm, list_elem_of_omap. split.
    + intros ([m x] & Hm%elem_of_entries & Hx). destruct x; simplify_eq/=. eauto.
    + intros [_ (c & mode & t & Hf)]. exists (n, Regular c mode t). split; [by apply elem_of_entries|done].
Qed.
