(* ===== verification/Process.v ===== *)
(** * The process (src/src/cli.rs, src/src/serve.rs, src/src/healthcheck.rs)

    What [kohaku] does with its arguments: the configuration a command needs, the command on
    the data directory, and the start of the server up to listening. The account and project
    commands run the transactions of [Accounts] and [Projects] on the tables of the live
    database. *)

From stdpp Require Import gmap.
From S2P Require Import Prelude Str Codec Keys Cli Config Urls Db Auth Credentials Accounts Hosts Projects Routes.
From S2P Require Import Files Migrate Backup.

(** ** The health probe (healthcheck.rs) *)

Inductive Unhealthy := Refused | TimedOut | Malformed | BadStatus (status : Z) | HealthIo.

(** The other side of the probe: what connecting, writing and each read give, and whether
    time is left before each. *)
Record Peer := {
  connects : bool * result Unhealthy unit;
  sends : bool * result Unhealthy unit;
  reads : list (bool * result Unhealthy bytes) }.

Definition in_time {A} (x : bool * result Unhealthy A) : result Unhealthy A :=
  if x.1 then x.2 else Err TimedOut.

Fixpoint has_crlf (head : bytes) : bool :=
  match head with
  | 13 :: 10 :: _ => true
  | _ :: head => has_crlf head
  | [] => false
  end.

(** The read loop; a peer that goes silent runs into the deadline. *)
Fixpoint read_head (l : list (bool * result Unhealthy bytes)) (head : bytes) : result Unhealthy bytes :=
  if has_crlf head then Ok head
  else if 1024 <? Z.of_nat (length head) then Err Malformed
  else match l with
       | [] => Err TimedOut
       | x :: l =>
           chunk ← in_time x;
           match chunk with [] => Err Malformed | _ => read_head l (head ++ chunk) end
       end.

(** [str::parse::<u16>]: digits, after an optional [+]. *)
Definition parse_u16 (s : str) : option Z :=
  let digits := default s (strip_prefix (lit "+") s) in
  if negb (zlist_eqb digits []) && forallb is_ascii_digit digits then
    opt_filter (fun n => n <? 2 ^ 16) (Some (digits_value digits))
  else None.

Definition status_of (head : bytes) : option Z :=
  rest ← strip_prefix (lit "HTTP/1.1 ") head;
  code ← then_some (3 <=? length rest)%nat (firstn 3 rest);
  text ← from_utf8 code;
  parse_u16 text.

(** [probe]. *)
Definition probe (p : Peer) : result Unhealthy unit :=
  _ ← in_time (connects p);
  _ ← in_time (sends p);
  head ← read_head (reads p) [];
  status ← ok_or Malformed (status_of head);
  if status =? 200 then Ok tt else Err (BadStatus status).

(** ** The tables of the live database *)

(** SQLite's contents are an [Image]; the tables the program queries are in it, and
    [with_tables d i] is [i] with the tables of [d] in their place. *)
Class Tables `{Sqlite} := {
  tables_of : Image -> Db;
  with_tables : Db -> Image -> Image }.

(** ** Surroundings of one run *)

Record Surroundings := {
  r_lookup : str -> option bytes;          (** the environment *)
  r_dev : bool;
  r_stdin : Reader;
  r_stdout : option nat;                   (** how many bytes standard output takes *)
  r_now : Z;
  r_faults : list bool;                    (** the statements of a command that fail *)
  r_peer : Peer;
  r_texts : str * str * str;               (** the files under [migrations/] *)
  r_smtp : SmtpConfig -> str -> bool;      (** whether [SmtpMailer::new] succeeds *)
  r_bind6 : result (option IoError) unit;  (** binding [::]; [None] when there is no IPv6 *)
  r_bind4 : result IoError unit;
  r_runtime : bool;
  r_css : bytes }.

Inductive ServeError :=
| ServeLock (e : LockError)
| ServeDatabase (e : MigrateError)
| ServeMail
| ServeBind (e : IoError)
| ServeRandom.

Inductive AccountError := AccountOpen (e : OpenCurrentError) | AccountCommand (e : AccountCommandError).
Inductive ProjectCommandError := ProjectOpen (e : OpenCurrentError) | ProjectCommand (e : ProjectError).

Inductive CommandError :=
| ConfigFailed (ps : list Config.Problem)
| BackupFailed (e : BackupError)
| RestoreFailed (e : RestoreError)
| ListFailed
| ServeFailed (e : ServeError)
| RuntimeFailed
| UnhealthyServer (e : Unhealthy)
| AccountFailed (e : AccountError)
| ProjectFailed (e : ProjectCommandError)
| OutputFailed.

Section Process.
Context `{Crates} `{Sqlite} `{!Tables} (d : DataDir) (run : Surroundings).

Definition the_migrations : list Migration :=
  let '(a, b, c) := r_texts run in MIGRATIONS a b c.

(** Standard output takes bytes until it is full. *)
Definition stdout : Writer := fun c =>
  match r_stdout run with
  | None => (c, true)
  | Some n => (firstn n c, (length c <=? n)%nat)
  end.

(** ** Start of the server (serve.rs) *)

Definition READERS : nat := 4.

(** [Db::new]: the readers and the watcher. *)
Fixpoint open_connections (n : nat) : Io MigrateError unit :=
  match n with
  | 0%nat => mret tt
  | S n => _ ← open_live d; open_connections n
  end.

(** [bind] to [AllAddresses]. *)
Definition bind_all : Io IoError unit :=
  match r_bind6 run with
  | Err None => of_result (r_bind4 run)
  | Err (Some e) => io_fail e
  | Ok _ => mret tt
  end.

(** [configured_mailer]. *)
Definition configured_mailer (c : ServeConfig) : Io ServeError unit :=
  match serve_transport c with
  | Smtp s => if r_smtp run s (host (serve_base_url c)) then mret tt else io_fail ServeMail
  | PrintMail => mret tt
  end.

(** Random work of the start: a transaction body that only draws. *)
Definition drawing {A} (t : Tx AuthError A) : Io ServeError A := fun k =>
  let '(r, w) := t (quiet empty_db (disk_tape k)) in
  match r with
  | Ok a => (Ok a, set_disk_tape (tape w) k)
  | Err _ => (Err ServeRandom, set_disk_tape (tape w) k)
  end.

(** What the server runs with: the per-boot key, the dummy hash, the host map, the routers. *)
Record Started := { sd_boot_key : bytes; sd_dummy : str; sd_map : HostMap; sd_routers : option Routers }.

(** [serve] up to listening. *)
Definition start (c : ServeConfig) : Io ServeError Started :=
  _ ← with_err ServeLock (acquire d);
  _ ← with_err ServeDatabase (open_and_prepare d (serve_secret c) the_migrations (r_now run));
  _ ← with_err ServeDatabase (open_connections (S READERS));
  _ ← configured_mailer c;
  key ← drawing (draw (random_bytes KEY_BYTES));
  dummy ← drawing dummy_hash;
  map ← with_err ServeDatabase (query_live d (fun i => Hosts.load (serve_base_url c) (tables_of i)));
  _ ← with_err ServeBind bind_all;
  _ ← with_err ServeBind (syscall (fun k => Ok (tt, k)));
  mret {| sd_boot_key := key; sd_dummy := dummy; sd_map := map; sd_routers := build (table (r_css run) (r_dev run)) |}.

(** ** Commands (cli.rs) *)

(** A transaction on the tables of the live database, with the statements that fail; only a
    success is committed. *)
Definition transact {E A} (fs : list bool) (failed : E) (t : Tx E A) : Io E A := fun k =>
  match content_of (database d) k, live_image d k with
  | Some c, Some i =>
      let w0 := quiet (tables_of i) (disk_tape k) in
      let '(r, w) := t {| db := db w0; tape := tape w0; faults := fs; others := []; statements := 0;
                          wakes := 0; password_checks := 0; dummy := None |} in
      let k := set_disk_tape (tape w) k in
      match r with
      | Err e => (Err e, k)
      | Ok a =>
          (Ok a, set_files <[wal d := Regular (journal c (content_of (wal d) k) (with_tables (db w) i)) PRIVATE
                                        (disk_time k)]> k)
      end
  | _, _ => (Err failed, k)
  end.

Definition on_tables {E A} (failed : E) (t : Tx E A) : Io E A := transact (r_faults run) failed t.

(** A command beside the server: the live database opened and checked, then one
    transaction. *)
Definition command_on {E E' A} (opening : OpenCurrentError -> E') (failing : E -> E') (failed : E)
  (secret : bytes) (t : Tx E A) : Io E' A :=
  _ ← with_err opening (open_current d secret the_migrations);
  with_err failing (on_tables failed t).

(** [commands::unlock] and [commands::reset_password]. *)
Definition account_command {A} (secret : bytes) (t : Tx AccountCommandError A) : Io AccountError A :=
  command_on AccountOpen AccountCommand (CommandFailed from_sql) secret t.

(** [projects::commands::create]: the values are checked before the database is opened. *)
Definition project_command (secret : bytes) (base_url : BaseUrl) (args : CreateArgs) : Io ProjectCommandError unit :=
  match command_args base_url args with
  | Err problem => io_fail (ProjectCommand (Invalid problem))
  | Ok _ => command_on ProjectOpen ProjectCommand from_sql secret (command_create base_url args (r_now run))
  end.

(** The argument's directory and name; [parent_dir] is [.] for a bare name. *)
Definition path_of (arg : bytes) : Path :=
  let t := default arg (from_utf8 arg) in
  match rsplit_once 47 t with
  | Some ([], name) => (lit "/", name)
  | Some (dir, name) => (dir, name)
  | None => (lit ".", t)
  end.

(** [File::open] and what the restore then reads from it. *)
Definition open_source (p : Path) : Io IoError Reader :=
  c ← read_file p; mret (c, true).

(** The lines of [restore --list]. *)
Definition listing (names : list str) : bytes := concat (map (fun n => utf8 n ++ [10]) names).

Definition quietly {E A} (m : Io E A) (k : Disk) : result E A * bytes * Disk :=
  let '(r, k) := m k in (r, [], k).

(** Prints a command's value; [failed] when standard output does not take it all. *)
Definition printing {A} (m : Io CommandError A) (text : A -> bytes) (failed : CommandError) (k : Disk)
  : result CommandError unit * bytes * Disk :=
  match m k with
  | (Err e, k) => (Err e, [], k)
  | (Ok a, k) => let '(sent, all) := stdout (text a) in (if (all : bool) then Ok tt else Err failed, sent, k)
  end.

(** [execute]: the outcome, what reached standard output, and the disk; [None] is the
    [unreachable!]. The server's run after its start is not part of it. *)
Definition execute (command : Command) (k : Disk) : option (result CommandError unit * bytes * Disk) :=
  match Config.load (r_dev run) (r_lookup run) command with
  | Err ps => Some (Err (ConfigFailed ps), [], k)
  | Ok config =>
      match command, config with
      | Healthcheck, _ =>
          Some (match probe (r_peer run) with Ok _ => Ok tt | Err e => Err (UnhealthyServer e) end, [], k)
      | Cli.Backup (BackupFile path), SecretConf secret =>
          Some (quietly (with_err BackupFailed (backup_to_file d secret (path_of path))) k)
      | Cli.Backup BackupStdout, SecretConf secret =>
          let '(r, sent, k) := backup_to_writer d secret stdout k in
          Some (match r with Ok _ => Ok tt | Err e => Err (BackupFailed e) end, sent, k)
      | Cli.Restore (RestoreFile path), _ =>
          Some (quietly (with_err RestoreFailed
            (source ← with_err RestoreIo (open_source (path_of path)); restore d source (r_now run))) k)
      | Cli.Restore RestoreStdin, _ =>
          Some (quietly (with_err RestoreFailed (restore d (r_stdin run) (r_now run))) k)
      | RestoreList, _ => Some (printing (with_err (fun _ => ListFailed) (list_backups d)) listing ListFailed k)
      | Serve, ServeConf c =>
          if negb (r_runtime run) then Some (Err RuntimeFailed, [], k)
          else Some (quietly (with_err ServeFailed (_ ← start c; mret tt)) k)
      | AdminUnlock email, SecretConf secret =>
          Some (quietly (with_err AccountFailed (account_command secret (unlock email (r_now run)))) k)
      | AdminResetPassword email, LinksConf secret base_url =>
          let app := {| app_secret := secret; app_base_url := base_url |} in
          Some (printing (with_err AccountFailed (account_command secret (reset_password app email (r_now run))))
                  (fun link => utf8 link ++ [10]) OutputFailed k)
      | Cli.ProjectCreate args, LinksConf secret base_url =>
          Some (quietly (with_err ProjectFailed (project_command secret base_url args)) k)
      | _, _ => None
      end
  end.

(** [main]: the exit status, with what reached standard output and the disk. *)
Definition main (usage version : str) (args : list bytes) (k : Disk) : option (Z * bytes * Disk) :=
  match parse args with
  | Err _ => Some (2, [], k)
  | Ok Version => let '(sent, all) := stdout (utf8 (lit "kohaku " ++ version ++ [10])) in
                  Some (if (all : bool) then 0 else 1, sent, k)
  | Ok Help => let '(sent, all) := stdout (utf8 usage) in Some (if (all : bool) then 0 else 1, sent, k)
  | Ok (Run command) =>
      '(r, sent, k) ← execute command k;
      Some (match r with Ok _ => 0 | Err _ => 1 end, sent, k)
  end.
End Process.

(** ** Lemmas *)

Lemma load_gives_what_it_needs `{Crates} dev lookup command config :
  Config.load dev lookup command = Ok config ->
  match command with
  | Serve => exists c, config = ServeConf c
  | Cli.Backup _ | AdminUnlock _ => exists s, config = SecretConf s
  | AdminResetPassword _ | Cli.ProjectCreate _ => exists s u, config = LinksConf s u
  | Cli.Restore _ | RestoreList | Healthcheck => config = NoConf
  end.
Proof.
  unfold Config.load. destruct (read_config dev lookup command []) as [o ps] eqn:E.
  destruct o as [c|]; [|done]. destruct ps; [|done]. intros [= <-]. destruct command; cbn [read_config] in E.
  - unfold serve in E. repeat (match type of E with context [let '(_, _) := ?m in _] => destruct m end).
    repeat (match type of E with context [?o ≫= _] => destruct o; [cbn in E|done] end). simplify_eq/=. eauto.
  - by simplify_eq/=.
  - destruct (read_secret _ _) as [[s|] ps]; [|done]. simplify_eq/=. eauto.
  - by simplify_eq/=.
  - by simplify_eq/=.
  - destruct (read_secret _ _) as [[s|] ps]; [|done]. simplify_eq/=. eauto.
  - unfold links in E. repeat (match type of E with context [let '(_, _) := ?m in _] => destruct m end).
    repeat (match type of E with context [?o ≫= _] => destruct o; [cbn in E|done] end). simplify_eq/=. eauto.
  - unfold links in E. repeat (match type of E with context [let '(_, _) := ?m in _] => destruct m end).
    repeat (match type of E with context [?o ≫= _] => destruct o; [cbn in E|done] end). simplify_eq/=. eauto.
Qed.

Lemma open_current_spec `{Crates} `{Sqlite} d secret ms k r k' :
  open_current d secret ms k = (r, k') ->
  files k' = files k /\
  (r = Ok tt -> exists i, live_image d k = Some i /\ version_of i = newest ms /\ key_ok secret i).
Proof.
  unfold open_current. destruct (is_file (database d) k); cbn [negb]; [|by intros [= <- <-]].
  unfold mbind at 1, Io_bind at 1, with_err at 1. destruct (open_live d k) as [r1 k1] eqn:Eo.
  apply open_live_spec in Eo as (Hf1 & Hl1 & Ho). destruct r1 as [[]|e]; [|by intros [= <- <-]].
  destruct (Ho eq_refl) as [i Hl]. rewrite Hl in Hl1. unfold mbind at 1, Io_bind at 1, with_err at 1.
  destruct (query_live_cases d version_of k1 i Hl1) as (k2 & Hf2 & Hl2 & [-> | ->]);
    [|intros [= <- <-]; split; [congruence|done]].
  cbv zeta. destruct (Z.eqb_spec (version_of i) (newest ms)) as [Hv|]; cbn [negb];
    [|intros [= <- <-]; split; [congruence|done]].
  unfold with_err. destruct (check_keycheck d secret None k2) as [r3 k3] eqn:Ec.
  apply (check_keycheck_reads d secret k2 r3 k3 i Hl2) in Ec as [Hf3 Hk]. destruct r3 as [[]|e]; intros [= <- <-].
  - split; [congruence|]. intros _. exists i. split_and!; [done|done|by apply Hk].
  - split; [congruence|done].
Qed.

Section Lemmas.
Context `{Crates} `{Sqlite} `{!SqliteLaws} `{!Tables} (d : DataDir) (run : Surroundings).

Lemma transact_spec {E A} fs (failed : E) (t : Tx E A) k r k' i :
  live_image d k = Some i -> transact d fs failed t k = (r, k') ->
  (forall p, p <> wal d -> files k' !! p = files k !! p) /\
  exists w0 w, db w0 = tables_of i /\ others w0 = [] /\ faults w0 = fs /\ t w0 = (r, w) /\
    live_image d k' = Some (match r with Ok _ => with_tables (db w) i | Err _ => i end).
Proof.
  intros Hl. unfold transact. rewrite Hl. pose proof Hl as Hl'. unfold live_image in Hl'.
  destruct (content_of (database d) k) as [c|] eqn:Ec; [|done]. cbv zeta.
  match goal with |- context [t ?u] => set (w0 := u); destruct (t w0) as [r1 w] eqn:Et end.
  destruct r1 as [a|e]; intros [= <- <-].
  - split; [intros p Hp; cbn; by apply lookup_insert_ne|]. exists w0, w. split_and!; [done|done|done|done|].
    unfold live_image. rewrite content_insert_eq, content_insert_ne by (intros He; injection He; discriminate).
    change (content_of (database d) (set_disk_tape (tape w) k)) with (content_of (database d) k). rewrite Ec.
    apply load_journal.
  - split; [done|]. exists w0, w. by split_and!.
Qed.

(** The database a command found, which it either left or changed by its transaction. *)
Lemma command_on_spec {E E' A} (opening : OpenCurrentError -> E') (failing : E -> E') failed secret (t : Tx E A) k r k' i :
  live_image d k = Some i -> command_on d run opening failing failed secret t k = (r, k') ->
  (forall p, p <> wal d -> files k' !! p = files k !! p) /\
  ((live_image d k' = Some i /\ forall a, r <> Ok a) \/
   exists w0 w a, db w0 = tables_of i /\ others w0 = [] /\ t w0 = (Ok a, w) /\ r = Ok a /\
     live_image d k' = Some (with_tables (db w) i) /\ version_of i = newest (the_migrations run) /\ key_ok secret i).
Proof.
  intros Hl. unfold command_on, mbind, Io_bind, with_err at 1.
  destruct (open_current d secret (the_migrations run) k) as [r1 k1] eqn:Eo. apply open_current_spec in Eo as [Hf1 Ho].
  assert (Hl1 : live_image d k1 = Some i) by (rewrite <- Hl; apply live_same; by rewrite Hf1).
  destruct r1 as [[]|e]; [|intros [= <- <-]; split; [by rewrite Hf1|by left]].
  destruct (Ho eq_refl) as (i' & Hi' & Hv & Hk). assert (i' = i) as -> by congruence. unfold with_err.
  destruct (on_tables d run _ t k1) as [r2 k2] eqn:Et.
  apply (transact_spec _ _ _ _ _ _ _ Hl1) in Et as (Hf2 & w0 & w & Hw0 & Ho' & _ & Ht & Hl2). rewrite Hf1 in Hf2.
  destruct r2 as [a|e]; intros [= <- <-]; (split; [done|]).
  - right. by exists w0, w, a.
  - by left.
Qed.

(** ** What a command did *)

(** The commands that run beside the server on its database. *)
Definition on_database (c : Command) : bool :=
  match c with AdminUnlock _ | AdminResetPassword _ | Cli.ProjectCreate _ => true | _ => false end.

(** [ran secret c d0 d1]: the transaction of the command [c] took the tables from [d0] to [d1]. *)
Inductive ran (now : Z) : bytes -> Command -> Db -> Db -> Prop :=
| ran_unlock secret email w0 w :
    others w0 = [] -> unlock email now w0 = (Ok tt, w) -> ran now secret (AdminUnlock email) (db w0) (db w)
| ran_reset secret base_url email link w0 w :
    others w0 = [] ->
    reset_password {| app_secret := secret; app_base_url := base_url |} email now w0 = (Ok link, w) ->
    ran now secret (AdminResetPassword email) (db w0) (db w)
| ran_create secret base_url args w0 w :
    others w0 = [] -> command_create base_url args now w0 = (Ok tt, w) ->
    ran now secret (Cli.ProjectCreate args) (db w0) (db w).

(** The database after a command: untouched, or this instance's at the current schema and
    changed by the command's transaction. *)
Definition command_effect (c : Command) (k : Disk) (i : Image) (r : result CommandError unit) (k' : Disk) : Prop :=
  (forall p, p <> wal d -> files k' !! p = files k !! p) /\
  ((live_image d k' = Some i /\ r <> Ok tt) \/
   exists secret d1, ran (r_now run) secret c (tables_of i) d1 /\ live_image d k' = Some (with_tables d1 i) /\
     version_of i = newest (the_migrations run) /\ key_ok secret i).

Lemma quietly_effect {E} (g : E -> CommandError) c secret (m : Io E unit) k i r sent k' :
  (forall p, p <> wal d -> files (m k).2 !! p = files k !! p) ->
  ((live_image d (m k).2 = Some i /\ forall a, (m k).1 <> Ok a) \/
   exists d1, ran (r_now run) secret c (tables_of i) d1 /\ live_image d (m k).2 = Some (with_tables d1 i) /\
     version_of i = newest (the_migrations run) /\ key_ok secret i) ->
  quietly (with_err g m) k = (r, sent, k') -> command_effect c k i r k'.
Proof.
  unfold quietly, with_err. destruct (m k) as [[a|e] k1]; cbn [fst snd]; intros Hf Hm [= <- _ <-]; (split; [done|]).
  - right. destruct Hm as [[_ Hn]|(d1 & Hm)]; [by destruct (Hn a)|]. by exists secret, d1.
  - destruct Hm as [[Hl _]|(d1 & Hm)]; [by left|]. right. by exists secret, d1.
Qed.

End Lemmas.

Lemma execute_total `{Crates} `{Sqlite} `{!Tables} d run c k : exists r sent k', execute d run c k = Some (r, sent, k').
Proof.
  unfold execute, quietly, printing. destruct (Config.load _ _ c) as [config|ps] eqn:Ec; [|eauto].
  apply load_gives_what_it_needs in Ec. destruct c as [| |[]|[]| |email|email|args]; naive_solver (repeat case_match; eauto).
Qed.


(** ** The start *)

Lemma same_files_live `{Crates} `{Sqlite} d k k' : files k' = files k -> live_image d k' = live_image d k.
Proof. intros Hf. apply live_same; by rewrite Hf. Qed.

Section Start.
Context `{Crates} `{Sqlite} `{!SqliteLaws} `{!Tables} (d : DataDir) (run : Surroundings).

Lemma open_connections_Ok n k x k' : open_connections d n k = (Ok x, k') -> files k' = files k.
Proof.
  revert k. induction n as [|n IH]; intros k; cbn [open_connections]; [by intros [= _ <-]|].
  intros (u & k1 & Ho & Hn)%Io_bind_Ok. apply open_live_spec in Ho as [Hf _]. rewrite <- Hf. by apply IH.
Qed.

Lemma drawing_Ok {A} (t : Tx AuthError A) k a k' : drawing t k = (Ok a, k') -> files k' = files k.
Proof. unfold drawing. destruct (t _) as [[x|e] w]; [|done]. by intros [= _ <-]. Qed.

Lemma configured_mailer_Ok c k x k' : configured_mailer run c k = (Ok x, k') -> files k' = files k.
Proof.
  unfold configured_mailer. destruct (serve_transport c) as [s|]; [destruct (r_smtp _ _ _)|]; by intros [= _ <-].
Qed.

Lemma bind_all_Ok k x k' : bind_all run k = (Ok x, k') -> files k' = files k.
Proof. unfold bind_all, of_result. destruct (r_bind6 run) as [|[]]; [by intros [= _ <-]|done|by intros [= _ <-]]. Qed.

Lemma query_live_Ok {A} (f : Image -> A) k a k' :
  query_live d f k = (Ok a, k') -> files k' = files k /\ exists i, live_image d k = Some i /\ a = f i.
Proof.
  unfold query_live, with_err, syscall. destruct (fault k); [done|].
  change (live_image d (next_fault k)) with (live_image d k).
  destruct (live_image d k) as [i|]; [|done]. intros [= <- <-]. eauto.
Qed.

Lemma the_migrations_numbered : numbered (the_migrations run) = true /\ newest (the_migrations run) = 3.
Proof. unfold the_migrations. by destruct (r_texts run) as [[a b] c]. Qed.

(** Nothing listens before the checks. When the start ends with the server listening,
    no other process held the lock, the live database has the newest schema and the keycheck
    of the configured secret, the host map is the one of its projects, and every route is
    registered. *)
Theorem server_listens_after_its_checks (c : ServeConfig) (k k' : Disk) (st : Started) :
  Forall shipped (the_migrations run) -> start d run c k = (Ok st, k') ->
  lock_taken k = false /\ is_Some (sd_routers st) /\
  exists j, live_image d k' = Some j /\ version_of j = 3 /\ key_ok (serve_secret c) j /\
    sd_map st = Hosts.load (serve_base_url c) (tables_of j).
Proof.
  intros Hs (u & k1 & Ha%with_err_Ok & Hk)%Io_bind_Ok.
  apply acquire_spec in Ha as [_ Hlock]. destruct u. split; [by apply Hlock|]. clear Hlock.
  apply Io_bind_Ok in Hk as (u2 & k2 & Hp%with_err_Ok & Hk).
  unfold open_and_prepare in Hp. apply Io_bind_Ok in Hp as (u3 & k3 & _ & Hp).
  apply Io_bind_Ok in Hp as ([] & k4 & Hol & Hp). apply open_live_spec in Hol as (_ & Hl4 & Ho).
  destruct (Ho eq_refl) as [i Hi]. rewrite Hi in Hl4. destruct the_migrations_numbered as [Hnum Hnew].
  pose proof (triple_prepare d (serve_secret c) (r_now run) (the_migrations run) Hnum Hs k4 i Hl4 I) as Ht.
  rewrite Hp in Ht. destruct Ht as (j & Hj & _ & Hv & Hkey). rewrite Hnew in Hv, Hkey.
  destruct Hkey as [|Hkey]; [done|].
  apply Io_bind_Ok in Hk as (u5 & k5 & Hc%with_err_Ok%open_connections_Ok & Hk).
  apply Io_bind_Ok in Hk as (u6 & k6 & Hm%configured_mailer_Ok & Hk).
  apply Io_bind_Ok in Hk as (key & k7 & Hd%drawing_Ok & Hk).
  apply Io_bind_Ok in Hk as (dummy & k8 & Hd2%drawing_Ok & Hk).
  apply Io_bind_Ok in Hk as (map & k9 & Hq%with_err_Ok & Hk). apply query_live_Ok in Hq as [Hf9 (j' & Hj' & ->)].
  apply Io_bind_Ok in Hk as (u10 & k10 & Hb%with_err_Ok%bind_all_Ok & Hk).
  apply Io_bind_Ok in Hk as (u11 & k11 & Hl%with_err_Ok%syscall_Ok & Hk). injection Hl as _ <-. injection Hk as <- <-.
  assert (Hf8 : files k8 = files k2) by congruence.
  assert (j' = j) as -> by (rewrite (same_files_live d k2 k8 Hf8) in Hj'; congruence).
  split.
  { cbn [sd_routers]. pose proof (table_builds (r_css run) (r_dev run)) as Hb'.
    destruct (build (table (r_css run) (r_dev run))); [eauto|discriminate Hb']. }
  exists j. split_and!; [|done|done|done]. rewrite <- Hj. apply same_files_live. cbn. congruence.
Qed.
End Start.

(** ** The health probe *)

Lemma parse_200 (a b c : Z) : parse_u16 [a; b; c] = Some 200 <-> [a; b; c] = lit "200".
Proof.
  split; [|intros ->; reflexivity]. unfold parse_u16.
  change (lit "+") with [43]. cbn [strip_prefix]. destruct (Z.eqb_spec 43 a) as [<-|Ha]; cbn [default id].
  - destruct (negb _ && _) eqn:E; [|done]. apply andb_true_iff in E as [_ E]. cbn in E.
    rewrite !andb_true_iff, !is_ascii_digit_spec in E. unfold digits_value. cbn. intros Hv.
    match type of Hv with (if ?b then _ else _) = _ => destruct b end; [|done]. injection Hv as Hv. lia.
  - destruct (negb _ && _) eqn:E; [|done]. apply andb_true_iff in E as [_ E]. cbn in E.
    rewrite !andb_true_iff, !is_ascii_digit_spec in E. unfold digits_value. cbn. intros Hv.
    match type of Hv with (if ?b then _ else _) = _ => destruct b end; [|done]. injection Hv as Hv. assert (a = 50 /\ b = 48 /\ c = 48) as (-> & -> & ->) by lia.
    reflexivity.
Qed.

Lemma parse_u16_ascii s n : parse_u16 s = Some n -> utf8 s = s.
Proof.
  unfold parse_u16. destruct (strip_prefix (lit "+") s) as [t|] eqn:Es; cbn [default id];
    (destruct (negb _ && _) eqn:E; [|done]); apply andb_true_iff in E as [_ E]; intros _.
  - apply strip_prefix_spec in Es as ->. rewrite utf8_app. f_equal. by apply utf8_digits_id.
  - by apply utf8_digits_id.
Qed.

Lemma status_200 (head : bytes) : status_of head = Some 200 <-> exists rest, head = lit "HTTP/1.1 200" ++ rest.
Proof.
  unfold status_of. split.
  - destruct (strip_prefix (lit "HTTP/1.1 ") head) as [rest|] eqn:Es; [|done]. apply strip_prefix_spec in Es as ->.
    cbn [mbind option_bind]. destruct rest as [|a [|b [|c rest]]]; try done.
    cbn [length Nat.leb then_some firstn mbind option_bind].
    rewrite take_0. destruct (from_utf8 [a; b; c]) as [text|] eqn:Eu; [|done]. cbn [mbind option_bind]. intros Hp. exists rest.
    apply utf8_from_utf8 in Eu as [Eu _]. rewrite (parse_u16_ascii _ _ Hp) in Eu. rewrite Eu in Hp.
    apply parse_200 in Hp. change (a :: b :: c :: rest) with ([a; b; c] ++ rest). rewrite Hp. by rewrite app_assoc.
  - intros [rest ->]. change (lit "HTTP/1.1 200") with (lit "HTTP/1.1 " ++ lit "200"). rewrite <- app_assoc.
    rewrite (proj2 (strip_prefix_spec _ _ _) eq_refl). reflexivity.
Qed.

(** The chunks that arrive in time before one is missing, late or empty. *)
Fixpoint arrived (l : list (bool * result Unhealthy bytes)) : list bytes :=
  match l with
  | (true, Ok (b :: c)) :: l => (b :: c) :: arrived l
  | _ => []
  end.

(** The first line is complete in the chunks up to the last, not before, and no chunk was
    read after more than 1024 bytes without it. *)
Definition first_line (cs : list bytes) : Prop :=
  has_crlf (concat cs) = true /\
  forall n, (n < length cs)%nat -> has_crlf (concat (firstn n cs)) = false /\
                                   Z.of_nat (length (concat (firstn n cs))) <= 1024.

Lemma read_head_Ok l h head :
  read_head l h = Ok head <-> exists n, (n <= length (arrived l))%nat /\ head = h ++ concat (firstn n (arrived l)) /\
    has_crlf head = true /\
    forall m, (m < n)%nat -> has_crlf (h ++ concat (firstn m (arrived l))) = false /\
                             Z.of_nat (length (h ++ concat (firstn m (arrived l)))) <= 1024.
Proof.
  revert h. induction l as [|[t x] l IH]; intros h; cbn [read_head].
  - cbn [arrived length]. split.
    + destruct (has_crlf h) eqn:Eh; [|destruct (1024 <? _); done]. intros [= <-]. exists 0%nat. cbn. rewrite app_nil_r.
      split_and!; [lia|done|done|lia].
    + intros (n & Hn & -> & Hc & _). replace n with 0%nat in * by lia. cbn in *. rewrite app_nil_r in *. by rewrite Hc.
  - destruct (has_crlf h) eqn:Eh.
    { split.
      - intros [= <-]. exists 0%nat. cbn. rewrite app_nil_r. split_and!; [lia|done|done|lia].
      - intros (n & _ & -> & _ & Hm). destruct n as [|n]; [cbn; by rewrite app_nil_r|].
        destruct (Hm 0%nat ltac:(lia)) as [Hc _]. cbn in Hc. rewrite app_nil_r in Hc. congruence. }
    destruct (Z.ltb_spec 1024 (Z.of_nat (length h))) as [Hlong|Hshort].
    { split; [done|]. intros (n & _ & -> & Hc & Hm). destruct n as [|n]; [cbn in Hc; rewrite app_nil_r in Hc; congruence|].
      destruct (Hm 0%nat ltac:(lia)) as [_ Hl]. cbn in Hl. rewrite app_nil_r in Hl. lia. }
    assert (Hstuck : arrived ((t, x) :: l) = [] -> (exists e, (chunk ← in_time (t, x);
        match chunk with [] => Err Malformed | _ => read_head l (h ++ chunk) end) = Err e) ->
      ((chunk ← in_time (t, x); match chunk with [] => Err Malformed | _ => read_head l (h ++ chunk) end) = Ok head <->
       exists n, (n <= length (arrived ((t, x) :: l)))%nat /\ head = h ++ concat (firstn n (arrived ((t, x) :: l))) /\
         has_crlf head = true /\ forall m, (m < n)%nat -> has_crlf (h ++ concat (firstn m (arrived ((t, x) :: l)))) = false /\
           Z.of_nat (length (h ++ concat (firstn m (arrived ((t, x) :: l))))) <= 1024)).
    { intros Ha [e He]. rewrite He, Ha. split; [done|]. intros (n & Hn & -> & Hc & _). cbn in Hn. replace n with 0%nat in * by lia.
      cbn in Hc. rewrite app_nil_r in Hc. congruence. }
    destruct t; [|apply Hstuck; [done|cbn; eauto]].
    destruct x as [[|b c]|e]; [apply Hstuck; [done|cbn; eauto]| |apply Hstuck; [done|cbn; eauto]].
    cbn [in_time fst snd mbind]. unfold mbind, result_bind. rewrite IH. cbn [arrived]. split.
    + intros (n & Hn & Hh & Hc & Hm). exists (S n). cbn [length firstn concat]. rewrite app_assoc.
      split_and!; [lia|done|done|]. intros [|m] Hlt; [cbn; rewrite app_nil_r; split; [done|lia]|].
      cbn [firstn concat]. rewrite app_assoc. apply Hm. lia.
    + intros ([|n] & Hn & Hh & Hc & Hm); [cbn in Hh; rewrite app_nil_r in Hh; congruence|].
      exists n. cbn [length firstn concat] in *. rewrite app_assoc in Hh. split_and!; [lia|done|done|].
      intros m Hlt. specialize (Hm (S m) ltac:(lia)). cbn [firstn concat] in Hm. by rewrite app_assoc in Hm.
Qed.

(** The probe is healthy exactly when the server answers 200: connecting and sending
    work in time, and the chunks that then arrive in time complete a first line within the
    bound that begins with HTTP/1.1 200. *)
Theorem healthy_means_200 (p : Peer) :
  probe p = Ok tt <->
  in_time (connects p) = Ok tt /\ in_time (sends p) = Ok tt /\
  exists n rest, (n <= length (arrived (reads p)))%nat /\
    first_line (firstn n (arrived (reads p))) /\
    concat (firstn n (arrived (reads p))) = lit "HTTP/1.1 200" ++ rest.
Proof.
  unfold probe. destruct (in_time (connects p)) as [[]|e]; [|naive_solver]. destruct (in_time (sends p)) as [[]|e]; [|naive_solver].
  unfold mbind, result_bind. split.
  - destruct (read_head (reads p) []) as [head|e] eqn:Er; [|done]. apply read_head_Ok in Er as (n & Hn & Hh & Hc & Hm).
    destruct (status_of head) as [status|] eqn:Es; [|done]. cbn [ok_or].
    destruct (Z.eqb_spec status 200) as [->|]; [|done]. intros _. apply status_200 in Es as [rest Hrest].
    split_and!; [done|done|]. exists n, rest. cbn [app] in Hh, Hm. rewrite Hh in Hc, Hrest.
    split_and!; [done| |done]. split; [done|]. intros m Hlt. rewrite length_take in Hlt.
    rewrite take_take, Nat.min_l by lia. apply Hm. lia.
  - intros (_ & _ & n & rest & Hn & [Hc Hm] & Hrest).
    assert (Hr : read_head (reads p) [] = Ok (concat (firstn n (arrived (reads p))))).
    { apply read_head_Ok. exists n. split_and!; [done|done|done|]. intros m Hlt. specialize (Hm m).
      rewrite length_take, take_take, !Nat.min_l in Hm by lia. by apply Hm. }
    rewrite Hr. rewrite (proj2 (status_200 _) (ex_intro _ rest Hrest)). reflexivity.
Qed.
