(* ===== verification/Messages.v ===== *)
(** * Messages (the [Display] implementations; src/src/cli.rs, config.rs, serve.rs, healthcheck.rs,
    db/*.rs, auth/mod.rs, auth/commands.rs, projects/mod.rs, projects/commands.rs)

    What a failing command says. What the standard library and SQLite's result codes print
    is the class [Texts]; everything else is written out. *)

From S2P Require Import Prelude Str Codec Keys Text Cli Config Db Auth Accounts Projects Files Migrate Backup Process.

(** ** Texts of others *)

(** [kind_text] is the [Display] of an [ErrorKind], [io_text] that of an [io::Error],
    [code_text] the [Debug] of a result code, when there is one; [any_kind] and [any_text]
    are those of the errors whose constructors carry no kind in this model. *)
Class Texts := {
  kind_text : IoError -> str;
  io_text : IoError -> str;
  any_kind : str;
  any_text : str;
  code_text : option str }.

(** ** Configuration *)

(** The static texts of the rules. *)
Definition MISSING_TEXT : str := lit "is required and has no default; set it (see the README)".
Definition NOT_UTF8_TEXT : str := lit "is not valid UTF-8".
Definition UNCHANGED_EXAMPLE_TEXT : str := lit "still has the example value from .env.example; set your own".
Definition DEV_BUILD_SENDS_NO_MAIL_TEXT : str :=
  lit "must not be set in a dev build, which prints mail to the terminal instead of sending it".
Definition DNS_RULE_TEXT : str :=
  lit "must be a lowercase ASCII DNS name (letters, digits, '-' and " ++
  lit "dots; internationalized names in punycode), without trailing dot, port or scheme, " ++
  lit "and not an IP address".
Definition BASE_URL_FORM_TEXT : str :=
  lit "must be exactly https://host[:port]: no path (not even /), query, " ++ lit "fragment or user information".
Definition BASE_URL_SCHEME_TEXT (dev : bool) : str :=
  if dev then lit "must start with https:// (a dev build also accepts http://localhost[:port])"
  else lit "must start with https://".
Definition BASE_URL_PORT_TEXT : str :=
  lit "port must be 1-65535 without leading zeros, and not the scheme's default (443, or 80 for http)".
Definition BASE_URL_HTTP_HOST_TEXT : str := lit "http:// is accepted only for localhost, and only in a dev build".
Definition TRUSTED_PROXIES_RULE_TEXT : str :=
  lit "must be `none` or a comma-separated list, without spaces or " ++
  lit "empty entries, of exact IP addresses (normally) or CIDR blocks such as 10.231.7.0/29 " ++
  lit "(last resort); no IPv4-mapped IPv6, no zone index, no /0, no bits set past the prefix".
Definition SECRET_RULE_TEXT : str :=
  lit "must be standard base64 with = padding (RFC 4648 " ++ [167] ++ lit "4) on one line, without " ++
  lit "spaces, decoding to at least 32 random bytes; generate one with " ++
  lit "`head -c 32 /dev/urandom | base64`".
Definition SMTP_PORT_RULE_TEXT : str := lit "must be a port number 1-65535 without sign, spaces or leading zeros".
Definition SMTP_TLS_RULE_TEXT : str :=
  lit "must be `implicit` (TLS from the first byte, usually port 465) or `starttls` " ++
  lit "(usually port 587); mail is never sent without TLS".
Definition NO_CONTROL_CHARACTERS_TEXT : str := lit "must not contain control characters".
Definition SENDER_RULE_TEXT : str :=
  lit "must be one bare address local@domain of at most 254 characters: a " ++
  lit "dot-atom local part (letters, digits and !#$%&'*+/=?^_`{|}~- separated by single dots), a " ++
  lit "domain under the DNS name rules, no display name or angle brackets".
Definition MAIL_PER_HOUR_RULE_TEXT : str :=
  lit "must be a whole number 1-4294967295 without sign, spaces or leading zeros (unset means 60)".

Definition rule_text (dev : bool) (r : Rule) : str :=
  match r with
  | MISSING => MISSING_TEXT
  | NOT_UTF8 => NOT_UTF8_TEXT
  | UNCHANGED_EXAMPLE => UNCHANGED_EXAMPLE_TEXT
  | DEV_BUILD_SENDS_NO_MAIL => DEV_BUILD_SENDS_NO_MAIL_TEXT
  | DNS_RULE => DNS_RULE_TEXT
  | BASE_URL_FORM => BASE_URL_FORM_TEXT
  | BASE_URL_SCHEME => BASE_URL_SCHEME_TEXT dev
  | BASE_URL_PORT => BASE_URL_PORT_TEXT
  | BASE_URL_HTTP_HOST => BASE_URL_HTTP_HOST_TEXT
  | TRUSTED_PROXIES_RULE => TRUSTED_PROXIES_RULE_TEXT
  | SECRET_RULE => SECRET_RULE_TEXT
  | SMTP_PORT_RULE => SMTP_PORT_RULE_TEXT
  | SMTP_TLS_RULE => SMTP_TLS_RULE_TEXT
  | NO_CONTROL_CHARACTERS => NO_CONTROL_CHARACTERS_TEXT
  | SENDER_RULE => SENDER_RULE_TEXT
  | MAIL_PER_HOUR_RULE => MAIL_PER_HOUR_RULE_TEXT
  end.

(** One problem, [format!("{}: {}")]. *)
Definition problem_text (dev : bool) (p : Config.Problem) : str :=
  variable p ++ lit ": " ++ rule_text dev (Config.rule p).

(** [Display] of [ConfigError]; [first] is [i == 0]. *)
Fixpoint config_error_text (dev first : bool) (ps : list Config.Problem) : str :=
  match ps with
  | [] => []
  | p :: ps => (if first then [] else [10]) ++ problem_text dev p ++ config_error_text dev false ps
  end.

(** ** The other errors *)

Section Messages.
Context `{Texts} (dev : bool).

(** [DbFailure]. *)
Definition failure_text : str :=
  match code_text with
  | Some code => lit "database error (" ++ code ++ lit ")"
  | None => lit "database error"
  end.

(** [RandomSourceError]. *)
Definition random_text : str := lit "the operating system's random source failed".

(** [SmtpSetupError]. *)
Definition smtp_setup_text : str := lit "cannot set up SMTP over TLS".

Definition migrate_text (e : MigrateError) : str :=
  match e with
  | Downgrade database binary =>
      lit "the database has schema version " ++ show_unsigned database ++ lit ", but this Kohaku knows only up to " ++
      show_unsigned binary ++ lit ": the binary is older than the database; run a newer release or restore " ++
      lit "a pre-migration copy (see the README)"
  | OpenError kind => lit "cannot open /data/kohaku.db (" ++ kind_text kind ++ lit ")"
  | NotKohaku => lit "kohaku.db is not a Kohaku database"
  | KeycheckMismatch => lit "KOHAKU_SECRET does not match the database"
  | KeycheckMissing => lit "the database has no keycheck: it was never completed by `kohaku serve`"
  | PreMigrationCopy error =>
      lit "cannot write the pre-migration copy to /data/backups (" ++ kind_text error ++ lit "); no migration applied"
  | ForeignKeyViolation migration =>
      lit "migration " ++ migration ++ lit " left a foreign-key violation and was rolled back"
  | Statement migration => lit "migration " ++ migration ++ lit " failed and was rolled back: " ++ failure_text
  | DatabaseError => failure_text
  end.

Definition lock_text (e : LockError) : str :=
  match e with
  | Held => lit "another Kohaku process is using /data (kohaku serve or kohaku restore); stop it first"
  | LockIo error => lit "cannot lock /data/kohaku.lock (" ++ kind_text error ++ lit ")"
  end.

(** [target] is the path of the [TargetExists] of the source. *)
Definition backup_text (target : str) (e : BackupError) : str :=
  match e with
  | BackupNoDatabase => lit "cannot open /data/kohaku.db"
  | BackupKeycheck error => migrate_text error
  | TargetExists => target ++ lit " already exists; a backup never replaces anything"
  | WriteError error => lit "cannot write the backup: " ++ io_text error
  | OutputError => lit "cannot write the backup to standard output: " ++ any_text
  end.

Definition restore_text (e : RestoreError) : str :=
  match e with
  | LockError_ error => lock_text error
  | RestoreIo error => lit "cannot restore: " ++ io_text error
  | NotABackup => lit "the source is not a valid backup; the database is unchanged"
  | RecordError => lit "the backup cannot record the restore in its audit log; the database is unchanged"
  end.

Definition open_current_text (e : OpenCurrentError) : str :=
  match e with
  | NoDatabase => lit "there is no /data/kohaku.db; start `kohaku serve` first"
  | SchemaMismatch database binary =>
      lit "the database has schema version " ++ show_unsigned database ++ lit ", but this Kohaku expects " ++
      show_unsigned binary ++ lit "; " ++
      lit "run the command with the release that `kohaku serve` runs, after it started"
  | CurrentKeycheck error => migrate_text error
  | CurrentDatabase => failure_text
  end.

Definition serve_text (e : ServeError) : str :=
  match e with
  | ServeLock error => lock_text error
  | ServeDatabase error => migrate_text error
  | ServeMail => smtp_setup_text
  | ServeBind error => lit "cannot listen on port 8080: " ++ kind_text error
  | ServeRandom => random_text
  end.

Definition unhealthy_text (e : Unhealthy) : str :=
  match e with
  | Refused => lit "unhealthy: connection refused, nothing listens on 127.0.0.1:8080"
  | TimedOut => lit "unhealthy: no answer within 5 s"
  | Malformed => lit "unhealthy: malformed response"
  | BadStatus status => lit "unhealthy: status " ++ show_unsigned status
  | HealthIo => lit "unhealthy: " ++ any_kind
  end.

Definition auth_text (e : AuthError) : str :=
  match e with
  | AuthDatabase => failure_text
  | AuthRandom => random_text
  | AuthRecipient => lit "a queued mail's recipient was refused"
  end.

Definition account_text (e : AccountError) : str :=
  match e with
  | AccountOpen error => open_current_text error
  | AccountCommand NoAccount => lit "no account has that email address"
  | AccountCommand (CommandFailed error) => auth_text error
  end.

Definition project_error_text (e : ProjectError) : str :=
  match e with
  | Invalid problem => message problem
  | ProjectDatabase => failure_text
  end.

Definition project_text (e : ProjectCommandError) : str :=
  match e with
  | ProjectOpen error => open_current_text error
  | ProjectCommand error => project_error_text error
  end.

(** [Display] of [CommandError]. *)
Definition command_text (target : str) (e : CommandError) : str :=
  match e with
  | ConfigFailed ps => lit "invalid configuration:" ++ [10] ++ config_error_text dev true ps
  | BackupFailed error => backup_text target error
  | RestoreFailed error => restore_text error
  | ListFailed => lit "cannot list /data/backups: " ++ any_kind
  | ServeFailed error => serve_text error
  | RuntimeFailed => lit "cannot start the runtime: " ++ any_kind
  | UnhealthyServer error => unhealthy_text error
  | AccountFailed error => account_text error
  | ProjectFailed error => project_text error
  | OutputFailed => lit "cannot write to stdout: " ++ any_kind
  end.
End Messages.

(** ** What an invocation says *)

(** Printed by [--help], and on wrong usage. *)
Definition USAGE : str := lit "Usage:
  kohaku serve              Run the web server on port 8080
  kohaku healthcheck        Check that the local server answers (for container health checks)
  kohaku backup <file>      Write a backup of the database to a new file
  kohaku backup -           Write a backup of the database to standard output
  kohaku restore <file>     Replace the database with a backup (server stopped)
  kohaku restore -          Replace the database with a backup read from standard input
  kohaku restore --list     List the files in /data/backups
  kohaku admin unlock --email <address>
                            End an account's sign-in lock
  kohaku admin reset-password --email <address>
                            Print a one-hour password reset link for an account
  kohaku project create <slug> --name <name> [--host <host>]
                            Create a project, optionally with its custom domain
  kohaku --version          Print the version
  kohaku --help             Print this help
  kohaku <command> --help   Print this help

Settings come from environment variables only; see the README.
".

(** Where a command's log goes. *)
Inductive Stream := Stdout | Stderr.

Definition log_stream (c : Command) : Stream := match c with Serve => Stdout | _ => Stderr end.

(** What [main] logs of a failure, or prints of wrong usage. *)
Definition complaint `{Texts} `{Crates} `{Sqlite} `{!Tables} (d : DataDir) (run : Surroundings) (target : str)
  (args : list bytes) (k : Disk) : option (Stream * str) :=
  match parse args with
  | Err _ => Some (Stderr, USAGE)
  | Ok Version | Ok Help => None
  | Ok (Run command) =>
      match execute d run command k with
      | Some (Err error, _, _) => Some (log_stream command, command_text (r_dev run) target error)
      | _ => None
      end
  end.

(** ** Reading a message *)

Definition all_rules : list Rule :=
  [MISSING; NOT_UTF8; UNCHANGED_EXAMPLE; DEV_BUILD_SENDS_NO_MAIL; DNS_RULE; BASE_URL_FORM; BASE_URL_SCHEME; BASE_URL_PORT;
   BASE_URL_HTTP_HOST; TRUSTED_PROXIES_RULE; SECRET_RULE; SMTP_PORT_RULE; SMTP_TLS_RULE; NO_CONTROL_CHARACTERS; SENDER_RULE;
   MAIL_PER_HOUR_RULE].

(** A line of the message, read as the setting and the rule it names. *)
Definition read_problem (dev : bool) (line : str) : option Config.Problem :=
  '(name, text) ← split_once 58 line;
  text ← strip_prefix (lit " ") text;
  r ← find_first (fun r => zlist_eqb (rule_text dev r) text) all_rules;
  Some {| variable := name; Config.rule := r |}.

(** The lines after the first. *)
Definition read_problems (dev : bool) (text : str) : list (option Config.Problem) :=
  map (read_problem dev) (tl (split 10 text)).

Lemma rules_are_told_apart dev r :
  find_first (fun r' => zlist_eqb (rule_text dev r') (rule_text dev r)) all_rules = Some r.
Proof. by destruct dev, r; vm_compute. Qed.

Lemma rule_text_one_line dev r : 10 ∉ rule_text dev r.
Proof.
  assert (Hb : existsb (Z.eqb 10) (rule_text dev r) = false) by (by destruct dev, r; vm_compute).
  intros Hin. apply not_true_iff_false in Hb. apply Hb, existsb_exists. exists 10. split; [by apply list_elem_of_In|done].
Qed.

(** A name a message can carry. *)
Definition plain_name (name : str) : Prop := (10 ∉ name) /\ (58 ∉ name).

Lemma read_problem_text dev p : plain_name (variable p) -> read_problem dev (problem_text dev p) = Some p.
Proof.
  intros [_ Hc]. unfold read_problem, problem_text.
  rewrite (proj2 (split_once_spec 58 _ (variable p) (lit " " ++ rule_text dev (Config.rule p)))) by done.
  cbn [mbind option_bind].
  replace (strip_prefix (lit " ") (lit " " ++ rule_text dev (Config.rule p))) with (Some (rule_text dev (Config.rule p))) by done.
  cbv beta iota delta [mbind option_bind]. rewrite rules_are_told_apart. by destruct p.
Qed.

Lemma problem_text_one_line dev p : plain_name (variable p) -> 10 ∉ problem_text dev p.
Proof.
  intros [Hn _]. unfold problem_text. rewrite !not_elem_of_app. split_and!; [done| |apply rule_text_one_line].
  cbn. set_solver by lia.
Qed.

Lemma config_lines dev a ps :
  10 ∉ a -> Forall (fun p => plain_name (variable p)) ps ->
  split 10 (a ++ config_error_text dev false ps) = a :: map (problem_text dev) ps.
Proof.
  intros Ha Hps. revert a Ha. induction Hps as [|p ps Hp Hps IH]; intros a Ha; cbn [config_error_text map].
  - rewrite app_nil_r. by apply split_none.
  - cbn [app]. rewrite split_app_sep by done. f_equal. by apply IH, problem_text_one_line.
Qed.

(** ** The settings of a command *)

Definition setting_names : list str :=
  [BASE_URL; TRUSTED_PROXIES; SECRET; SMTP_FROM] ++ SMTP_CONNECTION_SETTINGS ++ [PUBLIC_MAIL_PER_HOUR].

Lemma setting_names_plain : Forall plain_name setting_names.
Proof.
  assert (Hb : forallb (fun n => forallb (fun c => negb (c =? 10) && negb (c =? 58)) n) setting_names = true) by by vm_compute.
  apply Forall_forall. intros n Hn. rewrite forallb_forall in Hb. specialize (Hb n (proj1 (list_elem_of_In _ _) Hn)).
  rewrite forallb_forall in Hb. split; intros Hc; specialize (Hb _ (proj1 (list_elem_of_In _ _) Hc)); done.
Qed.

(** The settings a command reads, in reading order. *)
Definition settings_of (c : Command) : list str :=
  match c with
  | Serve => setting_names
  | Cli.Backup _ | AdminUnlock _ => [SECRET]
  | AdminResetPassword _ | Cli.ProjectCreate _ => [SECRET; BASE_URL]
  | Cli.Restore _ | RestoreList | Healthcheck => []
  end.

Lemma checks_names `{Crates} dev lookup c : map fst (checks dev lookup c) = settings_of c.
Proof. destruct c, dev; done. Qed.

Lemma settings_of_named c : NoDup (settings_of c) /\ settings_of c ⊆ setting_names.
Proof.
  split.
  - destruct c; cbn [settings_of]; apply (bool_decide_unpack _); by vm_compute.
  - destruct c; cbn [settings_of]; unfold setting_names; set_solver.
Qed.

Lemma broken_variables cs : map variable (broken cs) `sublist_of` map fst cs.
Proof.
  induction cs as [|[n [r|]] cs IH]; cbn; [done|by apply sublist_skip|by apply sublist_cons].
Qed.

Lemma load_error_broken `{Crates} dev lookup c ps :
  Config.load dev lookup c = Err ps -> ps = broken (checks dev lookup c) /\ ps <> [].
Proof.
  unfold Config.load. destruct (read_config_reads dev lookup c) as (v & -> & Hs & _). intros Hl.
  destruct v as [conf|]; [by rewrite (proj1 Hs) in Hl by eauto|].
  injection Hl as <-. split; [done|]. intros Hb. by destruct (proj2 Hs Hb).
Qed.

(** C39: a broken configuration is named, its values are not. When loading a command's settings
    fails, the message [main] logs is one line and then one line per problem; reading the
    lines gives back exactly the problems, so the message holds the settings' names and the
    rules they break and nothing of their values. The settings named are among those the
    command reads, in reading order, each once. Only [serve] logs to standard output. *)
Theorem broken_settings_are_named `{Texts} `{Crates} `{Sqlite} `{!Tables}
    (d : DataDir) (run : Surroundings) (target : str) (args : list bytes) (k : Disk)
    (c : Command) (ps : list Config.Problem) :
  parse args = Ok (Cli.Run c) -> Config.load (r_dev run) (r_lookup run) c = Err ps ->
  exists text, complaint d run target args k = Some (log_stream c, text) /\
    read_problems (r_dev run) text = map Some ps /\ hd [] (split 10 text) = lit "invalid configuration:" /\
    ps <> [] /\ map variable ps `sublist_of` settings_of c /\ NoDup (map variable ps).
Proof.
  intros Hp Hl. assert (He : execute d run c k = Some (Err (ConfigFailed ps), [], k)) by (unfold execute; by rewrite Hl).
  unfold complaint. rewrite Hp, He. eexists. split; [done|].
  apply load_error_broken in Hl as [Hps Hne].
  assert (Hsub : map variable ps `sublist_of` settings_of c).
  { rewrite Hps, <- (checks_names (r_dev run) (r_lookup run)). apply broken_variables. }
  destruct (settings_of_named c) as [Hnd Hin].
  assert (Hplain : Forall (fun p => plain_name (variable p)) ps).
  { apply Forall_forall. intros p Hp'. pose proof setting_names_plain as Hn. rewrite Forall_forall in Hn. apply Hn, Hin.
    eapply sublist_subseteq; [exact Hsub|]. apply list_elem_of_fmap. by exists p. }
  destruct ps as [|p ps]; [done|]. cbn [command_text config_error_text app].
  assert (Hlines : split 10 (lit "invalid configuration:" ++ 10 :: problem_text (r_dev run) p ++ config_error_text (r_dev run) false ps)
    = lit "invalid configuration:" :: map (problem_text (r_dev run)) (p :: ps)).
  { rewrite split_app_sep by (vm_compute; set_solver by lia). f_equal.
    inversion Hplain; subst. rewrite config_lines; [done|by apply problem_text_one_line|done]. }
  split_and!; [|by rewrite Hlines|done|done|by eapply sublist_NoDup].
  unfold read_problems. rewrite Hlines. cbn [tl]. rewrite map_map. apply map_ext_in. intros q Hq.
  apply read_problem_text. rewrite Forall_forall in Hplain. apply Hplain. by apply list_elem_of_In.
Qed.

(** ** The usage text *)

(** The words of a line after two spaces of indentation, up to two spaces that end them. *)
Fixpoint words_of (line word : str) : list str :=
  match line with
  | 32 :: 32 :: _ => [word]
  | 32 :: line => word :: words_of line []
  | c :: line => words_of line (word ++ [c])
  | [] => [word]
  end.

(** The forms of invocation that the text lists, without the program's name. *)
Definition synopses : list (list str) :=
  omap (fun line =>
    rest ← strip_prefix (lit "  kohaku ") line;
    Some (words_of rest [])) (split 10 USAGE).

(** Whether arguments have a form: a word in angle brackets is any argument, and what is in
    square brackets may be left out. *)
Definition bare (w : str) : str := filter (fun c => negb (c =? 91) && negb (c =? 93)) w.

Fixpoint has_form (ws : list str) (args : list bytes) : bool :=
  match ws, args with
  | [], [] => true
  | w :: _, [] => starts_with_char 91 w
  | w :: ws, arg :: args => (starts_with_char 60 (bare w) || zlist_eqb (bare w) arg) && has_form ws args
  | [], _ :: _ => false
  end.

(** Arguments of a form. *)
Definition sample_args (ws : list str) : list bytes :=
  map (fun w => if zlist_eqb w (lit "<command>") then lit "backup" else if starts_with_char 60 (bare w) then lit "x" else bare w) ws.

(** The usage text and the grammar agree: every command has a form the text lists, and every
    form it lists is accepted. *)
Lemma usage_lists_the_grammar :
  (forall c, existsb (fun ws => has_form ws (args_of c)) synopses = true) /\
  (forall ws, ws ∈ synopses -> has_form ws (sample_args ws) = true /\ exists inv, parse (sample_args ws) = Ok inv).
Proof.
  split.
  - intros [| |[p|]|[p|]| |e|e|[slug name [host|]]]; vm_compute; reflexivity.
  - assert (Hb : forallb (fun ws => has_form ws (sample_args ws) &&
      match parse (sample_args ws) with Ok _ => true | Err _ => false end) synopses = true) by (vm_compute; reflexivity).
    intros ws Hws. rewrite forallb_forall in Hb. specialize (Hb ws (proj1 (list_elem_of_In _ _) Hws)).
    apply andb_true_iff in Hb as [Hf Hp]. split; [done|]. destruct (parse (sample_args ws)); [eauto|done].
Qed.
