(* ===== verification/FileSamples.v ===== *)
(** * The database files on concrete inputs

    A stand-in for SQLite whose files are readable lists, and the operations on the data
    directory run on a small disk. *)

From stdpp Require Import gmap.
From S2P Require Import Prelude Str Codec Keys Totp Demo Files Migrate Backup.

(** ** A stand-in for SQLite *)

Record Rows := { r_version : Z; r_meta : bool; r_key : option bytes; r_log : list Z }.

(** A mark, the version, whether [meta] exists, the length of the key and the rows. *)
Definition encode_rows (i : Rows) : bytes :=
  75 :: r_version i :: (if r_meta i then 1 else 0) ::
  match r_key i with None => 0 :: r_log i | Some k => 1 :: Z.of_nat (length k) :: k ++ r_log i end.

Definition decode_rows (c : bytes) : option Rows :=
  match c with
  | 75 :: v :: m :: 0 :: log => Some {| r_version := v; r_meta := m =? 1; r_key := None; r_log := log |}
  | 75 :: v :: m :: 1 :: n :: rest =>
      Some {| r_version := v; r_meta := m =? 1; r_key := Some (firstn (Z.to_nat n) rest);
              r_log := skipn (Z.to_nat n) rest |}
  | _ => None
  end.

Lemma decode_encode i : decode_rows (encode_rows i) = Some i.
Proof.
  destruct i as [v m [k|] log]; unfold encode_rows; cbn -[firstn skipn Z.to_nat].
  - rewrite Nat2Z.id, take_app_length, drop_app_length. by destruct m.
  - by destruct m.
Qed.

Definition set_rows (v : Z) (m : bool) (k : option bytes) (l : list Z) : Rows :=
  {| r_version := v; r_meta := m; r_key := k; r_log := l |}.

#[export] Instance demo_sqlite : Sqlite := {|
  Image := Rows;
  load_image := fun c w => decode_rows (match w with Some (x :: l) => x :: l | _ => c end);
  journal := fun _ _ i => encode_rows i;
  vacuum := encode_rows;
  update_file := fun _ i => encode_rows i;
  version_of := fun i => r_version i mod 2 ^ 32;
  with_version := fun v i => set_rows v (r_meta i) (r_key i) (r_log i);
  has_schema := fun i => r_meta i || negb (zlist_eqb (r_log i) []);
  meta_exists := r_meta;
  keycheck_row := r_key;
  insert_keycheck := fun k _ i =>
    match r_key i with
    | None => then_some (r_meta i) (set_rows (r_version i) true (Some k) (r_log i))
    | Some _ => None
    end;
  execute_batch := fun sql i => Some (set_rows (r_version i) true (r_key i) (sql ++ r_log i));
  fk_violation := fun _ => false;
  integrity_check := fun c => bool_decide (is_Some (decode_rows c));
  audit_restore := fun now i => then_some (r_meta i) (set_rows (r_version i) true (r_key i) (now :: r_log i)) |}.

#[export] Instance demo_sqlite_laws : SqliteLaws.
Proof.
  constructor.
  - intros i. apply Z.mod_pos_bound. lia.
  - intros main w i. apply decode_encode.
  - intros i. apply decode_encode.
  - intros c i. apply decode_encode.
  - intros v i Hv. by apply Z.mod_small.
  - done.
  - done.
  - intros k now i j. cbn. destruct (r_key i); [done|]. destruct (r_meta i); [|done]. by intros [= <-].
  - intros now i j. cbn. destruct (r_meta i); [|done]. by intros [= <-].
Qed.

(** ** A data directory *)

Definition data : DataDir := {| root := lit "/data" |}.
Definition the_secret : bytes := replicate 32 9.
Definition file (c : bytes) : Entry := Regular c PRIVATE 1000.

(** A database of version 1 with one row, and the same with its last commit in the WAL. *)
Definition old_rows : Rows := set_rows 1 true (keycheck the_secret) [11].
Definition newer_rows : Rows := set_rows 1 true (keycheck the_secret) [12; 11].

Definition disk_with (fs : list (Path * Entry)) (faults : list (option nat)) : Disk :=
  {| files := list_to_map fs; dirs := {[ root data; backups data ]}; lock_taken := false;
     disk_tape := map Z.of_nat (seq 0 128); disk_time := 500000; disk_faults := faults |}.

Definition live_files : list (Path * Entry) :=
  [(database data, file (encode_rows old_rows)); (wal data, file (encode_rows newer_rows));
   ((backups data, copy_name 1 100), file [1]); ((backups data, copy_name 1 200), file [2]);
   ((root data, lit ".restore.00.tmp"), file []); ((root data, lit "notes"), NotRegular)].

Definition live_disk : Disk := disk_with live_files [].

Definition the_migrations : list Migration := MIGRATIONS (lit "a") (lit "b") (lit "c").

Lemma the_migrations_shipped : Forall shipped the_migrations.
Proof.
  assert (Hs : forall m, 0 < m_version m < 2 ^ 32 -> shipped m).
  { intros m Hm. split; [done|]. by intros i j k [= <-]. }
  unfold the_migrations, MIGRATIONS. rewrite !Forall_cons, Forall_nil. split_and!; try done; apply Hs; cbn; lia.
Qed.

(** The outcome of a run is its first component. *)
Lemma run_is {A} (m : Disk -> A * Disk) k a : (m k).1 = a -> m k = (a, (m k).2).
Proof. intros <-. by destruct (m k). Qed.

(** ** Witnesses *)

Lemma stale_tmp_removed_witness :
  files (remove_stale_tmp (root data) 500000 live_disk).2 !! (root data, lit ".restore.00.tmp") = None.
Proof.
  rewrite (stale_tmp_removed (root data) 500000 live_disk (remove_stale_tmp (root data) 500000 live_disk).2).
  - vm_compute. reflexivity.
  - apply (run_is (remove_stale_tmp (root data) 500000) live_disk (Ok tt)). vm_compute. reflexivity.
  - apply (bool_decide_unpack _). vm_compute. exact I.
Defined.

(** Three copies: the oldest goes. *)
Definition three_copies : Disk :=
  disk_with (((backups data, copy_name 2 300), file [3]) :: live_files) [].

Definition pruned : Disk := (prune_pre_migration_copies (backups data) three_copies).2.

Lemma pruning_keeps_the_newest_witness :
  files pruned !! (backups data, copy_name 1 100) = None /\
  forall name t, is_copy (backups data) pruned name t -> 100 <= t.
Proof.
  assert (Hp : prune_pre_migration_copies (backups data) three_copies = (Ok tt, pruned))
    by (apply (run_is (prune_pre_migration_copies (backups data)) three_copies (Ok tt)); vm_compute; reflexivity).
  destruct (pruning_keeps_the_newest _ _ _ Hp) as (_ & Hle & _).
  assert (Hgone : files pruned !! (backups data, copy_name 1 100) = None) by (vm_compute; reflexivity).
  split; [exact Hgone|]. intros name t. apply (Hle (copy_name 1 100)); [|exact Hgone].
  split; [|vm_compute; reflexivity]. exists [1], PRIVATE, 1000. vm_compute. reflexivity.
Defined.

(** An upgrade from version 1 to 3 at time 300. *)
Definition upgraded : Disk := (prepare data the_secret the_migrations 300 live_disk).2.

Definition upgraded_rows : Rows := default old_rows (live_image data upgraded).

Lemma upgrade_runs : prepare data the_secret the_migrations 300 live_disk = (Ok tt, upgraded).
Proof. apply (run_is (prepare data the_secret the_migrations 300) live_disk (Ok tt)). vm_compute. reflexivity. Qed.

Lemma startup_migrates_in_whole_steps_witness :
  exists j, live_image data upgraded = Some j /\ version_of j = 3 /\ key_ok the_secret j.
Proof.
  assert (Hn : numbered the_migrations = true) by (vm_compute; reflexivity).
  assert (Hne : the_migrations <> []) by (vm_compute; discriminate).
  assert (Hl : live_image data live_disk = Some newer_rows) by (vm_compute; reflexivity).
  pose proof (startup_migrates_in_whole_steps data the_secret the_migrations 300 live_disk upgraded newer_rows (Ok tt)
    Hn Hne the_migrations_shipped Hl upgrade_runs) as Hs.
  destruct Hs as (j & Hj & _ & Hok). exists j. split; [exact Hj|]. exact (Hok eq_refl).
Defined.

Lemma old_copies (name : str) (t : Z) : is_copy (backups data) live_disk name t -> t < 300.
Proof.
  intros Hc%elem_of_copies.
  assert (Ha : forallb (fun c => c.1 <? 300) (copies_of (entries_of (backups data) live_disk)) = true)
    by (vm_compute; reflexivity).
  rewrite forallb_forall in Ha. apply list_elem_of_In, Ha, Z.ltb_lt in Hc. exact Hc.
Qed.

Lemma upgrades_leave_a_copy_witness :
  exists i0 c, rtc (upgrade the_secret 300 []) newer_rows i0 /\ key_ok the_secret i0 /\
    content_of (backups data, copy_name 1 300) upgraded = Some c /\ load_image c None = Some i0.
Proof.
  apply (@upgrades_leave_a_copy demo demo_sqlite demo_sqlite_laws data the_secret the_migrations 300 live_disk upgraded newer_rows
    upgraded_rows (Ok tt)).
  - vm_compute. reflexivity.
  - vm_compute. reflexivity.
  - vm_compute. discriminate.
  - lia.
  - exact old_copies.
  - exact upgrade_runs.
  - vm_compute. reflexivity.
  - vm_compute. discriminate.
Defined.

(** A database a later release has migrated. *)
Definition future_disk : Disk := disk_with [(database data, file (encode_rows (set_rows 9 true None [])))] [].


Definition target : Path := (lit "/mnt", lit "kohaku-backup.db").

Definition mounted_disk : Disk :=
  let k := live_disk in
  {| files := files k; dirs := {[ lit "/mnt" ]} ∪ dirs k; lock_taken := false; disk_tape := disk_tape k;
     disk_time := 500000; disk_faults := [] |}.

Definition backed_up : Disk := (backup_to_file data the_secret target mounted_disk).2.


(** A pipe that closes after four bytes. *)
Definition short_pipe : Writer := fun c => (firstn 4 c, false).

Definition piped : result BackupError unit * bytes * Disk := backup_to_writer data the_secret short_pipe live_disk.

Lemma backup_streams_the_database_witness :
  exists i c all, live_image data live_disk = Some i /\ key_ok the_secret i /\ load_image c None = Some i /\
    short_pipe c = (piped.1.2, all) /\ (Err OutputError = @Ok BackupError _ tt -> all = true /\ files piped.2 = files live_disk).
Proof.
  apply (backup_streams_the_database data the_secret short_pipe live_disk piped.2 (Err OutputError) piped.1.2).
  - assert (Hr : piped.1.1 = Err OutputError) by (vm_compute; reflexivity). unfold piped in Hr |- *.
    destruct (backup_to_writer data the_secret short_pipe live_disk) as [[r sent] k']. cbn in Hr |- *. rewrite Hr. reflexivity.
  - left. vm_compute. discriminate.
Defined.

Definition listed : list str := match list_backups data live_disk with (Ok names, _) => names | _ => [] end.

Lemma list_backups_correct_witness :
  listed = [copy_name 1 100; copy_name 1 200] /\ sorted (fun a b => lex_le (utf8 a) (utf8 b)) listed.
Proof.
  split; [vm_compute; reflexivity|].
  apply (list_backups_correct data live_disk (list_backups data live_disk).2 listed).
  apply (run_is (list_backups data) live_disk (Ok listed)). vm_compute. reflexivity.
Defined.

(** ** Restores *)

Definition backup_rows : Rows := set_rows 2 true None [21].

Definition restored_disk : Disk := (restore data (encode_rows backup_rows, true) 7 live_disk).2.

Lemma restore_replaces_or_keeps_witness :
  exists j, restores (encode_rows backup_rows, true) 7 j /\ live_image data restored_disk = Some j /\
    files restored_disk !! wal data = None /\ files restored_disk !! shm data = None.
Proof.
  destruct (restore_replaces_or_keeps data (encode_rows backup_rows, true) 7 live_disk restored_disk (Ok tt))
    as [(Hok & _) _].
  - apply (run_is (restore data (encode_rows backup_rows, true) 7) live_disk (Ok tt)). vm_compute. reflexivity.
  - exact (Hok eq_refl).
Defined.

(** The rename fails, after the WAL was removed. *)
Definition broken_disk : Disk := disk_with live_files (replicate 11 None ++ [Some 0%nat]).

(** A restore that fails late loses what was committed to the WAL alone: it reports an
    error and keeps the database file, but removes the WAL first, so the database a
    connection then sees is an earlier one. *)
Theorem failed_restore_drops_the_journal :
  let '(r, k') := restore data (encode_rows backup_rows, true) 7 broken_disk in
  r = Err (RestoreIo OtherIo) /\ live_image data broken_disk = Some newer_rows /\
  live_image data k' = Some old_rows.
Proof. vm_compute. repeat split; reflexivity. Qed.
