(* ===== verification/ProcessSamples.v ===== *)
(** * The process on concrete inputs

    Commands and the start of the server on a small data directory, with the stand-ins for
    the crates and SQLite. *)

From stdpp Require Import gmap.
From S2P Require Import Prelude Str Codec Keys Totp Cli Config Urls Db Auth Credentials Accounts Hosts Projects Routes.
From S2P Require Import Files Migrate Backup Process Messages Demo Samples FileSamples.

(** The accounts of the samples, whatever the rows; new tables leave a mark. *)
#[export] Instance demo_tables : Tables := {|
  tables_of := fun _ => accounts_db;
  with_tables := fun d i => set_rows (r_version i) (r_meta i) (r_key i) (Z.of_nat (length (audit_log d)) :: r_log i) |}.

Definition the_secret_text : bytes := replicate 32 107.

Definition the_environment (name : str) : option bytes :=
  if zlist_eqb name SECRET then Some the_secret_text else None.

Definition the_run : Surroundings :=
  {| r_lookup := the_environment; r_dev := false; r_stdin := ([], true); r_stdout := None; r_now := t0;
     r_faults := []; r_peer := {| connects := (true, Ok tt); sends := (true, Ok tt); reads := [] |};
     r_texts := (lit "a", lit "b", lit "c"); r_smtp := fun _ _ => true; r_bind6 := Err None; r_bind4 := Ok tt;
     r_runtime := true; r_css := lit "body {}" |}.

(** A database of the current version. *)
Definition current_rows : Rows := set_rows 3 true (keycheck the_secret_text) [11].

Definition current_disk : Disk := disk_with [(database data, file (encode_rows current_rows))] [].

Definition unlocked : result CommandError unit * bytes * Disk :=
  default (Ok tt, [], current_disk) (execute data the_run (AdminUnlock (lit "ada@kohaku.example")) current_disk).

Lemma unlock_command_runs :
  execute data the_run (AdminUnlock (lit "ada@kohaku.example")) current_disk = Some (Ok tt, [], unlocked.2).
Proof.
  assert (Hb : match execute data the_run (AdminUnlock (lit "ada@kohaku.example")) current_disk with
               | Some (Ok tt, [], _) => true | _ => false end = true) by (vm_compute; reflexivity).
  unfold unlocked. destruct (execute data the_run (AdminUnlock (lit "ada@kohaku.example")) current_disk) as [[[[[]|e] [|b s]] k']|];
    first [reflexivity | discriminate Hb].
Qed.


(** The start of a server on an old database. *)
Definition the_serve_config : ServeConfig :=
  {| serve_base_url := app_base_url the_app; serve_trusted_proxies := Net.TrustNone; serve_secret := the_secret;
     serve_sender := lit "kohaku@kohaku.example"; serve_transport := PrintMail; serve_public_mail_per_hour := 100 |}.

Definition started : result ServeError Started * Disk := Process.start data the_run the_serve_config live_disk.

Definition the_started : Started :=
  match started.1 with
  | Ok st => st
  | Err _ => {| sd_boot_key := []; sd_dummy := []; sd_map := host_map_new (app_base_url the_app); sd_routers := None |}
  end.

Lemma start_runs : Process.start data the_run the_serve_config live_disk = (Ok the_started, started.2).
Proof.
  assert (Hb : match started.1 with Ok _ => true | Err _ => false end = true) by (vm_compute; reflexivity).
  unfold the_started. unfold started in Hb |- *.
  destruct (Process.start data the_run the_serve_config live_disk) as [[st|e] k']; [reflexivity|discriminate Hb].
Qed.

Lemma texts_shipped : Forall shipped (Process.the_migrations the_run).
Proof. exact the_migrations_shipped. Qed.

Lemma server_listens_after_its_checks_witness :
  is_Some (sd_routers the_started) /\ exists j, live_image data started.2 = Some j /\ version_of j = 3.
Proof.
  pose proof (server_listens_after_its_checks data the_run the_serve_config live_disk started.2 the_started
    texts_shipped start_runs) as Hs.
  destruct Hs as (_ & Hr & j & Hj & Hv & _). split; [exact Hr|]. exists j. split; [exact Hj|exact Hv].
Defined.

(** [serve] with nothing but a secret set. *)
#[export] Instance demo_texts : Texts :=
  {| kind_text := fun _ => lit "other error"; io_text := fun _ => lit "other error"; any_kind := lit "other error";
     any_text := lit "other error"; code_text := None |}.

Definition unset : list Config.Problem :=
  map (fun n => {| variable := n; Config.rule := MISSING |})
    [BASE_URL; TRUSTED_PROXIES; SMTP_FROM; SMTP_HOST; SMTP_PORT; SMTP_TLS; SMTP_USERNAME; SMTP_PASSWORD].

Lemma broken_settings_are_named_witness :
  exists text, complaint data the_run [] [lit "serve"] current_disk = Some (Stdout, text) /\
    read_problems false text = map Some unset.
Proof.
  destruct (@broken_settings_are_named demo_texts demo demo_sqlite demo_tables data the_run [] [lit "serve"] current_disk Serve unset)
    as (text & Hc & Hr & _).
  - vm_compute. reflexivity.
  - vm_compute. reflexivity.
  - exists text. split; [exact Hc|exact Hr].
Defined.
