(* ===== verification/Maintenance.v ===== *)
(** * Retention on the disk (src/src/jobs.rs)

    A whole retention run of the server: its three transactions on the live database, the
    removal of stale temporary files, and the truncating checkpoint of the WAL. *)

From stdpp Require Import gmap.
From S2P Require Import Prelude Str Codec Keys Cli Config Db Outbox Auth Jobs Files Migrate Process.
From S2P Require Import Demo Samples FileSamples ProcessSamples.

(** ** Checkpoints *)

(** What a checkpoint does to the main file: [merged] when it moved the whole WAL, [backfilled]
    when a reader stopped it on the way. *)
Class Checkpoints `{Sqlite} := {
  merged : bytes -> option bytes -> bytes;
  backfilled : bytes -> option bytes -> bytes }.

(** Connections see the same database before and after; an empty WAL adds nothing. *)
Class CheckpointLaws `{Checkpoints} := {
  load_merged : forall c w, load_image (merged c w) (Some []) = load_image c w;
  load_backfilled : forall c w, load_image (backfilled c w) w = load_image c w }.

Section Maintenance.
Context `{Crates} `{Sqlite} `{!Tables} `{!Checkpoints} (d : DataDir).

(** [checkpoint]; [answer] is the first column of the pragma's row, or an error. *)
Definition checkpoint (answer : result unit Z) (k : Disk) : bool * Disk :=
  match content_of (database d) k with
  | None => (false, k)
  | Some c =>
      let w := content_of (wal d) k in
      let write p x := set_files <[p := Regular x PRIVATE (disk_time k)]> in
      match answer with
      | Ok 0 => (true, write (wal d) [] (write (database d) (merged c w) k))
      | Ok _ => (false, write (database d) (backfilled c w) k)
      | Err _ => (false, k)
      end
  end.

(** [dirs.iter().try_for_each(remove_stale_tmp)]. *)
Definition remove_all_stale (now : Z) : Io IoError unit :=
  _ ← remove_stale_tmp (root d) now;
  remove_stale_tmp (backups d) now.

(** [retention]: the statements of each step that fail, the time by the two clocks, and the
    answer to the checkpoint. *)
Definition retention_run (ue now fs_now : Z) (f1 f2 f3 : list bool) (answer : result unit Z) (k : Disk) : bool * Disk :=
  let k := (transact d f1 SqlFailed (write (retention_outbox (KINDS ue) now)) k).2 in
  let k := (transact d f2 SqlFailed (write (retention_audit now)) k).2 in
  let k := (transact d f3 SqlFailed (write (retention_sign_in now)) k).2 in
  let k := (remove_all_stale fs_now k).2 in
  checkpoint answer k.

(** ** What a run does *)

(** A step on an image: its transaction, or nothing when a statement failed. *)
Definition stepped (fs : list bool) (t : Tx SqlError unit) (i j : Image) : Prop :=
  (exists w0 w, db w0 = tables_of i /\ others w0 = [] /\ faults w0 = fs /\ t w0 = (Ok tt, w) /\ j = with_tables (db w) i) \/
  (fs <> [] /\ j = i).
End Maintenance.

Section Lemmas.
Context `{Crates} `{Sqlite} `{!SqliteLaws} `{!Tables} `{!Checkpoints} `{!CheckpointLaws} (d : DataDir).

Lemma transact_steps fs t k i :
  runs t -> live_image d k = Some i ->
  exists j, stepped fs (write t) i j /\ live_image d (transact d fs SqlFailed (write t) k).2 = Some j /\
    forall p, p <> wal d -> files (transact d fs SqlFailed (write t) k).2 !! p = files k !! p.
Proof.
  intros Ht Hl. destruct (transact d fs SqlFailed (write t) k) as [r k'] eqn:E. cbn.
  destruct (transact_spec d _ _ _ _ _ _ _ Hl E) as (Hf & w0 & w & Hdb & Ho & Hfs & Hw & Hl').
  destruct r as [[]|e]; eexists; (split; [|by split]).
  - left. exists w0, w. by split_and!.
  - right. split; [|done]. intros Hn. rewrite Hn in Hfs.
    destruct (runs_write t w0 Ht Hfs Ho) as (a & w1 & w' & _ & Hr & _). congruence.
Qed.

Lemma not_tmp_files : ~ is_tmp (database d) /\ ~ is_tmp (wal d).
Proof. split; intros Ht; discriminate Ht. Qed.

Definition in_data (p : Path) : Prop := (p.1 = root d \/ p.1 = backups d) /\ is_tmp p.

Lemma frame_remove_stale_tmp dir now : frame (fun p => p.1 = dir /\ is_tmp p) (remove_stale_tmp dir now).
Proof.
  unfold remove_stale_tmp. apply frame_bind; [auto with files|]. intros [l|[]]; auto with files. apply frame_remove_stale.
Qed.

Lemma frame_all_stale now : frame in_data (remove_all_stale d now).
Proof.
  apply frame_bind; [|intros _]; (eapply frame_weaken; [|apply frame_remove_stale_tmp]); intros p [Hp Ht]; split; auto.
Qed.

(** A checkpoint changes nothing that a connection sees; when it reports success the WAL is
    empty. *)
Lemma checkpoint_unseen answer k i :
  live_image d k = Some i ->
  let '(done_, k') := checkpoint d answer k in
  live_image d k' = Some i /\ (done_ = true <-> answer = Ok 0) /\ (done_ = true -> content_of (wal d) k' = Some []) /\
  forall p, p <> database d -> p <> wal d -> files k' !! p = files k !! p.
Proof.
  assert (Hne : database d <> wal d) by (intros He; injection He; discriminate).
  intros Hl. unfold checkpoint. pose proof Hl as Hl'. unfold live_image in Hl'.
  destruct (content_of (database d) k) as [c|] eqn:Ec; [|done]. cbn in Hl'. cbv zeta.
  assert (Hback : forall x, live_image d (set_files <[database d := Regular (backfilled c (content_of (wal d) k)) PRIVATE x]> k) = Some i).
  { intros x. unfold live_image. rewrite content_insert_eq, content_insert_ne by done. cbn. by rewrite load_backfilled. }
  destruct answer as [[|n|n]|e]; (split; [|split; [|split]]); try done; try (by apply Hback).
  - unfold live_image. rewrite (content_insert_ne (database d) (wal d)) by done. rewrite !content_insert_eq. cbn. by rewrite load_merged.
  - intros _. apply content_insert_eq.
  - intros p Hd Hw. cbn. by rewrite !lookup_insert_ne.
  - intros p Hd Hw. cbn. by rewrite lookup_insert_ne.
  - intros p Hd Hw. cbn. by rewrite lookup_insert_ne.
Qed.

Lemma retention_sign_in_runs now : runs (retention_sign_in now).
Proof. unfold retention_sign_in. auto with inv. Qed.

Lemma retention_audit_runs now : runs (retention_audit now).
Proof. unfold retention_audit. auto with inv. Qed.

(** A retention run on the disk. The database connections see has gone through the three
    transactions, each whole, in order, and left out only when one of its statements
    failed; the clean-up and the checkpoint do not change it, whatever fails in them. Besides
    the database and its WAL only [*.tmp] files of the data and backup directories can
    change. When the checkpoint reports success the WAL is empty. *)
Theorem retention_on_disk (ue now fs_now : Z) (f1 f2 f3 : list bool) (answer : result unit Z) (k : Disk) (i : Image) :
  live_image d k = Some i ->
  let '(truncated, k') := retention_run d ue now fs_now f1 f2 f3 answer k in
  exists i1 i2 j,
    stepped f1 (write (retention_outbox (KINDS ue) now)) i i1 /\ stepped f2 (write (retention_audit now)) i1 i2 /\
    stepped f3 (write (retention_sign_in now)) i2 j /\ live_image d k' = Some j /\
    (forall p, p <> database d -> p <> wal d -> ~ in_data p -> files k' !! p = files k !! p) /\
    (truncated = true <-> answer = Ok 0) /\ (truncated = true -> content_of (wal d) k' = Some []).
Proof.
  intros Hl. unfold retention_run. cbv zeta.
  destruct (transact_steps f1 _ k i (retention_outbox_runs ue now) Hl) as (i1 & Hs1 & Hl1 & Hf1).
  set (k1 := (transact d f1 _ _ k).2) in *.
  destruct (transact_steps f2 _ k1 i1 (retention_audit_runs now) Hl1) as (i2 & Hs2 & Hl2 & Hf2).
  set (k2 := (transact d f2 _ _ k1).2) in *.
  destruct (transact_steps f3 _ k2 i2 (retention_sign_in_runs now) Hl2) as (j & Hs3 & Hl3 & Hf3).
  set (k3 := (transact d f3 _ _ k2).2) in *.
  assert (Hf4 := frame_all_stale fs_now k3). set (k4 := (remove_all_stale d fs_now k3).2) in *.
  assert (Hl4 : live_image d k4 = Some j).
  { rewrite <- Hl3. destruct not_tmp_files as [Hd Hw]. apply live_same; apply Hf4; by intros [_ ?]. }
  pose proof (checkpoint_unseen answer k4 j Hl4) as Hc. destruct (checkpoint d answer k4) as [tr k5].
  destruct Hc as (Hl5 & Htr & Hw & Hf5). exists i1, i2, j. split_and!; try done; [|apply Htr..].
  intros p Hd Hp Hin. rewrite Hf5, Hf4, Hf3, Hf2, Hf1; done.
Qed.
End Lemmas.

(** ** On a concrete run *)

#[export] Instance demo_checkpoints : Checkpoints :=
  {| merged := fun c w => match w with Some (x :: l) => x :: l | _ => c end; backfilled := fun c _ => c |}.

#[export] Instance demo_checkpoint_laws : CheckpointLaws.
Proof. split; [|done]. intros c [[|x l]|]; done. Qed.

Definition maintained : bool * Disk := retention_run data 1000 1000 1000 [] [true] [] (Ok 0) current_disk.

Example run_truncates : maintained.1 = true /\ content_of (wal data) maintained.2 = Some [].
Proof. vm_compute. done. Qed.

Lemma retention_on_disk_witness :
  exists i1 i2 j, stepped [] (write (retention_outbox (KINDS 1000) 1000)) current_rows i1 /\
    stepped [true] (write (retention_audit 1000)) i1 i2 /\ stepped [] (write (retention_sign_in 1000)) i2 j /\
    live_image data maintained.2 = Some j.
Proof.
  pose proof (@retention_on_disk demo_sqlite demo_sqlite_laws demo_tables demo_checkpoints demo_checkpoint_laws data 1000 1000 1000
    [] [true] [] (Ok 0) current_disk current_rows ltac:(vm_compute; reflexivity)) as Hr.
  unfold maintained. destruct (retention_run data 1000 1000 1000 [] [true] [] (Ok 0) current_disk) as [tr k'].
  destruct Hr as (i1 & i2 & j & H1 & H2 & H3 & Hl & _). exists i1, i2, j. split; [exact H1|]. split; [exact H2|]. split; [exact H3|exact Hl].
Defined.
