(* ===== verification/Permits.v ===== *)
(** * Concurrency permits (src/src/limits/permits.rs)

    The three semaphores under interleaved requests. A tokio semaphore is fair: permits go
    out in the order they were asked for, so it is a line of requests whose first ones hold
    the permits. A request is polled on arrival, woken when it may have got a permit, and
    leaves by answering, timing out, or being dropped in any other way. *)

From stdpp Require Import gmap relations.
From S2P Require Import Prelude.

Definition Id : Type := nat.

Lemma filter_all {A} (P : A -> Prop) `{forall x, Decision (P x)} (l : list A) :
  (forall x, x ∈ l -> P x) -> filter P l = l.
Proof.
  induction l as [|x l IH]; intros HP; [done|]. rewrite filter_cons_True by (apply HP; by left).
  f_equal. apply IH. intros y Hy. apply HP. by right.
Qed.

(** ** Semaphores *)

Record Semaphore := { permits : nat; line : list Id }.

Definition holders (s : Semaphore) : list Id := firstn (permits s) (line s).
Definition holds (id : Id) (s : Semaphore) : bool := bool_decide (id ∈ holders s).

(** [acquire_owned], polled once. *)
Definition join (id : Id) (s : Semaphore) : Semaphore := {| permits := permits s; line := line s ++ [id] |}.

(** The permit, or the future that waits for it, is dropped. *)
Definition dropped (id : Id) (s : Semaphore) : Semaphore :=
  {| permits := permits s; line := filter (fun x => x <> id) (line s) |}.

(** [try_acquire_owned]. *)
Definition try_acquire (id : Id) (s : Semaphore) : option Semaphore :=
  then_some (length (line s) <? permits s)%nat (join id s).

(** ** The process *)

Definition PUBLIC_WRITES : nat := 8.

Inductive Which := General | Reserved.

(** Where a request for a hashing permit is; [known] when it carries a device cookie. *)
Inductive Phase := Waiting (known : bool) | Running (known : bool) (w : Which).

Record Permits := {
  public_writes : Semaphore;
  hashing : Semaphore;
  hashing_reserved : Semaphore;
  phases : gmap Id Phase }.

(** [Permits::default]. *)
Definition permits_default : Permits :=
  {| public_writes := {| permits := PUBLIC_WRITES; line := [] |}; hashing := {| permits := 1; line := [] |};
     hashing_reserved := {| permits := 1; line := [] |}; phases := ∅ |}.

Inductive Event :=
| PublicWrite (id : Id)
| Arrive (id : Id) (known : bool)
| Wake (id : Id)
| Leave (id : Id).

Definition set_hashing (g r : Semaphore) (id : Id) (ph : Phase) (p : Permits) : Permits :=
  {| public_writes := public_writes p; hashing := g; hashing_reserved := r; phases := <[id := ph]> (phases p) |}.

(** [try_public_write]: [None] when all are taken. *)
Definition try_public_write (id : Id) (p : Permits) : option Permits :=
  s ← try_acquire id (public_writes p);
  Some {| public_writes := s; hashing := hashing p; hashing_reserved := hashing_reserved p; phases := phases p |}.

(** [hashing] up to its first wait: a known device asks for the reserved permit, and only
    when that is not free at once for the general one too. *)
Definition hashing_arrive (id : Id) (known : bool) (p : Permits) : Permits :=
  let g := hashing p in
  let r := hashing_reserved p in
  let g' := join id g in
  if known then
    let r' := join id r in
    if holds id r' then set_hashing g r' id (Running true Reserved) p
    else if holds id g' then set_hashing g' (dropped id r') id (Running true General) p
    else set_hashing g' r' id (Waiting true) p
  else if holds id g' then set_hashing g' r id (Running false General) p
  else set_hashing g' r id (Waiting false) p.

(** [hashing] polled again: [select! { biased; reserved, general }]. *)
Definition hashing_wake (id : Id) (p : Permits) : Permits :=
  let g := hashing p in
  let r := hashing_reserved p in
  match phases p !! id with
  | Some (Waiting known) =>
      if known && holds id r then set_hashing (dropped id g) r id (Running known Reserved) p
      else if holds id g then set_hashing g (dropped id r) id (Running known General) p
      else p
  | _ => p
  end.

(** Every permit and future of the request is dropped. *)
Definition leave (id : Id) (p : Permits) : Permits :=
  {| public_writes := dropped id (public_writes p); hashing := dropped id (hashing p);
     hashing_reserved := dropped id (hashing_reserved p); phases := delete id (phases p) |}.

(** One step of the process; an identity is used once at a time. *)
Definition step (p : Permits) (e : Event) : Permits :=
  match e with
  | PublicWrite id => if bool_decide (id ∈ line (public_writes p)) then p else default p (try_public_write id p)
  | Arrive id known => if bool_decide (phases p !! id = None) then hashing_arrive id known p else p
  | Wake id => hashing_wake id p
  | Leave id => leave id p
  end.

Definition run (p : Permits) (l : list Event) : Permits := fold_left step l p.

Definition reachable (p : Permits) : Prop := exists l, p = run permits_default l.

(** ** The invariant *)

Definition line_of (w : Which) (p : Permits) : list Id :=
  line (match w with General => hashing p | Reserved => hashing_reserved p end).

(** Whether a request in this phase stands in the line. *)
Definition in_line (w : Which) (ph : Phase) : bool :=
  match w, ph with
  | General, Waiting _ => true
  | Reserved, Waiting known => known
  | General, Running _ General | Reserved, Running _ Reserved => true
  | _, _ => false
  end.

Record Inv (p : Permits) : Prop := {
  inv_sizes : permits (public_writes p) = PUBLIC_WRITES /\ permits (hashing p) = 1%nat /\
              permits (hashing_reserved p) = 1%nat;
  inv_public : NoDup (line (public_writes p)) /\ (length (line (public_writes p)) <= PUBLIC_WRITES)%nat;
  inv_nodup : forall w, NoDup (line_of w p);
  inv_line : forall w id, id ∈ line_of w p <-> exists ph, phases p !! id = Some ph /\ in_line w ph = true;
  inv_running : forall id known w, phases p !! id = Some (Running known w) ->
    head (line_of w p) = Some id /\ (w = Reserved -> known = true) }.

Lemma holds_one id s : permits s = 1%nat -> holds id s = true <-> head (line s) = Some id.
Proof.
  intros Hp. unfold holds, holders. rewrite bool_decide_eq_true, Hp. destruct (line s) as [|x l]; cbn.
  - split; [by intros ?%not_elem_of_nil|done].
  - rewrite take_0, list_elem_of_singleton. split; [by intros ->|by intros [= ->]].
Qed.

Lemma head_join {A} (l : list A) x y : head l = Some y -> head (l ++ [x]) = Some y.
Proof. by destruct l. Qed.

Lemma head_filter (l : list Id) x y : head l = Some y -> y <> x -> head (filter (fun z => z <> x) l) = Some y.
Proof. destruct l as [|z l]; [done|]. intros [= ->] Hy. cbn. by rewrite decide_True. Qed.

(** A request takes its place at the end of a line, keeps it, or gives it up. *)
Definition place (b : bool) (id : Id) (l : list Id) : list Id :=
  if b then (if bool_decide (id ∈ l) then l else l ++ [id]) else filter (fun x => x <> id) l.

Lemma elem_of_place b id j l : j ∈ place b id l <-> (j = id /\ b = true) \/ (j <> id /\ j ∈ l).
Proof.
  unfold place. destruct b.
  - case_bool_decide; [|rewrite elem_of_app, list_elem_of_singleton]; destruct (base.decide (j = id)); naive_solver.
  - rewrite list_elem_of_filter. naive_solver.
Qed.

Lemma NoDup_place b id l : NoDup l -> NoDup (place b id l).
Proof.
  intros Hl. unfold place. destruct b; [case_bool_decide; [done|]|by apply NoDup_filter].
  apply NoDup_app. split_and!; [done| |apply NoDup_singleton]. intros x Hx ->%list_elem_of_singleton. done.
Qed.

Lemma head_place b id l y : head l = Some y -> y <> id -> head (place b id l) = Some y.
Proof.
  intros Hl Hy. unfold place. destruct b; [case_bool_decide; [done|by apply head_join]|by apply head_filter].
Qed.

Lemma filter_id (l : list Id) id : id ∉ l -> filter (fun x => x <> id) l = l.
Proof.
  intros Hn. induction l as [|x l IH]; [done|]. cbn. rewrite decide_True by set_solver. f_equal. apply IH. set_solver.
Qed.

Lemma place_join id l : id ∉ l -> place true id l = l ++ [id].
Proof. intros Hn. unfold place. by rewrite bool_decide_eq_false_2. Qed.

Lemma place_joined id l : id ∉ l -> filter (fun x => x <> id) (l ++ [id]) = place false id l.
Proof. intros Hn. unfold place. rewrite filter_app. cbn. rewrite decide_False by auto. by rewrite app_nil_r. Qed.

Lemma place_out id l : id ∉ l -> place false id l = l.
Proof. apply filter_id. Qed.

Lemma place_in id l : id ∈ l -> place true id l = l.
Proof. intros Hn. unfold place. by rewrite bool_decide_eq_true_2. Qed.

Arguments place : simpl never.

(** Closes that a line is what [place] makes of it. *)
Ltac placed :=
  cbn; first [reflexivity | by rewrite place_join | by rewrite place_out | by rewrite place_in].

(** What a change of one request's phase must do to keep the invariant. *)
Lemma inv_place p p' id ph :
  Inv p -> (forall w, line_of w p' = place (in_line w ph) id (line_of w p)) ->
  phases p' = <[id := ph]> (phases p) ->
  permits (hashing p') = permits (hashing p) -> permits (hashing_reserved p') = permits (hashing_reserved p) ->
  public_writes p' = public_writes p ->
  (forall known w, ph = Running known w -> head (line_of w p') = Some id /\ (w = Reserved -> known = true)) ->
  Inv p'.
Proof.
  intros [(Hs1 & Hs2 & Hs3) Hpub Hnd Hline Hrun] Hl Hp Hg Hr Hw Hph. constructor.
  - by rewrite Hg, Hr, Hw.
  - by rewrite Hw.
  - intros w. rewrite Hl. by apply NoDup_place.
  - intros w j. rewrite Hl, elem_of_place, Hline, Hp. destruct (base.decide (j = id)) as [->|Hne].
    + rewrite lookup_insert_eq. naive_solver.
    + rewrite lookup_insert_ne by done. naive_solver.
  - intros j known w. rewrite Hp. destruct (base.decide (j = id)) as [->|Hne].
    + rewrite lookup_insert_eq. intros [= ->]. by apply Hph.
    + rewrite lookup_insert_ne by done. intros Hj. destruct (Hrun j known w Hj) as [Hh Hk]. split; [|done].
      rewrite Hl. by apply head_place.
Qed.

Lemma inv_leave p id : Inv p -> Inv (leave id p).
Proof.
  intros [(Hs1 & Hs2 & Hs3) [Hpn Hpl] Hnd Hline Hrun]. constructor.
  - done.
  - cbn. split; [by apply NoDup_filter|]. etrans; [apply length_filter|done].
  - intros []; cbn; apply NoDup_filter; [apply (Hnd General)|apply (Hnd Reserved)].
  - assert (Hgo : forall w j, j ∈ filter (fun x => x <> id) (line_of w p) <->
      exists ph, delete id (phases p) !! j = Some ph /\ in_line w ph = true).
    { intros w j. rewrite list_elem_of_filter, Hline. destruct (base.decide (j = id)) as [->|Hne].
      - rewrite lookup_delete_eq. naive_solver.
      - rewrite lookup_delete_ne by done. naive_solver. }
    intros [] j; [apply (Hgo General)|apply (Hgo Reserved)].
  - intros j known w. cbn. intros [Hne Hj]%lookup_delete_Some. destruct (Hrun j known w Hj) as [Hh Hk].
    split; [|done]. destruct w; cbn; by apply head_filter.
Qed.

(** The line of each kind, after the steps that change one. *)
Definition lines_placed (p p' : Permits) (id : Id) (ph : Phase) : Prop :=
  (forall w, line_of w p' = place (in_line w ph) id (line_of w p)) /\ phases p' = <[id := ph]> (phases p) /\
  permits (hashing p') = permits (hashing p) /\ permits (hashing_reserved p') = permits (hashing_reserved p) /\
  public_writes p' = public_writes p /\
  (forall known w, ph = Running known w -> head (line_of w p') = Some id /\ (w = Reserved -> known = true)).

Lemma arrive_places p id known :
  Inv p -> phases p !! id = None -> exists ph, lines_placed p (hashing_arrive id known p) id ph.
Proof.
  intros HI Hn.
  assert (Hg : id ∉ line (hashing p)) by (intros Hin; apply (inv_line p HI General) in Hin; naive_solver).
  assert (Hr : id ∉ line (hashing_reserved p)) by (intros Hin; apply (inv_line p HI Reserved) in Hin; naive_solver).
  destruct (inv_sizes p HI) as (_ & Hs2 & Hs3).
  assert (Hgo : forall s, id ∉ line s -> line (dropped id (join id s)) = place false id (line s))
    by (intros s Hs; by apply place_joined).
  unfold hashing_arrive. cbv zeta. destruct known.
  - destruct (holds id (join id (hashing_reserved p))) eqn:Er; [|destruct (holds id (join id (hashing p))) eqn:Eg].
    + exists (Running true Reserved). split_and!; try done.
      * intros []; placed.
      * intros known w [= <- <-]. apply holds_one in Er; done.
    + exists (Running true General). split_and!; try done.
      * intros []; [placed|by apply Hgo].
      * intros known w [= <- <-]. apply holds_one in Eg; done.
    + exists (Waiting true). split_and!; try done. intros []; placed.
  - destruct (holds id (join id (hashing p))) eqn:Eg.
    + exists (Running false General). split_and!; try done.
      * intros []; placed.
      * intros known w [= <- <-]. apply holds_one in Eg; done.
    + exists (Waiting false). split_and!; try done. intros []; placed.
Qed.

Lemma wake_places p id :
  Inv p -> hashing_wake id p = p \/ exists ph, lines_placed p (hashing_wake id p) id ph.
Proof.
  intros HI. unfold hashing_wake. cbv zeta. destruct (phases p !! id) as [[known|known w]|] eqn:Eph; [|by left..].
  assert (Hg : id ∈ line (hashing p)) by (apply (inv_line p HI General); eauto).
  destruct (inv_sizes p HI) as (_ & Hs2 & Hs3). destruct (known && holds id (hashing_reserved p)) eqn:Er.
  - apply andb_true_iff in Er as [-> Er]. right. exists (Running true Reserved).
    assert (Hr : id ∈ line (hashing_reserved p)) by (apply (inv_line p HI Reserved); eauto).
    split_and!; try done.
    + intros []; placed.
    + intros known w [= <- <-]. apply holds_one in Er; done.
  - destruct (holds id (hashing p)) eqn:Eg; [|by left]. right. exists (Running known General). split_and!; try done.
    + intros []; placed.
    + intros k w [= <- <-]. apply holds_one in Eg; done.
Qed.

Lemma inv_step p e : Inv p -> Inv (step p e).
Proof.
  intros HI. destruct e as [id|id known|id|id]; cbn [step].
  - case_bool_decide as Hin; [done|]. unfold try_public_write, try_acquire.
    destruct (Nat.ltb_spec (length (line (public_writes p))) (permits (public_writes p))) as [Hlt|]; [|done].
    destruct HI as [(Hs1 & Hs2 & Hs3) [Hpn Hpl] Hnd Hline Hrun]. constructor; try done. cbn. split.
    + apply NoDup_app. split_and!; [done| |apply NoDup_singleton]. by intros x Hx ->%list_elem_of_singleton.
    + rewrite length_app. cbn. lia.
  - case_bool_decide as Hn; [|done]. destruct (arrive_places p id known HI Hn) as [ph Hp].
    destruct Hp as (? & ? & ? & ? & ? & ?). by eapply inv_place.
  - destruct (wake_places p id HI) as [->|[ph Hp]]; [done|]. destruct Hp as (? & ? & ? & ? & ? & ?). by eapply inv_place.
  - by apply inv_leave.
Qed.

Lemma inv_default : Inv permits_default.
Proof.
  constructor; cbn; try done.
  - split; [constructor|unfold PUBLIC_WRITES; lia].
  - intros []; constructor.
  - intros w id. split; [by destruct w; intros ?%not_elem_of_nil|]. by intros (ph & Hph & _).
Qed.

Lemma inv_run p l : Inv p -> Inv (run p l).
Proof. revert p. induction l as [|e l IH]; intros p HI; [done|]. by apply IH, inv_step. Qed.

Lemma inv_reachable p : reachable p -> Inv p.
Proof. intros [l ->]. by apply inv_run, inv_default. Qed.

(** ** Bounds *)

Definition is_running (P : bool -> Prop) (p : Permits) (id : Id) : Prop :=
  exists known w, phases p !! id = Some (Running known w) /\ P known.

Lemma running_length P p (l : list Id) (ws : list Which) :
  Inv p -> NoDup l -> (forall id, id ∈ l -> is_running P p id) ->
  (forall id known w, phases p !! id = Some (Running known w) -> P known -> w ∈ ws) ->
  (length l <= length ws)%nat.
Proof.
  intros HI Hl Hr Hw.
  assert (Hsub : l ⊆ omap (fun w => head (line_of w p)) ws).
  { intros id Hid. destruct (Hr id Hid) as (known & w & Hph & HP). apply list_elem_of_omap. exists w.
    split; [by eapply Hw|]. by destruct (inv_running p HI id known w Hph). }
  etrans; [by apply submseteq_length, NoDup_submseteq|].
  clear. induction ws as [|w ws IH]; [done|]. cbn. destruct (head (line_of w p)); cbn; lia.
Qed.

(** The bounds hold under every interleaving. At most eight public writes run at once,
    at most two password hashes, and at most one of them for requests without a device
    cookie: the second permit is theirs alone. *)
Theorem concurrency_is_bounded (p : Permits) :
  reachable p ->
  (length (line (public_writes p)) <= PUBLIC_WRITES)%nat /\
  (forall l, NoDup l -> (forall id, id ∈ l -> is_running (fun _ => True) p id) -> (length l <= 2)%nat) /\
  (forall l, NoDup l -> (forall id, id ∈ l -> is_running (fun known => known = false) p id) -> (length l <= 1)%nat).
Proof.
  intros HI%inv_reachable. split_and!.
  - apply (inv_public p HI).
  - intros l Hl Hr. apply (running_length (fun _ => True) p l [General; Reserved]); try done.
    intros id known w _ _. destruct w; set_solver.
  - intros l Hl Hr. apply (running_length (fun known => known = false) p l [General]); try done.
    intros id known w Hph ->. destruct (inv_running p HI id false w Hph) as [_ Hk]. destruct w; [set_solver|].
    by specialize (Hk eq_refl).
Qed.

(** ** Progress *)

(** How many stand before a request. *)
Fixpoint ahead (id : Id) (l : list Id) : nat :=
  match l with [] => 0 | x :: l => if bool_decide (x = id) then 0 else S (ahead id l) end.

Lemma ahead_join id x l : id ∈ l -> ahead id (l ++ [x]) = ahead id l.
Proof.
  induction l as [|y l IH]; [by intros ?%not_elem_of_nil|]. cbn. case_bool_decide; [done|].
  intros [|]%elem_of_cons; [congruence|]. f_equal. by apply IH.
Qed.

Lemma ahead_drop id x l : x <> id -> (ahead id (filter (fun y => y <> x) l) <= ahead id l)%nat.
Proof.
  intros Hx. induction l as [|y l IH]; [done|]. cbn. destruct (base.decide (y = x)) as [->|Hy].
  - rewrite decide_False by auto. rewrite (bool_decide_eq_false_2 (x = id)) by done. apply Nat.le_le_succ_r, IH.
  - rewrite decide_True by done. cbn. case_bool_decide; [lia|]. apply le_n_S, IH.
Qed.

(** Whether the permit of a line went on to someone else. *)
Definition handover (l l' : list Id) : nat :=
  match head l with
  | Some x => if bool_decide (head l' = Some x) then 0 else 1
  | None => 0
  end.

Lemma handover_place b x id l :
  id ∈ l -> x <> id -> (ahead id (place b x l) + handover l (place b x l) <= ahead id l)%nat.
Proof.
  intros Hid Hx. unfold place. destruct b; [case_bool_decide|].
  - unfold handover. destruct (head l); [rewrite bool_decide_eq_true_2 by done|]; lia.
  - rewrite ahead_join by done. unfold handover. destruct l as [|y l]; [cbn; lia|].
    cbn [head app]. rewrite (bool_decide_eq_true_2 (Some y = Some y)) by done. lia.
  - destruct l as [|y l]; [by apply not_elem_of_nil in Hid|]. unfold handover. cbn [head].
    pose proof (ahead_drop id x l Hx) as Hd. destruct (base.decide (y = x)) as [->|Hy].
    + rewrite filter_cons_False by auto. cbn [ahead]. rewrite (bool_decide_eq_false_2 (x = id)) by done.
      destruct (bool_decide _); lia.
    + rewrite filter_cons_True by done. cbn [ahead head]. rewrite (bool_decide_eq_true_2 (Some y = Some y)) by done.
      case_bool_decide; lia.
Qed.

(** The handovers of a permit along a run. *)
Fixpoint handovers (w : Which) (p : Permits) (l : list Event) : nat :=
  match l with
  | [] => 0
  | e :: l => handover (line_of w p) (line_of w (step p e)) + handovers w (step p e) l
  end.

(** One step of the others, or a waking of the request itself. *)
Lemma step_progress p e w id known :
  Inv p -> phases p !! id = Some (Waiting known) -> in_line w (Waiting known) = true -> e <> Leave id ->
  (exists k w', phases (step p e) !! id = Some (Running k w')) \/
  (phases (step p e) !! id = Some (Waiting known) /\
   (ahead id (line_of w (step p e)) + handover (line_of w p) (line_of w (step p e)) <= ahead id (line_of w p))%nat).
Proof.
  intros HI Hph Hw He. assert (Hin : id ∈ line_of w p) by (apply (inv_line p HI w); eauto).
  assert (Hsame : (ahead id (line_of w p) + handover (line_of w p) (line_of w p) <= ahead id (line_of w p))%nat).
  { unfold handover. destruct (head (line_of w p)); [rewrite bool_decide_eq_true_2 by done|]; lia. }
  assert (Hother : forall x ph p', x <> id -> lines_placed p p' x ph -> phases p' !! id = Some (Waiting known) /\
    (ahead id (line_of w p') + handover (line_of w p) (line_of w p') <= ahead id (line_of w p))%nat).
  { intros x ph p' Hx (Hl & Hp & _). rewrite Hp, lookup_insert_ne, Hl by done. split; [done|]. by apply handover_place. }
  destruct e as [x|x k|x|x]; cbn [step].
  - right. case_bool_decide; [done|]. unfold try_public_write. by destruct (try_acquire _ _).
  - case_bool_decide as Hx; [|by right]. right. destruct (arrive_places p x k HI Hx) as [ph Hl].
    apply (Hother x ph); [congruence|done].
  - destruct (base.decide (x = id)) as [->|Hx].
    + unfold hashing_wake. rewrite Hph. cbv zeta.
      destruct (known && _); [left; cbn; rewrite lookup_insert_eq; eauto|].
      destruct (holds _ _); [left; cbn; rewrite lookup_insert_eq; eauto|by right].
    + right. destruct (wake_places p x HI) as [->|[ph Hl]]; [done|by apply (Hother x ph)].
  - right. assert (Hx : x <> id) by congruence. split; [cbn; by rewrite lookup_delete_ne|].
    pose proof (handover_place false x id (line_of w p) Hin Hx) as Hp. destruct w; exact Hp.
Qed.

Lemma running_stays p e id k w :
  Inv p -> phases p !! id = Some (Running k w) -> e <> Leave id -> phases (step p e) !! id = Some (Running k w).
Proof.
  intros HI Hph He. destruct e as [x|x k'|x|x]; cbn [step].
  - case_bool_decide; [done|]. unfold try_public_write. by destruct (try_acquire _ _).
  - case_bool_decide as Hx; [|done]. destruct (arrive_places p x k' HI Hx) as (ph & _ & -> & _).
    rewrite lookup_insert_ne; [done|congruence].
  - destruct (base.decide (x = id)) as [->|Hx]; [unfold hashing_wake; by rewrite Hph|].
    destruct (wake_places p x HI) as [->|(ph & _ & -> & _)]; [done|]. by rewrite lookup_insert_ne.
  - cbn. rewrite lookup_delete_ne; [done|congruence].
Qed.

(** C19: a waiting request gets its permit. Whatever the others do, once a permit has changed
    hands as many times as requests stood ahead of it in that permit's line, a request that
    has not given up runs as soon as it is polled. A request with a device cookie stands in
    the reserved permit's line too, where only such requests stand: no flood of others can
    keep it waiting. *)
Theorem hashing_requests_are_served (p : Permits) (id : Id) (known : bool) (w : Which) (l : list Event) :
  reachable p -> phases p !! id = Some (Waiting known) -> in_line w (Waiting known) = true ->
  Leave id ∉ l -> (ahead id (line_of w p) <= handovers w p l)%nat ->
  (exists k w', phases (step (run p l) (Wake id)) !! id = Some (Running k w')) /\
  (forall j, j ∈ line_of Reserved p -> exists ph, phases p !! j = Some ph /\ ph <> Waiting false /\ forall w', ph <> Running false w').
Proof.
  intros HI%inv_reachable Hph Hw Hl Ha. split.
  - assert (Hrun : forall q ev, Inv q -> Leave id ∉ ev -> (exists k w', phases q !! id = Some (Running k w')) ->
      exists k w', phases (step (run q ev) (Wake id)) !! id = Some (Running k w')).
    { intros q ev. revert q. induction ev as [|e ev IH]; intros q Hq He (k & w' & Hk).
      - cbn. unfold hashing_wake. rewrite Hk. eauto.
      - apply IH; [by apply inv_step|set_solver|]. exists k, w'. apply running_stays; [done|done|set_solver]. }
    revert p HI Hph Ha. induction l as [|e l IH]; intros p HI Hph Ha.
    + cbn in Ha |- *. assert (Hin : id ∈ line_of w p) by (apply (inv_line p HI w); eauto).
      assert (Hhead : head (line_of w p) = Some id).
      { destruct (line_of w p) as [|y q]; [by apply not_elem_of_nil in Hin|]. cbn in Ha |- *. case_bool_decide; [congruence|lia]. }
      destruct (inv_sizes p HI) as (_ & Hs2 & Hs3). unfold hashing_wake. rewrite Hph. cbv zeta.
      destruct (known && holds id (hashing_reserved p)) eqn:Er; [cbn; rewrite lookup_insert_eq; eauto|].
      destruct w; cbn in Hw, Hhead.
      * rewrite (proj2 (holds_one id (hashing p) Hs2) Hhead). cbn. rewrite lookup_insert_eq. eauto.
      * rewrite Hw, (proj2 (holds_one id (hashing_reserved p) Hs3) Hhead) in Er. done.
    + cbn [handovers] in Ha. assert (He : e <> Leave id) by set_solver.
      assert (Hl' : Leave id ∉ l) by set_solver. cbn [run fold_left].
      destruct (step_progress p e w id known HI Hph Hw He) as [Hr|[Hph' Hle]].
      * apply Hrun; [by apply inv_step|done|done].
      * apply IH; [done|by apply inv_step|done|lia].
  - intros j Hj. apply (inv_line p HI Reserved) in Hj as (ph & Hj & Hin). exists ph. split; [done|].
    destruct ph as [k|k w']; cbn in Hin; [by destruct k|]. split; [done|]. intros w2 [= -> ->].
    destruct w2; [done|]. destruct (inv_running p HI j false Reserved Hj) as [_ Hk]. by specialize (Hk eq_refl).
Qed.

(** ** On a concrete run *)

(** Four requests without a cookie fill the general line; a known device then runs at once,
    and another one waits for it. *)
Definition flood : list Event :=
  [Arrive 1 false; Arrive 2 false; Arrive 3 false; Arrive 4 false; Arrive 5 true; Arrive 6 true]%nat.

Definition flooded : Permits := run permits_default flood.

Lemma concurrency_is_bounded_witness :
  (length (line (public_writes flooded)) <= PUBLIC_WRITES)%nat /\
  forall l, NoDup l -> (forall id, id ∈ l -> is_running (fun _ => True) flooded id) -> (length l <= 2)%nat.
Proof.
  assert (Hr : reachable flooded) by (exists flood; reflexivity).
  destruct (concurrency_is_bounded flooded Hr) as (Hp & Hl & _). split; [exact Hp|exact Hl].
Defined.

(** One handover of the reserved permit serves the second known device. *)
Lemma hashing_requests_are_served_witness :
  exists k w', (phases (step (run flooded [Arrive 7 false; Leave 5]) (Wake 6)) !! 6)%nat = Some (Running k w').
Proof.
  apply (hashing_requests_are_served flooded 6%nat true Reserved [Arrive 7 false; Leave 5]%nat).
  - exists flood. reflexivity.
  - vm_compute. reflexivity.
  - reflexivity.
  - set_solver.
  - apply Nat.leb_le. vm_compute. reflexivity.
Defined.
