(* ===== verification/Pool.v ===== *)
(** * The reader pool (src/src/db/mod.rs)

    [Db::read] under interleaved requests: a permit, then a connection popped from the pool
    on a blocking thread, the work, and both given back in the order their values drop.
    [Pooled::take] expects a free reader; [readers_suffice] shows that there always is one. *)

From stdpp Require Import list.
From S2P Require Import Prelude Permits.

Definition Conn : Type := nat.

Definition READERS : nat := 4.

(** The pool (the end of the vector first), the permits, and the requests inside [run_blocking]: with their
    reader, or with it put back and the permit still held. *)
Record Pool := {
  pool : list Conn;
  read_permits : Semaphore;
  taken : list (Id * Conn);
  returned : list Id }.

(** [Db::new]. *)
Definition pool_new : Pool :=
  {| pool := rev (seq 0 READERS); read_permits := {| permits := READERS; line := [] |}; taken := []; returned := [] |}.

Definition started (id : Id) (p : Pool) : bool :=
  bool_decide (id ∈ map fst (taken p)) || bool_decide (id ∈ returned p).

Inductive Event :=
| AskReader (id : Id)
| CancelWait (id : Id)
| TakeReader (id : Id)
| PutBack (id : Id)
| DropPermit (id : Id).

(** [acquire_owned]. *)
Definition ask_reader (id : Id) (p : Pool) : Pool :=
  if bool_decide (id ∈ line (read_permits p)) then p
  else {| pool := pool p; read_permits := join id (read_permits p); taken := taken p; returned := returned p |}.

(** A dropped future gives up its wait; work that has started runs on. *)
Definition cancel_wait (id : Id) (p : Pool) : Pool :=
  if started id p then p
  else {| pool := pool p; read_permits := dropped id (read_permits p); taken := taken p; returned := returned p |}.

(** [Pooled::take]; an empty pool panics. *)
Definition take_reader (id : Id) (p : Pool) : option Pool :=
  if holds id (read_permits p) && negb (started id p) then
    match pool p with
    | [] => None
    | c :: rest => Some {| pool := rest; read_permits := read_permits p; taken := (id, c) :: taken p; returned := returned p |}
    end
  else Some p.

(** [Pooled]'s [Drop]: it is declared after the permit, so it drops first. *)
Definition put_back (id : Id) (p : Pool) : Pool :=
  match find_first (fun t => bool_decide (t.1 = id)) (taken p) with
  | Some (_, c) =>
      {| pool := c :: pool p; read_permits := read_permits p;
         taken := filter (fun t => t.1 <> id) (taken p); returned := id :: returned p |}
  | None => p
  end.

(** The permit's [Drop]. *)
Definition drop_permit (id : Id) (p : Pool) : Pool :=
  if bool_decide (id ∈ returned p) then
    {| pool := pool p; read_permits := dropped id (read_permits p); taken := taken p;
       returned := filter (fun x => x <> id) (returned p) |}
  else p.

Definition pool_step (p : Pool) (e : Event) : option Pool :=
  match e with
  | AskReader id => Some (ask_reader id p)
  | CancelWait id => Some (cancel_wait id p)
  | TakeReader id => take_reader id p
  | PutBack id => Some (put_back id p)
  | DropPermit id => Some (drop_permit id p)
  end.

Fixpoint pool_run (p : Pool) (l : list Event) : option Pool :=
  match l with
  | [] => Some p
  | e :: l => p ← pool_step p e; pool_run p l
  end.

(** ** The invariant *)

Definition inside (p : Pool) : list Id := map fst (taken p) ++ returned p.

Record Inv (p : Pool) : Prop := {
  inv_permits : permits (read_permits p) = READERS;
  inv_line : NoDup (line (read_permits p));
  inv_inside : NoDup (inside p);
  inv_hold : inside p ⊆ holders (read_permits p);
  inv_conns : pool p ++ map snd (taken p) ≡ₚ seq 0 READERS }.

Lemma started_inside id p : started id p = false <-> id ∉ inside p.
Proof. unfold started, inside. rewrite orb_false_iff, !bool_decide_eq_false, elem_of_app. tauto. Qed.

(** A later request leaves the holders their permits. *)
Lemma holder_join id x s : id ∈ holders s -> id ∈ holders (join x s).
Proof. unfold holders. cbn. rewrite take_app. intros Hid. apply elem_of_app. by left. Qed.

Lemma elem_of_take_S {A} (x : A) n l : x ∈ take n l -> x ∈ take (S n) l.
Proof. rewrite !elem_of_take. intros (i & Hi & Hn). exists i. split; [done|lia]. Qed.

(** The others keep their permits when one is dropped. *)
Lemma holder_dropped id x s : id ∈ holders s -> id <> x -> id ∈ holders (dropped x s).
Proof.
  unfold holders. cbn. intros Hid Hx. revert Hid. generalize (permits s). induction (line s) as [|y l IH]; intros n.
  { rewrite firstn_nil. by intros ?%not_elem_of_nil. }
  destruct n as [|n]; [by intros ?%not_elem_of_nil|]. rewrite firstn_cons, elem_of_cons. intros [->|Hid].
  - rewrite filter_cons_True by done. cbn. by left.
  - destruct (base.decide (y = x)) as [->|Hy].
    + rewrite filter_cons_False by auto. by apply elem_of_take_S, IH.
    + rewrite filter_cons_True by done. cbn. right. by apply IH.
Qed.

Lemma holders_length s : (length (holders s) <= permits s)%nat.
Proof. unfold holders. rewrite length_take. lia. Qed.

Lemma taken_split id c (l : list (Id * Conn)) :
  NoDup (map fst l) -> find_first (fun t => bool_decide (t.1 = id)) l = Some (id, c) ->
  l ≡ₚ (id, c) :: filter (fun t => t.1 <> id) l.
Proof.
  induction l as [|[j d] l IH]; [done|]. cbn [map find_first fst]. intros [Hj Hl]%NoDup_cons. case_bool_decide as Hd.
  - intros [= -> ->]. rewrite filter_cons_False by (cbn; tauto). rewrite filter_all; [done|].
    intros [k e] Hk Hkj. cbn in Hkj. subst k. apply Hj, list_elem_of_fmap. by exists (id, e).
  - intros Hf. rewrite filter_cons_True by done. rewrite (IH Hl Hf) at 1. apply perm_swap.
Qed.

Ltac break_inv :=
  match goal with H : Inv ?p |- _ => destruct H as [Hper Hline Hin Hhold Hconns] end.

Lemma pooled_pool_new : Inv pool_new.
Proof.
  constructor; try done; try (by constructor); unfold inside; cbn [taken returned map app pool pool_new].
  rewrite app_nil_r. symmetry. apply Permutation_rev.
Qed.

Lemma pooled_ask id p : Inv p -> Inv (ask_reader id p).
Proof.
  intros HI. unfold ask_reader. case_bool_decide as Hid; [done|]. break_inv. constructor; try done; cbn.
  - apply NoDup_app. split_and!; [done| |apply NoDup_singleton]. by intros x Hx ->%list_elem_of_singleton.
  - intros x Hx. by apply holder_join, Hhold.
Qed.

(** Leaving the line, for a request that is not inside. *)
Lemma pooled_dropped id p p' :
  Inv p -> pool p' = pool p -> taken p' = taken p -> read_permits p' = dropped id (read_permits p) ->
  NoDup (inside p') -> inside p' ⊆ inside p -> id ∉ inside p' -> Inv p'.
Proof.
  intros HI Hp Ht Hs Hn Hsub Hid. break_inv. constructor; [by rewrite Hs| | |rewrite Hs|by rewrite Hp, Ht].
  - rewrite Hs. cbn. by apply NoDup_filter.
  - done.
  - intros x Hx. apply holder_dropped; [by apply Hhold, Hsub|]. by intros ->.
Qed.

Lemma pooled_cancel id p : Inv p -> Inv (cancel_wait id p).
Proof.
  intros HI. unfold cancel_wait. destruct (started id p) eqn:E; [done|]. apply started_inside in E.
  apply (pooled_dropped id p); try done. by destruct HI.
Qed.

Lemma pooled_drop_permit id p : Inv p -> Inv (drop_permit id p).
Proof.
  intros HI. unfold drop_permit. case_bool_decide as Hid; [|done].
  assert (Hn := inv_inside p HI). apply NoDup_app in Hn as (Hn1 & Hn2 & Hn3).
  apply (pooled_dropped id p); try done; unfold inside; cbn.
  - apply NoDup_app. split_and!; [done| |by apply NoDup_filter]. intros x Hx [_ Hr]%list_elem_of_filter. by apply (Hn2 x).
  - intros x. rewrite !elem_of_app, list_elem_of_filter. tauto.
  - rewrite elem_of_app, list_elem_of_filter. intros [Ht|[? _]]; [|done]. by apply (Hn2 id).
Qed.

Lemma pooled_put_back id p : Inv p -> Inv (put_back id p).
Proof.
  intros HI. unfold put_back. destruct (find_first _ (taken p)) as [[j c]|] eqn:E; [|done].
  destruct (find_first_Some _ _ _ E) as [_ Hj%bool_decide_eq_true]. cbn in Hj. subst j. break_inv.
  assert (Hs := Hin). apply NoDup_app in Hs as (Hfst & _ & _). apply (taken_split id c _ Hfst) in E.
  assert (Hi : inside p ≡ₚ map fst (filter (fun t => t.1 <> id) (taken p)) ++ id :: returned p).
  { unfold inside. rewrite E at 1. cbn. apply Permutation_middle. }
  constructor; try done; unfold inside; cbn.
  - by rewrite <- Hi.
  - intros x Hx. apply Hhold. by rewrite Hi.
  - rewrite <- Hconns. rewrite E at 2. cbn. apply Permutation_middle.
Qed.

(** A permit without a reader means a reader that is free. *)
Lemma free_reader id p : Inv p -> holds id (read_permits p) = true -> started id p = false -> pool p <> [].
Proof.
  intros HI Hh%bool_decide_eq_true Hs%started_inside Hp. break_inv.
  assert (Hlen : (length (id :: inside p) <= length (holders (read_permits p)))%nat).
  { apply submseteq_length, NoDup_submseteq; [by apply NoDup_cons|]. intros x [->|Hx]%elem_of_cons; [done|by apply Hhold]. }
  pose proof (holders_length (read_permits p)) as Hmax. rewrite Hper in Hmax.
  apply Permutation_length in Hconns. rewrite Hp, length_seq in Hconns. cbn in Hconns, Hlen.
  unfold inside in Hlen. rewrite length_app, !length_map in *. lia.
Qed.

Lemma pooled_take id p : Inv p -> exists p', take_reader id p = Some p' /\ Inv p'.
Proof.
  intros HI. unfold take_reader. destruct (holds id (read_permits p) && negb (started id p)) eqn:E; [|by exists p].
  apply andb_true_iff in E as [Hh Hs%negb_true_iff]. pose proof (free_reader id p HI Hh Hs) as Hf.
  destruct (pool p) as [|c rest] eqn:Ep; [done|]. eexists. split; [done|].
  apply started_inside in Hs. apply bool_decide_eq_true in Hh. break_inv. constructor; try done; unfold inside; cbn.
  - by apply NoDup_cons.
  - intros x [->|Hx]%elem_of_cons; [done|by apply Hhold].
  - rewrite <- Hconns, Ep. symmetry. apply Permutation_middle.
Qed.

Lemma pooled_pool_step p e : Inv p -> exists p', pool_step p e = Some p' /\ Inv p'.
Proof.
  intros HI. destruct e as [id|id|id|id|id]; cbn [pool_step];
    [eexists; split; [done|]; by apply pooled_ask|eexists; split; [done|]; by apply pooled_cancel|by apply pooled_take
    |eexists; split; [done|]; by apply pooled_put_back|eexists; split; [done|]; by apply pooled_drop_permit].
Qed.

Lemma pooled_pool_run p l : Inv p -> exists p', pool_run p l = Some p' /\ Inv p'.
Proof.
  revert p. induction l as [|e l IH]; intros p HI; [by exists p|].
  destruct (pooled_pool_step p e HI) as (p' & Hs & HI'). cbn. rewrite Hs. by apply IH.
Qed.

(** ** The contract of [Db::read] *)

(** C27: the comment of [Pooled::take], proved. However requests ask, give up, run and finish,
    taking a reader never finds the pool empty; every connection is in the pool or with
    exactly one request, and whoever has one has a permit. A request that has a permit and
    has not started gets a reader when it runs. *)
Theorem readers_suffice (l : list Event) :
  exists p, pool_run pool_new l = Some p /\
    pool p ++ map snd (taken p) ≡ₚ seq 0 READERS /\
    NoDup (map fst (taken p)) /\ NoDup (map snd (taken p)) /\
    (forall id c, (id, c) ∈ taken p -> holds id (read_permits p) = true) /\
    (forall id, holds id (read_permits p) = true -> started id p = false ->
      exists c p', take_reader id p = Some p' /\ c ∈ pool p /\ taken p' = (id, c) :: taken p).
Proof.
  destruct (pooled_pool_run pool_new l pooled_pool_new) as (p & Hrun & HI). exists p. split; [done|].
  assert (Hd := NoDup_seq 0 READERS). rewrite <- (inv_conns p HI), NoDup_app in Hd. destruct Hd as (_ & _ & Hd).
  assert (Hi := inv_inside p HI). apply NoDup_app in Hi as (Hi & _ & _).
  split_and!; [by destruct HI|done|done| |].
  - intros id c Hc. apply bool_decide_eq_true, (inv_hold p HI). unfold inside. apply elem_of_app. left.
    apply list_elem_of_fmap. by exists (id, c).
  - intros id Hh Hs. pose proof (free_reader id p HI Hh Hs) as Hf. unfold take_reader. rewrite Hh, Hs. cbn.
    destruct (pool p) as [|c rest]; [done|]. exists c. eexists. split_and!; [done|by left|done].
Qed.

(** Five requests: four readers out, the fifth waits, and has its reader once one is back. *)
Definition five : list Event :=
  ([AskReader 1; AskReader 2; AskReader 3; AskReader 4; AskReader 5] ++
   [TakeReader 1; TakeReader 2; TakeReader 3; TakeReader 4; TakeReader 5])%nat.

Example five_readers :
  option_map taken (pool_run pool_new five) = Some [(4, 0); (3, 1); (2, 2); (1, 3)]%nat /\
  option_map taken (pool_run pool_new (five ++ [PutBack 2; TakeReader 5; DropPermit 2; TakeReader 5]))%nat =
    Some [(5, 2); (4, 0); (3, 1); (1, 3)]%nat.
Proof. split; vm_compute; reflexivity. Qed.
