(* ===== verification/Writer.v ===== *)
(** * The writer (src/src/db/mod.rs)

    [Db::write] and [Db::with_writer] under interleaved requests: a permit of the one-place
    semaphore, the closure on a blocking thread, the connection's mutex, [BEGIN IMMEDIATE], the
    work statement by statement, [COMMIT], and everything given back in the order the values
    drop. Other processes commit in between. [writes_are_serial] is what lets the rest of this
    development take a write as one step: the database is always what whole transactions, one
    after the other, made of it. *)

From stdpp Require Import gmap.
From S2P Require Import Prelude Permits.

Section Writer.
Context {D : Type}.

(** ** Data *)

(** What [work] does with its transaction: a statement changes the contents and decides what
    follows; in the end it returns [Ok] or [Err], or panics. *)
Inductive Work :=
| Statement (f : D -> D) (next : D -> Work)
| Return (ok : bool)
| PanicsHere.

(** The contents a whole run leaves, if it is to be committed. *)
Fixpoint run_work (w : Work) (d : D) : option D :=
  match w with
  | Statement f next => run_work (next d) (f d)
  | Return true => Some d
  | Return false | PanicsHere => None
  end.

(** [write], or [with_writer], whose work runs outside any transaction. *)
Inductive Call := Write (w : Work) | WithWriter.

(** Where a call is: waiting for its permit, spawned, behind the mutex, inside its transaction,
    done with it, or past the guard's drop with the permit still held. *)
Inductive Stage :=
| Asking (c : Call)
| Spawned (c : Call)
| Locked (c : Call)
| Inside (w : Work)
| Leaving
| Unlocked.

(** The contents as committed, the semaphore, the owner of the mutex, and the contents as the
    connection's open transaction sees them. *)
Record Writer := {
  stored : D;
  write_permits : Semaphore;
  owner : option Id;
  open_tx : option D;
  calls : gmap Id Stage }.

Definition writer_new (d : D) : Writer :=
  {| stored := d; write_permits := {| permits := 1; line := [] |}; owner := None; open_tx := None; calls := ∅ |}.

(** ** Steps *)

Inductive Event :=
| Ask (id : Id) (c : Call)
| Cancel (id : Id)
| Spawn (id : Id)
| Lock (id : Id)
| Begin (id : Id) (busy : bool)
| Next (id : Id)
| Commit (id : Id) (fails : bool)
| Unlock (id : Id)
| Release (id : Id)
| Elsewhere (f : D -> D).

Definition at_stage (id : Id) (st : Stage) (s : Writer) : Writer :=
  {| stored := stored s; write_permits := write_permits s; owner := owner s; open_tx := open_tx s;
     calls := <[id := st]> (calls s) |}.

Definition with_tx (t : option D) (s : Writer) : Writer :=
  {| stored := stored s; write_permits := write_permits s; owner := owner s; open_tx := t; calls := calls s |}.

Definition with_owner (o : option Id) (s : Writer) : Writer :=
  {| stored := stored s; write_permits := write_permits s; owner := o; open_tx := open_tx s; calls := calls s |}.

Definition with_stored (d : D) (s : Writer) : Writer :=
  {| stored := d; write_permits := write_permits s; owner := owner s; open_tx := open_tx s; calls := calls s |}.

(** The permit, or the wait for it, is dropped and the call is over. *)
Definition leave (id : Id) (s : Writer) : Writer :=
  {| stored := stored s; write_permits := dropped id (write_permits s); owner := owner s; open_tx := open_tx s;
     calls := delete id (calls s) |}.

(** A step; an event that cannot happen changes nothing. The second part is what it did to the
    stored contents: a whole piece of work of a call, or a commit elsewhere. *)
Inductive Deed := Whole (id : Id) | Other (f : D -> D).

Definition writer_step (s : Writer) (e : Event) : Writer * option Deed :=
  match e with
  | Ask id c =>
      match calls s !! id with
      | None => (at_stage id (Asking c) {| stored := stored s; write_permits := join id (write_permits s); owner := owner s;
                                           open_tx := open_tx s; calls := calls s |}, None)
      | Some _ => (s, None)
      end
  | Cancel id => match calls s !! id with Some (Asking _) => (leave id s, None) | _ => (s, None) end
  | Spawn id =>
      match calls s !! id with
      | Some (Asking c) => if holds id (write_permits s) then (at_stage id (Spawned c) s, None) else (s, None)
      | _ => (s, None)
      end
  | Lock id =>
      match calls s !! id, owner s with
      | Some (Spawned c), None => (with_owner (Some id) (at_stage id (Locked c) s), None)
      | _, _ => (s, None)
      end
  | Begin id busy =>
      match calls s !! id with
      | Some (Locked (Write w)) =>
          if (busy : bool) then (at_stage id Leaving s, None)
          else (with_tx (Some (stored s)) (at_stage id (Inside w) s), None)
      | Some (Locked WithWriter) => (at_stage id Leaving s, None)
      | _ => (s, None)
      end
  | Next id =>
      match calls s !! id, open_tx s with
      | Some (Inside (Statement f next)), Some d => (with_tx (Some (f d)) (at_stage id (Inside (next d)) s), None)
      | Some (Inside (Return false | PanicsHere)), _ => (with_tx None (at_stage id Leaving s), None)
      | _, _ => (s, None)
      end
  | Commit id fails =>
      match calls s !! id, open_tx s with
      | Some (Inside (Return true)), Some d =>
          if (fails : bool) then (with_tx None (at_stage id Leaving s), None)
          else (with_stored d (with_tx None (at_stage id Leaving s)), Some (Whole id))
      | _, _ => (s, None)
      end
  | Unlock id => match calls s !! id with Some Leaving => (with_owner None (at_stage id Unlocked s), None) | _ => (s, None) end
  | Release id => match calls s !! id with Some Unlocked => (leave id s, None) | _ => (s, None) end
  | Elsewhere f => match open_tx s with None => (with_stored (f (stored s)) s, Some (Other f)) | Some _ => (s, None) end
  end.

(** A run, with the deeds in their order. *)
Fixpoint writer_run (s : Writer) (l : list Event) : Writer * list Deed :=
  match l with
  | [] => (s, [])
  | e :: l =>
      let '(s1, deed) := writer_step s e in
      let '(s2, deeds) := writer_run s1 l in (s2, option_list deed ++ deeds)
  end.

(** ** The specification: one whole transaction after the other *)

(** The work a call was made with. *)
Definition asked (l : list Event) (id : Id) (w : Work) : Prop := Ask id (Write w) ∈ l.

(** [d] becomes [d'] by doing the deeds one at a time, each piece of work whole; [A] says which
    work a call was made with. *)
Inductive serial (A : Id -> Work -> Prop) : D -> list Deed -> D -> Prop :=
| serial_nil d : serial A d [] d
| serial_whole d d1 d2 id w deeds :
    A id w -> run_work w d = Some d1 -> serial A d1 deeds d2 -> serial A d (Whole id :: deeds) d2
| serial_other d d2 f deeds : serial A (f d) deeds d2 -> serial A d (Other f :: deeds) d2.

(** ** The invariant *)

Definition active (st : Stage) : bool := match st with Asking _ => false | _ => true end.
Definition guards (st : Stage) : bool := match st with Locked _ | Inside _ | Leaving => true | _ => false end.

(** What is left of a call's work, run on what its transaction sees, comes to what the work it
    was made with comes to on the stored contents. *)
Definition work_ok (A : Id -> Work -> Prop) (s : Writer) (id : Id) (st : Stage) : Prop :=
  match st with
  | Asking c | Spawned c | Locked c => forall w, c = Write w -> A id w
  | Inside w => exists w0 d, A id w0 /\ open_tx s = Some d /\ run_work w0 (stored s) = run_work w d
  | Leaving | Unlocked => True
  end.

Record WriterInv (A : Id -> Work -> Prop) (s : Writer) : Prop := {
  wi_permits : permits (write_permits s) = 1%nat;
  wi_line : NoDup (line (write_permits s));
  wi_calls : forall id, is_Some (calls s !! id) <-> id ∈ line (write_permits s);
  wi_active : forall id st, calls s !! id = Some st -> active st = true -> head (line (write_permits s)) = Some id;
  wi_owner : forall id, owner s = Some id <-> exists st, calls s !! id = Some st /\ guards st = true;
  wi_work : forall id st, calls s !! id = Some st -> work_ok A s id st }.

Lemma guards_active st : guards st = true -> active st = true.
Proof. by destruct st. Qed.

Lemma holds_head id sem : permits sem = 1%nat -> holds id sem = true <-> head (line sem) = Some id.
Proof.
  intros Hp. unfold holds, holders. rewrite Hp, bool_decide_eq_true. destruct (line sem) as [|x l]; cbn; [set_solver|].
  rewrite list_elem_of_singleton. split; congruence.
Qed.

(** At most one call is past its wait. *)
Lemma active_unique A s id id' st st' :
  WriterInv A s -> calls s !! id = Some st -> calls s !! id' = Some st' -> active st = true -> active st' = true -> id = id'.
Proof. intros HI H1 H2 A1 A2. pose proof (wi_active A s HI id st H1 A1). pose proof (wi_active A s HI id' st' H2 A2). congruence. Qed.

(** The call at the head of the line moves on. *)
Lemma inv_head A s s' id st st' :
  WriterInv A s -> calls s !! id = Some st -> head (line (write_permits s)) = Some id ->
  write_permits s' = write_permits s -> calls s' = <[id := st']> (calls s) -> active st' = true ->
  owner s' = (if guards st' then Some id else None) -> work_ok A s' id st' -> WriterInv A s'.
Proof.
  intros [Hp Hn Hc Ha Ho Hw] Hid Hh Hs Hcs Hact Hown Hwk.
  assert (Hrest : forall j sj, calls s' !! j = Some sj -> j <> id -> calls s !! j = Some sj /\ active sj = false).
  { intros j sj Hj Hne. rewrite Hcs, lookup_insert_ne in Hj by done. split; [done|].
    destruct (active sj) eqn:E; [|done]. specialize (Ha j sj Hj E). congruence. }
  split; rewrite ?Hs; try done.
  - intros j. rewrite Hcs, <- Hc. destruct (base.decide (j = id)) as [->|]; [rewrite lookup_insert_eq; split; eauto|].
    by rewrite lookup_insert_ne.
  - intros j sj Hj Hjact. destruct (base.decide (j = id)) as [->|Hne]; [done|].
    destruct (Hrest j sj Hj Hne). congruence.
  - intros j. rewrite Hown. split.
    + destruct (guards st') eqn:E; [|done]. intros [= <-]. exists st'. by rewrite Hcs, lookup_insert_eq.
    + intros (sj & Hj & Hg). destruct (base.decide (j = id)) as [->|Hne].
      * rewrite Hcs, lookup_insert_eq in Hj. injection Hj as <-. by rewrite Hg.
      * destruct (Hrest j sj Hj Hne). apply guards_active in Hg. congruence.
  - intros j sj Hj. destruct (base.decide (j = id)) as [->|Hne].
    + rewrite Hcs, lookup_insert_eq in Hj. by injection Hj as <-.
    + destruct (Hrest j sj Hj Hne) as [Hj' Hna]. specialize (Hw j sj Hj'). by destruct sj.
Qed.

Lemma owner_of A s id st :
  WriterInv A s -> calls s !! id = Some st -> head (line (write_permits s)) = Some id ->
  owner s = if guards st then Some id else None.
Proof.
  intros HI Hid Hh. destruct (guards st) eqn:Eg; [apply (wi_owner A s HI); eauto|].
  destruct (owner s) as [j|] eqn:Eo; [|done]. apply (wi_owner A s HI) in Eo as (sj & Hj & Hg).
  pose proof (wi_active A s HI j sj Hj (guards_active _ Hg)) as Hjh. congruence.
Qed.

(** A call leaves the line. *)
Lemma writer_inv_leave A s id st :
  WriterInv A s -> calls s !! id = Some st -> guards st = false -> WriterInv A (leave id s).
Proof.
  intros [Hp Hn Hc Ha Ho Hw] Hid Hg.
  assert (Hrest : forall j sj, delete id (calls s) !! j = Some sj -> j <> id /\ calls s !! j = Some sj).
  { intros j sj Hj. destruct (base.decide (j = id)) as [->|Hne]; [by rewrite lookup_delete_eq in Hj|].
    by rewrite lookup_delete_ne in Hj. }
  split; cbn [leave write_permits dropped permits line calls owner]; [done|by apply NoDup_filter|..].
  - intros j. rewrite list_elem_of_filter, <- Hc. destruct (base.decide (j = id)) as [->|Hne].
    + rewrite lookup_delete_eq. split; [by intros [? [=]]|by intros [[] _]].
    + rewrite lookup_delete_ne by done. tauto.
  - intros j sj [Hne Hj]%Hrest Hact. specialize (Ha j sj Hj Hact).
    destruct (line (write_permits s)) as [|x l]; [done|]. injection Ha as ->. by rewrite filter_cons_True.
  - intros j. rewrite Ho. split; intros (sj & Hj & Hgj); exists sj; (split; [|done]).
    + rewrite lookup_delete_ne; [done|]. intros <-. congruence.
    + by apply Hrest in Hj as [_ Hj].
  - intros j sj [_ Hj]%Hrest. exact (Hw j sj Hj).
Qed.

(** More calls may have been made. *)
Lemma inv_more (A B : Id -> Work -> Prop) s : (forall id w, A id w -> B id w) -> WriterInv A s -> WriterInv B s.
Proof.
  intros HAB [Hp Hn Hc Ha Ho Hw]. split; try done. intros id st Hid. specialize (Hw id st Hid).
  destruct st; cbn in *; eauto. destruct Hw as (w0 & d & HA & Hd). exists w0, d. eauto.
Qed.

Lemma inv_ask (A : Id -> Work -> Prop) s id c :
  (forall w, c = Write w -> A id w) -> calls s !! id = None -> WriterInv A s ->
  WriterInv A (writer_step s (Ask id c)).1.
Proof.
  intros HA Hid [Hp Hn Hc Ha Ho Hw]. cbn. rewrite Hid. cbn.
  assert (Hnot : id ∉ line (write_permits s)) by (rewrite <- Hc, Hid; by intros [? [=]]).
  split; cbn; [done|..].
  - apply NoDup_app. split_and!; [done| |apply NoDup_singleton]. by intros x Hx ->%list_elem_of_singleton.
  - intros j. rewrite elem_of_app, list_elem_of_singleton, <- Hc.
    destruct (base.decide (j = id)) as [->|Hne]; [rewrite lookup_insert_eq; split; eauto|]. rewrite lookup_insert_ne by done. tauto.
  - intros j sj Hj Hact. destruct (base.decide (j = id)) as [->|Hne].
    + rewrite lookup_insert_eq in Hj. by injection Hj as <-.
    + rewrite lookup_insert_ne in Hj by done. specialize (Ha j sj Hj Hact). by destruct (line (write_permits s)).
  - intros j. rewrite Ho. split; intros (sj & Hj & Hg); exists sj; (split; [|done]).
    + rewrite lookup_insert_ne; [done|]. intros <-. congruence.
    + destruct (base.decide (j = id)) as [->|Hne]; [|by rewrite lookup_insert_ne in Hj].
      rewrite lookup_insert_eq in Hj. by injection Hj as <-.
  - intros j sj Hj. destruct (base.decide (j = id)) as [->|Hne].
    + rewrite lookup_insert_eq in Hj. by injection Hj as <-.
    + rewrite lookup_insert_ne in Hj by done. exact (Hw j sj Hj).
Qed.

(** ** Serial *)

(** What a step does to the stored contents is nothing or one deed. *)
Definition deed_ok (A : Id -> Work -> Prop) (s s' : Writer) (deed : option Deed) : Prop :=
  match deed with
  | None => stored s' = stored s
  | Some (Whole id) => exists w, A id w /\ run_work w (stored s) = Some (stored s')
  | Some (Other f) => stored s' = f (stored s)
  end.

Lemma writer_inv_step (A : Id -> Work -> Prop) s e :
  (forall id w, e = Ask id (Write w) -> A id w) -> WriterInv A s ->
  WriterInv A (writer_step s e).1 /\ deed_ok A s (writer_step s e).1 (writer_step s e).2.
Proof.
  intros HA HI.
  assert (Hhead : forall id st, calls s !! id = Some st -> active st = true ->
    head (line (write_permits s)) = Some id /\ owner s = if guards st then Some id else None).
  { intros id st Hid Hact. pose proof (wi_active A s HI id st Hid Hact) as Hh. split; [done|]. by eapply owner_of. }
  destruct e as [id c|id|id|id|id busy|id|id fails|id|id|f].
  - destruct (calls s !! id) eqn:E; [cbn; by rewrite E|]. split; [apply inv_ask; naive_solver|]. cbn. by rewrite E.
  - cbn. destruct (calls s !! id) as [[]|] eqn:E; try done. split; [|done]. by eapply writer_inv_leave.
  - cbn. destruct (calls s !! id) as [[]|] eqn:E; try done. destruct (holds id (write_permits s)) eqn:Eh; [|done].
    apply (holds_head _ _ (wi_permits A s HI)) in Eh. split; [|done].
    eapply (inv_head A s _ id _ (Spawned c)); try done; [|exact (wi_work A s HI _ _ E)].
    cbn. by rewrite (owner_of A s id _ HI E Eh).
  - cbn. destruct (calls s !! id) as [[]|] eqn:E; try done. destruct (Hhead id _ E eq_refl) as [Hh Hown].
    cbn in Hown. rewrite Hown. split; [|done].
    eapply (inv_head A s _ id _ (Locked c)); try done. exact (wi_work A s HI _ _ E).
  - cbn. destruct (calls s !! id) as [[| |[w|]| | |]|] eqn:E; try done; destruct (Hhead id _ E eq_refl) as [Hh Hown].
    + destruct busy; (split; [|done]).
      * by eapply (inv_head A s _ id _ Leaving).
      * eapply (inv_head A s _ id _ (Inside w)); try done. exists w, (stored s). cbn.
        split_and!; [|done|done]. by apply (wi_work A s HI _ _ E).
    + split; [|done]. by eapply (inv_head A s _ id _ Leaving).
  - cbn. destruct (calls s !! id) as [[| | |w| |]|] eqn:E; try done. destruct (Hhead id _ E eq_refl) as [Hh Hown].
    destruct (wi_work A s HI _ _ E) as (w0 & d & HA0 & Hd & Hrun). rewrite Hd.
    destruct w as [f next|[|]|]; try done; (split; [|done]).
    + eapply (inv_head A s _ id _ (Inside (next d))); try done. by exists w0, (f d).
    + by eapply (inv_head A s _ id _ Leaving).
    + by eapply (inv_head A s _ id _ Leaving).
  - cbn. destruct (calls s !! id) as [[| | |[f next|[|]|]| |]|] eqn:E; try done. destruct (Hhead id _ E eq_refl) as [Hh Hown].
    destruct (wi_work A s HI _ _ E) as (w0 & d & HA0 & Hd & Hrun). rewrite Hd.
    destruct fails; (split; [by eapply (inv_head A s _ id _ Leaving)|]); [done|]. by exists w0.
  - cbn. destruct (calls s !! id) as [[]|] eqn:E; try done. destruct (Hhead id _ E eq_refl) as [Hh Hown].
    split; [|done]. by eapply (inv_head A s _ id _ Unlocked).
  - cbn. destruct (calls s !! id) as [[]|] eqn:E; try done. split; [|done]. by eapply writer_inv_leave.
  - cbn. destruct (open_tx s) as [d|] eqn:Et; [done|]. split; [|done]. destruct HI as [Hp Hn Hc Ha Ho Hw].
    split; try done. intros id st Hid. specialize (Hw id st Hid). destruct st; try done.
    destruct Hw as (w0 & d & _ & Hd & _). congruence.
Qed.

Lemma writer_inv_run (A : Id -> Work -> Prop) l s s' deeds :
  (forall id w, asked l id w -> A id w) -> WriterInv A s -> writer_run s l = (s', deeds) ->
  WriterInv A s' /\ serial A (stored s) deeds (stored s').
Proof.
  revert s deeds. induction l as [|e l IH]; intros s deeds HA HI; cbn [writer_run].
  - intros [= <- <-]. split; [done|constructor].
  - destruct (writer_inv_step A s e) as [HI1 Hd]; [intros id w ->; apply HA; by left|done|].
    destruct (writer_step s e) as [s1 deed]. destruct (writer_run s1 l) as [s2 ds] eqn:Er. intros [= <- <-].
    destruct (IH s1 ds) as [HI2 Hs]; [intros id w Hw; apply HA; by right|done|done|]. split; [done|].
    destruct deed as [[id|f]|]; cbn in Hd |- *; [|constructor; by rewrite <- Hd|by rewrite <- Hd].
    destruct Hd as (w & Hw & Hrun). by eapply serial_whole.
Qed.

Lemma writer_inv_new A d : WriterInv A (writer_new d).
Proof.
  split; cbn; try done; [constructor|..].
  - intros id. rewrite lookup_empty. split; [by intros [? [=]]|by intros ?%not_elem_of_nil].
  - intros id. split; [done|]. intros (st & Hst & _). by rewrite lookup_empty in Hst.
Qed.

Lemma writer_inv_reachable d l s deeds : writer_run (writer_new d) l = (s, deeds) -> WriterInv (asked l) s.
Proof. intros Hr. by apply (writer_inv_run (asked l) l (writer_new d) s deeds (fun _ _ H => H) (writer_inv_new _ d)). Qed.

(** C5: writes are serial. However the calls' steps, cancellations, panics, busy databases,
    failed commits and the commits of other processes are interleaved, the stored contents
    are always those that whole pieces of work and the other processes' commits, one after
    the other, made of the first contents; each piece is the work its call was made with. At
    most one call is past its wait, and one that wants the mutex finds it free. *)
Theorem writes_are_serial (d : D) (l : list Event) (s : Writer) (deeds : list Deed) :
  writer_run (writer_new d) l = (s, deeds) ->
  serial (asked l) d deeds (stored s) /\
  (forall id id' st st', calls s !! id = Some st -> calls s !! id' = Some st' -> active st = true -> active st' = true -> id = id') /\
  (forall id c, calls s !! id = Some (Spawned c) -> owner s = None).
Proof.
  intros Hr. pose proof (writer_inv_reachable d l s deeds Hr) as HI. split_and!.
  - by apply (writer_inv_run (asked l) l (writer_new d) s deeds (fun _ _ H => H) (writer_inv_new _ d)).
  - intros id id' st st'. by eapply active_unique.
  - intros id c Hid. apply (owner_of (asked l) s id _ HI Hid). by apply (wi_active _ _ HI id _ Hid).
Qed.

(** ** Turns *)

(** The steps of a call itself, with nothing failing. *)
Definition own (id : Id) (e : Event) : Prop :=
  e = Spawn id \/ e = Lock id \/ e = Begin id false \/ e = Next id \/ e = Commit id false \/ e = Unlock id \/ e = Release id.

(** What a call's work leaves, and whether it is a deed. *)
Definition result_of (id : Id) (w : Work) (d : D) : D * list Deed :=
  match run_work w d with Some d' => (d', [Whole id]) | None => (d, []) end.

Lemma writer_run_app s l1 l2 :
  writer_run s (l1 ++ l2) =
  let '(s1, ds1) := writer_run s l1 in let '(s2, ds2) := writer_run s1 l2 in (s2, ds1 ++ ds2).
Proof.
  revert s. induction l1 as [|e l1 IH]; intros s; cbn; [by destruct (writer_run s l2)|].
  destruct (writer_step s e) as [s1 deed]. rewrite IH. destruct (writer_run s1 l1) as [s2 ds].
  destruct (writer_run s2 l2) as [s3 ds3]. by rewrite app_assoc.
Qed.

Definition left_tx (id : Id) (d : D) (s : Writer) : Writer :=
  {| stored := d; write_permits := write_permits s; owner := owner s; open_tx := None; calls := <[id := Leaving]> (calls s) |}.

Lemma inside_ends id w s d :
  calls s !! id = Some (Inside w) -> open_tx s = Some d ->
  exists l, Forall (own id) l /\
    writer_run s l = (left_tx id (default (stored s) (run_work w d)) s, match run_work w d with Some _ => [Whole id] | None => [] end).
Proof.
  revert s d. induction w as [f next IH|[|]|]; intros s d Hid Hd; cbn [run_work].
  - destruct (IH d (with_tx (Some (f d)) (at_stage id (Inside (next d)) s)) (f d)) as (l & Hl & Hr); [apply lookup_insert_eq|done|].
    exists (Next id :: l). split; [constructor; [unfold own; tauto|done]|]. cbn [writer_run writer_step]. rewrite Hid, Hd, Hr.
    unfold left_tx. cbn. by rewrite insert_insert_eq.
  - exists [Commit id false]. split; [constructor; [unfold own; tauto|done]|]. cbn. by rewrite Hid, Hd.
  - exists [Next id]. split; [constructor; [unfold own; tauto|done]|]. cbn. by rewrite Hid.
  - exists [Next id]. split; [constructor; [unfold own; tauto|done]|]. cbn. by rewrite Hid.
Qed.

(** The call can end by its own steps, with the stored contents and deeds in [R]. *)
Definition can_end (id : Id) (R : D -> list Deed -> Prop) (s : Writer) : Prop :=
  exists l s' deeds, Forall (own id) l /\ writer_run s l = (s', deeds) /\ R (stored s') deeds /\
    write_permits s' = dropped id (write_permits s) /\ calls s' = delete id (calls s).

Lemma can_end_step id R s s1 e :
  own id e -> writer_step s e = (s1, None) -> write_permits s1 = write_permits s ->
  delete id (calls s1) = delete id (calls s) -> can_end id R s1 -> can_end id R s.
Proof.
  intros He Hs Hp Hc (l & s' & deeds & Hl & Hr & HR & Hp' & Hc'). exists (e :: l), s', deeds.
  cbn. rewrite Hs, Hr, Hp', Hc', Hp, Hc. split_and!; try done. by constructor.
Qed.

Lemma can_end_leaving id (R : D -> list Deed -> Prop) s : calls s !! id = Some Leaving -> R (stored s) [] -> can_end id R s.
Proof.
  intros Hid HR.
  apply (can_end_step id R s (with_owner None (at_stage id Unlocked s)) (Unlock id)); [unfold own; tauto| |done| |].
  - cbn. by rewrite Hid.
  - apply delete_insert_eq.
  - exists [Release id], (leave id (with_owner None (at_stage id Unlocked s))), []. split; [constructor; [unfold own; tauto|done]|].
    cbn. rewrite lookup_insert_eq. by split_and!.
Qed.

Lemma can_end_inside id (R : D -> list Deed -> Prop) s w d :
  calls s !! id = Some (Inside w) -> open_tx s = Some d ->
  R (default (stored s) (run_work w d)) (match run_work w d with Some _ => [Whole id] | None => [] end) -> can_end id R s.
Proof.
  intros Hid Hd HR. destruct (inside_ends id w s d Hid Hd) as (l & Hl & Hr).
  set (s1 := left_tx id (default (stored s) (run_work w d)) s) in *.
  destruct (can_end_leaving id (fun x ds => x = stored s1 /\ ds = []) s1)
    as (l' & s' & ds & Hl' & Hr' & [Hst ->] & Hp & Hc); [apply lookup_insert_eq|done|].
  exists (l ++ l'), s', (match run_work w d with Some _ => [Whole id] | None => [] end).
  split; [by apply Forall_app|]. rewrite writer_run_app, Hr, Hr', app_nil_r. split_and!; [done|by rewrite Hst|done|].
  rewrite Hc. apply delete_insert_eq.
Qed.

(** The call at the head of the line can end; if it still has all its work to do, it does it on
    what is stored. *)
Lemma can_end_head (A : Id -> Work -> Prop) id s st :
  WriterInv A s -> calls s !! id = Some st -> head (line (write_permits s)) = Some id ->
  can_end id (fun d deeds => forall w, st = Asking (Write w) -> (d, deeds) = result_of id w (stored s)) s.
Proof.
  intros HI Hid Hh.
  assert (Hlocked : forall c (R : D -> list Deed -> Prop) s1, calls s1 !! id = Some (Locked c) ->
    (forall w, c = Write w -> R (result_of id w (stored s1)).1 (result_of id w (stored s1)).2) ->
    (c = WithWriter -> R (stored s1) []) -> can_end id R s1).
  { intros [w|] R s1 H1 Hw Hb.
    - eapply (can_end_step id R s1 _ (Begin id false)); [unfold own; tauto|cbn; by rewrite H1|done|apply delete_insert_eq|].
      eapply can_end_inside; [apply lookup_insert_eq|done|]. cbn. specialize (Hw w eq_refl). unfold result_of in Hw.
      by destruct (run_work w (stored s1)).
    - eapply (can_end_step id R s1 _ (Begin id false)); [unfold own; tauto|cbn; by rewrite H1|done|apply delete_insert_eq|].
      apply can_end_leaving; [apply lookup_insert_eq|by apply Hb]. }
  assert (Hspawned : forall c (R : D -> list Deed -> Prop) s1, calls s1 !! id = Some (Spawned c) -> owner s1 = None ->
    (forall w, c = Write w -> R (result_of id w (stored s1)).1 (result_of id w (stored s1)).2) ->
    (c = WithWriter -> R (stored s1) []) -> can_end id R s1).
  { intros c R s1 H1 Ho Hw Hb.
    eapply (can_end_step id R s1 _ (Lock id)); [unfold own; tauto|cbn; by rewrite H1, Ho|done|apply delete_insert_eq|].
    eapply Hlocked; [apply lookup_insert_eq|done|done]. }
  pose proof (owner_of A s id st HI Hid Hh) as Hown.
  destruct st as [c|c|c|w| |].
  - apply (can_end_step id _ s (at_stage id (Spawned c) s) (Spawn id)); [unfold own; tauto| |done|apply delete_insert_eq|].
    + cbn. rewrite Hid. by rewrite (proj2 (holds_head id _ (wi_permits A s HI)) Hh).
    + eapply Hspawned; [apply lookup_insert_eq|done|..].
      * intros w -> w' [= <-]. by destruct (result_of id w _).
      * by intros ->.
  - by eapply Hspawned.
  - by eapply Hlocked.
  - destruct (wi_work A s HI id _ Hid) as (w0 & d & _ & Hd & _). by eapply can_end_inside.
  - by apply can_end_leaving.
  - exists [Release id], (leave id s), []. split; [constructor; [unfold own; tauto|done]|]. cbn. by rewrite Hid.
Qed.

Lemma serial_app (A : Id -> Work -> Prop) d d1 d2 ds1 ds2 : serial A d ds1 d1 -> serial A d1 ds2 d2 -> serial A d (ds1 ++ ds2) d2.
Proof. induction 1; cbn; intros; [done|econstructor; eauto|constructor; eauto]. Qed.

Lemma own_asks l id w i : Forall (own i) l -> ~ asked l id w.
Proof. intros Hl Ha. rewrite Forall_forall in Hl. specialize (Hl _ Ha). unfold own in Hl. naive_solver. Qed.

(** C28: every write gets its turn. From wherever the calls have got to, a write that waits for
    its permit can end: the calls before it in the line, and then it, by steps of their own and
    with nothing failing; it does its whole work on what is stored when its turn comes. *)
Theorem every_write_gets_its_turn (d : D) (l : list Event) (s : Writer) (deeds : list Deed) (id : Id) (w : Work) :
  writer_run (writer_new d) l = (s, deeds) -> calls s !! id = Some (Asking (Write w)) ->
  exists l' s' before d1, Forall (fun e => exists i, own i e) l' /\
    writer_run s l' = (s', before ++ (result_of id w d1).2) /\ stored s' = (result_of id w d1).1 /\
    calls s' !! id = None /\ serial (asked l) (stored s) before d1.
Proof.
  intros Hr. pose proof (writer_inv_reachable d l s deeds Hr) as HI. clear Hr. intros Hid.
  assert (Hin : id ∈ line (write_permits s)) by (apply (wi_calls _ _ HI); eauto).
  remember (line (write_permits s)) as ln eqn:Eln. revert s HI Hid Hin Eln.
  induction ln as [|x ln IH]; intros s HI Hid Hin Eln; [by apply not_elem_of_nil in Hin|].
  assert (Hx : is_Some (calls s !! x)) by (apply (wi_calls _ _ HI); rewrite <- Eln; by left). destruct Hx as [st Hx].
  destruct (can_end_head (asked l) x s st HI Hx) as (l1 & s1 & ds1 & Hl1 & Hr1 & HR & Hp1 & Hc1); [by rewrite <- Eln|].
  destruct (writer_inv_run (asked l) l1 s s1 ds1) as [HI1 Hs1]; [|done|done|].
  { intros i wi Hi. by apply own_asks with (i := x) in Hi. }
  assert (Hown : Forall (fun e => exists i, own i e) l1) by (eapply Forall_impl; [exact Hl1|eauto]).
  destruct (base.decide (x = id)) as [->|Hne].
  - exists l1, s1, [], (stored s). rewrite Hid in Hx. injection Hx as <-. specialize (HR w eq_refl).
    destruct (result_of id w (stored s)) as [d' dd]. injection HR as -> ->.
    split_and!; [done|done|done|by rewrite Hc1, lookup_delete_eq|constructor].
  - assert (Hnd := wi_line _ _ HI). rewrite <- Eln in Hnd. apply NoDup_cons in Hnd as [Hxl Hnd].
    assert (Eln1 : ln = line (write_permits s1)).
    { rewrite Hp1. cbn. rewrite <- Eln, filter_cons_False by tauto. symmetry. apply filter_all. by intros y Hy ->. }
    destruct (IH s1 HI1) as (l2 & s2 & before & d1 & Hl2 & Hr2 & Hst2 & Hc2 & Hs2);
      [by rewrite Hc1, lookup_delete_ne|by apply elem_of_cons in Hin as [->|]|done|].
    exists (l1 ++ l2), s2, (ds1 ++ before), d1. split; [by apply Forall_app|].
    rewrite writer_run_app, Hr1, Hr2, app_assoc. split_and!; [done|done|done|]. by eapply serial_app.
Qed.
End Writer.

(** ** On a concrete run *)

(** Two writes of three, one of which returns an error, a cancelled one and a checkpoint, beside a
    command's commit. *)
Definition add_twice : Work (D := Z) := Statement (fun d => d + 1) (fun d => Statement (fun d => d * 10) (fun _ => Return true)).
Definition refuse_odd : Work (D := Z) := Statement (fun d => d + 7) (fun d => Return (Z.even d)).

Definition busy_day : list (Event (D := Z)) :=
  [Ask 1%nat (Write add_twice); Ask 2%nat (Write refuse_odd); Ask 3%nat (Write add_twice); Ask 4%nat WithWriter; Spawn 2%nat; Spawn 1%nat; Lock 1%nat;
   Elsewhere (fun d => d + 100); Begin 1%nat false; Next 1%nat; Elsewhere (fun d => 0); Cancel 3%nat; Next 1%nat; Commit 1%nat false; Spawn 2%nat; Unlock 1%nat;
   Release 1%nat; Spawn 2%nat; Lock 2%nat; Begin 2%nat false; Next 2%nat].

Definition the_writer : Writer (D := Z) := (writer_run (writer_new 5) busy_day).1.

Example one_transaction_so_far :
  stored the_writer = 1060 /\ open_tx the_writer = Some 1067 /\ line (write_permits the_writer) = [2%nat; 4%nat].
Proof. vm_compute. done. Qed.

Lemma writes_are_serial_witness :
  exists deeds, length deeds = 2%nat /\ serial (asked busy_day) 5 deeds (stored the_writer).
Proof.
  exists (writer_run (writer_new 5) busy_day).2. split; [reflexivity|].
  apply (writes_are_serial 5 busy_day the_writer _). unfold the_writer. destruct (writer_run (writer_new 5) busy_day). reflexivity.
Defined.

Definition early_day : list (Event (D := Z)) := firstn 8 busy_day.
Definition early_writer : Writer (D := Z) := (writer_run (writer_new 5) early_day).1.

Lemma every_write_gets_its_turn_witness :
  exists l' s' before d1, writer_run early_writer l' = (s', before ++ (result_of 3%nat add_twice d1).2) /\
    stored s' = (result_of 3%nat add_twice d1).1 /\ calls s' !! 3%nat = None.
Proof.
  destruct (every_write_gets_its_turn 5 early_day early_writer (writer_run (writer_new 5) early_day).2 3%nat add_twice)
    as (l' & s' & before & d1 & _ & Hr & Hs & Hc & _).
  - unfold early_writer. destruct (writer_run (writer_new 5) early_day). reflexivity.
  - reflexivity.
  - exists l', s', before, d1. split; [exact Hr|]. split; [exact Hs|exact Hc].
Defined.
