(* ===== verification/Connections.v ===== *)
(** * Connections and graceful shutdown (src/src/http/server.rs)

    [run] as a machine: the accept loop, a task per connection with the counters it shares
    with its stream and its service, and the drain after shutdown. Time goes in ticks of a
    millisecond; a timer fires at the tick it is due. What hyper does on a connection (bytes
    read, a request passed to the service, a response ready, the end) and what clients and
    the operator do are events in any order. *)

From stdpp Require Import gmap.
From S2P Require Import Prelude.

(** ** Data *)

Definition SHUTDOWN_GRACE : Z := 8000.
Definition ARRIVED_BYTES_WINDOW : Z := 50.
Definition ACCEPT_ERROR_PAUSE : Z := 100.

(** The sleep of the loop that waits for an arriving head. *)
Definition HEAD_POLL : Z := 50.

(** [Activity]: unsigned 64-bit counters. *)
Record Activity := { read : Z; in_flight : Z; answered_at : Z }.

Definition activity_default : Activity := {| read := 0; in_flight := 0; answered_at := 0 |}.

(** [Activity::handling] and [Activity::busy]. *)
Definition handling (a : Activity) : bool := 0 <? in_flight a.
Definition busy (a : Activity) : bool := (0 <? in_flight a) || (answered_at a <? read a).

(** Where a connection's task is: serving, in the window after shutdown, waiting for a head,
    or past [graceful_shutdown]. *)
Inductive Stage := Serving | Window (until : Z) | Head (until : Z) | Closing.

Record Conn := { activity : Activity; stage : Stage }.

(** What happens on a connection. *)
Inductive Work := Bytes (n : Z) | Call | Answer.

Inductive Mode := Accepting | Pausing (until : Z) | Draining (deadline : Z) | Stopped.

Record Server := {
  now : Z;
  mode : Mode;
  asked : bool;
  conns : gmap nat Conn;
  accept_errors : Z }.

#[global] Instance Work_eq_dec : EqDecision Work.
Proof. solve_decision. Defined.

(** ** A connection *)

(** [Counted::poll_read]. *)
Definition poll_read (n : Z) (a : Activity) : Activity :=
  {| read := (read a + n) mod 2 ^ 64; in_flight := in_flight a; answered_at := answered_at a |}.

(** [WithPeer::call], up to the service's own call. *)
Definition call (a : Activity) : Activity :=
  {| read := read a; in_flight := (in_flight a + 1) mod 2 ^ 64; answered_at := answered_at a |}.

(** The future of [WithPeer::call] once the response is ready. *)
Definition answer (a : Activity) : Activity :=
  {| read := read a; in_flight := (in_flight a - 1) mod 2 ^ 64; answered_at := read a |}.

(** The condition of the [while]: sleep again, or [graceful_shutdown]. *)
Definition check_head (t : Z) (c : Conn) : Conn :=
  {| activity := activity c;
     stage := if busy (activity c) && negb (handling (activity c)) then Head (t + HEAD_POLL) else Closing |}.

(** A call notifies a task that waits for a head. *)
Definition conn_work (t : Z) (w : Work) (c : Conn) : Conn :=
  match w with
  | Bytes n => {| activity := poll_read n (activity c); stage := stage c |}
  | Call =>
      let c := {| activity := call (activity c); stage := stage c |} in
      match stage c with Head _ => check_head t c | _ => c end
  | Answer =>
      if handling (activity c) then {| activity := answer (activity c); stage := stage c |} else c
  end.

(** [stopped.changed()]. *)
Definition conn_stop (t : Z) (c : Conn) : Conn :=
  {| activity := activity c;
     stage := match stage c with Serving => Window (t + ARRIVED_BYTES_WINDOW) | st => st end |}.

(** A sleep of the task that is due. *)
Definition conn_tick (t : Z) (c : Conn) : Conn :=
  match stage c with
  | Window u | Head u => if u <=? t then check_head t c else c
  | _ => c
  end.

(** ** The server *)

Inductive Event :=
| Accept (id : nat)
| AcceptFails
| Shutdown
| See
| Doing (id : nat) (w : Work)
| Ended (id : nat)
| Tick.

#[global] Instance Event_eq_dec : EqDecision Event.
Proof. solve_decision. Defined.

Definition server_new (t : Z) : Server :=
  {| now := t; mode := Accepting; asked := false; conns := ∅; accept_errors := 0 |}.

Definition with_conns (m : gmap nat Conn) (s : Server) : Server :=
  {| now := now s; mode := mode s; asked := asked s; conns := m; accept_errors := accept_errors s |}.

Definition with_mode (m : Mode) (s : Server) : Server :=
  {| now := now s; mode := m; asked := asked s; conns := conns s; accept_errors := accept_errors s |}.

(** [drained]: the last connection has been joined. *)
Definition joined (s : Server) : Server :=
  match mode s with
  | Draining _ => if bool_decide (conns s = ∅) then with_mode Stopped s else s
  | _ => s
  end.

(** The [shutdown] branch: the listener closes, the connections are told, and the drain
    starts. *)
Definition stop (s : Server) : Server :=
  joined (with_conns (conn_stop (now s) <$> conns s) (with_mode (Draining (now s + SHUTDOWN_GRACE)) s)).

Definition see (s : Server) : Server :=
  match mode s with Accepting => if asked s then stop s else s | _ => s end.

(** The [accept] branch. *)
Definition accept (id : nat) (s : Server) : Server :=
  match mode s, conns s !! id with
  | Accepting, None => with_conns (<[id := {| activity := activity_default; stage := Serving |}]> (conns s)) s
  | _, _ => s
  end.

Definition accept_fails (s : Server) : Server :=
  match mode s with
  | Accepting =>
      {| now := now s; mode := Pausing (now s + ACCEPT_ERROR_PAUSE); asked := asked s; conns := conns s;
         accept_errors := accept_errors s + 1 |}
  | _ => s
  end.

(** [abort_all] after the grace period. *)
Definition abort_all (s : Server) : Server := with_mode Stopped (with_conns ∅ s).

(** Timers, a millisecond later. *)
Definition tick (s : Server) : Server :=
  let s := {| now := now s + 1; mode := mode s; asked := asked s; conns := conns s; accept_errors := accept_errors s |} in
  match mode s with
  | Accepting => see s
  | Pausing u => if u <=? now s then with_mode Accepting s else s
  | Draining d => if d <=? now s then abort_all s else with_conns (conn_tick (now s) <$> conns s) s
  | Stopped => s
  end.

Definition step (s : Server) (e : Event) : Server :=
  match e with
  | Accept id => accept id s
  | AcceptFails => accept_fails s
  | Shutdown => {| now := now s; mode := mode s; asked := true; conns := conns s; accept_errors := accept_errors s |}
  | See => see s
  | Doing id w => with_conns (alter (conn_work (now s) w) id (conns s)) s
  | Ended id => joined (with_conns (delete id (conns s)) s)
  | Tick => tick s
  end.

Definition run (s : Server) (l : list Event) : Server := fold_left step l s.

Definition reachable (s : Server) : Prop := exists t l, s = run (server_new t) l.

(** The milliseconds of a run. *)
Fixpoint ticks (l : list Event) : Z :=
  match l with
  | [] => 0
  | Tick :: l => 1 + ticks l
  | _ :: l => ticks l
  end.

(** The bytes a run reads on a connection. *)
Fixpoint received (id : nat) (l : list Event) : Z :=
  match l with
  | [] => 0
  | Doing j (Bytes n) :: l => (if bool_decide (j = id) then n else 0) + received id l
  | _ :: l => received id l
  end.

(** ** The invariant *)

(** Timers are ahead and no further than their sleep; nobody serves once the drain starts. *)
Definition stage_ok (m : Mode) (t : Z) (st : Stage) : Prop :=
  match m, st with
  | (Accepting | Pausing _), Serving => True
  | Draining _, (Window u | Head u) => t < u <= t + 50
  | Draining _, Closing => True
  | _, _ => False
  end.

Definition mode_ok (s : Server) : Prop :=
  match mode s with
  | Accepting => True
  | Pausing u => now s < u <= now s + ACCEPT_ERROR_PAUSE
  | Draining d => now s < d <= now s + SHUTDOWN_GRACE
  | Stopped => conns s = ∅
  end.

Record Inv (s : Server) : Prop := {
  inv_mode : mode_ok s;
  inv_stages : map_Forall (fun _ c => stage_ok (mode s) (now s) (stage c)) (conns s) }.

Lemma check_head_ok d t c : stage_ok (Draining d) t (stage (check_head t c)).
Proof. unfold check_head. cbn. destruct (_ && _); cbn; [unfold HEAD_POLL; lia|done]. Qed.

Lemma conn_work_ok m t w c : stage_ok m t (stage c) -> stage_ok m t (stage (conn_work t w c)).
Proof.
  intros Hok. destruct w; cbn; [done| |by destruct (handling _)].
  destruct (stage c) as [| |u|] eqn:E; cbn; rewrite ?E; try done.
  destruct m as [| |d|]; try done.
  apply (check_head_ok d t {| activity := call (activity c); stage := stage c |}).
Qed.

Lemma conn_tick_ok d t c : stage_ok (Draining d) t (stage c) -> stage_ok (Draining d) (t + 1) (stage (conn_tick (t + 1) c)).
Proof.
  intros Hok. unfold conn_tick. destruct (stage c) as [|u|u|] eqn:E; rewrite ?E; try done;
    (destruct (Z.leb_spec u (t + 1)); [apply (check_head_ok d)|rewrite E; cbn in *; lia]).
Qed.

Lemma serving_joined s : Inv s -> Inv (joined s).
Proof.
  intros HI. unfold joined. destruct (mode s) eqn:E; try done. case_bool_decide as He; [|done].
  constructor; cbn; [done|]. rewrite He. apply map_Forall_empty.
Qed.

Lemma serving_stop s : mode s = Accepting -> Inv s -> Inv (stop s).
Proof.
  intros Hm [_ Hst]. apply serving_joined. constructor; cbn; [unfold mode_ok, SHUTDOWN_GRACE; cbn; lia|].
  intros id c' Hc. rewrite lookup_fmap in Hc. destruct (conns s !! id) as [c|] eqn:E; [|done]. injection Hc as <-.
  specialize (Hst id c E). cbn in Hst. rewrite Hm in Hst. cbn. destruct (stage c); try done. cbn.
  unfold ARRIVED_BYTES_WINDOW. lia.
Qed.

Lemma serving_see s : Inv s -> Inv (see s).
Proof. intros HI. unfold see. destruct (mode s) eqn:E; try done. destruct (asked s); [by apply serving_stop|done]. Qed.

Lemma serving_accept id s : Inv s -> Inv (accept id s).
Proof.
  intros HI. unfold accept. destruct (mode s) eqn:Em; try done. destruct (conns s !! id) eqn:Ec; [done|].
  destruct HI as [Hm Hst]. constructor; cbn; [unfold mode_ok in *; cbn; by rewrite Em|].
  apply map_Forall_insert; [done|]. rewrite Em in *. by split.
Qed.

Lemma serving_accept_fails s : Inv s -> Inv (accept_fails s).
Proof.
  intros [Hm Hst]. unfold accept_fails. destruct (mode s) eqn:Em; try (constructor; rewrite ?Em; done).
  constructor; cbn; [unfold mode_ok, ACCEPT_ERROR_PAUSE; cbn; lia|]. intros id c Hc. by specialize (Hst id c Hc).
Qed.

Lemma serving_doing id w s : Inv s -> Inv (with_conns (alter (conn_work (now s) w) id (conns s)) s).
Proof.
  intros [Hm Hst]. constructor; cbn.
  - unfold mode_ok in *. cbn. destruct (mode s); try done. rewrite Hm. apply alter_empty.
  - intros j c Hc. destruct (base.decide (id = j)) as [->|Hj].
    + rewrite lookup_alter_eq in Hc. destruct (conns s !! j) as [c0|] eqn:E; [|done]. injection Hc as <-.
      apply conn_work_ok, (Hst j c0 E).
    + rewrite lookup_alter_ne in Hc by done. apply (Hst j c Hc).
Qed.

Lemma serving_ended id s : Inv s -> Inv (with_conns (delete id (conns s)) s).
Proof.
  intros [Hm Hst]. constructor; cbn.
  - unfold mode_ok in *. cbn. destruct (mode s); try done. rewrite Hm. apply delete_empty.
  - by apply map_Forall_delete.
Qed.

Lemma serving_tick s : Inv s -> Inv (tick s).
Proof.
  intros [Hm Hst]. unfold tick. cbv zeta. cbn [mode now]. unfold mode_ok in Hm. destruct (mode s) as [|u|d|] eqn:Em.
  - apply serving_see. constructor; cbn; [done|]. intros id c Hc. apply (Hst id c Hc).
  - destruct (Z.leb_spec u (now s + 1)); constructor; cbn; try done.
    + unfold mode_ok. cbn. lia.
  - destruct (Z.leb_spec d (now s + 1)); constructor; cbn; try done.
    + unfold mode_ok. cbn. lia.
    + intros id c' Hc. rewrite lookup_fmap in Hc. destruct (conns s !! id) as [c|] eqn:E; [|done]. injection Hc as <-.
      apply (conn_tick_ok d), (Hst id c E).
  - constructor; cbn; [done|]. intros id c Hc. by rewrite Hm in Hc.
Qed.

Lemma serving_step s e : Inv s -> Inv (step s e).
Proof.
  intros HI. destruct e as [id| | | |id w|id|]; cbn [step].
  - by apply serving_accept.
  - by apply serving_accept_fails.
  - by destruct HI.
  - by apply serving_see.
  - by apply serving_doing.
  - by apply serving_joined, serving_ended.
  - by apply serving_tick.
Qed.

Lemma serving_run s l : Inv s -> Inv (run s l).
Proof. revert s. induction l as [|e l IH]; intros s HI; [done|]. by apply IH, serving_step. Qed.

Lemma serving_reachable s : reachable s -> Inv s.
Proof. intros (t & l & ->). apply serving_run. constructor; cbn; [done|apply map_Forall_empty]. Qed.

(** ** A connection during the drain *)

(** What one event does to connection [id]. *)
Definition conn_step (t : Z) (e : Event) (id : nat) (c : Conn) : Conn :=
  match e with
  | Doing j w => if bool_decide (j = id) then conn_work t w c else c
  | Tick => conn_tick (t + 1) c
  | _ => c
  end.

Lemma joined_stays s id c : conns s !! id = Some c -> joined s = s.
Proof.
  intros Hc. unfold joined. destruct (mode s); try done. rewrite bool_decide_eq_false_2; [done|].
  intros He. by rewrite He in Hc.
Qed.

Lemma draining_step s e d id c :
  mode s = Draining d -> conns s !! id = Some c -> e <> Ended id -> now s + ticks [e] < d ->
  mode (step s e) = Draining d /\ now (step s e) = now s + ticks [e] /\
  conns (step s e) !! id = Some (conn_step (now s) e id c).
Proof.
  intros Hm Hc He Ht.
  destruct e as [j| | | |j w|j|]; cbn in Ht |- *; rewrite ?Z.add_0_r;
    try (unfold accept, accept_fails, see; by rewrite Hm).
  - split_and!; [done|done|]. case_bool_decide as Hj; [subst j|].
    + by rewrite lookup_alter_eq, Hc.
    + by rewrite lookup_alter_ne.
  - assert (Hl : delete j (conns s) !! id = Some c) by (rewrite lookup_delete_ne; congruence).
    rewrite (joined_stays _ id c) by done. done.
  - unfold tick. cbv zeta. cbn [mode now]. rewrite Hm. destruct (Z.leb_spec d (now s + 1)); [lia|].
    cbn. by rewrite lookup_fmap, Hc.
Qed.

Lemma ticks_cons e l : ticks (e :: l) = ticks [e] + ticks l.
Proof. by destruct e. Qed.

Lemma ticks_nonneg l : 0 <= ticks l.
Proof. induction l as [|[] l IH]; cbn [ticks]; lia. Qed.

(** A property of the connection that its steps keep holds along the drain. *)
Lemma draining_run (P : list Event -> Z -> Conn -> Prop) s l d id c :
  (forall e l t c, P (e :: l) t c -> P l (t + ticks [e]) (conn_step t e id c)) ->
  mode s = Draining d -> conns s !! id = Some c -> Ended id ∉ l -> now s + ticks l < d -> P l (now s) c ->
  mode (run s l) = Draining d /\ exists c', conns (run s l) !! id = Some c' /\ P [] (now s + ticks l) c'.
Proof.
  intros Hstep. revert s c. induction l as [|e l IH]; intros s c Hm Hc He Ht HP.
  - split; [done|]. exists c. cbn. by rewrite Z.add_0_r.
  - rewrite ticks_cons in Ht |- *. pose proof (ticks_nonneg l) as Hl. apply not_elem_of_cons in He as [He Hel].
    destruct (draining_step s e d id c Hm Hc) as (Hm' & Hn' & Hc'); [congruence|lia|]. cbn [run fold_left].
    rewrite Z.add_assoc, <- Hn'. apply (IH _ _ Hm' Hc' Hel); [lia|]. rewrite Hn'. by apply Hstep.
Qed.

(** A head is arriving: bytes without an answer and no request in flight, not closed. *)
Definition head_arriving (c : Conn) : Prop :=
  in_flight (activity c) = 0 /\ answered_at (activity c) < read (activity c) /\
  stage c <> Serving /\ stage c <> Closing.

Lemma head_arriving_checked t c : head_arriving c -> head_arriving (check_head t c).
Proof.
  intros (Hi & Hr & _ & _). unfold head_arriving, check_head, busy, handling. cbn. rewrite Hi.
  destruct (Z.ltb_spec (answered_at (activity c)) (read (activity c))); [|lia]. done.
Qed.

(** The bytes still to come do not wrap the counter. *)
Definition no_wrap (id : nat) (l : list Event) (c : Conn) : Prop :=
  Forall (fun e => forall n, e = Doing id (Bytes n) -> 0 <= n) l /\
  0 <= read (activity c) /\ read (activity c) + received id l < 2 ^ 64.

Lemma received_nonneg id l : Forall (fun e => forall n, e = Doing id (Bytes n) -> 0 <= n) l -> 0 <= received id l.
Proof.
  induction 1 as [|e l He Hl IH]; [done|]. destruct e as [| | | |j []| |]; try done. cbn.
  case_bool_decide; [|done]. subst. specialize (He n eq_refl). lia.
Qed.

Lemma head_arriving_step id e l t c :
  head_arriving c /\ no_wrap id (e :: l) c /\ Doing id Call ∉ e :: l ->
  head_arriving (conn_step t e id c) /\ no_wrap id l (conn_step t e id c) /\ Doing id Call ∉ l.
Proof.
  intros (Hh & (Hf & H0 & Hw) & [He Hl]%not_elem_of_cons). apply Forall_cons in Hf as [Hn Hf].
  assert (Hsame : received id (e :: l) = received id l -> conn_step t e id c = c ->
    head_arriving (conn_step t e id c) /\ no_wrap id l (conn_step t e id c) /\ Doing id Call ∉ l).
  { intros Hr ->. rewrite Hr in Hw. done. }
  destruct e as [| | | |j w| |]; try by apply Hsame.
  - destruct (base.decide (j = id)) as [->|Hj]; [|apply Hsame; cbn; rewrite bool_decide_eq_false_2 by done; by destruct w].
    destruct w as [n| |]; cbn [conn_step]; rewrite bool_decide_eq_true_2 by done; [|done|].
    + pose proof (received_nonneg id l Hf) as Hr. specialize (Hn n eq_refl). cbn in Hw.
      rewrite bool_decide_eq_true_2 in Hw by done.
      assert (Hm : (read (activity c) + n) mod 2 ^ 64 = read (activity c) + n) by (apply Z.mod_small; lia).
      destruct Hh as (Hi & Ha & Hs). unfold head_arriving, no_wrap.
      cbn [conn_work activity stage poll_read read in_flight answered_at]. rewrite Hm. destruct Hs. split_and!; try done; lia.
    + cbn. unfold handling. destruct Hh as (Hi & Hh). rewrite Hi. cbn. split; [done|]. split; [|done]. by split_and!.
  - cbn. assert (Hk : head_arriving (conn_tick (t + 1) c) /\ activity (conn_tick (t + 1) c) = activity c).
    { unfold conn_tick. destruct (stage c); try done; destruct (_ <=? _); try done;
        (split; [by apply head_arriving_checked|done]). }
    destruct Hk as [Hk Ha]. unfold no_wrap. rewrite Ha. done.
Qed.

(** An idle connection in the window, due at [due] at the latest. *)
Definition idle_until (due : Z) (id : nat) (l : list Event) (t : Z) (c : Conn) : Prop :=
  busy (activity c) = false /\ (forall w, Doing id w ∉ l) /\
  (stage c = Closing \/ exists u, stage c = Window u /\ t < u <= due).

Lemma idle_step due id e l t c :
  idle_until due id (e :: l) t c -> idle_until due id l (t + ticks [e]) (conn_step t e id c).
Proof.
  intros (Hb & Hl & Hs).
  assert (Hl' : forall w, Doing id w ∉ l) by (intros w Hw; apply (Hl w); by right).
  destruct e as [| | | |j w| |]; cbn; rewrite ?Z.add_0_r; try done.
  - case_bool_decide as Hj; [|done]. subst j. destruct (Hl w). by left.
  - unfold conn_tick. destruct Hs as [Hs|(u & Hs & Hu)]; rewrite Hs; [by split_and!; [| |left]|].
    destruct (Z.leb_spec u (t + 1)).
    + unfold idle_until, check_head. cbn. rewrite Hb. split_and!; [done|done|by left].
    + split_and!; [done|done|right]. exists u. split; [done|lia].
Qed.

(** A task calls [graceful_shutdown] only on an idle connection or with a request in flight. *)
Lemma closes_safely t e id c :
  stage c <> Closing -> stage (conn_step t e id c) = Closing ->
  busy (activity (conn_step t e id c)) = false \/ handling (activity (conn_step t e id c)) = true.
Proof.
  assert (Hcheck : forall t c, stage (check_head t c) = Closing ->
    busy (activity (check_head t c)) = false \/ handling (activity (check_head t c)) = true).
  { intros t' c'. unfold check_head. cbn. destruct (busy _), (handling _); cbn; intros; tauto || done. }
  intros Hn. destruct e as [| | | |j w| |]; cbn [conn_step]; try done.
  - case_bool_decide; [|done]. destruct w; cbn; try done; [|by destruct (handling _)].
    destruct (stage c) eqn:E; cbn; rewrite ?E; try done.
    apply (Hcheck t {| activity := call (activity c); stage := stage c |}).
  - unfold conn_tick. destruct (stage c) eqn:E; rewrite ?E; try done;
      (destruct (_ <=? _); [apply Hcheck|by rewrite E]).
Qed.

Lemma step_closes s d e id c c' :
  mode s = Draining d -> now s < d -> conns s !! id = Some c -> stage c <> Closing ->
  conns (step s e) !! id = Some c' -> stage c' = Closing ->
  busy (activity c') = false \/ handling (activity c') = true.
Proof.
  intros Hm Hd Hc Hn Hc' Hcl. destruct (base.decide (e = Ended id)) as [->|He].
  { cbn in Hc'. unfold joined in Hc'. cbn in Hc'. rewrite Hm in Hc'.
    case_bool_decide; cbn in Hc'; by rewrite lookup_delete_eq in Hc'. }
  destruct (Z.ltb_spec (now s + ticks [e]) d) as [Ht|Ht].
  - destruct (draining_step s e d id c Hm Hc He Ht) as (_ & _ & Hs). rewrite Hs in Hc'. injection Hc' as <-.
    by apply closes_safely.
  - destruct e; cbn in Ht; try lia. cbn in Hc'. unfold tick in Hc'. cbv zeta in Hc'. cbn [mode now] in Hc'.
    rewrite Hm in Hc'. destruct (Z.leb_spec d (now s + 1)); [done|lia].
Qed.

(** The start of the drain, for a connection. *)
Lemma see_drains s id c :
  Inv s -> mode s = Accepting -> asked s = true -> conns s !! id = Some c ->
  mode (see s) = Draining (now s + SHUTDOWN_GRACE) /\ now (see s) = now s /\
  conns (see s) !! id = Some {| activity := activity c; stage := Window (now s + ARRIVED_BYTES_WINDOW) |}.
Proof.
  intros [_ Hst] Hm Ha Hc. specialize (Hst id c Hc). cbn in Hst. rewrite Hm in Hst.
  unfold see, stop. rewrite Hm, Ha.
  assert (Hl : (conn_stop (now s) <$> conns s) !! id = Some {| activity := activity c; stage := Window (now s + ARRIVED_BYTES_WINDOW) |}).
  { rewrite lookup_fmap, Hc. cbn. unfold conn_stop. by destruct (stage c). }
  erewrite joined_stays by exact Hl. done.
Qed.

(** C24: shutdown is graceful. From the moment the accept loop sees it, no connection is taken
    away for the grace period. One on which part of a request head has arrived is not closed
    before the request is dispatched; any connection is told to close only while idle or
    with a request in flight, which hyper then answers first; and an idle one is told
    within fifty milliseconds. *)
Theorem shutdown_is_graceful (s : Server) (id : nat) (c : Conn) (l : list Event) :
  reachable s -> mode s = Accepting -> asked s = true -> conns s !! id = Some c ->
  Ended id ∉ l -> ticks l < SHUTDOWN_GRACE ->
  exists c', conns (run (see s) l) !! id = Some c' /\
    (in_flight (activity c) = 0 -> answered_at (activity c) < read (activity c) -> no_wrap id l c ->
      Doing id Call ∉ l -> stage c' <> Closing) /\
    (forall e c'', stage c' <> Closing -> conns (step (run (see s) l) e) !! id = Some c'' -> stage c'' = Closing ->
      busy (activity c'') = false \/ handling (activity c'') = true) /\
    (busy (activity c) = false -> (forall w, Doing id w ∉ l) -> ARRIVED_BYTES_WINDOW <= ticks l -> stage c' = Closing).
Proof.
  intros HI%serving_reachable Hm Ha Hc He Ht. destruct (see_drains s id c HI Hm Ha Hc) as (Hm' & Hn' & Hc').
  assert (Ht' : now (see s) + ticks l < now s + SHUTDOWN_GRACE) by lia.
  destruct (draining_run (fun _ _ _ => True) _ l _ id _ (fun _ _ _ _ _ => I) Hm' Hc' He Ht' I) as (Hmr & c' & Hcr & _).
  exists c'. split_and!; [done| | |].
  - intros Hi Hr Hw Hcall.
    destruct (draining_run (fun l _ c => head_arriving c /\ no_wrap id l c /\ Doing id Call ∉ l) (see s) l _ id _
      (fun e l t c => head_arriving_step id e l t c) Hm' Hc' He Ht') as (_ & c2 & Hc2 & (_ & _ & _ & Hcl) & _).
    + done.
    + by simplify_eq.
  - intros e c'' Hn Hs Hcl. assert (Hd := serving_run _ l (serving_see s HI)). destruct Hd as [Hd _].
    unfold mode_ok in Hd. rewrite Hmr in Hd. eapply step_closes; eauto; apply Hd.
  - intros Hb Hw Hdue.
    destruct (draining_run (idle_until (now s + ARRIVED_BYTES_WINDOW) id) (see s) l _ id _
      (idle_step (now s + ARRIVED_BYTES_WINDOW) id) Hm' Hc' He Ht') as (_ & c2 & Hc2 & _ & _ & Hst).
    + split_and!; [done|done|]. right. eexists. split; [done|]. rewrite Hn'. unfold ARRIVED_BYTES_WINDOW. lia.
    + simplify_eq. destruct Hst as [|(u & _ & Hu)]; [done|lia].
Qed.

(** ** The end *)

(** How many milliseconds are left at most, once shutdown was asked for. *)
Definition left_over (s : Server) : Z :=
  match mode s with
  | Accepting => SHUTDOWN_GRACE + 1
  | Pausing u => u - now s + SHUTDOWN_GRACE + 1
  | Draining d => d - now s
  | Stopped => 0
  end.

Lemma left_over_joined s : Inv s -> left_over (joined s) <= left_over s.
Proof.
  intros [Hm _]. unfold joined, mode_ok, left_over in *. destruct (mode s) eqn:E; rewrite ?E; try lia.
  case_bool_decide; cbn; rewrite ?E; lia.
Qed.

Lemma left_over_see s :
  Inv s -> asked s = true -> left_over (see s) <= match mode s with Accepting => SHUTDOWN_GRACE | _ => left_over s end.
Proof.
  intros HI Ha. unfold see. destruct (mode s) eqn:E; [|unfold left_over; rewrite E; lia..]. rewrite Ha. unfold stop.
  unfold joined. cbn. case_bool_decide; unfold left_over, SHUTDOWN_GRACE; cbn; lia.
Qed.

Lemma asked_stays s e : asked s = true -> asked (step s e) = true.
Proof.
  intros Ha. destruct e; cbn; try done; unfold accept, accept_fails, joined, tick, see, stop, joined; cbn;
    repeat case_match; cbn; done.
Qed.

Lemma left_over_step s e :
  Inv s -> asked s = true -> e <> AcceptFails -> left_over (step s e) <= Z.max 0 (left_over s - ticks [e]).
Proof.
  intros HI Ha He. assert (H0 : 0 <= left_over s).
  { destruct HI as [Hm _]. unfold mode_ok, left_over, SHUTDOWN_GRACE in *. destruct (mode s); lia. }
  destruct e as [id| | | |id w|id|]; cbn [step ticks]; rewrite ?Z.sub_0_r, ?Z.max_r by done; try done.
  - unfold accept. destruct (mode s) eqn:E; try done. destruct (conns s !! id); [done|]. unfold left_over. cbn. by rewrite E.
  - pose proof (left_over_see s HI Ha) as Hs. unfold left_over in *. destruct (mode s); lia.
  - etrans; [by apply left_over_joined, serving_ended|done].
  - destruct HI as [Hm Hst]. unfold mode_ok in Hm. unfold tick. cbv zeta. cbn [mode now].
    destruct (mode s) as [|u|d|] eqn:E.
    + etrans; [apply left_over_see; [|done]|cbn; rewrite ?E; unfold left_over; rewrite E; lia].
      constructor; cbn; [by unfold mode_ok; cbn; rewrite ?E|]. intros id c Hc. specialize (Hst id c Hc). by rewrite ?E.
    + unfold left_over. rewrite E. destruct (Z.leb_spec u (now s + 1)); cbn; lia.
    + unfold left_over. rewrite E. destruct (Z.leb_spec d (now s + 1)); cbn; lia.
    + unfold left_over. cbn. lia.
Qed.

Lemma left_over_run s l :
  Inv s -> asked s = true -> AcceptFails ∉ l -> left_over (run s l) <= Z.max 0 (left_over s - ticks l).
Proof.
  revert s. induction l as [|e l IH]; intros s HI Ha Hl; [cbn; lia|]. rewrite ticks_cons. cbn [run fold_left].
  apply not_elem_of_cons in Hl as [He Hl].
  pose proof (left_over_step s e HI Ha (not_eq_sym He)) as Hs.
  pose proof (IH _ (serving_step s e HI) (asked_stays s e Ha) Hl) as Hr. unfold run in Hr. pose proof (ticks_nonneg l). lia.
Qed.

Lemma drain_ends s l :
  Inv s -> asked s = true -> AcceptFails ∉ l -> ACCEPT_ERROR_PAUSE + SHUTDOWN_GRACE + 1 <= ticks l ->
  mode (run s l) = Stopped /\ conns (run s l) = ∅.
Proof.
  intros HI Ha Hl Ht. pose proof (left_over_run s l HI Ha Hl) as Hr.
  pose proof (serving_run s l HI) as [Hm' _]. destruct HI as [Hm _].
  assert (Hz : left_over (run s l) <= 0).
  { etrans; [exact Hr|]. unfold left_over, mode_ok, ACCEPT_ERROR_PAUSE, SHUTDOWN_GRACE in *. destruct (mode s); lia. }
  unfold left_over, mode_ok, SHUTDOWN_GRACE in *. destruct (mode (run s l)); [lia|lia|lia|done].
Qed.

(** Shutdown ends. Once it was asked for, and wherever the accept loop is, 8.1 seconds
    and a millisecond later the server has stopped and no connection is open, whatever
    clients do, unless accepting keeps failing. *)
Theorem shutdown_ends (s : Server) (l : list Event) :
  reachable s -> asked s = true -> AcceptFails ∉ l ->
  ACCEPT_ERROR_PAUSE + SHUTDOWN_GRACE + 1 <= ticks l ->
  mode (run s l) = Stopped /\ conns (run s l) = ∅.
Proof. intros HI%serving_reachable. by apply drain_ends. Qed.

(** ** On a concrete run *)

(** Two connections when shutdown is asked for: one has sent half a head, one is idle after
    an answer. *)
Definition two_clients : list Event :=
  [Accept 1; Accept 2; Doing 2 (Bytes 120); Doing 2 Call; Tick; Doing 2 Answer; Doing 1 (Bytes 40); Shutdown]%nat.

Definition asked_to_stop : Server := run (server_new 0) two_clients.

Definition wait (ms : nat) : list Event := replicate ms Tick.

Lemma ticks_wait ms : ticks (wait ms) = Z.of_nat ms.
Proof. induction ms as [|ms IH]; [done|]. cbn [wait replicate ticks]. unfold wait in IH. rewrite IH. lia. Qed.

Lemma not_in_wait e ms : e <> Tick -> e ∉ wait ms.
Proof. intros He [-> _]%elem_of_replicate. done. Qed.

(** The half head is still waited for after a second; the idle connection is closing. *)
Example one_second_later :
  option_map stage (conns (run (see asked_to_stop) (wait 1000)) !! 1%nat) = Some (Head 1051) /\
  option_map stage (conns (run (see asked_to_stop) (wait 1000)) !! 2%nat) = Some Closing.
Proof. split; vm_compute; reflexivity. Qed.

Lemma shutdown_is_graceful_witness :
  exists c', conns (run (see asked_to_stop) (wait 1000)) !! 1%nat = Some c' /\ stage c' <> Closing.
Proof.
  destruct (shutdown_is_graceful asked_to_stop 1%nat
    {| activity := {| read := 40; in_flight := 0; answered_at := 0 |}; stage := Serving |} (wait 1000)) as (c' & Hc & Hh & _).
  - exists 0, two_clients. reflexivity.
  - reflexivity.
  - reflexivity.
  - vm_compute. reflexivity.
  - by apply not_in_wait.
  - rewrite ticks_wait. reflexivity.
  - exists c'. split; [exact Hc|]. apply Hh; [reflexivity|reflexivity| |by apply not_in_wait].
    split; [|split; [discriminate|vm_compute; reflexivity]].
    apply Forall_forall. intros e [-> _]%elem_of_replicate n Hn. discriminate Hn.
Defined.

Lemma shutdown_ends_witness :
  mode (run asked_to_stop (wait (Z.to_nat 8101))) = Stopped /\ conns (run asked_to_stop (wait (Z.to_nat 8101))) = ∅.
Proof.
  apply shutdown_ends.
  - exists 0, two_clients. reflexivity.
  - reflexivity.
  - by apply not_in_wait.
  - rewrite ticks_wait. vm_compute. discriminate.
Defined.
