(* ===== verification/Lifecycle.v ===== *)
(** * The life of a server process (src/src/serve.rs, src/src/cli.rs)

    [serve] from listening to its end: the HTTP server of [Connections], the three background
    tasks, the transactions they and the requests have on blocking threads, and the
    instance lock. A transaction that has started runs to its end even when the future that
    waits for it is dropped. *)

From stdpp Require Import gmap.
From S2P Require Import Prelude Connections.

(** ** Data *)

Inductive Task := OutboxWorker | JobLoop | HostWatcher.

(** A task awaits a transaction outside every select, or is where it would see stop, or has
    ended. *)
Inductive TaskPhase := Between | AtSelect | TaskEnded.

(** Who started a transaction. *)
Inductive Owner := OfRequest (connection : nat) | OfTask (t : Task).

#[global] Instance Task_eq_dec : EqDecision Task.
Proof. solve_decision. Defined.
#[global] Instance Owner_eq_dec : EqDecision Owner.
Proof. solve_decision. Defined.

(** Where [serve] is: in [server::run], at one of the joins, past [drop(lock)], or the process
    has exited. *)
Inductive Main := Serves | JoinsWorker | JoinsJobs | JoinsWatcher | Unlocked | Exited.

Record Process := {
  http : Server;
  signals : bool;                  (** whether the signal handlers could be installed *)
  stop_sent : bool;
  worker : TaskPhase;
  jobs : TaskPhase;
  watcher : TaskPhase;
  transactions : list Owner;
  main_at : Main;
  locked : bool }.

Definition phase_of (t : Task) (p : Process) : TaskPhase :=
  match t with OutboxWorker => worker p | JobLoop => jobs p | HostWatcher => watcher p end.

Definition set_phase (t : Task) (ph : TaskPhase) (p : Process) : Process :=
  {| http := http p; signals := signals p; stop_sent := stop_sent p;
     worker := match t with OutboxWorker => ph | _ => worker p end;
     jobs := match t with JobLoop => ph | _ => jobs p end;
     watcher := match t with HostWatcher => ph | _ => watcher p end;
     transactions := transactions p; main_at := main_at p; locked := locked p |}.

Definition with_transactions (l : list Owner) (p : Process) : Process :=
  {| http := http p; signals := signals p; stop_sent := stop_sent p; worker := worker p; jobs := jobs p;
     watcher := watcher p; transactions := l; main_at := main_at p; locked := locked p |}.

(** ** Steps *)

Inductive Happens :=
| Http (e : Event)
| Signal
| Begins (o : Owner)
| BeginsBetween (t : Task)
| Ends (o : Owner)
| SeesStop (t : Task)
| Panics (t : Task)
| MainMoves.

(** Whether the shutdown future of [serve] has completed: the accept loop saw it, and with it
    stop was sent to the tasks. *)
Definition shut_down (s : Server) : bool :=
  match mode s with Draining _ | Stopped => true | _ => false end.

Definition with_http (s : Server) (p : Process) : Process :=
  {| http := s; signals := signals p; stop_sent := stop_sent p || shut_down s; worker := worker p; jobs := jobs p;
     watcher := watcher p; transactions := transactions p; main_at := main_at p; locked := locked p |}.

(** A request of an open connection, or a task at its select, may start a transaction. *)
Definition may_begin (o : Owner) (p : Process) : bool :=
  match o with
  | OfRequest c => bool_decide (is_Some (conns (http p) !! c))
  | OfTask t => match phase_of t p with AtSelect => true | _ => false end
  end.

(** The transaction's thread ends; a task that awaited it goes on to its select. *)
Definition ends (o : Owner) (p : Process) : Process :=
  match list_find (eq o) (transactions p) with
  | None => p
  | Some (i, _) =>
      let p := with_transactions (delete i (transactions p)) p in
      match o with
      | OfTask t => match phase_of t p with Between => set_phase t AtSelect p | _ => p end
      | OfRequest _ => p
      end
  end.

Definition go (m : Main) (lock : bool) (p : Process) : Process :=
  {| http := http p; signals := signals p; stop_sent := stop_sent p; worker := worker p; jobs := jobs p;
     watcher := watcher p; transactions := transactions p; main_at := m; locked := lock |}.

(** The awaits at the end of [serve], in their order; the runtime then waits for the blocking
    threads. *)
Definition main_moves (p : Process) : Process :=
  match main_at p with
  | Serves => match mode (http p) with Stopped => go JoinsWorker (locked p) p | _ => p end
  | JoinsWorker => match worker p with TaskEnded => go JoinsJobs (locked p) p | _ => p end
  | JoinsJobs => match jobs p with TaskEnded => go JoinsWatcher (locked p) p | _ => p end
  | JoinsWatcher => match watcher p with TaskEnded => go Unlocked false p | _ => p end
  | Unlocked => match transactions p with [] => go Exited (locked p) p | _ => p end
  | Exited => p
  end.

(** [termination] completes on a signal, if the handlers could be installed; else never. *)
Definition termination (p : Process) : Process :=
  if signals p then with_http (step (http p) Shutdown) p else p.

Definition happens (p : Process) (h : Happens) : Process :=
  match h with
  | Http Shutdown => p
  | Http e => with_http (step (http p) e) p
  | Signal => termination p
  | Begins o => if may_begin o p then with_transactions (transactions p ++ [o]) p else p
  | BeginsBetween t =>
      if may_begin (OfTask t) p
      then set_phase t Between (with_transactions (transactions p ++ [OfTask t]) p) else p
  | Ends o => ends o p
  | SeesStop t =>
      match phase_of t p with AtSelect => if stop_sent p then set_phase t TaskEnded p else p | _ => p end
  | Panics t => set_phase t TaskEnded p
  | MainMoves => main_moves p
  end.

Definition lives (p : Process) (l : list Happens) : Process := fold_left happens l p.

(** Listening, with the lock held and the worker's first pick under way. *)
Definition listening (t : Z) (signals : bool) : Process :=
  {| http := server_new t; signals := signals; stop_sent := false; worker := Between; jobs := AtSelect;
     watcher := AtSelect; transactions := [OfTask OutboxWorker]; main_at := Serves; locked := true |}.

(** ** The invariant *)

(** How far [serve] is. *)
Definition rank (m : Main) : Z :=
  match m with Serves => 0 | JoinsWorker => 1 | JoinsJobs => 2 | JoinsWatcher => 3 | Unlocked => 4 | Exited => 5 end.

(** The join that waits for a task has this rank. *)
Definition join_rank (t : Task) : Z := match t with OutboxWorker => 1 | JobLoop => 2 | HostWatcher => 3 end.

Record LifeInv (p : Process) : Prop := {
  life_http : Connections.Inv (http p);
  life_stop : shut_down (http p) = true -> stop_sent p = true;
  life_stopped : 0 < rank (main_at p) -> mode (http p) = Stopped;
  life_joined : forall t, join_rank t < rank (main_at p) -> phase_of t p = TaskEnded;
  life_locked : locked p = (rank (main_at p) <? 4);
  life_exited : main_at p = Exited -> transactions p = [];
  life_between : forall t, phase_of t p = Between -> OfTask t ∈ transactions p }.

Lemma stopped_stays s e : Connections.Inv s -> mode s = Stopped -> mode (step s e) = Stopped.
Proof.
  intros HI Hm. destruct e; cbn; unfold accept, accept_fails, see, joined, tick; cbn; rewrite ?Hm; done.
Qed.

Lemma phase_set t t' ph p : phase_of t (set_phase t' ph p) = if bool_decide (t = t') then ph else phase_of t p.
Proof. by destruct t, t'. Qed.

Lemma life_with_http e p : LifeInv p -> LifeInv (with_http (step (http p) e) p).
Proof.
  intros [Hh Hs Hst Hj Hl He Hb]. split; try done.
  - by apply serving_step.
  - cbn. intros ->. by rewrite orb_true_r.
  - cbn. intros Hr. apply stopped_stays; [done|by apply Hst].
Qed.

(** No task and no request runs past its join, so none begins a transaction there. *)
Lemma no_begin o p : LifeInv p -> 4 <= rank (main_at p) -> may_begin o p = false.
Proof.
  intros [Hh _ Hst Hj _ _ _] Hr. destruct o as [c|t]; cbn.
  - destruct Hh as [Hm _]. unfold mode_ok in Hm. rewrite Hst in Hm by lia. rewrite Hm. done.
  - rewrite (Hj t) by (destruct t; cbn; lia). done.
Qed.

Lemma life_begins o p : LifeInv p -> may_begin o p = true -> LifeInv (with_transactions (transactions p ++ [o]) p).
Proof.
  intros HI Hb. assert (Hr : rank (main_at p) < 4).
  { destruct (Z.lt_ge_cases (rank (main_at p)) 4); [done|]. by rewrite no_begin in Hb. }
  destruct HI as [Hh Hs Hst Hj Hl He Hbt]. split; try done.
  - cbn. intros Hm. rewrite Hm in Hr. cbn in Hr. lia.
  - cbn. intros t Ht. apply elem_of_app. left. by apply Hbt.
Qed.

Lemma life_phase t ph p :
  LifeInv p -> (ph = Between -> OfTask t ∈ transactions p) -> (join_rank t < rank (main_at p) -> ph = TaskEnded) ->
  LifeInv (set_phase t ph p).
Proof.
  intros [Hh Hs Hst Hj Hl He Hb] Hp Hr. split; try done.
  - intros t' Ht. rewrite phase_set. case_bool_decide as Heq; [subst t'; by apply Hr|by apply Hj].
  - intros t'. rewrite phase_set. case_bool_decide as Heq; [subst t'; apply Hp|apply Hb].
Qed.

Lemma life_ends o p : LifeInv p -> LifeInv (ends o p).
Proof.
  intros HI. unfold ends. destruct (list_find (eq o) (transactions p)) as [[i o']|] eqn:Ef; [|done].
  apply list_find_Some in Ef as (Hi & <- & _). cbv zeta.
  assert (Hdel : forall x, x <> o -> x ∈ transactions p -> x ∈ delete i (transactions p)).
  { intros x Hx Hin. apply list_elem_of_lookup in Hin as [k Hk].
    rewrite (delete_take_drop (transactions p) i). rewrite <- (take_drop_middle _ _ _ Hi), lookup_app in Hk.
    apply elem_of_app. destruct (take i (transactions p) !! k) as [y|] eqn:Ek.
    - left. injection Hk as <-. by eapply list_elem_of_lookup_2.
    - right. destruct (k - length (take i (transactions p)))%nat; cbn in Hk; [congruence|].
      by eapply list_elem_of_lookup_2. }
  assert (Hq : transactions p <> []) by (intros Hn; by rewrite Hn in Hi).
  destruct HI as [Hh Hs Hst Hj Hl He Hb].
  assert (Hbase : (forall t, o = OfTask t -> phase_of t p <> Between) ->
    LifeInv (with_transactions (delete i (transactions p)) p)).
  { intros Hno. split; try done; cbn; [intros Hm; by rewrite He in Hq|].
    intros t Ht. apply Hdel; [|by apply Hb]. intros <-. by apply (Hno t). }
  destruct o as [c|t]; [by apply Hbase|]. cbn [phase_of with_transactions].
  destruct (phase_of t p) eqn:Et.
  - replace (phase_of t (with_transactions (delete i (transactions p)) p)) with Between by (by destruct t).
    split; try done; cbn.
    + intros t' Ht. rewrite phase_set. case_bool_decide as Heq; [subst t'|by apply Hj]. specialize (Hj t Ht). congruence.
    + intros Hm. by rewrite He in Hq.
    + intros t'. rewrite phase_set. case_bool_decide as Heq; [done|]. intros Ht. apply Hdel; [congruence|by apply Hb].
  - replace (phase_of t (with_transactions (delete i (transactions p)) p)) with AtSelect by (by destruct t).
    apply Hbase. intros t' [= <-]. by rewrite Et.
  - replace (phase_of t (with_transactions (delete i (transactions p)) p)) with TaskEnded by (by destruct t).
    apply Hbase. intros t' [= <-]. by rewrite Et.
Qed.

Lemma life_go m lock p :
  LifeInv p -> mode (http p) = Stopped -> (forall t, join_rank t < rank m -> phase_of t p = TaskEnded) ->
  lock = (rank m <? 4) -> (m = Exited -> transactions p = []) -> LifeInv (go m lock p).
Proof. by intros [Hh Hs Hst Hj Hl He Hb] Hm Ht Hk Hx; split. Qed.

Lemma life_main p : LifeInv p -> LifeInv (main_moves p).
Proof.
  intros HI. pose proof (life_joined p HI) as Hj. pose proof (life_stopped p HI) as Hst.
  pose proof (life_locked p HI) as Hl. unfold main_moves.
  destruct (main_at p) eqn:Em; cbn in Hj, Hst, Hl.
  - destruct (mode (http p)) eqn:E; try done. apply life_go; try done. intros [] Ht; cbn in Ht; lia.
  - destruct (worker p) eqn:E; try done. apply life_go; try done; try (by apply Hst). intros [] Ht; cbn in Ht |- *; [done|lia..].
  - destruct (jobs p) eqn:E; try done. apply life_go; try done; try (by apply Hst).
    intros [] Ht; cbn in Ht |- *; [by apply (Hj OutboxWorker)|done|lia].
  - destruct (watcher p) eqn:E; try done. apply life_go; try done; try (by apply Hst).
    intros [] Ht; cbn; [by apply (Hj OutboxWorker)|by apply (Hj JobLoop)|done].
  - destruct (transactions p) eqn:E; try done. apply life_go; try done; try (by apply Hst).
    intros t _. apply Hj. destruct t; cbn; lia.
  - done.
Qed.

Lemma life_happens p h : LifeInv p -> LifeInv (happens p h).
Proof.
  intros HI. destruct h as [e| |o|t|o|t|t|]; cbn [happens]; unfold termination.
  - destruct e; try (by apply life_with_http). done.
  - destruct (signals p); [by apply life_with_http|done].
  - destruct (may_begin o p) eqn:E; [by apply life_begins|done].
  - destruct (may_begin (OfTask t) p) eqn:E; [|done]. apply life_phase; [by apply life_begins| |].
    + intros _. cbn. apply elem_of_app. right. by left.
    + cbn. intros Hr. cbn in E. by rewrite (life_joined p HI t Hr) in E.
  - by apply life_ends.
  - destruct (phase_of t p); try done. destruct (stop_sent p); [by apply life_phase|done].
  - by apply life_phase.
  - by apply life_main.
Qed.

Lemma life_lives p l : LifeInv p -> LifeInv (lives p l).
Proof. revert p. induction l as [|h l IH]; intros p HI; [done|]. by apply IH, life_happens. Qed.

Lemma life_listening t sig : LifeInv (listening t sig).
Proof.
  split; try done.
  - intros []; cbn; lia.
  - intros [] Ht; try done. by left.
Qed.

(** ** The lock outlives the tasks *)

Lemma ends_sublist o p : transactions (ends o p) `sublist_of` transactions p.
Proof.
  unfold ends. destruct (list_find (eq o) (transactions p)) as [[i o']|]; [|done]. cbv zeta.
  destruct o as [c|t]; [apply sublist_delete|]. destruct (phase_of t _); apply sublist_delete.
Qed.

Lemma main_moves_on p : rank (main_at p) <= rank (main_at (main_moves p)) /\ transactions (main_moves p) = transactions p.
Proof.
  unfold main_moves. destruct (main_at p) eqn:E; try (rewrite ?E; done).
  - destruct (mode (http p)); cbn; rewrite ?E; done.
  - destruct (worker p); cbn; rewrite ?E; done.
  - destruct (jobs p); cbn; rewrite ?E; done.
  - destruct (watcher p); cbn; rewrite ?E; done.
  - destruct (transactions p) eqn:Et; cbn; rewrite ?E, ?Et; done.
Qed.

Lemma unlocked_happens p h :
  LifeInv p -> 4 <= rank (main_at p) ->
  4 <= rank (main_at (happens p h)) /\ transactions (happens p h) `sublist_of` transactions p.
Proof.
  intros HI Hr. destruct h as [e| |o|t|o|t|t|]; cbn [happens]; unfold termination.
  - by destruct e.
  - by destruct (signals p).
  - by rewrite no_begin.
  - by rewrite no_begin.
  - split; [|apply ends_sublist]. unfold ends. destruct (list_find _ _) as [[]|]; [|done].
    destruct o as [c|t]; [done|]. cbv zeta. by destruct (phase_of t _).
  - destruct (phase_of t p); [done| |done]. by destruct (stop_sent p).
  - done.
  - destruct (main_moves_on p) as [Hm ->]. split; [lia|done].
Qed.

Lemma unlocked_lives p l :
  LifeInv p -> 4 <= rank (main_at p) ->
  4 <= rank (main_at (lives p l)) /\ transactions (lives p l) `sublist_of` transactions p.
Proof.
  revert p. induction l as [|h l IH]; intros p HI Hr; [done|].
  destruct (unlocked_happens p h HI Hr) as [Hr' Hs]. destruct (IH _ (life_happens p h HI) Hr') as [Hr'' Hs'].
  split; [done|]. by etrans.
Qed.

(** C26: When the instance lock has been given up, the server has stopped with no connection
    left and the three background tasks have ended; from there, whatever happens, the lock is
    not taken again and no transaction begins: the transactions are among those that were
    running. A process that has exited has none. *)
Theorem lock_outlives_every_task (t : Z) (sig : bool) (l : list Happens) :
  let p := lives (listening t sig) l in
  (locked p = false ->
    mode (http p) = Stopped /\ conns (http p) = ∅ /\ (forall task, phase_of task p = TaskEnded) /\
    forall l', locked (lives p l') = false /\ transactions (lives p l') `sublist_of` transactions p) /\
  (main_at p = Exited -> locked p = false /\ transactions p = []).
Proof.
  intros p. assert (HI : LifeInv p) by apply life_lives, life_listening. split.
  - intros Hl. rewrite (life_locked p HI) in Hl. apply Z.ltb_ge in Hl.
    assert (Hm : mode (http p) = Stopped) by (apply life_stopped; [done|lia]).
    split_and!; [done| | |].
    + destruct (life_http p HI) as [Hmo _]. unfold mode_ok in Hmo. by rewrite Hm in Hmo.
    + intros task. apply life_joined; [done|]. destruct task; cbn; lia.
    + intros l'. destruct (unlocked_lives p l' HI Hl) as [Hr Hs]. split; [|done].
      rewrite life_locked by (by apply life_lives). by apply Z.ltb_ge.
  - intros He. rewrite (life_locked p HI), He. split; [done|by apply life_exited].
Qed.

(** ** The process exits *)

(** What the server sees of a step. *)
Definition seen (sig : bool) (h : Happens) : option Event :=
  match h with
  | Http Shutdown => None
  | Http e => Some e
  | Signal => if sig then Some Shutdown else None
  | _ => None
  end.

Lemma ends_frame o p : signals (ends o p) = signals p /\ http (ends o p) = http p /\ stop_sent (ends o p) = stop_sent p.
Proof.
  unfold ends. destruct (list_find _ _) as [[]|]; [|done]. destruct o as [c|t]; [done|]. cbv zeta.
  by destruct (phase_of t _).
Qed.

Lemma main_frame p : signals (main_moves p) = signals p /\ http (main_moves p) = http p.
Proof.
  unfold main_moves. destruct (main_at p), (mode (http p)), (worker p), (jobs p), (watcher p), (transactions p); done.
Qed.

Lemma http_happens p h :
  signals (happens p h) = signals p /\
  http (happens p h) = match seen (signals p) h with Some e => step (http p) e | None => http p end.
Proof.
  destruct h as [e| |o|t|o|t|t|]; cbn [happens seen]; unfold termination; try done.
  - by destruct e.
  - by destruct (signals p) eqn:E; cbn; rewrite ?E.
  - by destruct (may_begin o p).
  - by destruct (may_begin (OfTask t) p).
  - by destruct (ends_frame o p) as (? & ? & _).
  - destruct (phase_of t p); [done| |done]. by destruct (stop_sent p).
  - apply main_frame.
Qed.

Lemma lives_cons p h l : lives p (h :: l) = lives (happens p h) l.
Proof. done. Qed.

(** The server of a process runs on its own events. *)
Lemma http_lives p l :
  signals (lives p l) = signals p /\ http (lives p l) = run (http p) (omap (seen (signals p)) l).
Proof.
  revert p. induction l as [|h l IH]; intros p; [done|].
  destruct (IH (happens p h)) as [Hs Hh], (http_happens p h) as [Hs' Hh']. rewrite lives_cons, Hs, Hh, Hs', Hh'. split; [done|].
  cbn. by destruct (seen (signals p) h).
Qed.

Lemma lives_app p l l' : lives p (l ++ l') = lives (lives p l) l'.
Proof. apply fold_left_app. Qed.

(** Every running transaction ends. *)
Lemma all_end p : transactions (lives p (map Ends (transactions p))) = [].
Proof.
  remember (transactions p) as l eqn:El. revert p El. induction l as [|o l IH]; intros p El; [by cbn|].
  cbn [map lives fold_left happens]. apply (IH (ends o p)). unfold ends. rewrite <- El. cbn.
  rewrite decide_True by done. cbn. destruct o as [c|t]; [done|]. by destruct (phase_of t _).
Qed.

Lemma stop_sent_ends p l : stop_sent (lives p (map Ends l)) = stop_sent p /\ http (lives p (map Ends l)) = http p.
Proof.
  revert p. induction l as [|o l IH]; intros p; [done|]. cbn [map]. rewrite lives_cons.
  cbn [happens]. destruct (IH (ends o p)) as [-> ->]. by destruct (ends_frame o p) as (_ & ? & ?).
Qed.

Definition tasks : list Task := [OutboxWorker; JobLoop; HostWatcher].

(** The transactions end, the tasks see stop and [serve] goes on. *)
Definition finish (p : Process) : list Happens :=
  map Ends (transactions p) ++ map SeesStop tasks ++ replicate 5 MainMoves.

Lemma stopped_exits p :
  LifeInv p -> stop_sent p = true -> mode (http p) = Stopped -> transactions p = [] ->
  main_at (lives p (map SeesStop tasks ++ replicate 5 MainMoves)) = Exited.
Proof.
  intros HI Hs Hm Ht.
  assert (Hph : forall t, phase_of t p = AtSelect \/ phase_of t p = TaskEnded).
  { intros t. destruct (phase_of t p) eqn:E; [|by left|by right].
    apply (life_between p HI) in E. rewrite Ht in E. by apply elem_of_nil in E. }
  pose proof (life_joined p HI) as Hj.
  destruct p as [s sg ss w j h tx m lk]. cbn in *. subst ss tx.
  destruct (Hph OutboxWorker) as [E1|E1], (Hph JobLoop) as [E2|E2], (Hph HostWatcher) as [E3|E3]; cbn in E1, E2, E3;
    subst w j h; destruct m; cbn; rewrite ?Hm; cbn; rewrite ?Hm; done.
Qed.


(** ** On a concrete run *)

(** A retention transaction is running when the signal comes; [jobs::run] drops the future
    that waits for it. *)
Definition to_the_unlock : list Happens :=
  [Http (Accept 1); Begins (OfRequest 1); Ends (OfRequest 1); Http (Ended 1); Begins (OfTask JobLoop); Signal; Http See;
   Ends (OfTask OutboxWorker)] ++ map SeesStop tasks ++ replicate 4 MainMoves.

(** A transaction that was running when its task saw stop is still running after
    [drop(lock)]: the lock is free while the process has a connection to the database. *)
Example a_transaction_may_outlive_the_lock :
  let p := lives (listening 0 true) to_the_unlock in
  locked p = false /\ transactions p = [OfTask JobLoop] /\ main_at (happens p MainMoves) = Unlocked /\
  main_at (lives p [Ends (OfTask JobLoop); MainMoves]) = Exited.
Proof. vm_compute. done. Qed.

Lemma lock_outlives_every_task_witness :
  let p := lives (listening 0 true) to_the_unlock in
  locked p = false /\ (forall task, phase_of task p = TaskEnded) /\
  forall l', transactions (lives p l') `sublist_of` [OfTask JobLoop].
Proof.
  destruct (lock_outlives_every_task 0 true to_the_unlock) as [H _].
  destruct H as (_ & _ & Ht & Hs); [reflexivity|]. split; [reflexivity|]. split; [exact Ht|].
  intros l'. apply (Hs l').
Defined.

(** A connection is in the middle of a request when the signal comes and never ends by
    itself. *)
Definition busy_client : list Happens := [Http (Accept 1); Http (Doing 1 (Bytes 10)); Http (Doing 1 Call); Begins (OfRequest 1)].

