(* ===== verification/Schema.v ===== *)
(** * The schema's own rules (migrations/0001 to 0003)

    Each table's [CHECK] constraints as a test of a row, and the triggers of the audit
    log. A constraint that a statement trips aborts it; that none of the server's
    transactions can is proved here by following each of them with what is known of the
    values it draws and reads. *)

From S2P Require Import Prelude Str Codec Keys Net Rate Cli Config Urls Totp Text Time Http Db.
From S2P Require Import Outbox Auth Credentials Accounts Hosts Projects Jobs System Demo Samples.

(** ** The tests *)

(** [length(column) = n] of a blob. *)
Definition blob_length (n : Z) (bs : bytes) : bool := Z.of_nat (length bs) =? n.

(** A constraint on a nullable column lets [NULL] pass. *)
Definition unless_null {A} (check : A -> bool) (v : option A) : bool :=
  match v with Some x => check x | None => true end.

(** [(a IS NULL) = condition]. *)
Definition null_iff {A} (v : option A) (condition : bool) : bool :=
  Bool.eqb (match v with None => true | Some _ => false end) condition.

(** [GLOB '[a-z]*' AND NOT GLOB '*[^...]*']: a lowercase letter, then characters of a class. *)
Definition glob_word (class : char -> bool) (text : str) : bool :=
  is_some_and is_ascii_lowercase (head text) && forallb class text.

(** [NOT GLOB '*.[^a-z]*' AND NOT GLOB '*.']: every dot has a lowercase letter after it. *)
Fixpoint dots_lead (text : str) : bool :=
  match text with
  | [] => true
  | c :: rest => (if c =? 46 then is_some_and is_ascii_lowercase (head rest) else true) && dots_lead rest
  end.

Definition identifier_check (text : str) : bool :=
  (char_count text <=? 64)
  && glob_word (fun c => is_ascii_lowercase c || is_ascii_digit c || (c =? 95) || (c =? 46)) text
  && dots_lead text.

Definition users_check (u : User) : bool :=
  (char_count (u_email u) <=? 254) && unless_null (blob_length 16) (u_totp_nonce u)
  && (0 <=? u_failed_logins u) && (0 <=? u_device_failures u).

Definition sessions_check (s : Session) : bool :=
  blob_length 32 (s_token_hash s) && blob_length 32 (s_csrf_token s)
  && unless_null (blob_length 16) (s_pending_totp_nonce s).

Definition known_devices_check (v : Device) : bool := blob_length 32 (d_token_hash v).

Definition recovery_codes_check (c : RecoveryCode) : bool := blob_length 32 (r_code_hash c).

Definition tokens_check (t : Token) : bool :=
  let invite := bool_decide (t_purpose t = InviteToken) in
  blob_length 32 (t_token_hash t) && unless_null (fun e => char_count e <=? 254) (t_email t)
  && unless_null (blob_length 16) (t_totp_nonce t)
  && null_iff (t_user_id t) invite && negb (null_iff (t_email t) invite).

Definition kind_check (kind : str) : bool :=
  glob_word (fun c => is_ascii_lowercase c || (c =? 95)) kind && (char_count kind <=? 64).

Definition outbox_check (m : Mail) : bool :=
  kind_check (m_kind m)
  && match m_recipient m with ToAddress a => char_count a <=? 254 | ToUser _ => true end
  && (0 <=? m_attempts m).

Definition audit_log_check (e : AuditEntry) : bool :=
  let '(label, actor) := a_actor e in
  let '(type, target) := a_target e in
  bool_decide (label ∈ [lit "cli"; lit "admin"; lit "maintainer"])
  && null_iff actor (zlist_eqb label (lit "cli"))
  && identifier_check (a_action e) && identifier_check type
  && null_iff target (zlist_eqb type (lit "instance")).

Definition projects_check (p : Project) : bool := table_checks (p_slug p) (p_settings p).

(** Every row of every table. *)
Definition within_checks (d : Db) : bool :=
  forallb users_check (users d) && forallb sessions_check (sessions d)
  && forallb known_devices_check (known_devices d) && forallb recovery_codes_check (recovery_codes d)
  && forallb tokens_check (tokens d) && forallb outbox_check (outbox d)
  && forallb audit_log_check (audit_log d) && forallb projects_check (projects d).

(** *** The audit log's triggers *)

(** [audit_log_keeps_a_year]: whether the deletion of an entry is aborted. *)
Definition audit_log_keeps_a_year (unixepoch : Z) (e : AuditEntry) : bool :=
  unixepoch - 365 * 86400 <=? a_time e.

(** [DELETE FROM audit_log WHERE ...] with the trigger: one refusal undoes the statement. *)
Definition delete_entries (unixepoch : Z) (p : AuditEntry -> bool) (l : list AuditEntry)
  : result unit (list AuditEntry) :=
  if existsb (fun e => p e && audit_log_keeps_a_year unixepoch e) l then Err tt else Ok (delete_where p l).

(** ** Changes of rows *)

(** A change of a table's rows that no test can refuse. *)
Definition admits {A} (check : A -> bool) (f : list A -> list A) : Prop :=
  forall l, forallb check l = true -> forallb check (f l) = true.

Lemma admits_update {A} (check : A -> bool) p g :
  (forall x, check x = true -> check (g x) = true) -> admits check (update_where p g).
Proof.
  intros Hg l. unfold update_where. rewrite !forallb_forall. intros Hl y Hy.
  apply in_map_iff in Hy as (x & <- & Hx). specialize (Hl x Hx). destruct (p x); auto.
Qed.

Lemma admits_delete {A} (check : A -> bool) p : admits check (delete_where p).
Proof. intros l. unfold delete_where. rewrite !forallb_forall. intros Hl x [Hx _]%filter_In. auto. Qed.

Lemma admits_snoc {A} (check : A -> bool) (x : list A -> A) :
  (forall l, check (x l) = true) -> admits check (fun l => l ++ [x l]).
Proof. intros Hx l Hl. rewrite forallb_app, Hl. cbn. by rewrite Hx. Qed.

(** A property of databases that such changes keep; audit entries are only added. *)
Class RowInvariant (I : Db -> Prop) := {
  row_checks : forall d, I d -> within_checks d = true;
  row_users : forall f d, admits users_check f -> I d -> I (set_users f d);
  row_sessions : forall f d, admits sessions_check f -> I d -> I (set_sessions f d);
  row_devices : forall f d, admits known_devices_check f -> I d -> I (set_known_devices f d);
  row_codes : forall f d, admits recovery_codes_check f -> I d -> I (set_recovery_codes f d);
  row_tokens : forall f s d, admits tokens_check f -> I d -> I (set_tokens f s d);
  row_outbox : forall f s d, admits outbox_check f -> I d -> I (set_outbox f s d);
  row_projects : forall f s d, admits projects_check f -> I d -> I (set_projects f s d);
  row_audit : forall e s d, audit_log_check e = true -> I d -> I (set_audit_log (fun l => l ++ [e]) s d) }.

(** ** What a transaction keeps and gives *)

(** A successful run keeps [I], and [Q] holds of its value. *)
Definition keeps (I : Db -> Prop) {E A} (t : Tx E A) (Q : A -> Prop) : Prop :=
  forall w a w', t w = (Ok a, w') -> I (db w) -> I (db w') /\ Q a.

Definition anyhow {A} : A -> Prop := fun _ => True.

Section Keeps.
Context (I : Db -> Prop) `{!RowInvariant I} {E : Type} `{FromSql E} `{FromRandom E}.

Lemma keeps_bind {A B} (m : Tx E A) (f : A -> Tx E B) (Q : A -> Prop) (R : B -> Prop) :
  keeps I m Q -> (forall a, Q a -> keeps I (f a) R) -> keeps I (m ≫= f) R.
Proof.
  intros Hm Hf w b w' Hb Hw. apply Tx_bind_Ok in Hb as (a & w1 & Ha & Hb).
  destruct (Hm _ _ _ Ha Hw) as [H1 HQ]. by eapply Hf.
Qed.

Lemma keeps_mret {A} (a : A) : keeps I (mret a : Tx E A) anyhow.
Proof. by intros w b w' [= _ <-]. Qed.

Lemma keeps_fail {A} (e : E) Q : keeps I (fail e : Tx E A) Q.
Proof. by intros w b w' [=]. Qed.

Lemma keeps_stmt {A} (f : Db -> result unit (A * Db)) :
  (forall d a d', f d = Ok (a, d') -> I d -> I d') -> keeps I (stmt f) anyhow.
Proof. intros Hf w a w' Hs Hw. apply stmt_Ok in Hs as (d & Hd & ->). split; [by eapply Hf|done]. Qed.

(** What was read is what the invariant says of it. *)
Lemma keeps_query {A} (f : Db -> A) (Q : A -> Prop) :
  (forall d, I d -> Q (f d)) -> keeps I (query f) Q.
Proof. intros Hf w a w' Hq Hw. apply query_Ok in Hq as [-> ->]. split; [done|by apply Hf]. Qed.

Lemma keeps_execute (f : Db -> Db) : (forall d, I d -> I (f d)) -> keeps I (execute f) anyhow.
Proof. intros Hf. apply keeps_stmt. intros d a d' [= _ <-]. apply Hf. Qed.

Lemma keeps_consume_one count (f : Db -> Db) : (forall d, I d -> I (f d)) -> keeps I (consume_one count f) anyhow.
Proof. intros Hf w b w' Hc Hw. apply consume_one_Ok in Hc as [-> _]. split; [by apply Hf|done]. Qed.

Lemma keeps_consume_returning {A} (rows : Db -> list A) (f : Db -> Db) :
  (forall d, I d -> I (f d)) -> keeps I (consume_returning rows f) anyhow.
Proof. intros Hf w b w' Hc Hw. apply consume_returning_Ok in Hc as [-> _]. split; [by apply Hf|done]. Qed.

Lemma keeps_draw {A} (f : Tape -> result unit A * Tape) : keeps I (draw f) anyhow.
Proof. intros w a w' Hd Hw. by apply draw_Ok in Hd as (t & _ & ->). Qed.

(** Random octets come in the number asked for. *)
Lemma keeps_draw_bytes n : keeps I (draw (random_bytes n)) (fun bs => length bs = n).
Proof.
  intros w bs w' Hd Hw. apply draw_Ok in Hd as (t & Ht & ->). split; [done|].
  by apply random_bytes_Ok in Ht as [].
Qed.

Lemma keeps_tape_left : keeps I (tape_left : Tx E nat) anyhow.
Proof. by intros w a w' [= _ <-]. Qed.

Lemma keeps_audit actor action target now : keeps I (audit actor action target now) anyhow.
Proof.
  apply keeps_stmt. intros d a d' [= _ <-]. apply row_audit.
  by destruct action, target, actor as [|u []].
Qed.

Lemma keeps_enqueue `{Crates} `{FromRecipient E} mail now :
  kind_check (k_name (n_kind mail)) = true -> keeps I (enqueue (E := E) mail now) anyhow.
Proof.
  intros Hk. apply (keeps_bind _ _ (fun _ => match n_recipient mail with
    | ToAddress a => char_count a <= 254 | ToUser _ => True end)).
  - destruct (n_recipient mail) as [a|u]; [|by intros w b w' [= _ <-]].
    unfold validate_recipient. destruct (_ && _) eqn:Ev; [|apply keeps_fail].
    intros w b w' [= _ <-]. split; [done|]. unfold ADDRESS_CAP in Ev. bool_lia.
  - intros _ Hr. eapply keeps_bind; [apply keeps_stmt|intros i _; by intros w b w' [= _ <-]].
    intros d i d' Hi. apply insert_mail_Ok in Hi as (_ & row & -> & Hrow). apply row_outbox, (admits_snoc _ (fun _ => row)).
    intros _. destruct Hrow as (_ & _ & Hrc & Hkd & _ & _ & _ & _ & _ & Ha & _).
    unfold outbox_check. rewrite Hkd, Hk, Hrc, Ha. destruct (n_recipient mail); [bool_lia|done].
Qed.
End Keeps.

Lemma keeps_lift (I : Db -> Prop) {A} (t : Tx AuthError A) Q : keeps I t Q -> keeps I (lift t) Q.
Proof.
  intros Ht w a w' Hl Hw. unfold lift in Hl. destruct (t w) as [[b|] w1] eqn:Et; [|done].
  injection Hl as <- <-. by eapply Ht.
Qed.

(** *** Tests that rows pass *)

Lemma users_check_change u u' :
  u_email u' = u_email u -> u_totp_nonce u' = u_totp_nonce u ->
  (0 <= u_failed_logins u -> 0 <= u_device_failures u -> 0 <= u_failed_logins u' /\ 0 <= u_device_failures u') ->
  users_check u = true -> users_check u' = true.
Proof.
  unfold users_check. intros -> -> Hc Hu. propify. destruct Hu as [[[? ?] ?] ?]. destruct Hc; [done|done|]. done.
Qed.

Lemma users_check_totp nonce step u :
  unless_null (blob_length 16) nonce = true -> users_check u = true -> users_check (set_totp nonce step u) = true.
Proof. unfold users_check. cbn. intros ->. rewrite !andb_true_iff. tauto. Qed.

Lemma sessions_check_pending nonce s :
  unless_null (blob_length 16) nonce = true -> sessions_check s = true -> sessions_check (set_pending nonce s) = true.
Proof. unfold sessions_check. cbn. intros ->. rewrite !andb_true_iff. tauto. Qed.

Lemma outbox_check_change n m m' :
  m_kind m' = m_kind m -> m_recipient m' = m_recipient m -> m_attempts m' = n -> 0 <= n ->
  outbox_check m = true -> outbox_check m' = true.
Proof. unfold outbox_check. intros -> -> -> Hn%Z.leb_le. rewrite !andb_true_iff, Hn. tauto. Qed.

Lemma blob_length_of n (bs : bytes) : length bs = Z.to_nat n -> 0 <= n -> blob_length n bs = true.
Proof. unfold blob_length. intros -> Hn. apply Z.eqb_eq. lia. Qed.

Create HintDb rows.
#[export] Hint Resolve keeps_mret keeps_fail keeps_draw keeps_tape_left keeps_audit admits_delete : rows.
#[export] Hint Extern 0 (RowInvariant _) => apply _ : rows.
#[export] Hint Extern 1 (keeps _ (enqueue _ _) _) => (apply keeps_enqueue; [apply _|reflexivity]) : rows.
#[export] Hint Extern 1 (keeps _ (query _) anyhow) => (apply keeps_query; intros; exact Logic.I) : rows.

(** One statement's table. *)
Ltac row_step :=
  first
    [ apply row_users | apply row_sessions | apply row_devices | apply row_codes | apply row_tokens
    | apply row_outbox | apply row_projects ];
  first
    [ apply admits_delete
    | intros ?; apply admits_delete
    | apply admits_update; first [ by intros [] | intros ?; apply users_check_change; cbn; [done..|]; intros; repeat case_match; lia ]
    | apply admits_snoc; intros ?
    | idtac ].

(** Follows a transaction's shape. *)
Ltac keep_step I :=
  first
    [ eapply (keeps_bind I); [apply keeps_draw_bytes|intros ? ?]
    | apply (keeps_bind I _ _ anyhow); [|intros ? _]
    | apply (keeps_execute I); intros ?
    | apply (keeps_consume_one I); intros ?
    | apply (keeps_consume_returning I); intros ?
    | apply (keeps_stmt I); intros ???
    | apply (keeps_lift I) ].

Ltac keep :=
  repeat first
    [ solve [auto with rows]
    | match goal with
      | |- keeps ?I _ _ => keep_step I
      | |- Ok _ = Ok _ -> _ => intros [= _ <-]
      | |- Err _ = Ok _ -> _ => discriminate
      end
    | progress cbv zeta
    | row_step
    | case_match ].

Section Transactions.
Context `{CrateLaws} (app : App) (I : Db -> Prop) `{!RowInvariant I}.

(** *** The rows that are added *)

Lemma sha256_blob m : blob_length 32 (sha256 m) = true.
Proof. unfold blob_length. by rewrite sha256_length. Qed.

Lemma keeps_insert_session text user csrf now :
  length csrf = KEY_BYTES -> keeps I (E := AuthError) (stmt (insert_session (sha256 text) user csrf now)) anyhow.
Proof.
  intros Hc. unfold insert_session. keep. unfold sessions_check. cbn.
  by rewrite sha256_blob, (blob_length_of 32).
Qed.

Lemma keeps_insert_device text user now : keeps I (E := AuthError) (stmt (insert_device (sha256 text) user now)) anyhow.
Proof. unfold insert_device. keep. apply sha256_blob. Qed.

Lemma keeps_insert_reset_token text user now :
  keeps I (E := AuthError) (stmt (insert_reset_token (sha256 text) user now)) anyhow.
Proof. unfold insert_reset_token. keep. unfold tokens_check. cbn. by rewrite sha256_blob. Qed.

Lemma keeps_insert_code text user : keeps I (E := AuthError) (stmt (insert_code user (sha256 text))) anyhow.
Proof. unfold insert_code. keep. apply sha256_blob. Qed.

#[local] Hint Resolve keeps_insert_session keeps_insert_device keeps_insert_reset_token keeps_insert_code : rows.

(** *** What the transactions share *)

Lemma keeps_issue_reset_token urls user now : keeps I (issue_reset_token urls user now) anyhow.
Proof. unfold issue_reset_token, update_tokens. keep. Qed.

Lemma keeps_replace_codes user : keeps I (replace_codes user) anyhow.
Proof.
  apply (keeps_bind I _ _ anyhow); [keep|]. intros _ _. apply (keeps_bind I _ _ anyhow); [auto with rows|].
  intros n _. generalize (@nil str). generalize (S n). clear n.
  intros fuel. induction fuel as [|fuel IH]; intros codes; cbn [replace_loop]; keep.
Qed.

Lemma keeps_login_success device a now : keeps I (login_success device a now) anyhow.
Proof. unfold login_success, create_session, add_device, evict_devices. keep. Qed.

Lemma keeps_store_password user r hash action now : keeps I (store_password app user r hash action now) anyhow.
Proof. unfold store_password, end_all, update_tokens. keep. Qed.

Lemma keeps_count_failure a known now : keeps I (count_failure app a known now) anyhow.
Proof. unfold count_failure, login_failure_stmt. keep. Qed.

#[local] Hint Resolve keeps_issue_reset_token keeps_replace_codes keeps_login_success keeps_store_password
  keeps_count_failure : rows.

Lemma keeps_decide {T} user v now (success : Account -> Z -> Tx AuthError T) :
  (forall a n, keeps I (success a n) anyhow) -> keeps I (decide app user v now success) anyhow.
Proof. intros Hs. unfold decide, second_factor, code_accepted, consume_code. keep. Qed.

Lemma keeps_with_account {T} e (work : Z -> Tx AccountCommandError T) :
  (forall u, keeps I (work u) anyhow) -> keeps I (with_account_tx e work) anyhow.
Proof. intros Hw. unfold with_account_tx. keep. Qed.

(** *** Values read in the same transaction *)

Lemma found_check {A} (check : A -> bool) (p : A -> bool) l x :
  forallb check l = true -> find_first p l = Some x -> check x = true.
Proof. rewrite forallb_forall. intros Hl [Hx _]%find_first_Some. by apply Hl, list_elem_of_In. Qed.

Lemma pending_nonce_check d i :
  I d -> unless_null (blob_length 16) (s ← find_first (fun s => s_id s =? i) (sessions d); s_pending_totp_nonce s) = true.
Proof.
  intros Hd%row_checks. unfold within_checks in Hd. rewrite !andb_true_iff in Hd.
  destruct (find_first _ _) as [s|] eqn:Es; [|done]. apply (found_check sessions_check) in Es; [|tauto].
  unfold sessions_check in Es. rewrite !andb_true_iff in Es. tauto.
Qed.

Lemma unsent_attempts d i m : I d -> find_unsent i d = Some m -> 0 <= m_attempts m.
Proof.
  intros Hd%row_checks Hm. unfold within_checks in Hd. rewrite !andb_true_iff in Hd.
  apply (found_check outbox_check) in Hm; [|tauto]. unfold outbox_check in Hm. bool_lia.
Qed.

Lemma keeps_confirm_totp su code now : keeps I (confirm_totp_tx app su code now) anyhow.
Proof.
  apply (keeps_bind I _ _ (fun n => unless_null (blob_length 16) n = true));
    [apply keeps_query; intros d; apply pending_nonce_check|].
  intros [nonce|] Hn; [|keep]. keep.
  - apply admits_update. intros u. by apply users_check_totp.
  - apply admits_update. intros s. by apply sessions_check_pending.
Qed.

(** *** The outbox *)

Lemma keeps_give_up ue i : keeps I (give_up_row (KINDS ue) i) anyhow.
Proof.
  apply (keeps_bind I _ _ anyhow); [auto with rows|]. intros [m|] _; [|keep].
  apply (keeps_bind I _ _ anyhow); [|intros _ _; unfold delete_mail, change_outbox; keep].
  unfold KINDS, find_kind. cbn. repeat case_if; cbn; unfold expire_reset_token, update_tokens; keep.
Qed.

Lemma keeps_give_up_expired ue now : keeps I (give_up_expired (KINDS ue) now) anyhow.
Proof.
  apply (keeps_bind I _ _ anyhow); [auto with rows|]. intros ids _.
  apply (keeps_bind I _ _ anyhow); [|intros _ _; keep].
  induction ids as [|i ids IH]; [apply keeps_mret|]. apply (keeps_bind I _ _ anyhow); [apply keeps_give_up|done].
Qed.

#[local] Hint Resolve keeps_give_up_expired keeps_give_up keeps_confirm_totp keeps_with_account : rows.

Lemma keeps_pick ue now : keeps I (pick (KINDS ue) now) anyhow.
Proof. unfold pick, select_due, change_outbox. keep. Qed.

Lemma keeps_record ue i o t : keeps I (record (KINDS ue) i o t) anyhow.
Proof.
  apply (keeps_bind I _ _ (fun r => forall m, r = Some m -> 0 <= m_attempts m));
    [apply keeps_query; intros d Hd m; by apply unsent_attempts|].
  intros [m|] Hm; [|keep]. specialize (Hm m eq_refl). unfold delete_mail, change_outbox. keep.
  all: apply admits_update; intros x; eapply outbox_check_change; try done; cbn; lia.
Qed.

(** *** Every transaction but the log's own retention *)

Inductive audit_retention_tx : forall E A, Tx E A -> Prop :=
| audit_retains now : audit_retention_tx SqlError _ (retention_audit now).

Lemma keeps_request_tx E A (t : Tx E A) : request_tx app E A t -> keeps I t anyhow \/ audit_retention_tx E A t.
Proof.
  destruct 1; try (right; constructor); left; try (apply keeps_decide; intros ??);
    unfold start_totp_tx, disable_totp_tx, regenerate_tx, end_others_tx, queue_reset, reset_tx,
      unlock_tx, reset_password_tx, update_tokens, retention_outbox, change_outbox; keep.
  - apply admits_update. intros s. apply sessions_check_pending. by apply blob_length_of.
  - apply admits_update. intros u. by apply users_check_totp.
Qed.

Lemma keeps_worker_tx E A (t : Tx E A) : worker_tx E A t -> keeps I t anyhow.
Proof. destruct 1; [apply keeps_pick|apply keeps_record]. Qed.

(** The tests of the slug and of the settings do not depend on each other. *)
Lemma table_checks_mix slug s slug' s' :
  table_checks slug s = true -> table_checks slug' s' = true -> table_checks slug' s = true.
Proof. unfold table_checks. rewrite !andb_true_iff. tauto. Qed.

Lemma keeps_insert_project slug s now : keeps I (E := ProjectError) (stmt (insert_project slug s now)) anyhow.
Proof. unfold insert_project. keep. unfold projects_check. cbn. propify. tauto. Qed.

Lemma keeps_update_project i s : keeps I (E := ProjectError) (stmt (update_project i s)) anyhow.
Proof.
  unfold update_project. keep. apply admits_update. intros p'. propify. apply table_checks_mix with (p_slug p); tauto.
Qed.

#[local] Hint Resolve keeps_insert_project keeps_update_project : rows.

Lemma keeps_project_tx E A (t : Tx E A) : project_tx E A t -> keeps I t anyhow.
Proof. destruct 1; unfold create, update, delete, host_taken; keep. Qed.

Lemma keeps_sign_in now : keeps I (retention_sign_in now) anyhow.
Proof. unfold retention_sign_in. keep. Qed.
End Transactions.

(** ** The rows of every table *)

#[export] Instance within_rows : RowInvariant (fun d => within_checks d = true).
Proof.
  split; [done|..]; unfold within_checks; cbn; intros; rewrite ?forallb_app, !andb_true_iff in *; cbn;
    intuition auto with bool; by apply andb_true_iff.
Qed.

(** With the log of some moment as the beginning of the present one. *)
#[export] Instance log_rows (l : list AuditEntry) :
  RowInvariant (fun d => within_checks d = true /\ l `prefix_of` audit_log d).
Proof.
  split; [by intros d []|..]; intros; destruct_and?; (split; [|done || by apply prefix_app_r]);
    [by apply (row_users (I := fun d => within_checks d = true))
    |by apply (row_sessions (I := fun d => within_checks d = true))
    |by apply (row_devices (I := fun d => within_checks d = true))
    |by apply (row_codes (I := fun d => within_checks d = true))
    |by apply (row_tokens (I := fun d => within_checks d = true))
    |by apply (row_outbox (I := fun d => within_checks d = true))
    |by apply (row_projects (I := fun d => within_checks d = true))
    |by apply (row_audit (I := fun d => within_checks d = true))].
Qed.

(** Every commit is of a transaction that only adds to the log, or the log's retention. *)
Lemma keeps_step `{CrateLaws} (app : App) (I : Db -> Prop) `{!RowInvariant I} d d' :
  step app d d' -> I d ->
  I d' \/ exists now, d' = set_audit_log (delete_where (fun e => a_time e <? now - AUDIT_KEEP_SECONDS)) (audit_seq d) d.
Proof.
  intros [E A t w a w' Ht Hr <- <-|now w a w' Hr <- <-] Hd; [|left; by eapply keeps_sign_in].
  destruct Ht as [[Ht|Ht]|Ht].
  - destruct (keeps_request_tx app I E A t Ht) as [Hk|Hk]; [left; by eapply Hk|].
    right. revert a Hr. destruct Hk as [now]. intros a Hr. exists now. by apply execute_Ok in Hr as ->.
  - left. by eapply keeps_worker_tx.
  - left. by eapply keeps_project_tx.
Qed.

Lemma within_step `{CrateLaws} (app : App) d d' :
  step app d d' -> within_checks d = true -> within_checks d' = true.
Proof.
  intros Hs Hd. destruct (keeps_step app _ d d' Hs Hd) as [?|[now ->]]; [done|].
  unfold within_checks in *. cbn. rewrite !andb_true_iff in *. intuition. by apply admits_delete.
Qed.

(** C8: No request, command or job leaves a row that a [CHECK] constraint of its table
    refuses: whatever it is sent, whatever other requests commit between its
    transactions and wherever a statement fails, the lengths of hashes, nonces and addresses,
    the counters, the columns that exclude each other and the names of mail kinds and audit
    actions stay as the schema demands. Only the statements on the projects evaluate their
    table's tests here; the rules of the other tables are kept by the code itself. *)
Theorem rows_stay_within_checks `{CrateLaws} (app : App) (r : Request) (w : World) :
  Forall (fun f => forall d, rtc (step app) d (f d)) (others w) ->
  within_checks (db w) = true -> within_checks (db (serve app r w)) = true.
Proof.
  intros Ho Hw. pose proof (account_commit app _ (within_step app)). pose proof (project_commit app _ (within_step app)).
  apply (serve_good app (fun d => within_checks d = true) r w). split; [done|].
  eapply Forall_impl; [exact Ho|]. cbn. intros f Hf d Hd. specialize (Hf d).
  induction Hf as [|x y z Hs _ IH]; [done|]. by apply IH, (within_step app x).
Qed.


(** ** On the sample accounts *)

Lemma rows_stay_within_checks_witness :
  within_checks (db disturbed) = true /\
  within_checks (db (serve the_app (LoginRequest true [] ada_form t0) disturbed)) = true.
Proof.
  split; [vm_compute; reflexivity|]. apply rows_stay_within_checks; [|vm_compute; reflexivity].
  constructor; [|constructor]. intros d.
  apply (requests_are_transactions the_app (ResetPasswordCommand (lit "ada@kohaku.example") t0) (quiet d (octets 32))). constructor.
Defined.

(** An unlock, and a year later retention. *)
Definition a_year_on : World := (retention_audit (t0 + 50 + 366 * 86400) unlocked).2.

Lemma retention_runs : retention_audit (t0 + 50 + 366 * 86400) unlocked = (Ok tt, a_year_on).
Proof. run. Qed.


(** The trigger holds back an entry of yesterday's. *)
Example yesterday_is_kept :
  delete_entries (t0 + 86400) (fun _ => true) (audit_log (db unlocked)) = Err tt /\ audit_log (db a_year_on) = [].
Proof. vm_compute. done. Qed.
