(* ===== verification/Concurrent.v ===== *)
(** * The server's transactions on the shared writer

    [Writer] with the tables of [Db] as contents and the transactions of [System] as work.
    However the calls' steps are interleaved, the database is reached by commits, and what
    one commit keeps holds at every moment of every interleaving. *)

From S2P Require Import Prelude Permits Str Codec Keys Net Rate Cli Config Urls Totp Text Time Http Db.
From S2P Require Import Outbox Auth Credentials Accounts Hosts Projects Jobs System Demo Samples Schema Writer.

(** ** Transactions as work *)

(** A transaction as the work of a call: the octets it draws and the statements that fail are
    those of [w]; its error makes the work return one. *)
Definition body {E A} (t : Tx E A) (w : World) : Work (D := Db) :=
  Statement (fun d => db (t (with_db d w)).2) (fun d => Return (is_ok (t (with_db d w)).1)).

(** Work whose every whole run is a commit of the server's; finer pieces qualify too. *)
Definition commits `{Crates} (app : App) (w : Work (D := Db)) : Prop :=
  forall d d', run_work w d = Some d' -> step app d d'.

Lemma body_runs {E A} (t : Tx E A) w d d' :
  run_work (body t w) d = Some d' -> exists a w', t (with_db d w) = (Ok a, w') /\ db w' = d'.
Proof. cbn. destruct (t (with_db d w)) as [[a|e] w']; [|done]. intros [= <-]. by exists a, w'. Qed.

Lemma body_commits `{Crates} (app : App) {E A} (t : Tx E A) w : transaction app E A t -> commits app (body t w).
Proof. intros Ht d d' (a & w' & Hr & Hd)%body_runs. by eapply step_tx. Qed.

Lemma sign_in_commits `{Crates} (app : App) now w : commits app (body (retention_sign_in now) w).
Proof. intros d d' (a & w' & Hr & Hd)%body_runs. by eapply step_sign_in. Qed.

(** [account::end_other_sessions]'s transaction, statement by statement. *)
Definition end_others_work (user : SessionUser) (now : Z) : Work (D := Db) :=
  Statement (set_sessions (delete_where (fun s => (s_user_id s =? user_id user) && negb (s_id s =? session_id user))))
    (fun _ =>
  Statement (fun d => set_audit_log (fun l => l ++
      [{| a_id := audit_seq d + 1; a_actor := actor_columns (UserActor (user_id user) (role user));
          a_action := identifier UserSessionsEnd; a_target := target_columns (TUser (user_id user));
          a_time := now |}]) (audit_seq d + 1) d)
    (fun _ => Return true)).

Lemma end_others_work_commits `{Crates} (app : App) user now : commits app (end_others_work user now).
Proof.
  intros d d' [= <-]. apply (step_tx app _ _ AuthError unit (end_others_tx user now) (quiet d []) tt (end_others_tx user now (quiet d [])).2);
    [apply account_transaction, of_request, tx_end_others|done..].
Qed.

(** ** Every interleaving *)

(** A commit elsewhere in the history is an event's. *)
Lemma deeds_elsewhere {D} (s s' : Writer (D := D)) l deeds f :
  writer_run s l = (s', deeds) -> Other f ∈ deeds -> Elsewhere f ∈ l.
Proof.
  revert s deeds. induction l as [|e l IH]; intros s deeds; cbn [writer_run]; [by intros [= <- <-] ?%not_elem_of_nil|].
  destruct (writer_step s e) as [s1 deed] eqn:Es. destruct (writer_run s1 l) as [s2 ds] eqn:Er.
  intros [= <- <-] [Hf|Hf]%elem_of_app; [|right; by eapply IH]. apply elem_of_cons. left.
  destruct deed as [deed|]; [|by apply not_elem_of_nil in Hf]. apply list_elem_of_singleton in Hf as <-.
  destruct e; cbn in Es; repeat case_match; by simplify_eq.
Qed.

Lemma serial_rtc {D} (R : D -> D -> Prop) (A : Id -> Work -> Prop) d deeds d' :
  serial A d deeds d' ->
  (forall id w x y, A id w -> run_work w x = Some y -> R x y) ->
  (forall f, Other f ∈ deeds -> forall x, rtc R x (f x)) -> rtc R d d'.
Proof.
  intros Hs HA. induction Hs as [d|d d1 d2 id w deeds Hw Hr _ IH|d d2 f deeds _ IH]; intros Ho.
  - done.
  - eapply rtc_l; [by eapply HA|]. apply IH. intros f Hf. apply Ho. by right.
  - etrans; [apply Ho; by left|]. apply IH. intros g Hg. apply Ho. by right.
Qed.

Lemma writer_commits `{Crates} (app : App) d l s deeds :
  writer_run (writer_new d) l = (s, deeds) ->
  (forall id w, Ask id (Write w) ∈ l -> commits app w) ->
  (forall f, Elsewhere f ∈ l -> forall x, rtc (step app) x (f x)) ->
  rtc (step app) d (stored s).
Proof.
  intros Hr Hw Ho.
  destruct (writer_inv_run (asked l) l (writer_new d) s deeds (fun _ _ H => H) (writer_inv_new _ d) Hr) as [_ Hs].
  eapply serial_rtc; [exact Hs| |].
  - intros id w x y Ha. by apply Hw in Ha; apply Ha.
  - intros f Hf. apply Ho. by eapply deeds_elsewhere.
Qed.

(** C6: at every moment of every interleaving the database is sound. Calls of [Db::write] with
    the server's transactions ask, wait, are cancelled, begin, run their statements, fail,
    panic and commit in any order, beside checkpoints and the commits of other processes:
    what is stored has been reached by whole commits, so the account tables are well formed
    (unique ids, addresses and hashes, one admin, no row of a missing account) and every row is
    within its table's checks. *)
Theorem database_stays_sound `{CrateLaws} (app : App) (d : Db) (l : list Event) (s : Writer) (deeds : list Deed) :
  writer_run (writer_new d) l = (s, deeds) ->
  (forall id w, Ask id (Write w) ∈ l -> commits app w) ->
  (forall f, Elsewhere f ∈ l -> forall x, rtc (step app) x (f x)) ->
  accounts_wf d -> within_checks d = true ->
  rtc (step app) d (stored s) /\ accounts_wf (stored s) /\ within_checks (stored s) = true.
Proof.
  intros Hr Hw Ho Ha Hc. pose proof (writer_commits app d l s deeds Hr Hw Ho) as Hrtc. split; [done|].
  clear Hr. induction Hrtc as [d|d d1 d2 Hs _ IH]; [done|]. apply IH; [|by apply (within_step app d)].
  by apply (table_commit app accounts_wf wf_tokens_delete d).
Qed.

(** ** On the sample accounts *)

(** A command's commit in another process. *)
Definition rescue (d : Db) : Db :=
  db (serve the_app (ResetPasswordCommand (lit "mia@kohaku.example") t0) (quiet d (octets 32))).

(** Other sessions are ended, a reset request waits, a removal of old rows is cancelled; the command
    has to wait while the transaction is open and comes between the two commits. *)
Definition interleaved : list (Event (D := Db)) :=
  [Ask 1%nat (Write (end_others_work mia_user t0));
   Ask 2%nat (Write (body (queue_reset the_app (lit "mia@kohaku.example") (t0 + 1)) (quiet empty_db (drop 32 (octets 96)))));
   Ask 3%nat (Write (body (retention_sign_in (t0 + 2)) (quiet empty_db [])));
   Spawn 1%nat; Spawn 2%nat; Lock 1%nat; Begin 1%nat false; Next 1%nat; Elsewhere rescue; Cancel 3%nat; Next 1%nat;
   Commit 1%nat false; Unlock 1%nat; Elsewhere rescue; Release 1%nat; Spawn 2%nat; Lock 2%nat;
   Begin 2%nat false; Next 2%nat; Commit 2%nat false].

Definition shared : Writer (D := Db) := (writer_run (writer_new accounts_db) interleaved).1.

Lemma interleaved_runs : writer_run (writer_new accounts_db) interleaved = (shared, (writer_run (writer_new accounts_db) interleaved).2).
Proof. unfold shared. by destruct (writer_run _ _). Qed.

Example two_commits_and_a_rescue :
  (length (audit_log (stored shared)), length (tokens (stored shared)), length (outbox (stored shared))) = (2, 2, 1)%nat /\
  open_tx shared = None.
Proof. vm_compute. done. Qed.

Lemma database_stays_sound_witness :
  rtc (step the_app) accounts_db (stored shared) /\ accounts_wf (stored shared) /\ within_checks (stored shared) = true.
Proof.
  apply (database_stays_sound the_app accounts_db interleaved shared _ interleaved_runs).
  - intros i w Hw. unfold interleaved in Hw. rewrite !elem_of_cons in Hw.
    destruct_or! Hw; try discriminate; [| | |by apply not_elem_of_nil in Hw]; injection Hw as -> ->.
    + apply end_others_work_commits.
    + apply body_commits, account_transaction, of_request, tx_queue_reset.
    + apply sign_in_commits.
  - intros f Hf x. unfold interleaved in Hf. rewrite !elem_of_cons in Hf.
    destruct_or! Hf; try discriminate; [| |by apply not_elem_of_nil in Hf]; injection Hf as ->;
      (apply (requests_are_transactions the_app _ (quiet x (octets 32))); constructor).
  - exact accounts_db_wf.
  - vm_compute. reflexivity.
Defined.
