(* ===== verification/Queue.v ===== *)
(** * The mail queue under every transaction (src/src/mail/outbox.rs and its callers)

    What the transactions of the whole server may do to the outbox table. A relation on
    worlds that is kept by statements on other tables, and by queuing a mail, is kept by
    every transaction of a request; the worker's and retention's own are looked at one by
    one. *)

From S2P Require Import Prelude Str Codec Keys Net Rate Cli Config Urls Totp Text Time Http Db.
From S2P Require Import Outbox Auth Credentials Accounts Hosts Projects Jobs System Demo Samples.

(** ** The interface *)

(** Other tables. *)
Definition same_queue (d d' : Db) : Prop := outbox d' = outbox d /\ outbox_seq d' = outbox_seq d.

(** A relation that does not see them, *)
Class QueueRel (R : World -> World -> Prop) := {
  queue_preorder :: PreOrder R;
  queue_same : forall w w', same_queue (db w) (db w') -> wakes w' = wakes w -> R w w' }.

(** that allows a row more, announced, *)
Class QueueInsert (R : World -> World -> Prop) := {
  queue_insert : forall mail now i w w',
    insert_mail mail now (db w) = Ok (i, db w') -> wakes w' = wakes w + 1 -> R w w' }.

(** and rows that go or get an outcome. *)
Class QueueShrink (R : World -> World -> Prop) := {
  queue_shrink : forall w w', outbox_seq (db w') = outbox_seq (db w) -> wakes w' = wakes w ->
    (forall m, m ∈ outbox (db w') -> m_outcome m = None -> m ∈ outbox (db w)) -> R w w' }.

Definition follows (R : World -> World -> Prop) {E A} (t : Tx E A) : Prop :=
  forall w a w', t w = (Ok a, w') -> R w w'.

Section Follows.
Context (R : World -> World -> Prop) `{!QueueRel R} {E : Type} `{FromSql E} `{FromRandom E}.

Lemma follows_bind {A B} (m : Tx E A) (f : A -> Tx E B) :
  follows R m -> (forall a, follows R (f a)) -> follows R (m ≫= f).
Proof.
  intros Hm Hf w b w' Hb. apply Tx_bind_Ok in Hb as (a & w1 & Ha & Hb).
  etrans; [by eapply Hm|by eapply Hf].
Qed.

Lemma follows_mret {A} (a : A) : follows R (mret a : Tx E A).
Proof. by intros w b w' [= _ <-]. Qed.

Lemma follows_fail {A} (e : E) : follows R (fail e : Tx E A).
Proof. by intros w b w' [=]. Qed.

Lemma follows_stmt {A} (f : Db -> result unit (A * Db)) :
  (forall d a d', f d = Ok (a, d') -> same_queue d d') -> follows R (stmt f).
Proof.
  intros Hf w a w' Hs. apply stmt_Ok in Hs as (d & Hd & ->). apply queue_same; [|done]. by eapply Hf.
Qed.

Lemma follows_query {A} (f : Db -> A) : follows R (query f).
Proof. apply follows_stmt. by intros d a d' [= _ <-]. Qed.

Lemma follows_execute (f : Db -> Db) : (forall d, same_queue d (f d)) -> follows R (execute f).
Proof. intros Hf. apply follows_stmt. intros d a d' [= _ <-]. apply Hf. Qed.

Lemma follows_consume_one count (f : Db -> Db) : (forall d, same_queue d (f d)) -> follows R (consume_one count f).
Proof.
  intros Hf. apply follows_bind; [apply follows_stmt; intros d a d' [= _ <-]; apply Hf|].
  intros n. repeat case_if; (apply follows_mret || apply follows_fail).
Qed.

Lemma follows_consume_returning {A} (rows : Db -> list A) (f : Db -> Db) :
  (forall d, same_queue d (f d)) -> follows R (consume_returning rows f).
Proof.
  intros Hf. apply follows_bind; [apply follows_stmt; intros d a d' [= _ <-]; apply Hf|].
  intros [|a [|]]; (apply follows_mret || apply follows_fail).
Qed.

Lemma follows_draw {A} (f : Tape -> result unit A * Tape) : follows R (draw f).
Proof. intros w a w' Hd. apply draw_Ok in Hd as (t & _ & ->). by apply queue_same. Qed.

Lemma follows_audit actor action target now : follows R (audit actor action target now).
Proof. apply follows_stmt. by intros d a d' [= _ <-]. Qed.

Lemma follows_tape_left : follows R (tape_left : Tx E nat).
Proof. by intros w a w' [= _ <-]. Qed.

Lemma enqueue_wakes `{Crates} `{FromRecipient E} mail now w a w' :
  enqueue (E := E) mail now w = (Ok a, w') -> wakes w' = wakes w + 1.
Proof.
  unfold enqueue. intros He. apply Tx_bind_Ok in He as (x & w1 & Hv & He).
  assert (w1 = w) as -> by (destruct (n_recipient mail); [destruct (validate_recipient _)|]; tx_inv; done).
  apply Tx_bind_Ok in He as (i & w2 & Hs & He). apply stmt_Ok in Hs as (d & _ & ->).
  apply Tx_bind_Ok in He as (y & w3 & Hk & He). unfold wake in Hk. tx_inv. by simplify_eq.
Qed.

Lemma follows_enqueue `{!QueueInsert R} `{Crates} `{FromRecipient E} mail now : follows R (enqueue (E := E) mail now).
Proof.
  intros w a w' He. pose proof (enqueue_wakes _ _ _ _ _ He) as Hw. apply enqueue_Ok in He as [Hi _]. by eapply queue_insert.
Qed.
End Follows.

Lemma follows_lift (R : World -> World -> Prop) {A} (t : Tx AuthError A) : follows R t -> follows R (lift t).
Proof.
  intros Ht w a w' Hl. unfold lift in Hl. destruct (t w) as [[b|] w1] eqn:Et; [|done].
  injection Hl as <- <-. by eapply Ht.
Qed.

(** Rows that go, or get an outcome. *)
Lemma follows_change_outbox (R : World -> World -> Prop) `{!QueueShrink R} (f : list Mail -> list Mail) :
  (forall l m, m ∈ f l -> m_outcome m = None -> m ∈ l) -> follows R (execute (E := SqlError) (change_outbox f)).
Proof. intros Hf w a w' He. apply execute_Ok in He as ->. apply queue_shrink; [done|done|]. intros m. apply Hf. Qed.

Lemma delete_keeps_unsent p (l : list Mail) m : m ∈ delete_where p l -> m_outcome m = None -> m ∈ l.
Proof. by intros [? _]%elem_of_delete_where. Qed.

Lemma outcome_keeps_unsent p o (l : list Mail) m :
  m ∈ update_where p (fun m => set_outcome o (m_attempts m) m) l -> m_outcome m = None -> m ∈ l.
Proof. intros (y & Hy & ->)%elem_of_update_where. by destruct (p y). Qed.

Create HintDb queue.
#[export] Hint Resolve follows_mret follows_fail follows_query follows_draw follows_audit follows_tape_left
  follows_enqueue : queue.
#[export] Hint Extern 0 (QueueRel _) => apply _ : queue.
#[export] Hint Extern 0 (QueueInsert _) => apply _ : queue.
#[export] Hint Extern 1 (same_queue _ _) => (split; reflexivity) : queue.

(** Follows a transaction's shape. *)
Ltac follow_step R :=
  first
    [ apply (follows_bind R); [|intros ?]
    | apply (follows_change_outbox R); solve [apply delete_keeps_unsent | apply outcome_keeps_unsent]
    | apply (follows_execute R); intros ?
    | apply (follows_consume_one R); intros ?
    | apply (follows_consume_returning R); intros ?
    | apply (follows_stmt R); intros ???
    | apply (follows_lift R) ].

Ltac follow :=
  repeat first
    [ solve [auto with queue]
    | match goal with
      | |- follows ?R _ => follow_step R
      | |- Ok _ = Ok _ -> _ => intros [= _ <-]
      | |- Err _ = Ok _ -> _ => discriminate
      end
    | progress cbv zeta
    | case_match ].

(** ** Transactions that queue nothing *)

Section Quiet.
Context `{Crates} (app : App) (R : World -> World -> Prop) `{!QueueRel R}.

Lemma follows_insert_session hash user csrf now : follows R (E := AuthError) (stmt (insert_session hash user csrf now)).
Proof. unfold insert_session. follow. Qed.

Lemma follows_insert_device hash user now : follows R (E := AuthError) (stmt (insert_device hash user now)).
Proof. unfold insert_device. follow. Qed.

Lemma follows_insert_reset_token hash user now : follows R (E := AuthError) (stmt (insert_reset_token hash user now)).
Proof. unfold insert_reset_token. follow. Qed.

Lemma follows_insert_code user hash : follows R (E := AuthError) (stmt (insert_code user hash)).
Proof. unfold insert_code. follow. Qed.

#[local] Hint Resolve follows_insert_session follows_insert_device follows_insert_reset_token follows_insert_code : queue.

Lemma follows_issue_reset_token urls user now : follows R (issue_reset_token urls user now).
Proof. unfold issue_reset_token. follow. Qed.

Lemma follows_replace_codes user : follows R (replace_codes user).
Proof.
  apply (follows_bind R); [follow|]. intros _. apply (follows_bind R); [auto with queue|]. intros n.
  generalize (@nil str). generalize (S n). clear n.
  intros fuel. induction fuel as [|fuel IH]; intros codes; cbn [replace_loop]; follow. all: apply IH.
Qed.

Lemma follows_login_success device a now : follows R (login_success device a now).
Proof. unfold login_success, create_session, add_device. follow. Qed.

Lemma follows_with_account {T} e (work : Z -> Tx AccountCommandError T) :
  (forall u, follows R (work u)) -> follows R (with_account_tx e work).
Proof. intros Hw. unfold with_account_tx. follow. Qed.

Lemma follows_project_tx E A (t : Tx E A) : project_tx E A t -> follows R t.
Proof. destruct 1; unfold create, update, delete, insert_project, update_project, host_taken; follow. Qed.

Lemma follows_sign_in now : follows R (retention_sign_in now).
Proof. unfold retention_sign_in. follow. Qed.
End Quiet.

#[export] Hint Resolve follows_issue_reset_token follows_replace_codes follows_login_success follows_with_account : queue.

(** ** Transactions of requests *)

(** Retention of the queue itself. *)
Inductive retention_tx : forall E A, Tx E A -> Prop :=
| retains ue now : retention_tx SqlError _ (retention_outbox (KINDS ue) now).

Section Requests.
Context `{Crates} (app : App) (R : World -> World -> Prop) `{!QueueRel R} `{!QueueInsert R}.

Lemma follows_store_password user r hash action now : follows R (store_password app user r hash action now).
Proof. unfold store_password, end_all. follow. Qed.

Lemma follows_count_failure a known now : follows R (count_failure app a known now).
Proof. unfold count_failure, login_failure_stmt. follow. Qed.

#[local] Hint Resolve follows_store_password follows_count_failure : queue.

Lemma follows_decide {T} user v now (success : Account -> Z -> Tx AuthError T) :
  (forall a n, follows R (success a n)) -> follows R (decide app user v now success).
Proof. intros Hs. unfold decide, second_factor, code_accepted, consume_code. follow. Qed.

Lemma follows_request_tx E A (t : Tx E A) : request_tx app E A t -> follows R t \/ retention_tx E A t.
Proof.
  destruct 1; try (right; constructor); left; try (apply follows_decide; intros ??);
    unfold start_totp_tx, disable_totp_tx, regenerate_tx, confirm_totp_tx, end_others_tx, queue_reset, reset_tx,
      unlock_tx, reset_password_tx, retention_audit; follow.
Qed.
End Requests.

(** ** Giving rows up *)

Section Shrinking.
Context (R : World -> World -> Prop) `{!QueueRel R} `{!QueueShrink R}.

Lemma follows_give_up ue i : follows R (give_up_row (KINDS ue) i).
Proof.
  unfold give_up_row, delete_mail. apply (follows_bind R); [auto with queue|]. intros [m|]; [|follow].
  apply (follows_bind R); [|intros _; follow]. unfold KINDS, find_kind. cbn. repeat case_if; cbn; follow.
Qed.

Lemma follows_give_up_expired ue now : follows R (give_up_expired (KINDS ue) now).
Proof.
  apply (follows_bind R); [auto with queue|]. intros ids. apply (follows_bind R); [|intros _; follow].
  induction ids as [|i ids IH]; [by apply follows_mret|]. apply (follows_bind R); [apply follows_give_up|done].
Qed.

#[local] Hint Resolve follows_give_up_expired : queue.

Lemma follows_pick ue now : follows R (pick (KINDS ue) now).
Proof. unfold pick, select_due. follow. Qed.

Lemma follows_retention ue now : follows R (retention_outbox (KINDS ue) now).
Proof. unfold retention_outbox. follow. Qed.
End Shrinking.

(** ** Nothing is queued silently *)

(** A row that is still to be sent was there before, or is new and the worker was woken;
    only with [q] are there new ones. *)
Record moves (q : bool) (w w' : World) : Prop := {
  moves_wakes : if q then wakes w <= wakes w' else wakes w' = wakes w;
  moves_seq : outbox_seq (db w) <= outbox_seq (db w');
  moves_rows : forall m, m ∈ outbox (db w') -> m_outcome m = None ->
    m ∈ outbox (db w) \/ (outbox_seq (db w) < m_id m <= outbox_seq (db w') /\ wakes w < wakes w') }.

#[export] Instance moves_preorder q : PreOrder (moves q).
Proof.
  split.
  - intros w. split; [by destruct q|done|]. by left.
  - intros w w1 w2 [Hw1 Hs1 Hr1] [Hw2 Hs2 Hr2].
    assert (Hw : wakes w <= wakes w1 /\ wakes w1 <= wakes w2) by (destruct q; lia).
    split; [destruct q; lia|lia|]. intros m Hm Ho.
    destruct (Hr2 m Hm Ho) as [Hm1|[? ?]]; [|right; lia]. destruct (Hr1 m Hm1 Ho) as [|[? ?]]; [by left|right; lia].
Qed.

#[export] Instance moves_shrink q : QueueShrink (moves q).
Proof. split. intros w w' Hs Hw Hr. split; [destruct q; lia|lia|]. intros m Hm Ho. left. by apply Hr. Qed.

#[export] Instance moves_rel q : QueueRel (moves q).
Proof.
  split; [apply _|]. intros w w' [Ho Hs] Hw. apply queue_shrink; [done|done|]. intros m Hm _. by rewrite <- Ho.
Qed.

#[export] Instance moves_insert : QueueInsert (moves true).
Proof.
  split. intros mail now i w w' Hi Hw. apply insert_mail_Ok in Hi as (-> & row & Hd & Hrow & _).
  split; [lia|rewrite Hd; cbn; lia|]. intros m Hm _. rewrite Hd in Hm |- *. cbn in Hm |- *.
  apply elem_of_app in Hm as [Hm|Hm]; [by left|]. apply list_elem_of_singleton in Hm as ->. right. lia.
Qed.

(** ** The queue stays sound *)

Definition sound (w w' : World) : Prop := outbox_inv (db w) -> outbox_inv (db w').

#[export] Instance sound_rel : QueueRel sound.
Proof.
  split; [split; [by intros w Hw|intros w1 w2 w3 H1 H2 H; by apply H2, H1]|].
  intros w w' [Ho Hs] _. unfold sound. by apply outbox_inv_same.
Qed.

#[export] Instance sound_insert : QueueInsert sound.
Proof.
  split. intros mail now i w w' Hi _ (Ht & Hd & Hs). apply insert_mail_Ok in Hi as (-> & row & Hdb & Hid & Ho & _).
  rewrite Hdb. split_and!; cbn.
  - intros m [Hm| ->%list_elem_of_singleton]%elem_of_app; [by apply Ht|done].
  - intros m m' [Hm| ->%list_elem_of_singleton]%elem_of_app [Hm'| ->%list_elem_of_singleton]%elem_of_app Heq; try done.
    + by apply Hd.
    + specialize (Hs m Hm). lia.
    + specialize (Hs m' Hm'). lia.
  - intros m [Hm| ->%list_elem_of_singleton]%elem_of_app; [specialize (Hs m Hm); lia|lia].
Qed.

(** ** Nothing is lost *)

(** Rows to be sent stay, but those in [gone]. *)
Definition kept (gone : Mail -> Prop) (w w' : World) : Prop :=
  forall m, m ∈ outbox (db w) -> m_outcome m = None -> m ∈ outbox (db w') \/ gone m.

#[export] Instance kept_rel gone : QueueRel (kept gone).
Proof.
  split; [split|].
  - intros w m Hm _. by left.
  - intros w w1 w2 H1 H2 m Hm Ho. destruct (H1 m Hm Ho) as [Hm1|]; [by apply H2|by right].
  - intros w w' [Ho _] _ m Hm _. left. by rewrite Ho.
Qed.

#[export] Instance kept_insert gone : QueueInsert (kept gone).
Proof.
  split. intros mail now i w w' Hi _ m Hm _. apply insert_mail_Ok in Hi as (_ & row & Hd & _). left. rewrite Hd. cbn.
  apply elem_of_app. by left.
Qed.

(** Giving a row up leaves the others alone. *)
Lemma give_up_keeps ue i : follows (kept (fun m => m_id m = i)) (give_up_row (KINDS ue) i).
Proof.
  intros w x w' H m Hm Ho. unfold give_up_row in H. tx_inv. subst x0. cbn [db with_db] in H.
  destruct (base.decide (m_id m = i)) as [|Hi]; [by right|left].
  destruct (find_unsent i (db w)) as [r|]; [|by tx_inv; subst].
  apply Tx_bind_Ok in H as (y & w1 & Ha & H). apply give_up_action_outbox in Ha. cbn in Ha.
  destruct (m_token r); unfold delete_mail in H; apply execute_Ok in H as ->; cbn; rewrite Ha.
  - apply elem_of_delete_where. split; [done|]. by apply Z.eqb_neq.
  - apply elem_of_update_where. exists m. split; [done|]. unfold unsent. by rewrite (proj2 (Z.eqb_neq _ _) Hi).
Qed.

Lemma kept_weaken (P Q : Mail -> Prop) w w' : (forall m, P m -> Q m) -> kept P w w' -> kept Q w w'.
Proof. intros HPQ Hk m Hm Ho. destruct (Hk m Hm Ho) as [|]; [by left|right; by apply HPQ]. Qed.

Lemma give_up_all_keeps ue ids : follows (kept (fun m => m_id m ∈ ids)) (give_up_all (KINDS ue) ids).
Proof.
  induction ids as [|i ids IH]; cbn [give_up_all]; [apply (follows_mret (kept _))|].
  apply (follows_bind (kept (fun m => m_id m ∈ i :: ids))).
  - intros w x w' H. eapply kept_weaken; [|by eapply give_up_keeps]. cbn. intros m ->. by left.
  - intros _ w x w' H. eapply kept_weaken; [|by eapply IH]. cbn. intros m Hm. by right.
Qed.

Definition past_deadline (now : Z) (m : Mail) : Prop := deadline (m_queued_at m) (m_expires_at m) <= now.

(** With ids that are unique, only rows past their deadline are given up. *)
Lemma give_up_expired_keeps ue now w n w' :
  outbox_inv (db w) -> give_up_expired (KINDS ue) now w = (Ok n, w') -> kept (past_deadline now) w w'.
Proof.
  intros (_ & Hu & _) H. unfold give_up_expired in H. tx_inv. subst.
  pose proof (give_up_all_keeps _ _ _ _ _ Hx0) as Hk. intros m Hm Ho.
  destruct (Hk m Hm Ho) as [|Hin]; [by left|right]. cbn in Hin.
  apply list_elem_of_fmap in Hin as (m' & Hid & Hm'). apply list_elem_of_In, filter_In in Hm' as [Hm' He].
  apply list_elem_of_In in Hm'. assert (m = m') as <- by by apply Hu. unfold expired in He. unfold past_deadline, deadline. lia.
Qed.

Lemma pick_keeps ue now w p w' :
  outbox_inv (db w) -> pick (KINDS ue) now w = (Ok p, w') ->
  kept (fun m => past_deadline now m \/ (m_placeholder m = true /\ m_next_attempt_at m <= now)) w w'.
Proof.
  intros Hi H. unfold pick in H. apply Tx_bind_Ok in H as (n & w1 & Hg & H).
  apply Tx_bind_Ok in H as (u & w2 & Hd & H). apply execute_Ok in Hd as ->.
  apply Tx_bind_Ok in H as (row & w3 & Hs & H). apply stmt_Ok in Hs as (d & Hs & ->).
  assert (Hd : d = change_outbox (delete_where (fun m => m_placeholder m && due now m)) (db w1)).
  { unfold select_due in Hs. destruct (first_by _ _); [|by injection Hs]. destruct (row_address _ _); [|done]. by injection Hs. }
  assert (Hdb : db w' = d) by (destruct row; tx_inv; by subst).
  intros m Hm Ho. destruct (give_up_expired_keeps _ _ _ _ _ Hi Hg m Hm Ho) as [Hm1|]; [|by right; left].
  rewrite Hdb, Hd. cbn. destruct (m_placeholder m && due now m) eqn:Ep.
  - right. right. apply andb_true_iff in Ep as [-> Ep]. unfold due in Ep. split; [done|lia].
  - left. apply elem_of_delete_where. by split.
Qed.

Lemma retention_keeps ue now w x w' :
  outbox_inv (db w) -> retention_outbox (KINDS ue) now w = (Ok x, w') -> kept (past_deadline now) w w'.
Proof.
  intros Hi H. unfold retention_outbox in H. apply Tx_bind_Ok in H as (n & w1 & Hg & H). apply execute_Ok in H as ->.
  intros m Hm Ho. destruct (give_up_expired_keeps _ _ _ _ _ Hi Hg m Hm Ho) as [Hm1|]; [left|by right].
  cbn. apply elem_of_delete_where. split; [done|]. rewrite Ho. apply bool_decide_eq_false_2. intros Hn. by apply Hn.
Qed.

(** What a row says, without its attempts. *)
Definition same_mail (m m' : Mail) : Prop :=
  m_id m' = m_id m /\ m_kind m' = m_kind m /\ m_recipient m' = m_recipient m /\ m_subject m' = m_subject m /\
  m_body m' = m_body m /\ m_queued_at m' = m_queued_at m /\ m_expires_at m' = m_expires_at m.

(** How a mail may leave the queue: past its deadline, as a placeholder that is due, sent, or
    failed with no attempt left before the deadline. *)
Inductive may_end (m : Mail) : forall E A, Tx E A -> Prop :=
| ends_picking ue now :
    past_deadline now m \/ (m_placeholder m = true /\ m_next_attempt_at m <= now) ->
    may_end m SqlError Pick (pick (KINDS ue) now)
| ends_retention ue now : past_deadline now m -> may_end m SqlError unit (retention_outbox (KINDS ue) now)
| ends_record ue o t :
    o = Sent \/ next_attempt (m_attempts m + 1) t (deadline (m_queued_at m) (m_expires_at m)) = None ->
    may_end m SqlError unit (record (KINDS ue) (m_id m) o t).

Lemma find_unsent_unique d m : outbox_inv d -> m ∈ outbox d -> m_outcome m = None -> find_unsent (m_id m) d = Some m.
Proof.
  intros (_ & Hu & _) Hm Ho. destruct (find_unsent (m_id m) d) as [m'|] eqn:Ef.
  - apply find_unsent_elem in Ef as [Hm' Hid]. f_equal. by apply Hu.
  - unfold find_unsent in Ef. apply find_first_None in Ef. rewrite Forall_forall in Ef. specialize (Ef m Hm).
    unfold unsent in Ef. by rewrite Z.eqb_refl, bool_decide_eq_true_2 in Ef.
Qed.

Lemma record_other ue id o t w x w' m :
  record (KINDS ue) id o t w = (Ok x, w') -> m ∈ outbox (db w) -> m_outcome m = None -> m_id m <> id -> m ∈ outbox (db w').
Proof.
  intros H Hm Ho Hid. unfold record in H. apply Tx_bind_Ok in H as (row & w1 & Hq & H). apply query_Ok in Hq as [-> ->].
  cbn [db with_db tick] in H. destruct (find_unsent id (db w)) as [r|]; [|by tx_inv; subst]. cbv zeta in H.
  assert (Hne : (m_id m =? id) = false) by by apply Z.eqb_neq.
  assert (Hupd : forall f, m ∈ update_where (fun m => m_id m =? id) f (outbox (db w))).
  { intros f. apply elem_of_update_where. exists m. by rewrite Hne. }
  destruct o as [|f]; [destruct (m_token r)|destruct (next_attempt _ _ _)].
  - apply execute_Ok in H as ->. cbn. by apply elem_of_delete_where.
  - apply execute_Ok in H as ->. apply Hupd.
  - apply execute_Ok in H as ->. apply Hupd.
  - apply Tx_bind_Ok in H as (y & w2 & He & H). apply execute_Ok in He as ->.
    destruct (give_up_keeps _ _ _ _ _ H m (Hupd _) Ho) as [|Hid']; [done|]. by cbn in Hid'.
Qed.

(** What a record leaves to be sent: the other rows, and its own if that was put off. *)
Lemma record_after ue id o t w x w' m' :
  record (KINDS ue) id o t w = (Ok x, w') -> m' ∈ outbox (db w') -> m_outcome m' = None ->
  (m' ∈ outbox (db w) /\ m_id m' <> id) \/
  (o <> Sent /\ m_id m' = id /\ t < m_next_attempt_at m' /\
   exists m, m ∈ outbox (db w) /\ m_outcome m = None /\ m_id m = id /\ m_recipient m' = m_recipient m).
Proof.
  unfold record. intros H Hm Ho. apply Tx_bind_Ok in H as (row & w1 & Hq & H). apply query_Ok in Hq as [-> ->].
  cbn [db with_db tick] in H.
  destruct (find_unsent id (db w)) as [r|] eqn:Ef; cbv zeta in H.
  - destruct o as [|f]; [destruct (m_token r)|destruct (next_attempt _ _ _) as [next|] eqn:En].
    + apply execute_Ok in H as ->. apply elem_of_delete_where in Hm as [Hm Hid]. left. split; [done|]. by propify.
    + apply execute_Ok in H as ->. apply elem_of_update_where in Hm as (y & Hy & ->).
      destruct (m_id y =? id) eqn:Ey; [done|]. left. split; [done|]. by propify.
    + apply execute_Ok in H as ->. apply elem_of_update_where in Hm as (y & Hy & ->).
      destruct (m_id y =? id) eqn:Ey; [|left; split; [done|by propify]]. apply next_attempt_bounds in En. propify.
      right. cbn. split_and!; [done|done|lia|]. by exists y.
    + apply Tx_bind_Ok in H as (y & w2 & He & H). apply execute_Ok in He as ->. left.
      destruct (give_up_unsent _ _ _ _ _ H m' Hm Ho) as [Hm2 Hid]. split; [|done].
      apply elem_of_update_where in Hm2 as (z & Hz & ->). destruct (m_id z =? id) eqn:Ez; [|done]. by propify.
  - tx_inv. subst. left. split; [done|]. intros Hid. unfold find_unsent in Ef. apply find_first_None in Ef.
    rewrite Forall_forall in Ef. specialize (Ef m' Hm). unfold unsent in Ef.
    by rewrite Hid, Z.eqb_refl, bool_decide_eq_true_2 in Ef.
Qed.

(** A record ends its own row or puts it off; the others stay. *)
Lemma record_keeps ue id o t w x w' m :
  outbox_inv (db w) -> record (KINDS ue) id o t w = (Ok x, w') -> m ∈ outbox (db w) -> m_outcome m = None ->
  (exists m', m' ∈ outbox (db w') /\ m_outcome m' = None /\ same_mail m m') \/
  (id = m_id m /\ (o = Sent \/ next_attempt (m_attempts m + 1) t (deadline (m_queued_at m) (m_expires_at m)) = None)).
Proof.
  intros Hi H Hm Ho.
  assert (Hstay : m ∈ outbox (db w') -> exists m', m' ∈ outbox (db w') /\ m_outcome m' = None /\ same_mail m m').
  { intros Hm'. exists m. by split_and!. }
  destruct (base.decide (m_id m = id)) as [<-|Hid].
  - unfold record in H. apply Tx_bind_Ok in H as (row & w1 & Hq & H). apply query_Ok in Hq as [-> ->]. cbn [db with_db tick] in H.
    rewrite (find_unsent_unique _ _ Hi Hm Ho) in H. cbv zeta in H. destruct o as [|f]; [right; by split; [|left]|].
    destruct (next_attempt _ _ _) as [next|] eqn:En; [left|by right; split; [|right]].
    apply execute_Ok in H as ->. exists (set_attempts (m_attempts m + 1) next m). split; [|done].
    cbn. apply elem_of_update_where. exists m. split; [done|]. by rewrite Z.eqb_refl.
  - left. apply Hstay. by eapply record_other.
Qed.

Section Kept.
Context `{Crates} (app : App).

(** C22: no queued mail is lost. Whatever transaction of the whole server commits, a mail that
    was still to be sent is still to be sent with the same recipient and text, unless it
    was recorded as sent, its deadline has passed, no attempt is left before the deadline,
    or it is a placeholder that was never to be sent. *)
Theorem queued_mail_is_kept (E A : Type) (t : Tx E A) (w w' : World) (a : A) (m : Mail) :
  transaction app E A t -> outbox_inv (db w) -> t w = (Ok a, w') -> m ∈ outbox (db w) -> m_outcome m = None ->
  (exists m', m' ∈ outbox (db w') /\ m_outcome m' = None /\ same_mail m m') \/ may_end m E A t.
Proof.
  intros Ht Hi Hr Hm Ho.
  assert (Hstay : follows (kept (fun _ => False)) t -> exists m', m' ∈ outbox (db w') /\ m_outcome m' = None /\ same_mail m m').
  { intros Hk. destruct (Hk _ _ _ Hr m Hm Ho) as [Hm'|[]]. exists m. by split_and!. }
  assert (Hkeep : forall gone, kept gone w w' -> (exists m', m' ∈ outbox (db w') /\ m_outcome m' = None /\ same_mail m m') \/ gone m).
  { intros gone Hk. destruct (Hk m Hm Ho) as [Hm'|]; [left|by right]. exists m. by split_and!. }
  destruct Ht as [[Ht|Ht]|Ht].
  - destruct (follows_request_tx app (kept (fun _ => False)) E A t Ht) as [Hf|Hret]; [left; by apply Hstay|].
    clear Ht. destruct Hret as [ue now].
    destruct (Hkeep _ (retention_keeps _ _ _ _ _ Hi Hr)) as [|Hg]; [by left|right; by constructor].
  - destruct Ht as [ue now|ue i o n].
    { destruct (Hkeep _ (pick_keeps _ _ _ _ _ Hi Hr)) as [|Hg]; [by left|right; by constructor]. }
    destruct (record_keeps _ _ _ _ _ _ _ m Hi Hr Hm Ho) as [|[-> Hg]]; [by left|right; by constructor].
  - left. apply Hstay. by apply (follows_project_tx (kept (fun _ => False))).
Qed.

(** The queue is sound before and after every transaction. *)
Lemma transactions_keep_outbox_inv (E A : Type) (t : Tx E A) : transaction app E A t -> preserves outbox_inv t.
Proof.
  intros Ht w a w' Hr.
  destruct Ht as [[Ht|Ht]|Ht]; [|destruct Ht; [by eapply pick_inv|by eapply record_inv]|].
  - destruct (follows_request_tx app sound E A t Ht) as [Hf|Hret]; [by eapply Hf|].
    clear Ht. destruct Hret as [ue now]. revert Hr. unfold retention_outbox.
    intros Hr Hi. apply Tx_bind_Ok in Hr as (n & w1 & Hg & Hr). apply execute_Ok in Hr as ->. apply outbox_inv_delete.
    revert Hg Hi. unfold give_up_expired. intros Hg Hi. tx_inv. subst.
    eapply give_up_all_inv; [eassumption|exact Hi].
  - by eapply (follows_project_tx sound).
Qed.
End Kept.

(** ** On a concrete run *)

(** A reset request by Mia while two mails wait. *)
Definition waiting_db : Db := set_outbox (fun _ => [sample_mail 1 Normal 3; sample_mail 2 Security 4]) 2 accounts_db.
Definition waiting : World := quiet waiting_db (octets 400).
Definition asked_again : World := (queue_reset the_app (lit "mia@kohaku.example") t0 waiting).2.

Lemma waiting_inv : outbox_inv waiting_db.
Proof.
  split_and!; cbn.
  - intros m Hm _. repeat (apply elem_of_cons in Hm as [->|Hm]; [done|]). by apply not_elem_of_nil in Hm.
  - intros m m' Hm Hm'. repeat (apply elem_of_cons in Hm as [->|Hm]); repeat (apply elem_of_cons in Hm' as [->|Hm']);
      try (by apply not_elem_of_nil in Hm); try (by apply not_elem_of_nil in Hm'); done.
  - intros m Hm. repeat (apply elem_of_cons in Hm as [->|Hm]; [cbn; lia|]). by apply not_elem_of_nil in Hm.
Qed.

Lemma queued_mail_is_kept_witness :
  outbox_inv waiting_db /\
  ((exists m', m' ∈ outbox (db asked_again) /\ m_outcome m' = None /\ same_mail (sample_mail 1 Normal 3) m') \/
   may_end (sample_mail 1 Normal 3) AuthError unit (queue_reset the_app (lit "mia@kohaku.example") t0)).
Proof.
  pose proof waiting_inv as Hi.
  split; [exact Hi|].
  apply (queued_mail_is_kept the_app AuthError unit (queue_reset the_app (lit "mia@kohaku.example") t0) waiting asked_again tt).
  - apply account_transaction, of_request. constructor.
  - exact Hi.
  - run.
  - by left.
  - reflexivity.
Defined.
