(* ===== verification/Worker.v ===== *)
(** * The outbox worker at work (src/src/mail/outbox.rs)

    [Worker::run] beside everything else that commits to the database: it picks, attempts,
    records and sleeps until the next row is due or a wake-up comes, while requests, jobs
    and commands of other processes commit their transactions in between. *)

From S2P Require Import Prelude Str Codec Keys Net Rate Cli Config Urls Totp Text Time Http Db.
From S2P Require Import Outbox Auth Credentials Accounts Hosts Projects Jobs System Demo Samples Queue.

Definition WORKER_ERROR_PAUSE : Z := 5.

(** ** The machine *)

(** Where the loop is: about to pick, with an attempt in flight, idle after a pick, asleep,
    in the pause after a failed pick, or stopped. *)
Inductive Phase :=
| Picking
| Attempting (row : DueRow)
| Idling (next : option Z)
| Sleeping (until : option Z)
| Paused (until : Z)
| Ended.

(** The database, the clock in Unix seconds, and whether the [Notify] holds a permit. *)
Record Machine := { m_db : Db; m_now : Z; m_phase : Phase; m_notified : bool }.

Definition machine_start (d : Db) (now : Z) : Machine :=
  {| m_db := d; m_now := now; m_phase := Picking; m_notified := false |}.

Definition after_pick (p : Pick) : Phase :=
  match p with Due row => Attempting row | Idle next => Idling next end.

Definition at_phase (p : Phase) (s : Machine) : Machine :=
  {| m_db := m_db s; m_now := m_now s; m_phase := p; m_notified := m_notified s |}.

Definition committed (d : Db) (notified : bool) (s : Machine) : Machine :=
  {| m_db := d; m_now := m_now s; m_phase := m_phase s; m_notified := notified |}.

Section Machine.
Context `{Crates} (app : App).

(** The transactions of commands, which run in processes of their own. *)
Inductive command_tx : forall E A, Tx E A -> Prop :=
| command_unlock e now : command_tx AccountCommandError _ (with_account_tx e (unlock_tx now))
| command_reset_password e now :
    command_tx AccountCommandError _ (with_account_tx e (reset_password_tx app now))
| command_project slug s now : command_tx ProjectError _ (_ ← create slug s CliActor now; mret tt).

(** One step of the worker or of its surroundings. *)
Inductive wstep (s : Machine) : Machine -> Prop :=
| picks ue w p w' :
    m_phase s = Picking -> db w = m_db s -> pick (KINDS ue) (m_now s) w = (Ok p, w') ->
    wstep s (at_phase (after_pick p) (committed (db w') (m_notified s) s))
| pick_fails : m_phase s = Picking -> wstep s (at_phase (Paused (m_now s + WORKER_ERROR_PAUSE)) s)
| records row o ue w x w' :
    m_phase s = Attempting row -> db w = m_db s ->
    record (KINDS ue) (due_id row) o (m_now s) w = (Ok x, w') ->
    wstep s (at_phase Picking (committed (db w') (m_notified s) s))
| record_fails row : m_phase s = Attempting row -> wstep s (at_phase Picking s)
| sleeps next :
    m_phase s = Idling next ->
    wstep s (at_phase (Sleeping ((fun d => m_now s + d) <$> idle_wait next (m_now s))) s)
| wakes_up :
    match m_phase s with Sleeping _ | Paused _ => True | _ => False end -> m_notified s = true ->
    wstep s (at_phase Picking (committed (m_db s) false s))
| sleep_ends u :
    m_phase s = Sleeping (Some u) \/ m_phase s = Paused u -> u <= m_now s -> wstep s (at_phase Picking s)
| stops :
    match m_phase s with Attempting _ | Sleeping _ | Paused _ => True | _ => False end ->
    wstep s (at_phase Ended s)
| restarts : wstep s (machine_start (m_db s) (m_now s))
| time_passes t :
    m_now s <= t -> wstep s {| m_db := m_db s; m_now := t; m_phase := m_phase s; m_notified := m_notified s |}
| commits E A (t : Tx E A) w a w' :
    request_tx app E A t \/ project_tx E A t -> db w = m_db s -> t w = (Ok a, w') ->
    wstep s (committed (db w') (m_notified s || (wakes w <? wakes w')) s)
| commits_sign_in now w a w' :
    db w = m_db s -> retention_sign_in now w = (Ok a, w') -> wstep s (committed (db w') (m_notified s) s)
| rolls_back : wstep s (committed (m_db s) true s)
| command_commits E A (t : Tx E A) w a w' :
    command_tx E A t -> db w = m_db s -> t w = (Ok a, w') -> wstep s (committed (db w') (m_notified s) s).
End Machine.

(** ** Commits *)

Section Commits.
Context `{Crates} (app : App).

Lemma commit_moves E A (t : Tx E A) : request_tx app E A t \/ project_tx E A t -> follows (moves true) t.
Proof.
  intros [Ht|Ht]; [|by apply (follows_project_tx (moves true))].
  destruct (follows_request_tx app (moves true) E A t Ht) as [|Hret]; [done|]. clear Ht. destruct Hret as [ue now].
  apply (follows_retention (moves true)).
Qed.

Lemma command_moves E A (t : Tx E A) : command_tx app E A t -> follows (moves false) t.
Proof.
  destruct 1; [apply (follows_with_account (moves false)); intros u; unfold unlock_tx; follow
    |apply (follows_with_account (moves false)); intros u; unfold reset_password_tx; follow|].
  apply (follows_project_tx (moves false) ProjectError unit). constructor.
Qed.
End Commits.

(** ** The invariant *)

Definition ids_ok (d : Db) : Prop := forall m, m ∈ outbox d -> m_outcome m = None -> m_id m <= outbox_seq d.

(** Every row to be sent is due no earlier than the end of the sleep, unless a wake-up is
    pending. *)
Definition covered (s : Machine) : Prop :=
  match m_phase s with
  | Attempting row => due_id row <= outbox_seq (m_db s)
  | Idling next =>
      m_notified s = true \/
      forall m, m ∈ outbox (m_db s) -> m_outcome m = None -> exists at_, next = Some at_ /\ at_ <= m_next_attempt_at m
  | Sleeping until =>
      m_notified s = true \/
      forall m, m ∈ outbox (m_db s) -> m_outcome m = None ->
        exists u, until = Some u /\ u <= Z.max (m_next_attempt_at m) (m_now s)
  | Paused u => u <= m_now s + WORKER_ERROR_PAUSE
  | _ => True
  end.

Record Inv (s : Machine) : Prop := { inv_ids : ids_ok (m_db s); inv_covered : covered s }.

Lemma ids_ok_moves q w w' : moves q w w' -> ids_ok (db w) -> ids_ok (db w').
Proof.
  intros [_ Hs Hr] Hi m Hm Ho. destruct (Hr m Hm Ho) as [Hold|[[_ Hn] _]]; [|done]. specialize (Hi m Hold Ho). lia.
Qed.

(** A commit of others, seen or announced. *)
Lemma worker_inv_committed q s w w' n :
  Inv s -> db w = m_db s -> moves q w w' -> (m_notified s = true -> n = true) ->
  (wakes w < wakes w' -> n = true) -> Inv (committed (db w') n s).
Proof.
  intros [Hi Hc] Hw Hm Hn Hk. rewrite <- Hw in Hi. split; [by apply (ids_ok_moves q w)|].
  destruct Hm as [_ Hs Hr]. rewrite Hw in Hs, Hr. unfold covered in *. cbn. destruct (m_phase s); try done; [lia|..].
  all: destruct Hc as [Hc|Hc]; [by left; apply Hn|].
  all: destruct (base.decide (n = true)) as [->|Hf]; [by left|right].
  all: intros m Hm Ho; destruct (Hr m Hm Ho) as [Hold|[_ Hw']]; [by apply Hc|by destruct Hf; apply Hk].
Qed.

(** What a pick leaves. *)
Lemma fold_min_le l a :
  fold_left (fun a b => Z.min a (m_next_attempt_at b)) l a <= a /\
  Forall (fun m => fold_left (fun a b => Z.min a (m_next_attempt_at b)) l a <= m_next_attempt_at m) l.
Proof.
  revert a. induction l as [|x l IH]; intros a; cbn [fold_left]; [split; [lia|constructor]|].
  destruct (IH (Z.min a (m_next_attempt_at x))) as [Ha Hl]. split; [lia|]. constructor; [lia|done].
Qed.

Lemma min_next_le l m :
  m ∈ l -> m_outcome m = None -> exists at_, min_next l = Some at_ /\ at_ <= m_next_attempt_at m.
Proof.
  intros Hm Ho. unfold min_next.
  assert (Hin : m ∈ List.filter (fun m => bool_decide (m_outcome m = None)) l).
  { apply list_elem_of_In, filter_In. split; [by apply list_elem_of_In|by apply bool_decide_eq_true]. }
  destruct (List.filter _ l) as [|x k]; [by apply not_elem_of_nil in Hin|]. eexists. split; [done|].
  destruct (fold_min_le k (m_next_attempt_at x)) as [Hx Hk]. rewrite Forall_forall in Hk.
  apply elem_of_cons in Hin as [->|Hin]; [done|by apply Hk].
Qed.

Lemma pick_idle ue now w next w' : pick (KINDS ue) now w = (Ok (Idle next), w') -> next = min_next (outbox (db w')).
Proof. unfold pick. intros Hp. tx_inv. destruct x1; tx_inv; [done|]. by subst. Qed.

Lemma record_seq ue id o t w x w' : record (KINDS ue) id o t w = (Ok x, w') -> outbox_seq (db w) <= outbox_seq (db w').
Proof.
  unfold record. intros Hr. apply Tx_bind_Ok in Hr as (row & w1 & Hq & Hr). apply query_Ok in Hq as [-> ->].
  destruct (find_unsent id (db w)) as [m|]; [|by tx_inv; subst]. cbv zeta in Hr.
  destruct o as [|f]; [destruct (m_token m)|destruct (next_attempt _ _ _)]; try (by apply execute_Ok in Hr as ->).
  apply Tx_bind_Ok in Hr as (y & w2 & He & Hr). apply execute_Ok in He as ->.
  by pose proof (follows_give_up (moves false) _ _ _ _ _ Hr) as [_ Hs _].
Qed.

(** What a record leaves: the same rows but perhaps later ones, without the sent one. *)
Lemma record_rows ue id o t w x w' :
  record (KINDS ue) id o t w = (Ok x, w') ->
  outbox_seq (db w) <= outbox_seq (db w') /\
  forall m', m' ∈ outbox (db w') -> m_outcome m' = None ->
    (exists m, m ∈ outbox (db w) /\ m_outcome m = None /\ m_id m = m_id m') /\ (o = Sent -> m_id m' <> id).
Proof.
  intros Hr. split; [by eapply record_seq|]. intros m' Hm Ho.
  destruct (record_after _ _ _ _ _ _ _ _ Hr Hm Ho) as [[Hm0 Hid]|(Hs & Hid & _ & m & Hm0 & Ho0 & Hid0 & _)].
  - split; [by exists m'|done].
  - split; [|done]. exists m. by rewrite Hid.
Qed.

Section Reachable.
Context `{Crates} (app : App).

Lemma worker_inv_wstep s s' : Inv s -> wstep app s s' -> Inv s'.
Proof.
  intros HI Hs. assert (HI0 := HI). destruct HI0 as [Hi Hc]. destruct Hs as [ue w p w' Hp Hw Hr|Hp|row o ue w x w' Hp Hw Hr
    |row Hp|next Hp|Hp Hn|u Hp Hu|Hp| |t Ht|E A t w a w' Ht Hw Hr|now w a w' Hw Hr| |E A t w a w' Ht Hw Hr].
  - pose proof (follows_pick (moves false) _ _ _ _ _ Hr) as Hm. rewrite <- Hw in Hi. split; [by apply (ids_ok_moves false w)|].
    unfold covered. cbn. destruct p as [row|next]; cbn.
    + apply pick_spec in Hr as (m & Hm1 & <- & _ & Ho & _). by apply (ids_ok_moves false w).
    + right. apply pick_idle in Hr as ->. intros m. apply min_next_le.
  - split; [done|]. unfold covered. cbn. lia.
  - apply record_rows in Hr as [Hs Hr]. rewrite Hw in Hs, Hr. split; [|done]. intros m Hm Ho. cbn in *.
    destruct (Hr m Hm Ho) as [(m0 & Hm0 & Ho0 & <-) _]. specialize (Hi m0 Hm0 Ho0). lia.
  - by split.
  - split; [done|]. unfold covered in *. rewrite Hp in Hc. cbn. destruct Hc as [|Hc]; [by left|right].
    intros m Hm Ho. destruct (Hc m Hm Ho) as (at_ & -> & Hat). cbn. eexists. split; [done|lia].
  - by split.
  - by split.
  - by split.
  - by split.
  - split; [done|]. unfold covered in *. cbn. destruct (m_phase s); try done; [|lia].
    destruct Hc as [|Hc]; [by left|right]. intros m Hm Ho. destruct (Hc m Hm Ho) as (u & -> & Hu). exists u. split; [done|lia].
  - apply (worker_inv_committed true s w w'); [done|done|by eapply commit_moves| |].
    + by intros ->.
    + intros Hlt. apply orb_true_iff. right. by apply Z.ltb_lt.
  - pose proof (follows_sign_in (moves false) now _ _ _ Hr) as Hm. apply (worker_inv_committed false s w w'); try done.
    destruct Hm as [Hm _ _]. lia.
  - apply (worker_inv_committed false s (quiet (m_db s) []) (quiet (m_db s) [])); done.
  - pose proof (command_moves app E A t Ht _ _ _ Hr) as Hm. apply (worker_inv_committed false s w w'); try done.
    destruct Hm as [Hm _ _]. lia.
Qed.

Lemma worker_inv_reachable d t s : ids_ok d -> rtc (wstep app) (machine_start d t) s -> Inv s.
Proof.
  intros Hd Hr. assert (HI : Inv (machine_start d t)) by by split. revert HI.
  induction Hr as [|s s1 s2 Hs Hr IH]; [done|]. intros HI. by apply IH, (worker_inv_wstep s).
Qed.

(** ** Theorems *)

(** C20: no wake-up is lost. Whatever requests, jobs, other processes and the worker's own
    failures are interleaved, a sleeping worker has a wake-up pending, or sleeps no longer
    than until the first row to be sent is due (no longer at all, when one is due); and the
    pause after a failed pick lasts at most five seconds. *)
Theorem no_lost_wakeup (d : Db) (t : Z) (s : Machine) (m : Mail) :
  ids_ok d -> rtc (wstep app) (machine_start d t) s -> m ∈ outbox (m_db s) -> m_outcome m = None ->
  match m_phase s with
  | Sleeping until =>
      m_notified s = true \/ exists u, until = Some u /\ u <= Z.max (m_next_attempt_at m) (m_now s)
  | Paused u => u <= m_now s + WORKER_ERROR_PAUSE
  | _ => True
  end.
Proof.
  intros Hd Hr Hm Ho. destruct (worker_inv_reachable d t s Hd Hr) as [_ Hc]. unfold covered in Hc.
  destruct (m_phase s); try done. destruct Hc as [|Hc]; [by left|right]. by apply Hc.
Qed.

(** A row number that is behind. *)
Definition done_with (i : Z) (d : Db) : Prop :=
  i <= outbox_seq d /\ forall m, m ∈ outbox d -> m_outcome m = None -> m_id m <> i.

Lemma done_with_moves q i w w' : moves q w w' -> done_with i (db w) -> done_with i (db w').
Proof.
  intros [_ Hs Hr] [Hi Hd]. split; [lia|]. intros m Hm Ho.
  destruct (Hr m Hm Ho) as [Hold|[Hn _]]; [by apply Hd|lia].
Qed.

(** Once the database is done with a row, the worker attempts it never again. *)
Definition behind (i : Z) (s : Machine) : Prop :=
  done_with i (m_db s) /\ forall row, m_phase s = Attempting row -> due_id row <> i.

Lemma behind_wstep i s s' : behind i s -> wstep app s s' -> behind i s'.
Proof.
  intros [Hd Hp] Hs. destruct Hs as [ue w p w' Hph Hw Hr|Hph|row o ue w x w' Hph Hw Hr
    |row Hph|next Hph|Hph Hn|u Hph Hu|Hph| |t Ht|E A t w a w' Ht Hw Hr|now w a w' Hw Hr| |E A t w a w' Ht Hw Hr];
    try (split; [exact Hd|exact Hp || (intros ?; discriminate)]).
  - pose proof (follows_pick (moves false) _ _ _ _ _ Hr) as Hm. rewrite <- Hw in Hd. apply (done_with_moves _ _ _ _ Hm) in Hd.
    split; [done|]. cbn. intros row Hrow. destruct p as [row'|]; [|done]. injection Hrow as ->.
    apply pick_spec in Hr as (m & Hm1 & Hid & _ & Ho & _). rewrite <- Hid. by apply (proj2 Hd).
  - apply record_rows in Hr as [Hs Hr]. rewrite Hw in Hs, Hr. destruct Hd as [Hi Hd]. split; [|done].
    split; cbn in *; [lia|]. intros m Hm Ho. destruct (Hr m Hm Ho) as [(m0 & Hm0 & Ho0 & <-) _]. by apply Hd.
  - rewrite <- Hw in Hd. split; [|done]. apply (done_with_moves true i w); [by eapply commit_moves|done].
  - rewrite <- Hw in Hd. split; [|done]. apply (done_with_moves false i w); [by eapply (follows_sign_in (moves false))|done].
  - rewrite <- Hw in Hd. split; [|done]. apply (done_with_moves false i w); [by eapply command_moves|done].
Qed.

(** C21: a mail that was recorded as sent is never attempted again, through everything that
    happens later, restarts included. *)
Theorem sent_mail_is_not_sent_again (d : Db) (t ue : Z) (s s' : Machine) (row row' : DueRow) (w w' : World) (x : unit) :
  ids_ok d -> rtc (wstep app) (machine_start d t) s -> m_phase s = Attempting row ->
  db w = m_db s -> record (KINDS ue) (due_id row) Sent (m_now s) w = (Ok x, w') ->
  rtc (wstep app) (at_phase Picking (committed (db w') (m_notified s) s)) s' ->
  m_phase s' = Attempting row' -> due_id row' <> due_id row.
Proof.
  intros Hd Hr Hph Hw Hrec Hr' Hph'. destruct (worker_inv_reachable d t s Hd Hr) as [_ Hc]. unfold covered in Hc.
  rewrite Hph in Hc. apply record_rows in Hrec as [Hs Hrec]. rewrite Hw in Hs.
  assert (Hb : behind (due_id row) (at_phase Picking (committed (db w') (m_notified s) s))).
  { split; [|done]. split; cbn; [lia|]. intros m Hm Ho. by apply (proj2 (Hrec m Hm Ho)). }
  revert Hb Hph'. clear -Hr'. generalize dependent (at_phase Picking (committed (db w') (m_notified s) s)).
  intros s0 Hr'. induction Hr' as [s0|s0 s1 s2 Hs Hr' IH]; intros Hb Hph'; [by apply (proj2 Hb)|].
  apply IH; [by apply (behind_wstep _ s0)|done].
Qed.
End Reachable.

(** ** On concrete runs *)

(** The worker finds nothing and sleeps; then Mia asks for a reset link. *)
Definition idle_world : World := (pick (KINDS t0) t0 start).2.
Definition asleep : Machine := at_phase (Sleeping None) (machine_start (db idle_world) t0).
Definition mia_asks : World := (queue_reset the_app (lit "mia@kohaku.example") t0 (with_db (db idle_world) start)).2.
Definition called : Machine := committed (db mia_asks) true asleep.
Definition mia_mail : option Mail := head (outbox (db mia_asks)).

Lemma reach_called : rtc (wstep the_app) (machine_start accounts_db t0) called.
Proof.
  eapply rtc_l; [apply (picks the_app _ t0 start (Idle None) idle_world); [reflexivity|reflexivity|run]|].
  eapply rtc_l; [by apply (sleeps the_app _ None)|]. eapply rtc_l; [|apply rtc_refl].
  change called with (committed (db mia_asks) (m_notified asleep || (wakes (with_db (db idle_world) start) <? wakes mia_asks)) asleep).
  apply (commits the_app asleep AuthError unit (queue_reset the_app (lit "mia@kohaku.example") t0)
    (with_db (db idle_world) start) tt mia_asks).
  - left. constructor.
  - reflexivity.
  - run.
Qed.

Lemma no_lost_wakeup_witness :
  exists m, mia_mail = Some m /\
    (m_notified called = true \/ exists u, @None Z = Some u /\ u <= Z.max (m_next_attempt_at m) (m_now called)).
Proof.
  eexists. split; [vm_compute; reflexivity|].
  refine (no_lost_wakeup the_app accounts_db t0 called _ _ reach_called _ _).
  - intros m Hm. by apply not_elem_of_nil in Hm.
  - vm_compute. by left.
  - reflexivity.
Defined.

(** Two mails are due: the second is sent, then the first is attempted. *)
Definition first_pick : World := (pick (KINDS 5) 5 (quiet sample_db [])).2.
Definition row_of (r : result SqlError Pick * World) : DueRow :=
  match r.1 with
  | Ok (Due row) => row
  | _ => {| due_id := 0; due_kind := []; due_address := []; due_subject := []; due_body := [];
            due_priority := Normal; due_attempts := 0 |}
  end.
Definition row_two : DueRow := row_of (pick (KINDS 5) 5 (quiet sample_db [])).
Definition sending : Machine := at_phase (Attempting row_two) (machine_start (db first_pick) 5).
Definition sent_two : World := (record (KINDS 5) (due_id row_two) Sent 5 first_pick).2.
Definition second_pick : World := (pick (KINDS 5) 5 sent_two).2.
Definition row_one : DueRow := row_of (pick (KINDS 5) 5 sent_two).

Lemma sent_mail_is_not_sent_again_witness : due_id row_one <> due_id row_two.
Proof.
  apply (sent_mail_is_not_sent_again the_app sample_db 5 5 sending
    (at_phase (Attempting row_one) (machine_start (db second_pick) 5)) row_two row_one first_pick sent_two tt).
  - intros m Hm _. cbn in Hm |- *. repeat (apply elem_of_cons in Hm as [->|Hm]; [cbn; lia|]). by apply not_elem_of_nil in Hm.
  - apply rtc_once. apply (picks the_app (machine_start sample_db 5) 5 (quiet sample_db []) (Due row_two) first_pick);
      [reflexivity|reflexivity|vm_compute; reflexivity].
  - reflexivity.
  - reflexivity.
  - vm_compute. reflexivity.
  - apply rtc_once.
    apply (picks the_app (at_phase Picking (committed (db sent_two) false sending)) 5 sent_two (Due row_one) second_pick);
      [reflexivity|reflexivity|vm_compute; reflexivity].
  - reflexivity.
Defined.
