(* ===== verification/Delivery.v ===== *)
(** * Draining the queue (src/src/mail/outbox.rs)

    [Worker::run] while nobody else commits and the database does not fail: round by round
    until a pick finds nothing due. Each due mail is attempted once, and the loop gets to its
    sleep after as many rounds as there are due mails. *)

From stdpp Require Import gmap.
From S2P Require Import Prelude Str Keys Db Outbox Auth Queue Demo Samples.

(** The iterations of the loop up to an idle pick, at one instant; the attempts end at
    [ended_at]. The flag says whether an idle pick was reached. *)
Fixpoint worker_loop (fuel : nat) (kinds : list MailKind) (deliver : DueRow -> Outcome) (now ended_at : Z)
  : Tx SqlError (list DueRow * bool) :=
  match fuel with
  | O => mret ([], false)
  | S fuel =>
      p ← worker_round kinds deliver now ended_at;
      match p with
      | Idle _ => mret ([], true)
      | Due row => '(rows, idle) ← worker_loop fuel kinds deliver now ended_at; mret (row :: rows, idle)
      end
  end.

(** ** Transactions that cannot fail *)

(** [t] succeeds, without failures, from the databases in [P], keeps the accounts and takes
    no other transaction's turn. *)
Definition steady (P : Db -> Prop) {E A} (t : Tx E A) : Prop :=
  forall w, faults w = [] -> P (db w) ->
  exists a w', t w = (Ok a, w') /\ faults w' = [] /\ others w' = others w /\ users (db w') = users (db w).

Definition anything (d : Db) : Prop := True.

Lemma steady_bind P Q {E A B} (m : Tx E A) (f : A -> Tx E B) :
  steady P m -> (forall a, steady Q (f a)) ->
  (forall w a w', P (db w) -> m w = (Ok a, w') -> users (db w') = users (db w) -> Q (db w')) -> steady P (m ≫= f).
Proof.
  intros Hm Hf HQ w Hw HP. destruct (Hm w Hw HP) as (a & w1 & H1 & Hw1 & Ho1 & Hu1).
  destruct (Hf a w1 Hw1 (HQ _ _ _ HP H1 Hu1)) as (b & w2 & H2 & Hw2 & Ho2 & Hu2).
  exists b, w2. rewrite (Tx_bind_run _ _ _ _ _ H1). split_and!; [done|done|congruence..].
Qed.

Lemma steady_mret P {E A} (a : A) : steady P (mret a : Tx E A).
Proof. intros w Hw _. by eexists _, _. Qed.

Lemma steady_stmt P {E A} `{FromSql E} (f : Db -> result unit (A * Db)) :
  (forall d, P d -> exists a d', f d = Ok (a, d') /\ users d' = users d) -> steady P (stmt f).
Proof.
  intros Hf w Hw HP. destruct (Hf _ HP) as (a & d & Hd & Hu). exists a, (with_db d (tick w)).
  split; [by apply stmt_run|]. cbn. by rewrite Hw.
Qed.

Lemma steady_query P {E A} `{FromSql E} (f : Db -> A) : steady P (query f).
Proof. apply steady_stmt. intros d _. by eexists _, _. Qed.

Lemma steady_execute P {E} `{FromSql E} (f : Db -> Db) : (forall d, users (f d) = users d) -> steady P (execute f).
Proof. intros Hf. apply steady_stmt. intros d _. eexists _, _. by split. Qed.

(** Without a fault in the way, a write is its body. *)
Lemma steady_write P {E A} `{FromSql E} (t : Tx E A) w :
  steady P t -> faults w = [] -> others w = [] -> P (db w) ->
  exists a w1 w', t (with_db (db w) (tick w)) = (Ok a, w1) /\ write t w = (Ok a, w') /\
    faults w' = [] /\ others w' = [] /\ db w' = db w1 /\ users (db w1) = users (db w).
Proof.
  intros Ht Hf Ho HP. destruct (Ht (with_db (db w) (tick w))) as (a & w1 & H1 & Hw1 & Ho1 & Hu1);
    [cbn; by rewrite Hf|done|]. cbn in Ho1, Hu1. exists a, w1, (with_db (db w1) (tick w1)).
  split; [done|]. split; [by apply write_run|]. cbn. by rewrite Hw1, Ho1, Ho.
Qed.

Lemma steady_give_up ue id : steady anything (give_up_row (KINDS ue) id).
Proof.
  unfold give_up_row. apply (steady_bind _ anything); [apply steady_query| |done].
  intros [m|]; [|apply steady_mret]. apply (steady_bind _ anything); [| |done].
  - destruct (find_kind (KINDS ue) (m_kind m)) as [k|] eqn:Ek; [|apply steady_mret]. cbn.
    destruct (k_give_up k) as [action|] eqn:Ea; [|apply steady_mret].
    apply find_first_Some in Ek as [Hk _]. unfold KINDS in Hk. rewrite !elem_of_cons, elem_of_nil in Hk.
    destruct Hk as [->|[->|[->|[]]]]; cbn in Ea; try discriminate. injection Ea as <-. by apply steady_execute.
  - intros _. destruct (m_token m); by apply steady_execute.
Qed.

Lemma steady_give_up_all ue ids : steady anything (give_up_all (KINDS ue) ids).
Proof.
  induction ids as [|i ids IH]; cbn [give_up_all]; [apply steady_mret|].
  by apply (steady_bind _ anything); [apply steady_give_up|intros _; apply IH|].
Qed.

Lemma steady_record ue id o t : steady anything (record (KINDS ue) id o t).
Proof.
  unfold record. apply (steady_bind _ anything); [apply steady_query| |done]. intros [m|]; [|apply steady_mret]. cbv zeta.
  destruct o as [|f]; [destruct (m_token m); by apply steady_execute|].
  destruct (next_attempt _ _ _); [by apply steady_execute|].
  by apply (steady_bind _ anything); [apply steady_execute|intros _; apply steady_give_up|].
Qed.

(** Every mail to be sent has an address. *)
Definition addressed (d : Db) : Prop :=
  forall m, m ∈ outbox d -> m_outcome m = None -> is_Some (row_address d m).

Lemma addressed_from d d' :
  users d' = users d -> (forall m, m ∈ outbox d' -> m_outcome m = None -> exists m0, m0 ∈ outbox d /\ m_outcome m0 = None /\
    m_recipient m = m_recipient m0) -> addressed d -> addressed d'.
Proof.
  intros Hu Hf Ha m Hm Ho. destruct (Hf m Hm Ho) as (m0 & Hm0 & Ho0 & Hr). specialize (Ha m0 Hm0 Ho0).
  unfold row_address in *. by rewrite Hr, Hu.
Qed.

Lemma steady_select_due now : steady addressed (stmt (select_due now) : Tx SqlError (option DueRow)).
Proof.
  apply steady_stmt. intros d Ha. unfold select_due. destruct (first_by _ _) as [m|] eqn:Ef; [|by eexists _, _].
  apply first_by_least in Ef as [Hm _];
    [|intros; apply lex_le_refl|intros ? ?; apply lex_le_total|intros ? ? ?; apply lex_le_trans].
  apply list_elem_of_In, filter_In in Hm as [Hm Hd]. unfold due in Hd. apply andb_true_iff in Hd as [Ho _].
  destruct (Ha m) as [a ->]; [by apply list_elem_of_In|by apply bool_decide_eq_true in Ho|]. by eexists _, _.
Qed.

Lemma steady_pick ue now : steady addressed (pick (KINDS ue) now).
Proof.
  assert (Hg : steady anything (give_up_expired (KINDS ue) now)).
  { unfold give_up_expired. apply (steady_bind _ anything); [apply steady_query| |done]. intros ids.
    by apply (steady_bind _ anything); [apply steady_give_up_all|intros _; apply steady_mret|]. }
  unfold pick. apply (steady_bind _ addressed).
  - intros w Hw _. by apply Hg.
  - intros n. apply (steady_bind _ addressed); [by apply steady_execute| |].
    + intros _. apply (steady_bind _ anything); [apply steady_select_due| |done].
      intros [row|]; [apply steady_mret|]. by apply (steady_bind _ anything); [apply steady_query|intros; apply steady_mret|].
    + intros w a w' Ha H _. apply execute_Ok in H as ->. eapply addressed_from; [|..|exact Ha]; [done|].
      cbn. intros m [Hm _]%elem_of_delete_where Ho. by exists m.
  - intros w n w' Ha H Hu. eapply addressed_from; [exact Hu| |exact Ha]. intros m Hm Ho. exists m.
    by destruct (give_up_expired_unsent _ _ _ _ _ H m Hm Ho).
Qed.

(** ** What a round does to the mails that are due *)

(** A mail that a pick at [now] would attempt. *)
Definition to_attempt (now : Z) (m : Mail) : bool :=
  due now m && negb (m_placeholder m) && (now <? deadline (m_queued_at m) (m_expires_at m)).

Definition attemptable (now : Z) (d : Db) : gset Z :=
  list_to_set (map m_id (List.filter (to_attempt now) (outbox d))).

Lemma size_ids (l : list Z) : (size (list_to_set l : gset Z) <= length l)%nat.
Proof.
  induction l as [|x l IH]; cbn; [by rewrite size_empty|]. rewrite size_union_alt, size_singleton.
  assert (Hs : (list_to_set l ∖ {[x]} : gset Z) ⊆ list_to_set l) by set_solver. apply subseteq_size in Hs. lia.
Qed.

Lemma elem_of_attemptable now d i :
  i ∈ attemptable now d <-> exists m, m ∈ outbox d /\ to_attempt now m = true /\ m_id m = i.
Proof.
  unfold attemptable. rewrite elem_of_list_to_set, list_elem_of_fmap. split.
  - intros (m & -> & Hm). apply list_elem_of_In, filter_In in Hm as [Hm Ht]. exists m. by apply list_elem_of_In in Hm.
  - intros (m & Hm & Ht & <-). exists m. split; [done|]. apply list_elem_of_In, filter_In. by apply list_elem_of_In in Hm.
Qed.

Lemma to_attempt_unsent now m : to_attempt now m = true -> m_outcome m = None.
Proof. unfold to_attempt, due. intros H. rewrite !andb_true_iff, bool_decide_eq_true in H. tauto. Qed.

Lemma pick_from ue now w p w' m :
  pick (KINDS ue) now w = (Ok p, w') -> m ∈ outbox (db w') -> m_outcome m = None -> m ∈ outbox (db w).
Proof.
  unfold pick. intros H Hm Ho. apply Tx_bind_Ok in H as (n & w1 & Hg & H).
  apply Tx_bind_Ok in H as (u & w2 & Hd & H). apply execute_Ok in Hd as ->.
  apply Tx_bind_Ok in H as (row & w3 & Hs & H). apply stmt_Ok in Hs as (d & Hs & ->).
  assert (Hdb : db w' = d) by (destruct row; tx_inv; by subst).
  assert (Hd : d = change_outbox (delete_where (fun m => m_placeholder m && due now m)) (db w1)).
  { unfold select_due in Hs. destruct (first_by _ _); [|by injection Hs]. destruct (row_address _ _); [|done]. by injection Hs. }
  rewrite Hdb, Hd in Hm. cbn in Hm. apply elem_of_delete_where in Hm as [Hm _].
  by destruct (give_up_expired_unsent _ _ _ _ _ Hg m Hm Ho).
Qed.

(** A pick leaves the mails it may attempt. *)
Lemma pick_attemptable ue now w p w' :
  outbox_inv (db w) -> pick (KINDS ue) now w = (Ok p, w') -> attemptable now (db w') = attemptable now (db w).
Proof.
  intros Hi H. apply set_eq. intros i. rewrite !elem_of_attemptable.
  split; intros (m & Hm & Ht & Hid); exists m; split; try done; pose proof (to_attempt_unsent _ _ Ht) as Ho.
  - by eapply pick_from.
  - destruct (pick_keeps _ _ _ _ _ Hi H m Hm Ho) as [|Hg]; [done|]. exfalso.
    unfold to_attempt, past_deadline in *. destruct Hg as [Hg|[Hp _]]; [lia|]. rewrite Hp in Ht. by rewrite andb_false_r in Ht.
Qed.

(** A record takes its own mail out of them, and no other. *)
Lemma record_attemptable ue id o now t w x w' :
  outbox_inv (db w) -> now <= t -> record (KINDS ue) id o t w = (Ok x, w') ->
  attemptable now (db w') = attemptable now (db w) ∖ {[id]}.
Proof.
  intros Hi Ht H. apply set_eq. intros i. rewrite elem_of_difference, elem_of_singleton, !elem_of_attemptable. split.
  - intros (m & Hm & Hat & <-). pose proof (to_attempt_unsent _ _ Hat) as Ho.
    destruct (record_after _ _ _ _ _ _ _ _ H Hm Ho) as [[Hm0 Hid]|(_ & _ & Hn & _)].
    + split; [by exists m|done].
    + unfold to_attempt, due in Hat. lia.
  - intros [(m & Hm & Hat & <-) Hid]. exists m. split; [|done].
    eapply record_other; [exact H|done|by eapply to_attempt_unsent|done].
Qed.

Lemma record_addressed ue id o t w x w' :
  record (KINDS ue) id o t w = (Ok x, w') -> users (db w') = users (db w) -> addressed (db w) -> addressed (db w').
Proof.
  intros H Hu. apply addressed_from; [done|]. intros m Hm Ho.
  destruct (record_after _ _ _ _ _ _ _ _ H Hm Ho) as [[Hm0 Hid]|(_ & _ & _ & m0 & Hm0 & Ho0 & _ & Hr)]; eauto.
Qed.

Lemma pick_addressed ue now w p w' :
  pick (KINDS ue) now w = (Ok p, w') -> users (db w') = users (db w) -> addressed (db w) -> addressed (db w').
Proof. intros H Hu. apply addressed_from; [done|]. intros m Hm Ho. exists m. split; [by eapply pick_from|done]. Qed.

(** The row of a pick is one of them, and an idle pick means there are none. *)
Lemma pick_attempts ue now w p w' :
  pick (KINDS ue) now w = (Ok p, w') ->
  match p with
  | Due row => due_id row ∈ attemptable now (db w')
  | Idle _ => attemptable now (db w') = ∅ /\ forall m, m ∈ outbox (db w') -> due now m = false
  end.
Proof.
  intros H. pose proof (pick_spec _ _ _ _ _ H) as Hs. destruct p as [row|next].
  - destruct Hs as (m & Hm & Hid & _ & Ho & Hn & Hp & Hd & _). apply elem_of_attemptable. exists m. split; [done|].
    split; [|done]. unfold to_attempt, due. rewrite bool_decide_eq_true_2, Hp by done. cbn. lia.
  - split; [|done]. apply set_eq. intros i. rewrite elem_of_attemptable. split; [|set_solver].
    intros (m & Hm & Ht & _). unfold to_attempt in Ht. by rewrite (Hs m Hm) in Ht.
Qed.

(** ** Rounds *)

Record Ready (w : World) : Prop := {
  ready_faults : faults w = [];
  ready_alone : others w = [];
  ready_inv : outbox_inv (db w);
  ready_addressed : addressed (db w) }.

Lemma round_attempts ue deliver now t w :
  Ready w -> now <= t ->
  exists p w', worker_round (KINDS ue) deliver now t w = (Ok p, w') /\ Ready w' /\
    match p with
    | Idle _ => attemptable now (db w) = ∅ /\ forall m, m ∈ outbox (db w') -> due now m = false
    | Due row => due_id row ∈ attemptable now (db w) /\ attemptable now (db w') = attemptable now (db w) ∖ {[due_id row]}
    end.
Proof.
  intros [Hf Ho Hi Ha] Ht. unfold worker_round.
  destruct (steady_write _ _ w (steady_pick ue now) Hf Ho Ha) as (p & w1 & w2 & Hp & Hw & Hf2 & Ho2 & Hd2 & Hu).
  pose proof (pick_inv _ _ _ _ _ Hp Hi) as Hi2. rewrite <- Hd2 in Hi2, Hu.
  assert (Ha2 : addressed (db w2)).
  { rewrite Hd2. eapply pick_addressed; [exact Hp| |exact Ha]. by rewrite <- Hd2. }
  pose proof (pick_attemptable ue now (with_db (db w) (tick w)) _ _ Hi Hp) as Hat. pose proof (pick_attempts _ _ _ _ _ Hp) as Hrow.
  rewrite <- Hd2 in Hat, Hrow. cbn [db with_db] in Hat. rewrite (Tx_bind_run _ _ _ _ _ Hw).
  destruct p as [row|next].
  - destruct (steady_write anything _ w2 (steady_record ue (due_id row) (deliver row) t) Hf2 Ho2 I)
      as (x & w3 & w4 & Hr & Hw4 & Hf4 & Ho4 & Hd4 & Hu4).
    rewrite (Tx_bind_run _ _ _ _ _ Hw4). exists (Due row), w4. split; [done|].
    rewrite <- Hat, Hd4. split.
    + constructor; rewrite ?Hd4; [done|done|by eapply record_inv|]. eapply record_addressed; [exact Hr|done|exact Ha2].
    + split; [done|]. apply (record_attemptable ue (due_id row) (deliver row) now t (with_db (db w2) (tick w2)) x w3 Hi2 Ht Hr).
  - exists (Idle next), w2. split; [done|]. split; [by constructor|]. rewrite <- Hat. exact Hrow.
Qed.

Lemma drain ue deliver now t fuel w :
  Ready w -> now <= t -> (size (attemptable now (db w)) < fuel)%nat ->
  exists rows w', worker_loop fuel (KINDS ue) deliver now t w = (Ok (rows, true), w') /\ Ready w' /\
    NoDup (map due_id rows) /\ (forall i, i ∈ map due_id rows <-> i ∈ attemptable now (db w)) /\
    forall m, m ∈ outbox (db w') -> due now m = false.
Proof.
  revert w. induction fuel as [|fuel IH]; intros w Hw Ht Hs; [lia|]. cbn [worker_loop].
  destruct (round_attempts ue deliver now t w Hw Ht) as (p & w1 & Hr & Hw1 & Hp).
  rewrite (Tx_bind_run _ _ _ _ _ Hr). destruct p as [row|next].
  - destruct Hp as [Hin Hat]. destruct (IH w1 Hw1 Ht) as (rows & w2 & Hl & Hw2 & Hnd & Hrows & Hidle).
    { rewrite Hat, size_difference by set_solver. rewrite size_singleton.
      assert (Hne : size (attemptable now (db w)) <> 0%nat) by (apply size_non_empty_iff; set_solver). lia. }
    exists (row :: rows), w2. rewrite (Tx_bind_run _ _ _ _ _ Hl). split_and!; [done|done| | |done].
    + cbn. constructor; [|done]. rewrite Hrows, Hat. set_solver.
    + intros i. cbn. rewrite elem_of_cons, Hrows, Hat. destruct (base.decide (i = due_id row)); set_solver.
  - destruct Hp as [He Hidle]. exists [], w1. split_and!; [done|done|by constructor| |done].
    intros i. rewrite He. set_solver.
Qed.


(** ** On a concrete run *)

(** The security mail is refused, the other is sent. *)
Definition refuse_security (row : DueRow) : Outcome :=
  if bool_decide (due_priority row = Security) then Failed {| class := Rejected; code := None |} else Sent.

Definition both_attempted : list Z :=
  match worker_loop 3 (KINDS 5) refuse_security 5 6 (quiet sample_db []) with (Ok (rows, true), _) => map due_id rows | _ => [] end.

Example security_goes_first : both_attempted = [2; 1].
Proof. vm_compute. reflexivity. Qed.

