(* ===== verification/Scheduler.v ===== *)
(** * The job loop (src/src/jobs.rs)

    [jobs::run] as a loop over the instants at which it wakes: the jobs due then run one
    after the other, and it sleeps until the next is due or stop is seen. Its schedule has a
    closed form: every job belongs to the periods since the start, whenever the loop wakes. *)

From S2P Require Import Prelude Str Keys Db Outbox Auth Rate Jobs.

(** ** The loop *)

(** Where [run] is: in the [for] over the jobs that were due at an instant, asleep, or stopped. *)
Inductive LoopPhase := Looping (at_ : Z) (jobs : list Job) | Asleep (wake : Z) | LoopEnded.

(** [ran_jobs] is what ran so far, each job with the instant it was due at. *)
Record Loop := { schedule : Schedule; loop_phase : LoopPhase; ran_jobs : list (Z * Job) }.

(** The start of an iteration at [now]. *)
Definition iterate (now : Z) (l : Loop) : Loop :=
  let '(jobs, s) := due_jobs (schedule l) now in
  {| schedule := s; loop_phase := Looping now jobs; ran_jobs := ran_jobs l |}.

(** The schedule is made at [start], the first iteration looks at [now]. *)
Definition loop_start (start now : Z) : Loop :=
  iterate now {| schedule := schedule_new start; loop_phase := LoopEnded; ran_jobs := [] |}.

(** A job ends; stop is seen by the select of retention or of the sleep; the sleep may end. *)
Inductive LoopEvent := JobDone | Stop | Wakes (now : Z).

Definition loop_step (l : Loop) (e : LoopEvent) : Loop :=
  match loop_phase l, e with
  | Looping t (j :: jobs), JobDone =>
      {| schedule := schedule l; loop_phase := Looping t jobs; ran_jobs := ran_jobs l ++ [(t, j)] |}
  | Looping _ (Retention :: _), Stop => {| schedule := schedule l; loop_phase := LoopEnded; ran_jobs := ran_jobs l |}
  | Looping _ [], _ =>
      {| schedule := schedule l; loop_phase := Asleep (next_wake (schedule l)); ran_jobs := ran_jobs l |}
  | Asleep wake, Wakes now => if wake <=? now then iterate now l else l
  | Asleep _, Stop => {| schedule := schedule l; loop_phase := LoopEnded; ran_jobs := ran_jobs l |}
  | _, _ => l
  end.

Definition loop_run (l : Loop) (es : list LoopEvent) : Loop := fold_left loop_step es l.

(** ** The schedule in closed form *)

(** The schedule of a loop that started at [start] and last looked at [now]. *)
Definition schedule_at (start now : Z) : Schedule :=
  {| next_sweep := start + ((now - start) / SWEEP_EVERY + 1) * SWEEP_EVERY;
     next_retention := start + ((now - start) / RETENTION_EVERY + 1) * RETENTION_EVERY |}.

(** The jobs whose period changed between two instants. *)
Definition jobs_between (start prev now : Z) : list Job :=
  (if (prev - start) / SWEEP_EVERY <? (now - start) / SWEEP_EVERY then [Sweep] else []) ++
  (if (prev - start) / RETENTION_EVERY <? (now - start) / RETENTION_EVERY then [Retention] else []).

(** The loop of [due], in closed form. *)
Lemma advance_periodic start every prev now :
  0 < every -> start <= prev -> prev <= now ->
  let next := start + ((prev - start) / every + 1) * every in
  ((prev - start) / every <? (now - start) / every) = (next <=? now) /\
  (if next <=? now then advance_past (rounds next every now) next every now else next) =
    start + ((now - start) / every + 1) * every.
Proof.
  intros He Hs Hp. cbv zeta. set (i := (prev - start) / every). set (j := (now - start) / every).
  assert (Hj : start + j * every <= now < start + (j + 1) * every).
  { pose proof (Z.mul_div_le (now - start) every He). pose proof (Z.mul_succ_div_gt (now - start) every He). unfold j. lia. }
  assert (Hij : i <= j) by (apply Z.div_le_mono; lia).
  destruct (Z.leb_spec (start + (i + 1) * every) now) as [Hle|Hgt].
  - split; [apply Z.ltb_lt; nia|].
    destruct (advance_past_spec (rounds (start + (i + 1) * every) every now) _ every now He (rounds_enough _ _ _ He Hle))
      as (k & Hk & -> & H1 & H2 & _). specialize (H2 Hle). assert (i + 1 + k = j + 1) by nia. nia.
  - split; [apply Z.ltb_ge; nia|]. assert (i = j) by nia. nia.
Qed.

Lemma due_jobs_periodic start prev now :
  start <= prev -> prev <= now -> due_jobs (schedule_at start prev) now = (jobs_between start prev now, schedule_at start now).
Proof.
  intros Hs Hp. unfold due_jobs, jobs_between, schedule_at. cbn [next_sweep next_retention].
  destruct (advance_periodic start SWEEP_EVERY prev now ltac:(done) Hs Hp) as [-> Ha].
  destruct (advance_periodic start RETENTION_EVERY prev now ltac:(done) Hs Hp) as [-> Hb].
  rewrite <- Ha, <- Hb. by repeat destruct (_ <=? now).
Qed.

(** ** Once a period *)

Definition every (j : Job) : Z := match j with Sweep => SWEEP_EVERY | Retention => RETENTION_EVERY end.

#[global] Instance Job_eq_dec : EqDecision Job.
Proof. solve_decision. Defined.

(** The period of a job that an instant is in. *)
Definition period (start t : Z) (j : Job) : Z := (t - start) / every j.

(** A job with its period. *)
Definition slot (start : Z) (x : Z * Job) : Job * Z := (x.2, period start x.1 x.2).

(** What ran and what is about to. *)
Definition pending (p : LoopPhase) : list (Z * Job) :=
  match p with Looping t jobs => map (pair t) jobs | _ => [] end.

Definition slots (start : Z) (l : Loop) : list (Job * Z) := map (slot start) (ran_jobs l ++ pending (loop_phase l)).

Record LoopInv (start last : Z) (l : Loop) : Prop := {
  li_start : start <= last;
  li_schedule : schedule l = schedule_at start last;
  li_wake : forall wake, loop_phase l = Asleep wake -> wake = next_wake (schedule l);
  li_once : NoDup (slots start l);
  li_past : Forall (fun x => x.2 <= period start last x.1) (slots start l);
  li_served : loop_phase l <> LoopEnded -> forall j,
    (j, period start last j) ∈ slots start l \/ (j = Sweep /\ period start last j = 0) }.

Lemma every_pos j : 0 < every j.
Proof. by destruct j. Qed.

Lemma period_mono start t t' j : t <= t' -> period start t j <= period start t' j.
Proof. intros Ht. unfold period. apply Z.div_le_mono; [apply every_pos|lia]. Qed.

Lemma elem_of_jobs_between start prev now j :
  j ∈ jobs_between start prev now <-> period start prev j < period start now j.
Proof.
  unfold jobs_between, period. destruct j; cbn [every];
    destruct (Z.ltb_spec ((prev - start) / SWEEP_EVERY) ((now - start) / SWEEP_EVERY)),
      (Z.ltb_spec ((prev - start) / RETENTION_EVERY) ((now - start) / RETENTION_EVERY)); cbn; set_solver by lia.
Qed.

Lemma NoDup_jobs_between start prev now : NoDup (jobs_between start prev now).
Proof.
  unfold jobs_between. repeat destruct (_ <? _); cbn; repeat constructor; set_solver.
Qed.

(** One more iteration of a loop that was asleep. *)
Lemma inv_iterate start last now l wake :
  LoopInv start last l -> loop_phase l = Asleep wake -> last <= now -> LoopInv start now (iterate now l).
Proof.
  intros [Hs Hsch _ Hn Hp Hv] Hph Hle. unfold iterate. rewrite Hsch, due_jobs_periodic by done.
  assert (Hsl : forall jobs, map (slot start) (ran_jobs l ++ map (pair now) jobs) =
    slots start l ++ map (fun j => (j, period start now j)) jobs).
  { intros jobs. unfold slots. rewrite Hph. cbn [pending]. rewrite app_nil_r, map_app, map_map. done. }
  split; cbn; [lia|done|done|..]; unfold slots; cbn [ran_jobs loop_phase pending]; rewrite Hsl.
  - apply NoDup_app. split_and!; [done| |].
    + intros [j k] Hj Hin. rewrite Forall_forall in Hp. specialize (Hp _ Hj). cbn in Hp.
      apply list_elem_of_fmap in Hin as (j' & [= <- ->] & Hj'). apply elem_of_jobs_between in Hj'. lia.
    + apply NoDup_fmap_2_strong; [|apply NoDup_jobs_between]. by intros j j' _ _ [= ->].
  - apply Forall_app. split.
    + eapply Forall_impl; [exact Hp|]. intros [j k] Hk. cbn in *. etrans; [exact Hk|by apply period_mono].
    + apply Forall_forall. intros x Hx. apply list_elem_of_fmap in Hx as (j & -> & _). done.
  - intros _ j. destruct (Z.lt_ge_cases (period start last j) (period start now j)) as [Hlt|Hge].
    + left. apply elem_of_app. right. apply list_elem_of_fmap. exists j. split; [done|]. by apply elem_of_jobs_between.
    + assert (Heq : period start now j = period start last j) by (pose proof (period_mono start last now j Hle); lia).
      rewrite Heq. destruct (Hv ltac:(by rewrite Hph) j) as [|]; [left; apply elem_of_app; by left|by right].
Qed.

Lemma first_jobs start now :
  start <= now ->
  due_jobs (schedule_new start) now =
    ((if 0 <? period start now Sweep then [Sweep] else []) ++ [Retention], schedule_at start now).
Proof.
  intros Hs. unfold due_jobs, schedule_new, schedule_at, period. cbn [next_sweep next_retention every].
  destruct (advance_periodic start SWEEP_EVERY start now ltac:(done) ltac:(lia) Hs) as [Hd Ha].
  rewrite Z.sub_diag, Z.div_0_l, Z.add_0_l, Z.mul_1_l in Hd, Ha by done. rewrite Hd, <- Ha.
  destruct (Z.leb_spec start now); [|lia].
  destruct (advance_past_spec (rounds start RETENTION_EVERY now) start RETENTION_EVERY now ltac:(done)
    (rounds_enough start RETENTION_EVERY now ltac:(done) Hs)) as (k & Hk & -> & H1 & H2 & _). specialize (H2 Hs).
  assert (Hk' : k = (now - start) / RETENTION_EVERY + 1).
  { pose proof (Z.mul_div_le (now - start) RETENTION_EVERY ltac:(done)).
    pose proof (Z.mul_succ_div_gt (now - start) RETENTION_EVERY ltac:(done)). unfold RETENTION_EVERY in *. nia. }
  rewrite Hk'. by destruct (_ <=? now).
Qed.

Lemma inv_loop_start start now : start <= now -> LoopInv start now (loop_start start now).
Proof.
  intros Hs. unfold loop_start, iterate. cbn [schedule ran_jobs]. rewrite first_jobs by done.
  assert (H0 : forall j, 0 <= period start now j) by (intros j; apply Z.div_pos; [lia|apply every_pos]).
  split; cbn; [done|done|done|..]; unfold slots; cbn [ran_jobs loop_phase pending app].
  - destruct (Z.ltb_spec 0 (period start now Sweep)); cbn; repeat constructor; set_solver.
  - destruct (Z.ltb_spec 0 (period start now Sweep)); cbn; repeat constructor; cbn; lia.
  - intros _ j. specialize (H0 Sweep). destruct (Z.ltb_spec 0 (period start now Sweep)), j; cbn;
      [left; by left|left; right; by left|right; split; [done|lia]|left; by left].
Qed.

Lemma wake_later start last : start <= last -> last < next_wake (schedule_at start last).
Proof.
  intros Hs. unfold next_wake, schedule_at. cbn [next_sweep next_retention].
  pose proof (Z.mul_succ_div_gt (last - start) SWEEP_EVERY ltac:(done)).
  pose proof (Z.mul_succ_div_gt (last - start) RETENTION_EVERY ltac:(done)). lia.
Qed.

Lemma inv_loop_step start last l e : LoopInv start last l -> exists last', LoopInv start last' (loop_step l e).
Proof.
  intros HI. assert (HI0 := HI). destruct HI0 as [Hs Hsch Hw Hn Hp Hv]. unfold loop_step, slots in *.
  destruct (loop_phase l) as [t [|j jobs]|wake|] eqn:E; [|destruct e..].
  - exists last. split; cbn; try done; [by intros w [= <-]|]. intros _. by apply Hv.
  - assert (Hsl : slots start {| schedule := schedule l; loop_phase := Looping t jobs; ran_jobs := ran_jobs l ++ [(t, j)] |} =
      map (slot start) (ran_jobs l ++ map (pair t) (j :: jobs))).
    { unfold slots. cbn [loop_phase ran_jobs pending]. by rewrite <- app_assoc. }
    exists last. destruct j; (split; rewrite ?Hsl; try done; intros _; by apply Hv).
  - destruct j; [by exists last|]. exists last. split; cbn; try done; unfold slots; cbn; rewrite app_nil_r;
      rewrite map_app in Hn, Hp; [by apply NoDup_app in Hn as [? _]|by apply Forall_app in Hp as [? _]].
  - destruct j; by exists last.
  - by exists last.
  - exists last. split; cbn; done.
  - specialize (Hw wake eq_refl). destruct (Z.leb_spec wake now) as [Hle|]; [|by exists last].
    exists now. eapply inv_iterate; [done|done|]. pose proof (wake_later start last Hs). rewrite Hw, Hsch in Hle. lia.
  - by exists last.
  - by exists last.
  - by exists last.
Qed.

Lemma inv_loop_run start last l es : LoopInv start last l -> exists last', LoopInv start last' (loop_run l es).
Proof.
  revert last l. induction es as [|e es IH]; intros last l HI; [by exists last|].
  destruct (inv_loop_step start last l e HI) as [last' HI']. by apply (IH last').
Qed.

(** C30: every job runs once a period. However late the loop wakes and however long jobs take, no
    job runs twice for one period since the start; and whenever the loop sleeps, each has
    run for the period of its last look at the clock (the sweep from the second minute
    on), and the sleep ends with that period of the sweep or of retention at the latest. *)
Theorem jobs_run_once_a_period (start now : Z) (es : list LoopEvent) :
  start <= now ->
  let l := loop_run (loop_start start now) es in
  NoDup (map (slot start) (ran_jobs l)) /\
  forall wake, loop_phase l = Asleep wake -> exists last, start <= last < wake /\
    (forall j, wake <= start + (period start last j + 1) * every j) /\
    (Retention, period start last Retention) ∈ map (slot start) (ran_jobs l) /\
    (0 < period start last Sweep -> (Sweep, period start last Sweep) ∈ map (slot start) (ran_jobs l)).
Proof.
  intros Hs l. destruct (inv_loop_run start now _ es (inv_loop_start start now Hs)) as [last [Hle Hsch Hw Hn _ Hv]].
  fold l in Hsch, Hw, Hn, Hv. unfold slots in *. split; [rewrite map_app in Hn; by apply NoDup_app in Hn as [? _]|].
  intros wake Hph. rewrite Hph in Hv, Hn. cbn [pending] in Hv. rewrite app_nil_r in Hv. specialize (Hv ltac:(done)).
  exists last. rewrite (Hw wake Hph), Hsch. split; [split; [done|by apply wake_later]|]. split_and!.
  - intros j. unfold next_wake, schedule_at, period. cbn. destruct j; cbn; lia.
  - destruct (Hv Retention) as [|[? _]]; done.
  - intros H0. destruct (Hv Sweep) as [|[_ H1]]; [done|lia].
Qed.

(** ** On a concrete run *)

(** An hour and a half, with the loop kept busy past a sweep. *)
Definition some_hours : list LoopEvent :=
  [JobDone; Stop; Wakes (SWEEP_EVERY + 5); JobDone; JobDone; Wakes (3 * SWEEP_EVERY + 1); JobDone; JobDone;
   Wakes (90 * SWEEP_EVERY); JobDone; JobDone; JobDone].

Lemma jobs_run_once_a_period_witness :
  ran_jobs (loop_run (loop_start 0 0) some_hours) =
    [(0, Retention); (SWEEP_EVERY + 5, Sweep); (3 * SWEEP_EVERY + 1, Sweep);
     (90 * SWEEP_EVERY, Sweep); (90 * SWEEP_EVERY, Retention)] /\
  NoDup (map (slot 0) (ran_jobs (loop_run (loop_start 0 0) some_hours))).
Proof. split; [vm_compute; reflexivity|]. apply (jobs_run_once_a_period 0 0 some_hours). lia. Defined.
