(* ===== verification/Watcher.v ===== *)
(** * The host map and its watcher (src/src/routing/hosts.rs)

    [watch] beside the commits of other connections and the handlers' [refresh]. A check
    reads SQLite's [data_version], which every commit of another connection changes, and
    rebuilds the map when it is new; commits may come between the two statements, but the
    watcher connection's mutex keeps [refresh] out. *)

From stdpp Require Import relations.
From S2P Require Import Prelude Str Keys Config Urls Text Http Db Auth Credentials Hosts Projects Samples.

(** The database with its commits counted, the shared map, the version [watch] saw last, and
    the version read by a check in progress. *)
Record Watch := { h_db : Db; h_version : Z; h_map : HostMap; h_seen : option Z; h_reading : option Z }.

(** [ok] says whether the statement succeeds. *)
Inductive Event :=
| Commit (d : Db)
| CheckVersion (ok : bool)
| Rebuild (ok : bool)
| Refresh (ok : bool).

Section Watch.
Context (base_url : BaseUrl).

Definition with_map (m : HostMap) (s : Watch) : Watch :=
  {| h_db := h_db s; h_version := h_version s; h_map := m; h_seen := h_seen s; h_reading := h_reading s |}.

(** [PRAGMA data_version] on the watcher; a failure ends the check. *)
Definition check_version (ok : bool) (s : Watch) : Watch :=
  match h_reading s with
  | None => {| h_db := h_db s; h_version := h_version s; h_map := h_map s; h_seen := h_seen s;
               h_reading := if ok then Some (h_version s) else None |}
  | Some _ => s
  end.

(** The rest of a check: only a successful one moves on. *)
Definition rebuild (ok : bool) (s : Watch) : Watch :=
  match h_reading s with
  | None => s
  | Some v =>
      let stays := {| h_db := h_db s; h_version := h_version s; h_map := h_map s; h_seen := h_seen s; h_reading := None |} in
      if bool_decide (h_seen s = Some v) then stays
      else if ok then
        {| h_db := h_db s; h_version := h_version s; h_map := load base_url (h_db s); h_seen := Some v; h_reading := None |}
      else stays
  end.

(** [refresh], once it has the mutex. *)
Definition refresh_map (ok : bool) (s : Watch) : Watch :=
  match h_reading s with
  | None => if ok then with_map (load base_url (h_db s)) s else s
  | Some _ => s
  end.

Definition wstep (s : Watch) (e : Event) : Watch :=
  match e with
  | Commit d => {| h_db := d; h_version := h_version s + 1; h_map := h_map s; h_seen := h_seen s; h_reading := h_reading s |}
  | CheckVersion ok => check_version ok s
  | Rebuild ok => rebuild ok s
  | Refresh ok => refresh_map ok s
  end.

Definition wrun (s : Watch) (l : list Event) : Watch := fold_left wstep l s.

(** The watcher starts without having seen a version, over any map. *)
Definition watch_new (d : Db) (version : Z) (m : HostMap) : Watch :=
  {| h_db := d; h_version := version; h_map := m; h_seen := None; h_reading := None |}.

(** ** The invariant *)

Record Inv (s : Watch) : Prop := {
  inv_seen : forall v, h_seen s = Some v -> v <= h_version s;
  inv_reading : forall v, h_reading s = Some v -> v <= h_version s;
  inv_map : h_seen s = Some (h_version s) -> h_map s = load base_url (h_db s) }.

Lemma watch_inv_wstep s e : Inv s -> Inv (wstep s e).
Proof.
  intros HI. assert (HI0 := HI). destruct HI0 as [Hs Hr Hm]. destruct e as [d|ok|ok|ok]; cbn.
  - constructor; cbn; [intros v Hv; specialize (Hs v Hv); lia|intros v Hv; specialize (Hr v Hv); lia|].
    intros Hv. specialize (Hs _ Hv). lia.
  - unfold check_version. destruct (h_reading s) eqn:E; [done|]. constructor; cbn; [done| |done].
    destruct ok; [|done]. intros v [= <-]. lia.
  - unfold rebuild. destruct (h_reading s) as [v|] eqn:E; [|done]. cbv zeta.
    case_bool_decide; [by constructor|]. destruct ok; [|by constructor]. constructor; cbn; [|done|done].
    intros v' [= <-]. by apply Hr.
  - unfold refresh_map. destruct (h_reading s) eqn:E; [done|]. destruct ok; [|done]. by constructor; cbn; rewrite ?E.
Qed.

Lemma watch_inv_wrun s l : Inv s -> Inv (wrun s l).
Proof. revert s. induction l as [|e l IH]; intros s HI; [done|]. by apply IH, watch_inv_wstep. Qed.

Lemma watch_inv_new d v m : Inv (watch_new d v m).
Proof. by constructor. Qed.

(** ** Catching up *)

Definition is_commit (e : Event) : Prop := match e with Commit _ => True | _ => False end.

(** Without a commit the database stays, and a current map stays current. *)
Lemma quiet_step s e :
  ~ is_commit e -> h_map s = load base_url (h_db s) ->
  h_map (wstep s e) = load base_url (h_db (wstep s e)) /\ h_db (wstep s e) = h_db s.
Proof.
  intros He Hm. destruct e as [d|ok|ok|ok]; cbn in *; [tauto| | |].
  - unfold check_version. by destruct (h_reading s).
  - unfold rebuild. destruct (h_reading s); [|done]. cbv zeta. case_bool_decide; [done|]. by destruct ok.
  - unfold refresh_map. destruct (h_reading s); [done|]. by destruct ok.
Qed.

Lemma quiet_run s l :
  Forall (fun e => ~ is_commit e) l -> h_map s = load base_url (h_db s) ->
  h_map (wrun s l) = load base_url (h_db s) /\ h_db (wrun s l) = h_db s.
Proof.
  revert s. induction l as [|e l IH]; intros s Hl Hm; [done|]. apply Forall_cons in Hl as [He Hl].
  destruct (quiet_step s e He Hm) as [Hm' Hd]. cbn [wrun fold_left]. destruct (IH _ Hl Hm') as [H1 H2].
  unfold wrun in *. by rewrite H1, H2, Hd.
Qed.

(** C29: the host map catches up. Whatever commits, checks, failures and refreshes went before,
    one successful check or refresh after the last commit makes the map the one of the
    database, and it stays so until the next commit. *)
Theorem host_map_catches_up (d : Db) (v : Z) (m : HostMap) (before after : list Event) (by_check : bool) :
  h_reading (wrun (watch_new d v m) before) = None -> Forall (fun e => ~ is_commit e) after ->
  let s := wrun (watch_new d v m) before in
  let s' := wrun s ((if by_check then [CheckVersion true; Rebuild true] else [Refresh true]) ++ after) in
  h_db s' = h_db s /\ h_map s' = load base_url (h_db s).
Proof.
  intros Hr Ha s s'. assert (HI : Inv s) by apply watch_inv_wrun, watch_inv_new. fold s in Hr.
  set (s1 := wrun s (if by_check then [CheckVersion true; Rebuild true] else [Refresh true])).
  assert (Hs1 : h_db s1 = h_db s /\ h_map s1 = load base_url (h_db s)).
  { unfold s1. destruct by_check; cbn; unfold check_version, refresh_map; rewrite Hr; [|done]. unfold rebuild. cbn.
    case_bool_decide as Hv; [|done]. split; [done|]. by apply (inv_map s HI). }
  destruct Hs1 as [Hd Hm]. destruct (quiet_run s1 after Ha) as [Hm' Hd']; [by rewrite Hm, Hd|].
  unfold s'. unfold wrun. rewrite fold_left_app. fold (wrun s (if by_check then [CheckVersion true; Rebuild true] else [Refresh true])).
  fold s1. fold (wrun s1 after). by rewrite Hd', Hm', Hd.
Qed.

(** A check without a commit in between is [watch_tick]. *)
Lemma check_is_watch_tick {E} `{FromSql E} s t :
  h_reading s = None ->
  let s' := wrun s [CheckVersion true; Rebuild true] in
  (watch_tick (E := E) base_url (h_version s) (h_seen s) (h_map s) (quiet (h_db s) t)).1 = (h_seen s', h_map s').
Proof.
  intros Hr s'. unfold s'. cbn. unfold check_version. rewrite Hr. unfold rebuild. cbn. unfold watch_tick, read. cbn.
  unfold mbind, Tx_bind, query, stmt. cbn. case_bool_decide as Hv; case_bool_decide as Hv'; cbn; try done. by rewrite Hv.
Qed.
End Watch.

(** ** On a concrete run *)

(** Another process adds a project between a check's two statements, and again later. *)
Definition site (i : Z) (slug h : str) : Project :=
  {| p_id := i; p_slug := slug; p_settings := settings_new slug (Some h); p_created_at := t0 |}.

Definition one_site : Db := set_projects (fun _ => [site 1 (lit "one") (lit "one.example")]) 1 empty_db.
Definition two_sites : Db :=
  set_projects (fun _ => [site 1 (lit "one") (lit "one.example"); site 2 (lit "two") (lit "two.example")]) 2 empty_db.

Definition busy_run : list Event :=
  [CheckVersion true; Commit one_site; Rebuild true; Refresh false; CheckVersion false; Commit two_sites].

Lemma host_map_catches_up_witness :
  h_map (wrun (app_base_url the_app) (watch_new empty_db 7 (load (app_base_url the_app) empty_db))
    (busy_run ++ [CheckVersion true; Rebuild true; Refresh false])) = load (app_base_url the_app) two_sites.
Proof.
  exact (proj2 (host_map_catches_up (app_base_url the_app) empty_db 7 (load (app_base_url the_app) empty_db) busy_run
    [Refresh false] true eq_refl ltac:(repeat constructor; tauto))).
Defined.
