(* ===== verification/Smtp.v ===== *)
(** * Sending mail (src/src/mail/smtp.rs, src/src/mail/mod.rs, src/src/mail/outbox.rs)

    The message that is built, the SMTP transport it goes over, the classes of failure, and
    one delivery attempt of the worker. lettre's parsers, TLS and connections are
    parameters; what the program asks of them is a record of its settings. *)

From S2P Require Import Prelude Str Keys Config Text Db Outbox Demo.

(** ** What lettre is told *)

Inductive TlsVersion := Tlsv10 | Tlsv12 | Tlsv13.

Inductive CertificateStore := WebpkiRoots | NoStore | SystemStore.

Record TlsParameters := {
  tls_domain : str; tls_min : TlsVersion; tls_store : CertificateStore; tls_roots : list bytes }.

(** [lettre::transport::smtp::client::Tls]. *)
Inductive Tls := NoTls | Opportunistic (p : TlsParameters) | RequiredTls (p : TlsParameters) | Wrapper (p : TlsParameters).

Record Transport := {
  tr_host : str; tr_port : Z; tr_tls : Tls; tr_credentials : str * str; tr_hello : str; tr_timeout : option Z }.

(** lettre's answers: whether a PEM text is a certificate, TLS settings can be built, a relay
    name is usable, and a body can be encoded. *)
Class Lettre := {
  pem_ok : bytes -> bool;
  rustls_ok : TlsParameters -> bool;
  relay_ok : str -> bool;
  body_ok : str -> bool }.

(** ** The transport *)

(** In seconds. *)
Definition COMMAND_TIMEOUT : Z := 60.

Inductive Roots := Compiled | Extra (ca_pem : bytes).

(** [SmtpMailer::new]. *)
Definition smtp_mailer_new `{Lettre} (config : SmtpConfig) (ehlo : str) (roots : Roots) : result unit Transport :=
  let host := smtp_host config in
  let builder := {| tls_domain := host; tls_min := Tlsv12; tls_store := WebpkiRoots; tls_roots := [] |} in
  parameters ← (match roots with
                | Compiled => Ok builder
                | Extra pem =>
                    if pem_ok pem
                    then Ok {| tls_domain := host; tls_min := Tlsv12; tls_store := NoStore; tls_roots := [pem] |}
                    else Err tt
                end);
  if negb (rustls_ok parameters) then Err tt
  else
    let tls := match smtp_tls config with Implicit => Wrapper parameters | Starttls => RequiredTls parameters end in
    if negb (relay_ok host) then Err tt
    else Ok {| tr_host := host; tr_port := smtp_port config; tr_tls := tls;
               tr_credentials := (smtp_username config, smtp_password config);
               tr_hello := ehlo; tr_timeout := Some COMMAND_TIMEOUT |}.

(** ** Messages *)

Definition TEXT_PLAIN : str := lit "text/plain; charset=utf-8".

Record Message := { msg_from : str; msg_to : list str; msg_subject : str; msg_type : str; msg_body : str }.

(** [build_message]. *)
Definition build_message `{Crates} `{Lettre} (sender to subject_text body : str) : option Message :=
  if lettre_address sender then
    if lettre_address to then
      then_some (body_ok body)
        {| msg_from := sender; msg_to := [to]; msg_subject := subject subject_text;
           msg_type := TEXT_PLAIN; msg_body := body |}
    else None
  else None.

(** ** Failures *)

(** A lettre SMTP error: its reply code and its kinds. *)
Record SmtpError := {
  e_status : option Z; e_timeout : bool; e_tls : bool; e_permanent : bool; e_transient : bool;
  e_client : bool; e_response : bool }.

Definition is_auth_code (code : option Z) : bool :=
  match code with
  | Some c => (c =? 530) || (c =? 534) || (c =? 535) || (c =? 538)
  | None => false
  end.

(** [classify]. *)
Definition classify (e : SmtpError) : Failure :=
  let code := e_status e in
  let cl :=
    if e_timeout e then Timeout
    else if e_tls e then Outbox.Tls
    else if is_auth_code code then Authentication
    else if e_permanent e then Rejected
    else if e_transient e then Temporary
    else if e_client e || e_response e then Protocol
    else Connection in
  {| class := cl; code := code |}.

(** [FailureClass::name]. *)
Definition class_name (c : FailureClass) : str :=
  match c with
  | Connection => lit "connection"
  | Outbox.Tls => lit "tls"
  | Protocol => lit "protocol"
  | Authentication => lit "authentication"
  | Rejected => lit "rejected"
  | Temporary => lit "temporary"
  | Timeout => lit "timeout"
  | Build => lit "build"
  | Panic => lit "panic"
  end.

(** ** One attempt *)

(** What became of sending a message over the transport. *)
Inductive Sending := Accepted | Refused (e : SmtpError) | SendPanics | SendStalls.

(** [SmtpMailer::send] in the attempt's task, under the attempt's timeout. *)
Definition task_end (s : Sending) : TaskEnd :=
  match s with
  | Accepted => Finished (Ok tt)
  | Refused e => Finished (Err (classify e))
  | SendPanics => Panicked
  | SendStalls => TimedOut
  end.

(** [Worker::attempt] up to recording: the outcome, and the message handed to the transport. *)
Definition attempt `{Crates} `{Lettre} (sender : str) (network : Message -> Sending) (row : DueRow)
  : Outcome * option Message :=
  match build_message sender (due_address row) (due_subject row) (due_body row) with
  | None => (attempt_outcome false (Finished (Err {| class := Build; code := None |})), None)
  | Some m => (attempt_outcome true (task_end (network m)), Some m)
  end.

(** ** Theorems *)

Section Mail.
Context `{Crates} `{Lettre}.

(** Mail goes out over verified TLS only. Whatever the configuration, a transport is TLS
    from the first byte or requires STARTTLS, of version 1.2 at least, for the configured
    host's own name, and trusts the compiled public roots or, with a test authority,
    nothing but that; every command has a time limit. *)
Theorem mail_needs_verified_tls (config : SmtpConfig) (ehlo : str) (roots : Roots) (t : Transport) :
  smtp_mailer_new config ehlo roots = Ok t ->
  exists p, tr_tls t = (match smtp_tls config with Implicit => Wrapper p | Starttls => RequiredTls p end) /\
    tls_domain p = smtp_host config /\ tr_host t = smtp_host config /\ tls_min p = Tlsv12 /\
    match roots with
    | Compiled => tls_store p = WebpkiRoots /\ tls_roots p = []
    | Extra pem => tls_store p = NoStore /\ tls_roots p = [pem]
    end /\
    tr_port t = smtp_port config /\ tr_hello t = ehlo /\ tr_timeout t = Some COMMAND_TIMEOUT /\
    tr_credentials t = (smtp_username config, smtp_password config).
Proof.
  unfold smtp_mailer_new. destruct roots as [|pem]; cbn.
  - destruct (rustls_ok _); cbn; [|done]. destruct (relay_ok _); cbn; [|done]. intros [= <-].
    eexists. split; [by destruct (smtp_tls config)|done].
  - destruct (pem_ok pem); cbn; [|done]. destruct (rustls_ok _); cbn; [|done]. destruct (relay_ok _); cbn; [|done].
    intros [= <-]. eexists. split; [by destruct (smtp_tls config)|done].
Qed.

(** An attempt sends what its row says, to nobody else. The message has the sender, the
    row's address alone, the row's body, and a subject that can break no header line; it
    counts as sent exactly when the server accepted it; a reply code in the outcome is the
    server's; and without a message nothing is sent. *)
Theorem attempt_sends_the_row (sender : str) (network : Message -> Sending) (row : DueRow) (o : Outcome) (sent : option Message) :
  attempt sender network row = (o, sent) ->
  match sent with
  | None => o = Failed {| class := Build; code := None |}
  | Some m =>
      msg_from m = sender /\ msg_to m = [due_address row] /\ msg_body m = due_body row /\
      Forall (fun c => is_line_break_or_control c = false) (msg_subject m) /\
      (o = Sent <-> network m = Accepted) /\
      (forall f, o = Failed f -> code f = None \/ exists e, network m = Refused e /\ code f = e_status e)
  end.
Proof.
  unfold attempt, build_message. destruct (lettre_address sender); [|by intros [= <- <-]].
  destruct (lettre_address (due_address row)); [|by intros [= <- <-]].
  destruct (body_ok (due_body row)); cbn [then_some]; [|by intros [= <- <-]]. intros [= <- <-].
  split_and!; try done; [apply subject_clean| |]; destruct (network _); cbn; try done.
  - intros f [= <-]. right. by eexists.
  - intros f [= <-]. by left.
  - intros f [= <-]. by left.
Qed.

(** Every address that may be queued can be built for. *)
Lemma queued_mail_can_be_built (sender to subject_text body : str) :
  validate_recipient to = Ok tt -> lettre_address sender = true -> body_ok body = true ->
  is_Some (build_message sender to subject_text body).
Proof.
  unfold validate_recipient, build_message. cbv zeta. intros Hv -> ->.
  destruct (_ && lettre_address to) eqn:E; [|done]. apply andb_true_iff in E as [_ ->]. by eexists.
Qed.

(** Where replies 4xx are transient and 5xx permanent, the class of a reply is read off its
    code, the four authentication codes apart. *)
Lemma classify_reply (e : SmtpError) (c : Z) :
  e_status e = Some c -> e_timeout e = false -> e_tls e = false ->
  e_permanent e = bool_decide (500 <= c < 600) -> e_transient e = bool_decide (400 <= c < 500) ->
  (class (classify e) = Authentication <-> c ∈ [530; 534; 535; 538]) /\
  (class (classify e) = Rejected <-> 500 <= c < 600 /\ c ∉ [530; 534; 535; 538]) /\
  (class (classify e) = Temporary <-> 400 <= c < 500).
Proof.
  intros Hs Ht Htls Hp Hr. unfold classify. rewrite Hs, Ht, Htls, Hp, Hr. cbn [class].
  assert (Ha : is_auth_code (Some c) = true <-> c ∈ [530; 534; 535; 538]).
  { cbn. rewrite !orb_true_iff, !Z.eqb_eq, !elem_of_cons, elem_of_nil. tauto. }
  destruct (is_auth_code (Some c)).
  - assert (Hc : c ∈ [530; 534; 535; 538]) by (by apply Ha). split_and!; split; try done; try tauto.
    rewrite !elem_of_cons, elem_of_nil in Hc. lia.
  - assert (Hc : c ∉ [530; 534; 535; 538]) by (intros Hc; by apply Ha in Hc).
    repeat case_bool_decide; cbn; try destruct (e_client e || e_response e); split_and!; split; intros; try done; try tauto; try lia.
Qed.
End Mail.

(** ** On a concrete configuration *)

#[local] Instance lenient : Lettre :=
  {| pem_ok := fun _ => true; rustls_ok := fun _ => true; relay_ok := fun _ => true; body_ok := fun _ => true |}.

Definition the_smtp : SmtpConfig :=
  {| smtp_host := lit "mail.example.net"; smtp_port := 587; smtp_tls := Starttls;
     smtp_username := lit "kohaku"; smtp_password := lit "secret" |}.

Lemma mail_needs_verified_tls_witness :
  exists t p, smtp_mailer_new the_smtp (lit "kohaku.example") Compiled = Ok t /\ tr_tls t = RequiredTls p /\
    tls_domain p = lit "mail.example.net" /\ tls_store p = WebpkiRoots.
Proof.
  assert (Hn : exists t, smtp_mailer_new the_smtp (lit "kohaku.example") Compiled = Ok t) by (eexists; vm_compute; reflexivity).
  destruct Hn as [t Hn]. exists t. destruct (mail_needs_verified_tls the_smtp (lit "kohaku.example") Compiled t Hn)
    as (p & Htls & Hd & _ & _ & Hst & _). exists p. split; [exact Hn|]. split; [exact Htls|]. split; [exact Hd|apply Hst].
Defined.

(** The server wants another sign-in. *)
Definition refusing (m : Message) : Sending :=
  Refused {| e_status := Some 535; e_timeout := false; e_tls := false; e_permanent := true; e_transient := false;
             e_client := false; e_response := true |}.

Definition a_row : DueRow :=
  {| due_id := 1; due_kind := lit "account_lockout"; due_address := lit "m@example.net";
     due_subject := lit "Locked"; due_body := lit "b"; due_priority := Security; due_attempts := 0 |}.

Lemma attempt_sends_the_row_witness :
  exists m, attempt (lit "k@kohaku.example") refusing a_row =
      (Failed {| class := Authentication; code := Some 535 |}, Some m) /\ msg_to m = [lit "m@example.net"].
Proof.
  eexists. split; [vm_compute; reflexivity|].
  refine (proj1 (proj2 (attempt_sends_the_row (lit "k@kohaku.example") refusing a_row _ (Some _) _))).
  vm_compute. reflexivity.
Defined.
